(** * A shallow embedding of the reactive kernel (src/reactive)

    The kernel is a TypeScript class hierarchy that mutates a graph of
    [Variable] and [Computation] objects.  Objects are shared by reference
    (a variable is reachable from the id tables, from its producer's
    [outputs] map and from its consumers' [runtimeInputs] sets), so the
    embedding keeps them in heaps indexed by references and threads one
    [Kernel] state through every operation.

    Conventions:
    - JS numbers that hold counters and logical timestamps are [Z];
    - a JS [Set] is a duplicate-free list in insertion order, a JS [Map]
      whose iteration order is used is an association list;
    - a thrown JS value is an [Exn]; operations that can throw return an
      [Outcome] that keeps the state reached when the exception left;
    - observer callbacks are host functions: the model records each call in
      [k_calls] and lets a callback throw, it does not let a callback re-enter
      the kernel;
    - the kernel runs with its default options ([assertInvariants] off);
      trace/debug logging is erased, error-level logging is kept in [k_log];
    - recursive propagation carries a fuel argument; [None] / [OutOfFuel]
      never stands for a behaviour of the code. *)

From Stdlib Require Import ZArith Lia Bool List.
From stdpp Require Import base option list gmap strings fin_maps.

Set Warnings "-register-all".
Open Scope string_scope.
Open Scope list_scope.
Open Scope Z_scope.

(** ** Values and results (types.ts, utils.ts, errors.ts) *)

(** User values: plain data.  The kernel applies nothing but [===] to a
    number, so [VNum n] stands for a number other than NaN (numbers that are
    [===] share their [n]) and [VNaN] for NaN.  An array or a plain object
    carries the reference [ref] of the JS object it is, which is what [===]
    compares; the fields of an object are its own enumerable properties, in
    the order of [Object.keys]. *)
Inductive Value :=
| VUndefined
| VNull
| VBool (b : bool)
| VNum (n : Z)
| VNaN
| VStr (s : string)
| VArr (ref : nat) (items : list Value)
| VObj (ref : nat) (fields : list (string * Value)).

Fixpoint assoc {A} (key : string) (l : list (string * A)) : option A :=
  match l with
  | [] => None
  | (k', a) :: rest => if String.eqb key k' then Some a else assoc key rest
  end.

(** [a === b] *)
Definition strictEqual (a b : Value) : bool :=
  match a, b with
  | VUndefined, VUndefined => true
  | VNull, VNull => true
  | VBool x, VBool y => Bool.eqb x y
  | VNum x, VNum y => (x =? y)%Z
  | VStr x, VStr y => String.eqb x y
  | VArr r _, VArr r' _ => Nat.eqb r r'
  | VObj r _, VObj r' _ => Nat.eqb r r'
  | _, _ => false
  end.

(** [a.constructor !== b.constructor] for two plain objects: [constructor]
    is the own property of that name when the object has one, and [Object],
    inherited, when it has none. *)
Definition constructorDiffers (fa fb : list (string * Value)) : bool :=
  match assoc "constructor" fa, assoc "constructor" fb with
  | None, None => false
  | Some x, Some y => negb (strictEqual x y)
  | _, _ => true
  end.

(** utils.ts, [deepEqual].  An array and a plain object never have the same
    constructor, which is the last case. *)
Fixpoint deepEqual (a b : Value) {struct a} : bool :=
  strictEqual a b ||
  match a, b with
  | VArr _ xs, VArr _ ys =>
      Nat.eqb (length xs) (length ys) &&
      (fix go (l1 l2 : list Value) {struct l1} : bool :=
         match l1, l2 with
         | x :: l1', y :: l2' => deepEqual x y && go l1' l2'
         | _, _ => true
         end) xs ys
  | VObj _ fa, VObj _ fb =>
      negb (constructorDiffers fa fb) &&
      Nat.eqb (length fa) (length fb) &&
      (fix go (l1 : list (string * Value)) {struct l1} : bool :=
         match l1 with
         | [] => true
         | (key, va) :: l1' =>
             match assoc key fb with
             | Some vb => deepEqual va vb
             | None => false
             end && go l1'
         end) fa
  | _, _ => false
  end.

Inductive StructuralErrorReason :=
| MissingInput | CircularDependency | InvalidDefinition | DuplicateOutput.

Record StructuralErrorDetails := {
  sd_computationId : string;
  sd_missingInputs : option (list string);
  sd_cyclePath : option (list string);
  sd_definitionError : option string;
  sd_conflictsWith : option string
}.

Record StructuralError := {
  se_reason : StructuralErrorReason;
  se_details : StructuralErrorDetails
}.

(** The classes of error objects that the kernel creates or tests with
    [instanceof]; [ClassError] is [Error] itself and any other subclass of
    it. *)
Inductive ErrorClass :=
| ClassError
| ClassUninitializedError
| ClassAbortException
| ClassDOMException.

(** Anything the code throws or stores as [Result.error]. *)
Inductive Exn :=
| ExnError (class : ErrorClass) (name message : string)
                                     (* an error object: class, [name], [message] *)
| ExnThrown (v : Value)              (* any other value thrown by a body *)
| ExnStructural (e : StructuralError). (* a fatal result's error, rethrown *)

(** [new UninitializedError()], [new AbortException(msg)], [new Error(msg)] *)
Definition UninitializedError : Exn :=
  ExnError ClassUninitializedError "UninitializedError" "UninitializedError".
Definition AbortException (msg : string) : Exn :=
  ExnError ClassAbortException "AbortException" msg.
Definition JsError (msg : string) : Exn := ExnError ClassError "Error" msg.

Inductive Result :=
| Success (value : Value)
| Error (error : Exn)
| Fatal (error : StructuralError)
| Uninitialized.

Inductive ComputationState := Idle | Pending | Ready.

(** ** Objects *)

Abbreviation vref := nat (only parsing).  (* reference to a Variable object *)
Abbreviation cref := nat (only parsing).  (* reference to a Computation object *)

(** An observer callback: its identity and what calling it does. *)
Record Observer := {
  obs_id : nat;
  obs_run : Result -> option Exn   (* [Some e]: the callback throws [e] *)
}.

(** variable.ts *)
Record Var := {
  v_id : string;
  v_result : Result;
  v_value_at : Z;
  v_cause_at : Z;
  v_dirty : bool;
  v_producer : option cref;
  v_dependents : list cref;
  v_observers : list Observer;
  v_observeCount : Z
}.

(** types.ts, [RunningTask]; [rt_aborted] is [abortController.signal.aborted]. *)
Record RunningTask := {
  rt_taskId : nat;
  rt_cause_at : Z;
  rt_aborted : bool
}.

Record ComputationDefinition := {
  d_id : string;
  d_inputs : list string;
  d_outputs : list string;
  d_body : nat   (* the host's body function, opaque to the kernel *)
}.

Inductive ProblemReason :=
| PR_missing_input (missingInputs : list string)
| PR_circular_dependency (cyclePath : list string)
| PR_duplicate_output (conflictsWith : string)
| PR_invalid_definition (error : string).

(** computation.ts; the three last fields are the ones a ProblemComputation
    adds to the same object. *)
Record Comp := {
  c_id : string;
  c_staticInputs : list string;
  c_runtimeInputs : list vref;
  c_outputs : list (string * vref);
  c_body : nat;
  c_input_version : Z;
  c_runningTask : option nat;      (* task id *)
  c_abortingTasks : list nat;
  c_scheduler : bool;              (* the optional scheduler reference is set *)
  c_dirty : bool;
  c_observeCount : Z;
  c_dirtyInputCount : Z;
  c_cause_at : Z;
  c_problemReason : option ProblemReason;
  c_missingInputs : option (list string);
  c_definition : option ComputationDefinition
}.

Inductive AbortReason :=
| AbortDirtyInputCount      (* 'dirtyInputCount > 0' *)
| AbortObserveCountZero     (* 'observeCount -> 0' *)
| AbortCauseAtUpdated (oldCauseAt newCauseAt taskCauseAt : Z)
| AbortOther (why : string).

Inductive LogEntry :=
| LogAbortTask (c : cref) (task : nat) (why : AbortReason) (* console.info *)
| LogObserverFailed (e : Exn)                              (* log('error', 'observe', ...) *)
| LogError (category : string).

(** module_core.ts / module_schedule.ts / module_execution.ts: the fields of
    the one kernel object. *)
Record Kernel := {
  k_logicalClock : Z;
  k_vars : gmap nat Var;            (* heap of Variable objects *)
  k_comps : gmap nat Comp;          (* heap of Computation objects *)
  k_tasks : gmap nat RunningTask;   (* task objects, by task id *)
  k_next_vref : nat;
  k_next_cref : nat;
  k_variables : gmap string vref;
  k_computations : list (string * cref);
  k_problem_variables : gmap string vref;
  k_problem_computations : list (string * cref);
  k_outputWaiters : gmap string (list string);
  k_readyQueue : list cref;
  k_scheduleScheduled : bool;
  k_runningTasksCount : Z;
  k_taskIdCounter : nat;
  k_calls : list (nat * string * Result);  (* observer id, variable id, argument *)
  k_log : list LogEntry
}.

Definition with_clock (t : Z) (k : Kernel) : Kernel :=
  {| k_logicalClock := t; k_vars := k_vars k; k_comps := k_comps k;
     k_tasks := k_tasks k; k_next_vref := k_next_vref k;
     k_next_cref := k_next_cref k; k_variables := k_variables k;
     k_computations := k_computations k;
     k_problem_variables := k_problem_variables k;
     k_problem_computations := k_problem_computations k;
     k_outputWaiters := k_outputWaiters k; k_readyQueue := k_readyQueue k;
     k_scheduleScheduled := k_scheduleScheduled k;
     k_runningTasksCount := k_runningTasksCount k;
     k_taskIdCounter := k_taskIdCounter k; k_calls := k_calls k;
     k_log := k_log k |}.

Definition with_vars (m : gmap nat Var) (k : Kernel) : Kernel :=
  {| k_logicalClock := k_logicalClock k; k_vars := m; k_comps := k_comps k;
     k_tasks := k_tasks k; k_next_vref := k_next_vref k;
     k_next_cref := k_next_cref k; k_variables := k_variables k;
     k_computations := k_computations k;
     k_problem_variables := k_problem_variables k;
     k_problem_computations := k_problem_computations k;
     k_outputWaiters := k_outputWaiters k; k_readyQueue := k_readyQueue k;
     k_scheduleScheduled := k_scheduleScheduled k;
     k_runningTasksCount := k_runningTasksCount k;
     k_taskIdCounter := k_taskIdCounter k; k_calls := k_calls k;
     k_log := k_log k |}.

Definition with_comps (m : gmap nat Comp) (k : Kernel) : Kernel :=
  {| k_logicalClock := k_logicalClock k; k_vars := k_vars k; k_comps := m;
     k_tasks := k_tasks k; k_next_vref := k_next_vref k;
     k_next_cref := k_next_cref k; k_variables := k_variables k;
     k_computations := k_computations k;
     k_problem_variables := k_problem_variables k;
     k_problem_computations := k_problem_computations k;
     k_outputWaiters := k_outputWaiters k; k_readyQueue := k_readyQueue k;
     k_scheduleScheduled := k_scheduleScheduled k;
     k_runningTasksCount := k_runningTasksCount k;
     k_taskIdCounter := k_taskIdCounter k; k_calls := k_calls k;
     k_log := k_log k |}.

Definition with_tasks (m : gmap nat RunningTask) (k : Kernel) : Kernel :=
  {| k_logicalClock := k_logicalClock k; k_vars := k_vars k;
     k_comps := k_comps k; k_tasks := m; k_next_vref := k_next_vref k;
     k_next_cref := k_next_cref k; k_variables := k_variables k;
     k_computations := k_computations k;
     k_problem_variables := k_problem_variables k;
     k_problem_computations := k_problem_computations k;
     k_outputWaiters := k_outputWaiters k; k_readyQueue := k_readyQueue k;
     k_scheduleScheduled := k_scheduleScheduled k;
     k_runningTasksCount := k_runningTasksCount k;
     k_taskIdCounter := k_taskIdCounter k; k_calls := k_calls k;
     k_log := k_log k |}.

Definition with_readyQueue (q : list cref) (s : bool) (k : Kernel) : Kernel :=
  {| k_logicalClock := k_logicalClock k; k_vars := k_vars k;
     k_comps := k_comps k; k_tasks := k_tasks k;
     k_next_vref := k_next_vref k; k_next_cref := k_next_cref k;
     k_variables := k_variables k; k_computations := k_computations k;
     k_problem_variables := k_problem_variables k;
     k_problem_computations := k_problem_computations k;
     k_outputWaiters := k_outputWaiters k; k_readyQueue := q;
     k_scheduleScheduled := s;
     k_runningTasksCount := k_runningTasksCount k;
     k_taskIdCounter := k_taskIdCounter k; k_calls := k_calls k;
     k_log := k_log k |}.

Definition with_calls (l : list (nat * string * Result)) (k : Kernel) : Kernel :=
  {| k_logicalClock := k_logicalClock k; k_vars := k_vars k;
     k_comps := k_comps k; k_tasks := k_tasks k;
     k_next_vref := k_next_vref k; k_next_cref := k_next_cref k;
     k_variables := k_variables k; k_computations := k_computations k;
     k_problem_variables := k_problem_variables k;
     k_problem_computations := k_problem_computations k;
     k_outputWaiters := k_outputWaiters k; k_readyQueue := k_readyQueue k;
     k_scheduleScheduled := k_scheduleScheduled k;
     k_runningTasksCount := k_runningTasksCount k;
     k_taskIdCounter := k_taskIdCounter k; k_calls := l;
     k_log := k_log k |}.

Definition with_log (l : list LogEntry) (k : Kernel) : Kernel :=
  {| k_logicalClock := k_logicalClock k; k_vars := k_vars k;
     k_comps := k_comps k; k_tasks := k_tasks k;
     k_next_vref := k_next_vref k; k_next_cref := k_next_cref k;
     k_variables := k_variables k; k_computations := k_computations k;
     k_problem_variables := k_problem_variables k;
     k_problem_computations := k_problem_computations k;
     k_outputWaiters := k_outputWaiters k; k_readyQueue := k_readyQueue k;
     k_scheduleScheduled := k_scheduleScheduled k;
     k_runningTasksCount := k_runningTasksCount k;
     k_taskIdCounter := k_taskIdCounter k; k_calls := k_calls k;
     k_log := l |}.

Definition with_taskIdCounter (n : nat) (k : Kernel) : Kernel :=
  {| k_logicalClock := k_logicalClock k; k_vars := k_vars k;
     k_comps := k_comps k; k_tasks := k_tasks k;
     k_next_vref := k_next_vref k; k_next_cref := k_next_cref k;
     k_variables := k_variables k; k_computations := k_computations k;
     k_problem_variables := k_problem_variables k;
     k_problem_computations := k_problem_computations k;
     k_outputWaiters := k_outputWaiters k; k_readyQueue := k_readyQueue k;
     k_scheduleScheduled := k_scheduleScheduled k;
     k_runningTasksCount := k_runningTasksCount k;
     k_taskIdCounter := n; k_calls := k_calls k;
     k_log := k_log k |}.

(** In-place updates of the objects behind a reference. *)
Definition updV (r : vref) (f : Var -> Var) (k : Kernel) : Kernel :=
  with_vars (alter f r (k_vars k)) k.
Definition updC (r : cref) (f : Comp -> Comp) (k : Kernel) : Kernel :=
  with_comps (alter f r (k_comps k)) k.
Definition updT (t : nat) (f : RunningTask -> RunningTask) (k : Kernel) : Kernel :=
  with_tasks (alter f t (k_tasks k)) k.

(** Field assignments [o.f = x] on the two object types. *)
Definition set_v_result (x : Result) (v : Var) : Var :=
  {| v_id := v_id v;
     v_result := x; v_value_at := v_value_at v; v_cause_at := v_cause_at v;
     v_dirty := v_dirty v; v_producer := v_producer v;
     v_dependents := v_dependents v; v_observers := v_observers v;
     v_observeCount := v_observeCount v |}.
Definition set_v_value_at (x : Z) (v : Var) : Var :=
  {| v_id := v_id v;
     v_result := v_result v; v_value_at := x; v_cause_at := v_cause_at v;
     v_dirty := v_dirty v; v_producer := v_producer v;
     v_dependents := v_dependents v; v_observers := v_observers v;
     v_observeCount := v_observeCount v |}.
Definition set_v_cause_at (x : Z) (v : Var) : Var :=
  {| v_id := v_id v;
     v_result := v_result v; v_value_at := v_value_at v; v_cause_at := x;
     v_dirty := v_dirty v; v_producer := v_producer v;
     v_dependents := v_dependents v; v_observers := v_observers v;
     v_observeCount := v_observeCount v |}.
Definition set_v_dirty (x : bool) (v : Var) : Var :=
  {| v_id := v_id v;
     v_result := v_result v; v_value_at := v_value_at v;
     v_cause_at := v_cause_at v; v_dirty := x; v_producer := v_producer v;
     v_dependents := v_dependents v; v_observers := v_observers v;
     v_observeCount := v_observeCount v |}.
Definition set_v_producer (x : option cref) (v : Var) : Var :=
  {| v_id := v_id v;
     v_result := v_result v; v_value_at := v_value_at v;
     v_cause_at := v_cause_at v; v_dirty := v_dirty v; v_producer := x;
     v_dependents := v_dependents v; v_observers := v_observers v;
     v_observeCount := v_observeCount v |}.
Definition set_v_dependents (x : list cref) (v : Var) : Var :=
  {| v_id := v_id v;
     v_result := v_result v; v_value_at := v_value_at v;
     v_cause_at := v_cause_at v; v_dirty := v_dirty v;
     v_producer := v_producer v; v_dependents := x;
     v_observers := v_observers v; v_observeCount := v_observeCount v |}.
Definition set_v_observers (x : list Observer) (v : Var) : Var :=
  {| v_id := v_id v;
     v_result := v_result v; v_value_at := v_value_at v;
     v_cause_at := v_cause_at v; v_dirty := v_dirty v;
     v_producer := v_producer v; v_dependents := v_dependents v;
     v_observers := x; v_observeCount := v_observeCount v |}.
Definition set_v_observeCount (x : Z) (v : Var) : Var :=
  {| v_id := v_id v;
     v_result := v_result v; v_value_at := v_value_at v;
     v_cause_at := v_cause_at v; v_dirty := v_dirty v;
     v_producer := v_producer v; v_dependents := v_dependents v;
     v_observers := v_observers v; v_observeCount := x |}.
Definition set_c_staticInputs (x : list string) (c : Comp) : Comp :=
  {| c_id := c_id c;
     c_staticInputs := x; c_runtimeInputs := c_runtimeInputs c;
     c_outputs := c_outputs c; c_body := c_body c;
     c_input_version := c_input_version c; c_runningTask := c_runningTask c;
     c_abortingTasks := c_abortingTasks c; c_scheduler := c_scheduler c;
     c_dirty := c_dirty c; c_observeCount := c_observeCount c;
     c_dirtyInputCount := c_dirtyInputCount c; c_cause_at := c_cause_at c;
     c_problemReason := c_problemReason c;
     c_missingInputs := c_missingInputs c; c_definition := c_definition c |}.
Definition set_c_runtimeInputs (x : list vref) (c : Comp) : Comp :=
  {| c_id := c_id c;
     c_staticInputs := c_staticInputs c; c_runtimeInputs := x;
     c_outputs := c_outputs c; c_body := c_body c;
     c_input_version := c_input_version c; c_runningTask := c_runningTask c;
     c_abortingTasks := c_abortingTasks c; c_scheduler := c_scheduler c;
     c_dirty := c_dirty c; c_observeCount := c_observeCount c;
     c_dirtyInputCount := c_dirtyInputCount c; c_cause_at := c_cause_at c;
     c_problemReason := c_problemReason c;
     c_missingInputs := c_missingInputs c; c_definition := c_definition c |}.
Definition set_c_outputs (x : list (string * vref)) (c : Comp) : Comp :=
  {| c_id := c_id c;
     c_staticInputs := c_staticInputs c; c_runtimeInputs := c_runtimeInputs c;
     c_outputs := x; c_body := c_body c; c_input_version := c_input_version c;
     c_runningTask := c_runningTask c; c_abortingTasks := c_abortingTasks c;
     c_scheduler := c_scheduler c; c_dirty := c_dirty c;
     c_observeCount := c_observeCount c;
     c_dirtyInputCount := c_dirtyInputCount c; c_cause_at := c_cause_at c;
     c_problemReason := c_problemReason c;
     c_missingInputs := c_missingInputs c; c_definition := c_definition c |}.
Definition set_c_body (x : nat) (c : Comp) : Comp :=
  {| c_id := c_id c;
     c_staticInputs := c_staticInputs c; c_runtimeInputs := c_runtimeInputs c;
     c_outputs := c_outputs c; c_body := x;
     c_input_version := c_input_version c; c_runningTask := c_runningTask c;
     c_abortingTasks := c_abortingTasks c; c_scheduler := c_scheduler c;
     c_dirty := c_dirty c; c_observeCount := c_observeCount c;
     c_dirtyInputCount := c_dirtyInputCount c; c_cause_at := c_cause_at c;
     c_problemReason := c_problemReason c;
     c_missingInputs := c_missingInputs c; c_definition := c_definition c |}.
Definition set_c_input_version (x : Z) (c : Comp) : Comp :=
  {| c_id := c_id c;
     c_staticInputs := c_staticInputs c; c_runtimeInputs := c_runtimeInputs c;
     c_outputs := c_outputs c; c_body := c_body c; c_input_version := x;
     c_runningTask := c_runningTask c; c_abortingTasks := c_abortingTasks c;
     c_scheduler := c_scheduler c; c_dirty := c_dirty c;
     c_observeCount := c_observeCount c;
     c_dirtyInputCount := c_dirtyInputCount c; c_cause_at := c_cause_at c;
     c_problemReason := c_problemReason c;
     c_missingInputs := c_missingInputs c; c_definition := c_definition c |}.
Definition set_c_runningTask (x : option nat) (c : Comp) : Comp :=
  {| c_id := c_id c;
     c_staticInputs := c_staticInputs c; c_runtimeInputs := c_runtimeInputs c;
     c_outputs := c_outputs c; c_body := c_body c;
     c_input_version := c_input_version c; c_runningTask := x;
     c_abortingTasks := c_abortingTasks c; c_scheduler := c_scheduler c;
     c_dirty := c_dirty c; c_observeCount := c_observeCount c;
     c_dirtyInputCount := c_dirtyInputCount c; c_cause_at := c_cause_at c;
     c_problemReason := c_problemReason c;
     c_missingInputs := c_missingInputs c; c_definition := c_definition c |}.
Definition set_c_abortingTasks (x : list nat) (c : Comp) : Comp :=
  {| c_id := c_id c;
     c_staticInputs := c_staticInputs c; c_runtimeInputs := c_runtimeInputs c;
     c_outputs := c_outputs c; c_body := c_body c;
     c_input_version := c_input_version c; c_runningTask := c_runningTask c;
     c_abortingTasks := x; c_scheduler := c_scheduler c; c_dirty := c_dirty c;
     c_observeCount := c_observeCount c;
     c_dirtyInputCount := c_dirtyInputCount c; c_cause_at := c_cause_at c;
     c_problemReason := c_problemReason c;
     c_missingInputs := c_missingInputs c; c_definition := c_definition c |}.
Definition set_c_scheduler (x : bool) (c : Comp) : Comp :=
  {| c_id := c_id c;
     c_staticInputs := c_staticInputs c; c_runtimeInputs := c_runtimeInputs c;
     c_outputs := c_outputs c; c_body := c_body c;
     c_input_version := c_input_version c; c_runningTask := c_runningTask c;
     c_abortingTasks := c_abortingTasks c; c_scheduler := x;
     c_dirty := c_dirty c; c_observeCount := c_observeCount c;
     c_dirtyInputCount := c_dirtyInputCount c; c_cause_at := c_cause_at c;
     c_problemReason := c_problemReason c;
     c_missingInputs := c_missingInputs c; c_definition := c_definition c |}.
Definition set_c_dirty (x : bool) (c : Comp) : Comp :=
  {| c_id := c_id c;
     c_staticInputs := c_staticInputs c; c_runtimeInputs := c_runtimeInputs c;
     c_outputs := c_outputs c; c_body := c_body c;
     c_input_version := c_input_version c; c_runningTask := c_runningTask c;
     c_abortingTasks := c_abortingTasks c; c_scheduler := c_scheduler c;
     c_dirty := x; c_observeCount := c_observeCount c;
     c_dirtyInputCount := c_dirtyInputCount c; c_cause_at := c_cause_at c;
     c_problemReason := c_problemReason c;
     c_missingInputs := c_missingInputs c; c_definition := c_definition c |}.
Definition set_c_observeCount (x : Z) (c : Comp) : Comp :=
  {| c_id := c_id c;
     c_staticInputs := c_staticInputs c; c_runtimeInputs := c_runtimeInputs c;
     c_outputs := c_outputs c; c_body := c_body c;
     c_input_version := c_input_version c; c_runningTask := c_runningTask c;
     c_abortingTasks := c_abortingTasks c; c_scheduler := c_scheduler c;
     c_dirty := c_dirty c; c_observeCount := x;
     c_dirtyInputCount := c_dirtyInputCount c; c_cause_at := c_cause_at c;
     c_problemReason := c_problemReason c;
     c_missingInputs := c_missingInputs c; c_definition := c_definition c |}.
Definition set_c_dirtyInputCount (x : Z) (c : Comp) : Comp :=
  {| c_id := c_id c;
     c_staticInputs := c_staticInputs c; c_runtimeInputs := c_runtimeInputs c;
     c_outputs := c_outputs c; c_body := c_body c;
     c_input_version := c_input_version c; c_runningTask := c_runningTask c;
     c_abortingTasks := c_abortingTasks c; c_scheduler := c_scheduler c;
     c_dirty := c_dirty c; c_observeCount := c_observeCount c;
     c_dirtyInputCount := x; c_cause_at := c_cause_at c;
     c_problemReason := c_problemReason c;
     c_missingInputs := c_missingInputs c; c_definition := c_definition c |}.
Definition set_c_cause_at (x : Z) (c : Comp) : Comp :=
  {| c_id := c_id c;
     c_staticInputs := c_staticInputs c; c_runtimeInputs := c_runtimeInputs c;
     c_outputs := c_outputs c; c_body := c_body c;
     c_input_version := c_input_version c; c_runningTask := c_runningTask c;
     c_abortingTasks := c_abortingTasks c; c_scheduler := c_scheduler c;
     c_dirty := c_dirty c; c_observeCount := c_observeCount c;
     c_dirtyInputCount := c_dirtyInputCount c; c_cause_at := x;
     c_problemReason := c_problemReason c;
     c_missingInputs := c_missingInputs c; c_definition := c_definition c |}.
Definition set_c_problemReason (x : option ProblemReason) (c : Comp) : Comp :=
  {| c_id := c_id c;
     c_staticInputs := c_staticInputs c; c_runtimeInputs := c_runtimeInputs c;
     c_outputs := c_outputs c; c_body := c_body c;
     c_input_version := c_input_version c; c_runningTask := c_runningTask c;
     c_abortingTasks := c_abortingTasks c; c_scheduler := c_scheduler c;
     c_dirty := c_dirty c; c_observeCount := c_observeCount c;
     c_dirtyInputCount := c_dirtyInputCount c; c_cause_at := c_cause_at c;
     c_problemReason := x; c_missingInputs := c_missingInputs c;
     c_definition := c_definition c |}.
Definition set_c_missingInputs (x : option (list string)) (c : Comp) : Comp :=
  {| c_id := c_id c;
     c_staticInputs := c_staticInputs c; c_runtimeInputs := c_runtimeInputs c;
     c_outputs := c_outputs c; c_body := c_body c;
     c_input_version := c_input_version c; c_runningTask := c_runningTask c;
     c_abortingTasks := c_abortingTasks c; c_scheduler := c_scheduler c;
     c_dirty := c_dirty c; c_observeCount := c_observeCount c;
     c_dirtyInputCount := c_dirtyInputCount c; c_cause_at := c_cause_at c;
     c_problemReason := c_problemReason c; c_missingInputs := x;
     c_definition := c_definition c |}.
Definition set_c_definition (x : option ComputationDefinition) (c : Comp) : Comp :=
  {| c_id := c_id c;
     c_staticInputs := c_staticInputs c; c_runtimeInputs := c_runtimeInputs c;
     c_outputs := c_outputs c; c_body := c_body c;
     c_input_version := c_input_version c; c_runningTask := c_runningTask c;
     c_abortingTasks := c_abortingTasks c; c_scheduler := c_scheduler c;
     c_dirty := c_dirty c; c_observeCount := c_observeCount c;
     c_dirtyInputCount := c_dirtyInputCount c; c_cause_at := c_cause_at c;
     c_problemReason := c_problemReason c;
     c_missingInputs := c_missingInputs c; c_definition := x |}.

(** ** The Computation class (computation.ts) *)

(** [get state()]: a function of [_dirty], [_observeCount] and
    [_dirtyInputCount] only. *)
Definition state (c : Comp) : ComputationState :=
  if negb (c_dirty c) || (c_observeCount c =? 0) then Idle
  else if c_dirtyInputCount c >? 0 then Pending
  else Ready.

Definition ComputationState_eqb (a b : ComputationState) : bool :=
  match a, b with
  | Idle, Idle | Pending, Pending | Ready, Ready => true
  | _, _ => false
  end.

Definition isSome {A} (o : option A) : bool :=
  match o with Some _ => true | None => false end.

(** Set.add on a set of references / ids. *)
Definition set_add_nat (x : nat) (l : list nat) : list nat :=
  if existsb (Nat.eqb x) l then l else l ++ [x].
Definition set_delete_nat (x : nat) (l : list nat) : list nat :=
  List.filter (fun y => negb (Nat.eqb x y)) l.
Definition set_has_str (x : string) (l : list string) : bool :=
  existsb (String.eqb x) l.
Definition set_add_str (x : string) (l : list string) : list string :=
  if set_has_str x l then l else l ++ [x].
Definition set_delete_str (x : string) (l : list string) : list string :=
  List.filter (fun y => negb (String.eqb x y)) l.

(** module_schedule.ts, [addToReadyQueue].  The macro task it arms with
    [setTimeout] is the separate step [scheduleTick]. *)
Definition addToReadyQueue (r : cref) (k : Kernel) : Kernel :=
  match k_comps k !! r with
  | Some c =>
      if negb (existsb (Nat.eqb r) (k_readyQueue k)) && negb (isSome (c_runningTask c))
      then with_readyQueue (k_readyQueue k ++ [r]) true k
      else k
  | None => k
  end.

Definition checkScheduleNeeded (r : cref) (newState : ComputationState) (k : Kernel) : Kernel :=
  match k_comps k !! r with
  | Some c =>
      if ComputationState_eqb newState Ready && negb (isSome (c_runningTask c)) && c_scheduler c
      then addToReadyQueue r k
      else k
  | None => k
  end.

(** [abortTask]: fire the task's signal, park the task in [abortingTasks],
    clear [runningTask], and look again at scheduling. *)
Definition abortTask (r : cref) (why : AbortReason) (k : Kernel) : Kernel :=
  match k_comps k !! r with
  | Some c =>
      match c_runningTask c with
      | None => k
      | Some task =>
          let k1 := with_log (k_log k ++ [LogAbortTask r task why]) k in
          let k2 := updT task (fun t => {| rt_taskId := rt_taskId t;
                                           rt_cause_at := rt_cause_at t;
                                           rt_aborted := true |}) k1 in
          let k3 := updC r (fun c => set_c_runningTask None
                                       (set_c_abortingTasks
                                          (set_add_nat task (c_abortingTasks c)) c)) k2 in
          checkScheduleNeeded r (state c) k3
      end
  | None => k
  end.

Definition checkAbortNeeded (r : cref) (oldState newState : ComputationState) (k : Kernel) : Kernel :=
  match k_comps k !! r with
  | Some c =>
      if negb (ComputationState_eqb oldState Ready) || negb (isSome (c_runningTask c))
      then k
      else match newState with
           | Pending => abortTask r AbortDirtyInputCount k
           | Idle => if c_dirty c then abortTask r AbortObserveCountZero k else k
           | Ready => k
           end
  | None => k
  end.

Definition onStateChange (r : cref) (oldState : ComputationState) (k : Kernel) : Kernel :=
  match k_comps k !! r with
  | Some c =>
      let newState := state c in
      if ComputationState_eqb oldState newState then k
      else checkScheduleNeeded r newState (checkAbortNeeded r oldState newState k)
  | None => k
  end.

(** The four setters. *)
Definition set_dirty (r : cref) (value : bool) (k : Kernel) : Kernel :=
  match k_comps k !! r with
  | Some c =>
      if Bool.eqb (c_dirty c) value then k
      else onStateChange r (state c) (updC r (set_c_dirty value) k)
  | None => k
  end.

Definition set_observeCount (r : cref) (value : Z) (k : Kernel) : Kernel :=
  match k_comps k !! r with
  | Some c =>
      if c_observeCount c =? value then k
      else onStateChange r (state c) (updC r (set_c_observeCount value) k)
  | None => k
  end.

Definition set_dirtyInputCount (r : cref) (value : Z) (k : Kernel) : Kernel :=
  match k_comps k !! r with
  | Some c =>
      if c_dirtyInputCount c =? value then k
      else onStateChange r (state c) (updC r (set_c_dirtyInputCount value) k)
  | None => k
  end.

Definition checkAbortOnCauseAtChange (r : cref) (oldCauseAt newCauseAt : Z) (k : Kernel) : Kernel :=
  match k_comps k !! r with
  | Some c =>
      match c_runningTask c with
      | None => k
      | Some task =>
          match k_tasks k !! task with
          | Some t =>
              if rt_cause_at t <? newCauseAt
              then abortTask r (AbortCauseAtUpdated oldCauseAt newCauseAt (rt_cause_at t)) k
              else k
          | None => k
          end
      end
  | None => k
  end.

Definition set_cause_at (r : cref) (value : Z) (k : Kernel) : Kernel :=
  match k_comps k !! r with
  | Some c =>
      let oldCauseAt := c_cause_at c in
      let k1 := updC r (set_c_cause_at value) k in
      if oldCauseAt =? value then k1
      else checkAbortOnCauseAtChange r oldCauseAt value k1
  | None => k
  end.

(** ** Propagation (module_core.ts, module_propagation.ts) *)

Definition nextLogicalClock (k : Kernel) : Z * Kernel :=
  (k_logicalClock k + 1, with_clock (k_logicalClock k + 1) k).

Definition isInputOfComputation (v : Var) (c : Comp) : bool :=
  set_has_str (v_id v) (c_staticInputs c).

(** A loop whose body may run out of fuel. *)
Fixpoint foldO {A} (f : A -> Kernel -> option Kernel) (l : list A) (k : Kernel) : option Kernel :=
  match l with
  | [] => Some k
  | x :: rest =>
      match f x k with
      | Some k' => foldO f rest k'
      | None => None
      end
  end.

Definition tryIncrementDirtyInputCount
    (comp : cref) (sourceVariable : option vref) (isNewDirty : bool) (k : Kernel) : Kernel :=
  match sourceVariable with
  | None => k
  | Some sv =>
      match k_vars k !! sv, k_comps k !! comp with
      | Some v, Some c =>
          if negb isNewDirty || negb (isInputOfComputation v c) then k
          else if isSome (v_producer v) && v_dirty v
               then set_dirtyInputCount comp (c_dirtyInputCount c + 1) k
               else k
      | _, _ => k
      end
  end.

Definition updateCauseAt (comp : cref) (newCauseAt : Z) (k : Kernel) : Kernel :=
  set_cause_at comp newCauseAt k.

(** [_propagateCauseAtDownward] with [propagateToOutputs] inlined as the two
    nested loops.  One unit of fuel is spent per call. *)
Fixpoint propagateCauseAtDownward_fuel (fuel : nat)
    (comp : cref) (newCauseAt : Z) (sourceVariable : option vref) (isNewDirty : bool)
    (k : Kernel) : option Kernel :=
  match fuel with
  | O => None
  | S fuel' =>
      (* 1. the counter, before the monotonicity test *)
      let k1 := tryIncrementDirtyInputCount comp sourceVariable isNewDirty k in
      match k_comps k1 !! comp with
      | None => Some k1
      | Some c =>
          (* 2. *)
          if newCauseAt <=? c_cause_at c then Some k1
          else
            (* 3. and 4. *)
            let k2 := updateCauseAt comp newCauseAt k1 in
            let k3 := set_dirty comp true k2 in
            (* 5. propagateToOutputs *)
            foldO (fun (o : string * vref) k =>
                     match k_vars k !! o.2, k_comps k !! comp with
                     | Some output, Some c' =>
                         let wasOutputDirty := v_dirty output in
                         let k' := updV o.2 (fun v => set_v_dirty true
                                                        (set_v_cause_at (c_cause_at c') v)) k in
                         foldO (fun downstreamComp k =>
                                  propagateCauseAtDownward_fuel fuel' downstreamComp
                                    newCauseAt (Some o.2) (negb wasOutputDirty) k)
                               (v_dependents output) k'
                     | _, _ => Some k
                     end)
                  (c_outputs c) k3
      end
  end.

(** Each computation passes test 2 at most once for a given [newCauseAt], so
    one more unit of fuel than there are computation objects is enough
    ([propagateCauseAtDownward_total] below). *)
Definition _propagateCauseAtDownward
    (comp : cref) (newCauseAt : Z) (sourceVariable : option vref) (isNewDirty : bool)
    (k : Kernel) : option Kernel :=
  propagateCauseAtDownward_fuel (S (size (k_comps k))) comp newCauseAt
    sourceVariable isNewDirty k.

Definition _markDirty (variable : vref) (t : Z) (isNewDirty : bool) (k : Kernel) : option Kernel :=
  match k_vars k !! variable with
  | Some v =>
      foldO (fun comp k => _propagateCauseAtDownward comp t (Some variable) isNewDirty k)
            (v_dependents v) k
  | None => Some k
  end.

(** Outcome of an operation that can throw. *)
Inductive Outcome (A : Type) :=
| Ok (a : A) (k : Kernel)
| Throw (e : Exn) (k : Kernel)
| OutOfFuel.
Arguments Ok {A} a k.
Arguments Throw {A} e k.
Arguments OutOfFuel {A}.

Definition M (A : Type) := Kernel -> Outcome A.

Definition ret {A} (a : A) : M A := fun k => Ok a k.
Definition throw {A} (e : Exn) : M A := fun k => Throw e k.
Definition bind {A B} (m : M A) (f : A -> M B) : M B :=
  fun k => match m k with
           | Ok a k' => f a k'
           | Throw e k' => Throw e k'
           | OutOfFuel => OutOfFuel
           end.
Definition modify (f : Kernel -> Kernel) : M unit := fun k => Ok tt (f k).
Definition gets {A} (f : Kernel -> A) : M A := fun k => Ok (f k) k.
Definition liftO (f : Kernel -> option Kernel) : M unit :=
  fun k => match f k with Some k' => Ok tt k' | None => OutOfFuel end.

Notation "'let*' x ':=' m 'in' f" := (bind m (fun x => f))
  (at level 10, x name, m at level 100, f at level 200).
Notation "m ';;' f" := (bind m (fun _ => f))
  (at level 100, f at level 200, right associativity).

Fixpoint forM {A} (f : A -> M unit) (l : list A) : M unit :=
  match l with
  | [] => ret tt
  | x :: rest => f x ;; forM f rest
  end.

Definition finalState {A} (o : Outcome A) (k0 : Kernel) : Kernel :=
  match o with Ok _ k | Throw _ k => k | OutOfFuel => k0 end.

(** [notifyObservers]: every observer is called with the current result; a
    callback that throws ends the loop and the exception leaves. *)
Definition notifyObservers (variable : vref) : M unit :=
  fun k =>
    match k_vars k !! variable with
    | Some v =>
        forM (fun observer k =>
                match k_vars k !! variable with
                | Some v' =>
                    let k1 := with_calls (k_calls k ++ [(obs_id observer, v_id v', v_result v')]) k in
                    match obs_run observer (v_result v') with
                    | Some e => Throw e k1
                    | None => Ok tt k1
                    end
                | None => Ok tt k
                end)
             (v_observers v) k
    | None => Ok tt k
    end.

Definition decrementDirtyInputCount (comp : cref) (variable : vref) (k : Kernel) : Kernel :=
  match k_vars k !! variable, k_comps k !! comp with
  | Some v, Some c =>
      if isSome (v_producer v)
      then set_dirtyInputCount comp (c_dirtyInputCount c - 1) k
      else k
  | _, _ => k
  end.

Definition _cleanVariable (variable : vref) : M unit :=
  notifyObservers variable ;;
  fun k =>
    match k_vars k !! variable with
    | Some v =>
        forM (fun comp => modify (fun k =>
                match k_vars k !! variable, k_comps k !! comp with
                | Some v', Some c =>
                    if isInputOfComputation v' c
                    then decrementDirtyInputCount comp variable k
                    else k
                | _, _ => k
                end))
             (v_dependents v) k
    | None => Ok tt k
    end.

Definition cleanOutputDirty (comp : cref) : M unit :=
  fun k =>
    match k_comps k !! comp with
    | Some c =>
        forM (fun (o : string * vref) =>
                modify (updV o.2 (set_v_dirty false)) ;;
                _cleanVariable o.2)
             (c_outputs c) k
    | None => Ok tt k
    end.

Definition getMaxInputVersion (inputs : list vref) (k : Kernel) : Z :=
  fold_left (fun maxVersion input =>
               match k_vars k !! input with
               | Some v => Z.max maxVersion (v_value_at v)
               | None => maxVersion
               end) inputs 0.

Definition isStale (c : Comp) (k : Kernel) : bool :=
  if c_input_version c =? 0 then true
  else getMaxInputVersion (c_runtimeInputs c) k >? c_input_version c.

(** [Math.max(...xs)]; [None] is the [-Infinity] of an empty argument list. *)
Definition maxCauseAt (inputs : list vref) (k : Kernel) : option Z :=
  fold_left (fun acc input =>
               match k_vars k !! input with
               | Some v => match acc with
                           | Some m => Some (Z.max m (v_cause_at v))
                           | None => Some (v_cause_at v)
                           end
               | None => acc
               end) inputs None.

Fixpoint propagateObserveCountUpward_fuel (fuel : nat)
    (variable : vref) (delta : Z) (k : Kernel) : option Kernel :=
  match fuel with
  | O => None
  | S fuel' =>
      if delta =? 0 then Some k
      else
        (* 1. *)
        let k1 := updV variable (fun v => set_v_observeCount (v_observeCount v + delta) v) k in
        (* 2. *)
        match k_vars k1 !! variable with
        | Some v =>
            match v_producer v with
            | Some producer =>
                match k_comps k1 !! producer with
                | Some p =>
                    let k2 := set_observeCount producer (c_observeCount p + delta) k1 in
                    match foldO (fun input k => propagateObserveCountUpward_fuel fuel' input delta k)
                                (c_runtimeInputs p) k2 with
                    | Some k3 =>
                        match k_comps k3 !! producer with
                        | Some p' =>
                            if (delta >? 0) && negb (c_dirty p') && isStale p' k3 then
                              match maxCauseAt (c_runtimeInputs p') k3 with
                              | Some maxInputCauseAt =>
                                  if maxInputCauseAt >? c_cause_at p'
                                  then _propagateCauseAtDownward producer maxInputCauseAt None false k3
                                  else Some k3
                              | None => Some k3
                              end
                            else Some k3
                        | None => Some k3
                        end
                    | None => None
                    end
                | None => Some k1
                end
            | None => Some k1
            end
        | None => Some k1
        end
  end.

Definition _propagateObserveCountUpward (fuel : nat) (variable : vref) (delta : Z) : M unit :=
  liftO (propagateObserveCountUpward_fuel fuel variable delta).

Definition tryCatch {A} (m : M A) (handler : Exn -> M A) : M A :=
  fun k => match m k with
           | Throw e k' => handler e k'
           | o => o
           end.

Definition tryFinally {A} (m : M A) (fin : M unit) : M A :=
  fun k => match m k with
           | Ok a k' => match fin k' with
                        | Ok _ k'' => Ok a k''
                        | Throw e k'' => Throw e k''
                        | OutOfFuel => OutOfFuel
                        end
           | Throw e k' => match fin k' with
                           | Ok _ k'' => Throw e k''
                           | Throw e' k'' => Throw e' k''
                           | OutOfFuel => OutOfFuel
                           end
           | OutOfFuel => OutOfFuel
           end.

(** module_core.ts, [_getVariable]: the normal table first, then the problem
    table. *)
Definition _getVariable (id : string) : M vref :=
  fun k =>
    match k_variables k !! id with
    | Some r => Ok r k
    | None =>
        match k_problem_variables k !! id with
        | Some r => Ok r k
        | None => Throw (JsError ("Variable " +:+ id +:+ " not found.")) k
        end
    end.

Definition has_observer (o : Observer) (l : list Observer) : bool :=
  existsb (fun o' => Nat.eqb (obs_id o) (obs_id o')) l.
Definition add_observer (o : Observer) (l : list Observer) : list Observer :=
  if has_observer o l then l else l ++ [o].

(** [_observe]; the closure it returns is [unsubscribe]. *)
Definition _observe (fuel : nat) (variableId : string) (callback : Observer) : M vref :=
  let* variable := _getVariable variableId in
  modify (updV variable (fun v => set_v_observers (add_observer callback (v_observers v)) v)) ;;
  _propagateObserveCountUpward fuel variable 1 ;;
  (fun k =>
     match k_vars k !! variable with
     | Some v =>
         if negb (v_dirty v) then
           let k1 := with_calls (k_calls k ++ [(obs_id callback, v_id v, v_result v)]) k in
           match obs_run callback (v_result v) with
           | Some e => Ok variable (with_log (k_log k1 ++ [LogObserverFailed e]) k1)
           | None => Ok variable k1
           end
         else Ok variable k
     | None => Ok variable k
     end).


Definition oldValueOf (r : Result) : Value :=
  match r with Success v => v | _ => VUndefined end.

(** [_updateSource] *)
Definition _updateSource (variableId : string) (value : Value) : M unit :=
  let* currentLogicalClock := (fun k => let (t, k') := nextLogicalClock k in Ok t k') in
  let* variable := _getVariable variableId in
  let* v := gets (fun k => k_vars k !! variable) in
  match v with
  | None => ret tt
  | Some v =>
      if isSome (v_producer v) then
        throw (JsError ("Cannot update variable " +:+ variableId +:+
                        " directly as it is produced by a computation."))
      else
        let oldValue := oldValueOf (v_result v) in
        let valueChanged := negb (deepEqual oldValue value) in
        (if valueChanged
         then modify (updV variable (fun v => set_v_value_at currentLogicalClock
                                                (set_v_result (Success value) v)))
         else ret tt) ;;
        modify (updV variable (fun v => set_v_dirty false
                                          (set_v_cause_at currentLogicalClock v))) ;;
        liftO (_markDirty variable currentLogicalClock true) ;;
        _cleanVariable variable
  end.

Definition updateSource (variableId : string) (value : Value) : M unit :=
  _updateSource variableId value.

(** ** Execution (module_execution.ts)

    A body is an async host function.  The kernel code around it is modelled
    as the synchronous pieces the event loop runs: the start of
    [_executeComputation] up to the call of the body, [trackVariableAccess]
    for each scope access, and the completion handlers. *)

Definition outputOf (newOutputs : list (string * Value)) (id : string) : Value :=
  match assoc id newOutputs with Some v => v | None => VUndefined end.

Definition valueChangedAt (k : Kernel) (newOutputs : list (string * Value))
    (o : string * vref) : bool :=
  match k_vars k !! o.2 with
  | Some outputVar =>
      negb (deepEqual (oldValueOf (v_result outputVar)) (outputOf newOutputs o.1))
  | None => false
  end.

(** [updateOutputs] *)
Definition updateOutputs (comp : cref) (newOutputs : list (string * Value)) : M unit :=
  fun k =>
    match k_comps k !! comp with
    | None => Ok tt k
    | Some c =>
        (* first pass *)
        let hasValueChange := existsb (valueChangedAt k newOutputs) (c_outputs c) in
        let (newValueAt, k1) := if hasValueChange then nextLogicalClock k else (0, k) in
        (* second pass *)
        forM (fun (o : string * vref) k =>
                match k_comps k !! comp with
                | Some c' =>
                    let k' :=
                      if valueChangedAt k newOutputs o
                      then updV o.2 (fun v => set_v_value_at newValueAt
                                                (set_v_result (Success (outputOf newOutputs o.1)) v)) k
                      else k in
                    let k'' := updV o.2 (fun v => set_v_dirty false
                                                    (set_v_cause_at (c_cause_at c') v)) k' in
                    _cleanVariable o.2 k''
                | None => Ok tt k
                end)
             (c_outputs c) k1
    end.

Definition cleanUnusedInputs (fuel : nat) (comp : cref) (accessedVariables : list vref) : M unit :=
  fun k =>
    match k_comps k !! comp with
    | None => Ok tt k
    | Some c =>
        let toRemove := List.filter (fun input => negb (existsb (Nat.eqb input) accessedVariables))
                                    (c_runtimeInputs c) in
        forM (fun input =>
                modify (updC comp (fun c => set_c_runtimeInputs
                                              (set_delete_nat input (c_runtimeInputs c)) c)) ;;
                modify (updV input (fun v => set_v_dependents
                                               (set_delete_nat comp (v_dependents v)) v)) ;;
                (fun k =>
                   match k_comps k !! comp with
                   | Some c' =>
                       if c_observeCount c' >? 0
                       then _propagateObserveCountUpward fuel input (- c_observeCount c') k
                       else Ok tt k
                   | None => Ok tt k
                   end) ;;
                modify (fun k =>
                   match k_vars k !! input, k_comps k !! comp with
                   | Some v, Some c' =>
                       if v_dirty v && isSome (v_producer v)
                       then set_dirtyInputCount comp (c_dirtyInputCount c' - 1) k
                       else k
                   | _, _ => k
                   end))
             toRemove k
    end.

Definition set_input_version_to_max (comp : cref) (k : Kernel) : Kernel :=
  match k_comps k !! comp with
  | Some c => updC comp (set_c_input_version (getMaxInputVersion (c_runtimeInputs c) k)) k
  | None => k
  end.

Definition handleExecutionSuccess (fuel : nat) (comp : cref)
    (outputs : list (string * Value)) (accessedVariables : list vref) : M unit :=
  updateOutputs comp outputs ;;
  cleanUnusedInputs fuel comp accessedVariables ;;
  modify (set_dirty comp false) ;;
  modify (set_input_version_to_max comp).

(** [updateOutputsWithError] *)
Definition updateOutputsWithError (comp : cref) (error : Exn) : M unit :=
  modify (fun k => with_log (k_log k ++ [LogError "updateOutputsWithError"]) k) ;;
  fun k =>
    match k_comps k !! comp with
    | None => Ok tt k
    | Some c =>
        forM (fun (o : string * vref) k =>
                match k_comps k !! comp with
                | Some c' =>
                    let (t, k1) := nextLogicalClock k in
                    let k2 := updV o.2 (fun v => set_v_dirty false
                                                   (set_v_cause_at (c_cause_at c')
                                                      (set_v_value_at t
                                                         (set_v_result (Error error) v)))) k1 in
                    _cleanVariable o.2 k2
                | None => Ok tt k
                end)
             (c_outputs c) k
    end.

(** [isAbortError]: an instance of [AbortException], or a [DOMException]
    whose [name] is ['AbortError']. *)
Definition isAbortError (error : Exn) : bool :=
  match error with
  | ExnError ClassAbortException _ _ => true
  | ExnError ClassDOMException name _ => String.eqb name "AbortError"
  | _ => false
  end.

(** [handleExecutionError] always rethrows. *)
Definition handleExecutionError (comp : cref) (error : Exn) : M unit :=
  (if isAbortError error then ret tt
   else
     modify (fun k => with_log (k_log k ++ [LogError "executeComputation"]) k) ;;
     updateOutputsWithError comp error ;;
     modify (set_dirty comp false) ;;
     modify (set_input_version_to_max comp)) ;;
  throw error.

Definition handleExecutionFinally (comp : cref) (task : nat) : M unit :=
  modify (fun k =>
    match k_comps k !! comp with
    | Some c =>
        match c_runningTask c with
        | Some t =>
            if Nat.eqb t task then updC comp (set_c_runningTask None) k
            else updC comp (fun c => set_c_abortingTasks
                                       (set_delete_nat task (c_abortingTasks c)) c) k
        | None => updC comp (fun c => set_c_abortingTasks
                                        (set_delete_nat task (c_abortingTasks c)) c) k
        end
    | None => k
    end) ;;
  modify (fun k =>
    match k_comps k !! comp with
    | Some c =>
        if c_dirty c then
          match maxCauseAt (c_runtimeInputs c) k with
          | Some maxInputCauseAt =>
              if maxInputCauseAt >? c_cause_at c then
                let k1 := set_cause_at comp maxInputCauseAt k in
                fold_left (fun k (o : string * vref) =>
                             match k_comps k !! comp with
                             | Some c' => updV o.2 (set_v_cause_at (c_cause_at c')) k
                             | None => k
                             end) (c_outputs c) k1
              else k
          | None => k
          end
        else k
    | None => k
    end).

(** [shouldExecute] *)
Definition shouldExecute (c : Comp) (k : Kernel) : bool :=
  if c_input_version c =? 0 then true
  else getMaxInputVersion (c_runtimeInputs c) k >? c_input_version c.

(** [maybeSkipExecution]: [true] when the execution was skipped. *)
Definition maybeSkipExecution (comp : cref) : M bool :=
  fun k =>
    match k_comps k !! comp with
    | Some c =>
        if negb (shouldExecute c k)
        then (cleanOutputDirty comp ;; modify (set_dirty comp false) ;; ret true) k
        else Ok false k
    | None => Ok false k
    end.

Definition setupExecutionTask (comp : cref) (taskId : nat) (k : Kernel) : Kernel :=
  match k_comps k !! comp with
  | Some c =>
      updC comp (set_c_runningTask (Some taskId))
        (with_tasks (<[taskId := {| rt_taskId := taskId; rt_cause_at := c_cause_at c;
                                    rt_aborted := false |}]> (k_tasks k)) k)
  | None => k
  end.

Inductive Dispatch :=
| GuardFailed           (* the guard returned: nothing done *)
| Skipped               (* input pruning: outputs cleaned, body not called *)
| BodyInvoked (task : nat).

(** [_executeComputation] up to [await comp.body(scope, signal)]. *)
Definition executeComputation_start (comp : cref) : M Dispatch :=
  fun k =>
    match k_comps k !! comp with
    | None => Ok GuardFailed k
    | Some c =>
        if negb (ComputationState_eqb (state c) Ready) || (c_observeCount c =? 0)
        then Ok GuardFailed k
        else
          let taskId := S (k_taskIdCounter k) in
          let k1 := with_taskIdCounter taskId k in
          (let* skipped := maybeSkipExecution comp in
           if (skipped : bool) then ret Skipped
           else modify (setupExecutionTask comp taskId) ;; ret (BodyInvoked taskId)) k1
    end.

Definition checkAbortSignal (task : nat) : M unit :=
  fun k =>
    match k_tasks k !! task with
    | Some t => if rt_aborted t then Throw (AbortException "Task was aborted") k else Ok tt k
    | None => Ok tt k
    end.

Inductive BodyResult :=
| Returned (outputs : list (string * Value))
| Rejected (error : Exn).

(** [_executeComputation] from the settlement of the body on. *)
Definition executeComputation_finish (fuel : nat) (comp : cref) (task : nat)
    (body : BodyResult) (accessedVariables : list vref) : M unit :=
  tryFinally
    (tryCatch
       (match body with
        | Returned outputs =>
            checkAbortSignal task ;;
            handleExecutionSuccess fuel comp outputs accessedVariables
        | Rejected error => throw error
        end)
       (fun error => handleExecutionError comp error))
    (handleExecutionFinally comp task).

(** [trackVariableAccess]; the caller keeps the [accessedVariables] set. *)
Definition prebumpTaskCauseAt (comp : cref) (variable : vref) (k : Kernel) : Kernel :=
  match k_vars k !! variable, k_comps k !! comp with
  | Some v, Some c =>
      match c_runningTask c with
      | Some t =>
          if v_cause_at v >? c_cause_at c
          then updT t (fun t => {| rt_taskId := rt_taskId t; rt_cause_at := v_cause_at v;
                                   rt_aborted := rt_aborted t |}) k
          else k
      | None => k
      end
  | _, _ => k
  end.

Definition trackVariableAccess (fuel : nat) (comp : cref) (variable : vref) (task : nat) : M unit :=
  let* c := gets (fun k => k_comps k !! comp) in
  let* v := gets (fun k => k_vars k !! variable) in
  match c, v with
  | Some c, Some v =>
      if existsb (Nat.eqb variable) (c_runtimeInputs c) then ret tt
      else
        (* 0. *)
        checkAbortSignal task ;;
        if negb (set_has_str (v_id v) (c_staticInputs c)) then
          throw (JsError ("Variable " +:+ v_id v +:+ " not in staticInputs of " +:+ c_id c))
        else
          modify (prebumpTaskCauseAt comp variable) ;;
          (* 1. *)
          modify (updC comp (fun c => set_c_runtimeInputs
                                        (set_add_nat variable (c_runtimeInputs c)) c)) ;;
          modify (updV variable (fun v => set_v_dependents
                                            (set_add_nat comp (v_dependents v)) v)) ;;
          (* 2. *)
          (fun k =>
             match k_comps k !! comp with
             | Some c' =>
                 if c_observeCount c' >? 0
                 then _propagateObserveCountUpward fuel variable (c_observeCount c') k
                 else Ok tt k
             | None => Ok tt k
             end) ;;
          (* 3. *)
          liftO (fun k =>
             match k_vars k !! variable, k_comps k !! comp with
             | Some v', Some c' =>
                 if v_cause_at v' >? c_cause_at c'
                 then _propagateCauseAtDownward comp (v_cause_at v') (Some variable) false k
                 else Some k
             | _, _ => Some k
             end) ;;
          (* 4. *)
          modify (fun k =>
             match k_vars k !! variable, k_comps k !! comp with
             | Some v', Some c' =>
                 if v_dirty v'
                 then set_dirtyInputCount comp (c_dirtyInputCount c' + 1) k
                 else k
             | _, _ => k
             end)
  | _, _ => ret tt
  end.

(** ** Pull evaluation (module_execution.ts, reactive_module.ts) *)

(** [_evaluate]: [Some r] when it returns at once, [None] when it goes on to
    wait for the variable through a temporary observer. *)
Definition _evaluate (v : Var) : option Result :=
  if negb (v_dirty v) then Some (v_result v)
  else match v_producer v with
       | None => Some (v_result v)
       | Some _ => None
       end.

(** ReactiveModuleExecution, [_getValue], after [await this._evaluate]. *)
Definition _getValue_resume (result : Result) : M Value :=
  match result with
  | Error error => throw error
  | Fatal error => throw (ExnStructural error)
  | Uninitialized => throw UninitializedError
  | Success value => ret value
  end.

(** ReactiveModule, [getValue] (the public override), after
    [await this.evaluate]. *)
Definition getValue_resume (variableId : string) (result : Result) : M Value :=
  match result with
  | Success value => ret value
  | Error error => throw error
  | _ => throw (JsError ("Variable " +:+ variableId +:+ " is uninitialized and has no value."))
  end.

(** [getValue] on a variable that [evaluate] answers at once; [None] when the
    call suspends on the variable becoming clean, to resume in
    [getValue_resume] with the delivered result. *)
Definition getValue (variableId : string) : M (option Value) :=
  let* variable := _getVariable variableId in
  let* v := gets (fun k => k_vars k !! variable) in
  match v with
  | Some v =>
      match _evaluate v with
      | Some result => let* value := getValue_resume variableId result in ret (Some value)
      | None => ret None
      end
  | None => ret None
  end.

(** ** Definitions (dependency_graph.ts, module_definition.ts) *)

(** A JS [Map] with string keys whose insertion order is observable. *)
Definition omap_set {A} (key : string) (a : A) (m : list (string * A)) : list (string * A) :=
  if isSome (assoc key m)
  then map (fun e => if String.eqb key e.1 then (key, a) else e) m
  else m ++ [(key, a)].
Definition omap_delete {A} (key : string) (m : list (string * A)) : list (string * A) :=
  List.filter (fun e => negb (String.eqb key e.1)) m.
Definition omap_has {A} (key : string) (m : list (string * A)) : bool :=
  isSome (assoc key m).

Record ComputationShape := {
  shape_id : string;
  shape_inputs : list string;
  shape_outputs : list string
}.

(** [buildDependencyGraph]: producer -> consumers. *)
Definition buildDependencyGraph (shapeList : list ComputationShape)
    : list (string * list string) :=
  let producerByOutput :=
    fold_left (fun m shape =>
                 fold_left (fun m out => omap_set out (shape_id shape) m)
                           (shape_outputs shape) m)
              shapeList [] in
  let graph0 :=
    fold_left (fun g shape =>
                 if omap_has (shape_id shape) g then g
                 else omap_set (shape_id shape) [] g)
              shapeList [] in
  fold_left (fun g consumer =>
               fold_left (fun g input =>
                            match assoc input producerByOutput with
                            | None => g
                            | Some producer =>
                                (* [if (!producer) continue;]: the empty id is falsy *)
                                if String.eqb producer "" then g
                                else
                                  let g1 := if omap_has producer g then g
                                            else omap_set producer [] g in
                                  match assoc producer g1 with
                                  | Some consumers =>
                                      omap_set producer
                                        (set_add_str (shape_id consumer) consumers) g1
                                  | None => g1
                                  end
                            end)
                         (shape_inputs consumer) g)
            shapeList graph0.

(** [stack.slice(stack.lastIndexOf(next))] *)
Fixpoint sliceFromLast (next : string) (stack : list string) : list string :=
  match stack with
  | [] => []
  | x :: rest =>
      if set_has_str next rest then sliceFromLast next rest
      else if String.eqb next x then x :: rest
      else []
  end.

(** [detectCycleFrom], the inner [dfs].  [inStack] holds exactly the nodes of
    [stack], so membership in the stack stands for it.  The result carries
    the [visited] set; [None] is fuel exhaustion. *)
Fixpoint dfs (fuel : nat) (graph : list (string * list string)) (node : string)
    (visited stack : list string) : option (option (list string) * list string) :=
  match fuel with
  | O => None
  | S fuel' =>
      let visited1 := set_add_str node visited in
      let stack1 := stack ++ [node] in
      let neighbors := match assoc node graph with Some s => s | None => [] end in
      (fix loop (ns : list string) (visited : list string) {struct ns} :=
         match ns with
         | [] => Some (None, visited)
         | next :: rest =>
             if negb (set_has_str next visited) then
               match dfs fuel' graph next visited stack1 with
               | None => None
               | Some (Some cycle, visited') => Some (Some cycle, visited')
               | Some (None, visited') => loop rest visited'
               end
             else if set_has_str next stack1 then
               Some (Some (sliceFromLast next stack1 ++ [next]), visited)
             else loop rest visited
         end) neighbors visited1
  end.

Definition detectCycleFrom (graph : list (string * list string)) (startId : string)
    : option (option (list string)) :=
  match dfs (S (length graph)) graph startId [] [] with
  | Some (r, _) => Some r
  | None => None
  end.

Definition getComputationShapeFromExisting (c : Comp) : ComputationShape :=
  {| shape_id := c_id c; shape_inputs := c_staticInputs c;
     shape_outputs := map fst (c_outputs c) |}.

Definition shapesOf (k : Kernel) (table : list (string * cref)) (skip : string)
    : list ComputationShape :=
  flat_map (fun e : string * cref =>
              match k_comps k !! e.2 with
              | Some c => if String.eqb (c_id c) skip then []
                          else [getComputationShapeFromExisting c]
              | None => []
              end) table.

Definition detectCircularDependencyIfAdded (definition : ComputationDefinition) (k : Kernel)
    : option (option (list string)) :=
  let shapes := shapesOf k (k_computations k) (d_id definition)
                ++ shapesOf k (k_problem_computations k) (d_id definition)
                ++ [{| shape_id := d_id definition; shape_inputs := d_inputs definition;
                       shape_outputs := d_outputs definition |}] in
  detectCycleFrom (buildDependencyGraph shapes) (d_id definition).

Definition lookupVar (id : string) (k : Kernel) : option vref :=
  match k_variables k !! id with
  | Some r => Some r
  | None => k_problem_variables k !! id
  end.

Definition getMissingInputs (definition : ComputationDefinition) (k : Kernel) : list string :=
  fold_left (fun missing inputId =>
               if negb (isSome (k_variables k !! inputId))
                  && negb (isSome (k_problem_variables k !! inputId))
               then set_add_str inputId missing else missing)
            (d_inputs definition) [].

Definition getProblemInputs (definition : ComputationDefinition) (k : Kernel) : list string :=
  fold_left (fun problemInputs inputId =>
               if isSome (k_problem_variables k !! inputId)
               then set_add_str inputId problemInputs else problemInputs)
            (d_inputs definition) [].

Definition producerIdOf (v : Var) (k : Kernel) : option string :=
  match v_producer v with
  | Some p => match k_comps k !! p with Some c => Some (c_id c) | None => None end
  | None => None
  end.

(** [getOutputConflictInfo] without [allowExistingProducerId]:
    (conflictingOutput, existingProducer). *)
Fixpoint getOutputConflictInfo (outputs : list string) (k : Kernel) : option (string * string) :=
  match outputs with
  | [] => None
  | out :: rest =>
      match lookupVar out k with
      | Some r =>
          match k_vars k !! r with
          | Some existing =>
              Some (out, match producerIdOf existing k with
                         | Some id => id
                         | None => "source"
                         end)
          | None => getOutputConflictInfo rest k
          end
      | None => getOutputConflictInfo rest k
      end
  end.

Definition computeInitialCauseAt (definition : ComputationDefinition) (k : Kernel) : Z :=
  fold_left (fun maxCauseAt inputId =>
               match lookupVar inputId k with
               | Some r => match k_vars k !! r with
                           | Some inputVariable => Z.max maxCauseAt (v_cause_at inputVariable)
                           | None => maxCauseAt
                           end
               | None => maxCauseAt
               end)
            (d_inputs definition) 0.

(** [countInitialDirtyInputs]: one count per element of the [inputs] array. *)
Fixpoint countInitialDirtyInputs (inputs : list string) (k : Kernel) : Exn + Z :=
  match inputs with
  | [] => inr 0
  | inputId :: rest =>
      match lookupVar inputId k with
      | Some r =>
          match countInitialDirtyInputs rest k with
          | inr n =>
              match k_vars k !! r with
              | Some inputVariable => inr (if v_dirty inputVariable then n + 1 else n)
              | None => inr n
              end
          | inl e => inl e
          end
      | None =>
          inl (JsError ("Internal error: input " +:+ inputId +:+ " should have been validated"))
      end
  end.

Definition newVariable (id : string) (result : Result) (value_at cause_at : Z)
    (dirty : bool) (producer : option cref) : Var :=
  {| v_id := id; v_result := result; v_value_at := value_at; v_cause_at := cause_at;
     v_dirty := dirty; v_producer := producer; v_dependents := [];
     v_observers := []; v_observeCount := 0 |}.

Definition newComputation (id : string) (staticInputs : list string)
    (outputs : list (string * vref)) (body : nat)
    (cause_at dirtyInputCount input_version observeCount : Z) (dirty : bool) : Comp :=
  {| c_id := id; c_staticInputs := staticInputs; c_runtimeInputs := [];
     c_outputs := outputs; c_body := body; c_input_version := input_version;
     c_runningTask := None; c_abortingTasks := []; c_scheduler := false;
     c_dirty := dirty; c_observeCount := observeCount;
     c_dirtyInputCount := dirtyInputCount; c_cause_at := cause_at;
     c_problemReason := None; c_missingInputs := None; c_definition := None |}.

Definition allocVar (v : Var) : M vref :=
  fun k =>
    let r := k_next_vref k in
    Ok r {| k_logicalClock := k_logicalClock k; k_vars := <[r := v]> (k_vars k);
            k_comps := k_comps k; k_tasks := k_tasks k; k_next_vref := S r;
            k_next_cref := k_next_cref k; k_variables := k_variables k;
            k_computations := k_computations k;
            k_problem_variables := k_problem_variables k;
            k_problem_computations := k_problem_computations k;
            k_outputWaiters := k_outputWaiters k; k_readyQueue := k_readyQueue k;
            k_scheduleScheduled := k_scheduleScheduled k;
            k_runningTasksCount := k_runningTasksCount k;
            k_taskIdCounter := k_taskIdCounter k; k_calls := k_calls k;
            k_log := k_log k |}.

Definition allocComp (c : Comp) : M cref :=
  fun k =>
    let r := k_next_cref k in
    Ok r {| k_logicalClock := k_logicalClock k; k_vars := k_vars k;
            k_comps := <[r := c]> (k_comps k); k_tasks := k_tasks k;
            k_next_vref := k_next_vref k; k_next_cref := S r;
            k_variables := k_variables k; k_computations := k_computations k;
            k_problem_variables := k_problem_variables k;
            k_problem_computations := k_problem_computations k;
            k_outputWaiters := k_outputWaiters k; k_readyQueue := k_readyQueue k;
            k_scheduleScheduled := k_scheduleScheduled k;
            k_runningTasksCount := k_runningTasksCount k;
            k_taskIdCounter := k_taskIdCounter k; k_calls := k_calls k;
            k_log := k_log k |}.

Definition with_tables
    (variables : gmap string vref) (computations : list (string * cref))
    (problem_variables : gmap string vref) (problem_computations : list (string * cref))
    (outputWaiters : gmap string (list string)) (k : Kernel) : Kernel :=
  {| k_logicalClock := k_logicalClock k; k_vars := k_vars k; k_comps := k_comps k;
     k_tasks := k_tasks k; k_next_vref := k_next_vref k;
     k_next_cref := k_next_cref k; k_variables := variables;
     k_computations := computations; k_problem_variables := problem_variables;
     k_problem_computations := problem_computations;
     k_outputWaiters := outputWaiters; k_readyQueue := k_readyQueue k;
     k_scheduleScheduled := k_scheduleScheduled k;
     k_runningTasksCount := k_runningTasksCount k;
     k_taskIdCounter := k_taskIdCounter k; k_calls := k_calls k;
     k_log := k_log k |}.

Definition set_variables (m : gmap string vref) (k : Kernel) : Kernel :=
  with_tables m (k_computations k) (k_problem_variables k)
    (k_problem_computations k) (k_outputWaiters k) k.
Definition set_computations (m : list (string * cref)) (k : Kernel) : Kernel :=
  with_tables (k_variables k) m (k_problem_variables k)
    (k_problem_computations k) (k_outputWaiters k) k.
Definition set_problem_variables (m : gmap string vref) (k : Kernel) : Kernel :=
  with_tables (k_variables k) (k_computations k) m
    (k_problem_computations k) (k_outputWaiters k) k.
Definition set_problem_computations (m : list (string * cref)) (k : Kernel) : Kernel :=
  with_tables (k_variables k) (k_computations k) (k_problem_variables k)
    m (k_outputWaiters k) k.
Definition set_outputWaiters (m : gmap string (list string)) (k : Kernel) : Kernel :=
  with_tables (k_variables k) (k_computations k) (k_problem_variables k)
    (k_problem_computations k) m k.

(** [_defineSource] (the id is known to be free). *)
Definition _defineSource (id : string) (initialValue : option Value) : M unit :=
  let* _ := (fun k => let (t, k') := nextLogicalClock k in Ok t k') in
  let* r := allocVar (newVariable id Uninitialized 0 0 false None) in
  modify (fun k => set_variables (<[id := r]> (k_variables k)) k) ;;
  match initialValue with
  | Some value => _updateSource id value
  | None => ret tt
  end.

Definition fatalResult (computationId : string) (reason : ProblemReason) : Result :=
  Fatal {| se_reason := match reason with
                        | PR_missing_input _ => MissingInput
                        | PR_circular_dependency _ => CircularDependency
                        | PR_duplicate_output _ => DuplicateOutput
                        | PR_invalid_definition _ => InvalidDefinition
                        end;
           se_details :=
             {| sd_computationId := computationId;
                sd_missingInputs := match reason with
                                    | PR_missing_input l => Some l | _ => None end;
                sd_cyclePath := match reason with
                                | PR_circular_dependency l => Some l | _ => None end;
                sd_definitionError := match reason with
                                      | PR_invalid_definition e => Some e | _ => None end;
                sd_conflictsWith := match reason with
                                    | PR_duplicate_output c => Some c | _ => None end |} |}.

Definition establishDependencies (definition : ComputationDefinition) (computation : cref)
    (k : Kernel) : Kernel :=
  fold_left (fun k inputId =>
               match lookupVar inputId k with
               | Some variable =>
                   updC computation
                     (fun c => set_c_runtimeInputs (set_add_nat variable (c_runtimeInputs c)) c)
                     (updV variable
                        (fun v => set_v_dependents (set_add_nat computation (v_dependents v)) v) k)
               | None => k
               end)
            (d_inputs definition) k.

(** ** Problem management (module_problem_management.ts)

    The [problemTracker] is a diagnostic store that no kernel decision reads;
    it is left out. *)

(** [for (const obs of v.observers) { try { obs(v.result) } catch (e) {} }] *)
Definition notifySwallow (variable : vref) (k : Kernel) : Kernel :=
  match k_vars k !! variable with
  | Some v =>
      with_calls (k_calls k ++ map (fun o => (obs_id o, v_id v, v_result v)) (v_observers v)) k
  | None => k
  end.

Definition updateProblemReason (comp : cref) (k : Kernel) : Kernel :=
  updC comp (fun c =>
    match c_problemReason c, c_missingInputs c with
    | Some (PR_missing_input _), Some (m :: ms) =>
        set_c_problemReason (Some (PR_missing_input (m :: ms))) c
    | _, _ => c
    end) k.

Definition isMissingInputReason (c : Comp) : bool :=
  match c_problemReason c with Some (PR_missing_input _) => true | _ => false end.

(** The branch shared by the marking loops: the dependent is already a
    problem computation. *)
Definition addMissingToProblem (depId : string) (ids : list string) (k : Kernel) : Kernel :=
  match assoc depId (k_problem_computations k) with
  | Some probComp =>
      match k_comps k !! probComp with
      | Some pc =>
          if isMissingInputReason pc then
            updateProblemReason probComp
              (updC probComp (fun c =>
                 match c_missingInputs c with
                 | Some s => set_c_missingInputs (Some (fold_left (fun s id => set_add_str id s) ids s)) c
                 | None => c
                 end) k)
          else k
      | None => k
      end
  | None => k
  end.

Fixpoint markComputationAsProblem (fuel : nat) (comp : cref) (reason : ProblemReason)
    {struct fuel} : M unit :=
  match fuel with
  | O => fun _ => OutOfFuel
  | S fuel' =>
      let* c0 := gets (fun k => k_comps k !! comp) in
      match c0 with
      | None => ret tt
      | Some c0 =>
          (* 1. *)
          modify (fun k => set_computations (omap_delete (c_id c0) (k_computations k)) k) ;;
          (* 2. *)
          forM (fun inputVar =>
                  modify (updV inputVar (fun v => set_v_dependents
                                                    (set_delete_nat comp (v_dependents v)) v)) ;;
                  (fun k =>
                     match k_comps k !! comp with
                     | Some c =>
                         if c_observeCount c >? 0
                         then _propagateObserveCountUpward fuel' inputVar (- c_observeCount c) k
                         else Ok tt k
                     | None => Ok tt k
                     end))
               (c_runtimeInputs c0) ;;
          modify (updC comp (set_c_runtimeInputs [])) ;;
          (* 3. *)
          forM (fun (o : string * vref) =>
                  modify (fun k => set_variables (delete o.1 (k_variables k)) k) ;;
                  modify (updV o.2 (set_v_result (fatalResult (c_id c0) reason))) ;;
                  modify (fun k => set_problem_variables (<[o.1 := o.2]> (k_problem_variables k)) k) ;;
                  modify (notifySwallow o.2))
               (c_outputs c0) ;;
          (* 4. *)
          modify (updC comp (fun c =>
                    set_c_definition
                      (Some {| d_id := c_id c; d_inputs := c_staticInputs c;
                               d_outputs := map fst (c_outputs c0); d_body := c_body c |})
                      (set_c_missingInputs
                         (Some match reason with
                               | PR_missing_input l => fold_left (fun s id => set_add_str id s) l []
                               | _ => []
                               end)
                         (set_c_problemReason (Some reason) c)))) ;;
          modify (fun k => set_problem_computations
                             (omap_set (c_id c0) comp (k_problem_computations k)) k) ;;
          (* 5. *)
          forM (fun (o : string * vref) =>
                  let* v := gets (fun k => k_vars k !! o.2) in
                  match v with
                  | Some variable =>
                      forM (fun dep =>
                              let* d := gets (fun k => k_comps k !! dep) in
                              match d with
                              | Some d =>
                                  let* healthy := gets (fun k => omap_has (c_id d) (k_computations k)) in
                                  if (healthy : bool)
                                  then markComputationAsProblem fuel' dep
                                         (PR_missing_input [v_id variable])
                                  else modify (addMissingToProblem (c_id d) [v_id variable])
                              | None => ret tt
                              end)
                           (v_dependents variable)
                  | None => ret tt
                  end)
               (c_outputs c0)
      end
  end.

(** module_definition.ts, [_createProblemComputation] *)
Definition _createProblemComputation (fuel : nat) (definition : ComputationDefinition)
    (reason : ProblemReason) (missingInputs : list string) : M unit :=
  (* outputs that do not conflict become problem variables *)
  let* outputsMap :=
    (fix mk (outs : list string) (acc : list (string * vref)) : M (list (string * vref)) :=
       match outs with
       | [] => ret acc
       | outputId :: rest =>
           let* existing := gets (lookupVar outputId) in
           match existing with
           | Some _ => mk rest acc
           | None =>
               let* variable := allocVar (newVariable outputId
                                            (fatalResult (d_id definition) reason) 0 0 false None) in
               modify (fun k => set_problem_variables
                                  (<[outputId := variable]> (k_problem_variables k)) k) ;;
               mk rest (omap_set outputId variable acc)
           end
       end) (d_outputs definition) [] in
  let* problemComp :=
    allocComp (set_c_definition (Some definition)
                 (set_c_missingInputs (Some missingInputs)
                    (set_c_problemReason (Some reason)
                       (newComputation (d_id definition)
                          (fold_left (fun s id => set_add_str id s) (d_inputs definition) [])
                          outputsMap (d_body definition) 0 0 0 0 false)))) in
  forM (fun (o : string * vref) => modify (updV o.2 (set_v_producer (Some problemComp))))
       outputsMap ;;
  modify (fun k => set_problem_computations
                     (omap_set (d_id definition) problemComp (k_problem_computations k)) k) ;;
  forM (fun inputId =>
          modify (fun k =>
                    match lookupVar inputId k with
                    | Some inputVar =>
                        updV inputVar (fun v => set_v_dependents
                                                  (set_add_nat problemComp (v_dependents v)) v) k
                    | None => k
                    end))
       (d_inputs definition) ;;
  (match reason with
   | PR_duplicate_output _ =>
       forM (fun outputId =>
               modify (fun k =>
                         match lookupVar outputId k with
                         | Some _ =>
                             let set := match k_outputWaiters k !! outputId with
                                        | Some s => s
                                        | None => []
                                        end in
                             set_outputWaiters
                               (<[outputId := set_add_str (d_id definition) set]>
                                  (k_outputWaiters k)) k
                         | None => k
                         end))
            (d_outputs definition)
   | _ => ret tt
   end) ;;
  (* recursive marking *)
  forM (fun (o : string * vref) =>
          let* v := gets (fun k => k_vars k !! o.2) in
          match v with
          | Some variable =>
              forM (fun dep =>
                      let* d := gets (fun k => k_comps k !! dep) in
                      match d with
                      | Some d =>
                          let* healthy := gets (fun k => omap_has (c_id d) (k_computations k)) in
                          if (healthy : bool)
                          then markComputationAsProblem fuel dep (PR_missing_input [v_id variable])
                          else ret tt
                      | None => ret tt
                      end)
                   (v_dependents variable)
          | None => ret tt
          end)
       outputsMap.

Inductive Status := Healthy | Problematic.

(** [_defineComputation] with [allowRedefinition] unset, as
    [defineNewComputation] calls it. *)
Definition _defineComputation (fuel : nat) (definition : ComputationDefinition) : M Status :=
  let* existing := gets (fun k => omap_has (d_id definition) (k_computations k)
                                  || omap_has (d_id definition) (k_problem_computations k)) in
  if (existing : bool)
  then throw (JsError ("Computation " +:+ d_id definition +:+ " already defined."))
  else
  let* missingInputs := gets (getMissingInputs definition) in
  let* problemInputs := gets (getProblemInputs definition) in
  let* conflictInfo := gets (getOutputConflictInfo (d_outputs definition)) in
  let* cycle := gets (detectCircularDependencyIfAdded definition) in
  match cycle with
  | None => fun _ => OutOfFuel
  | Some cyclePath =>
      if negb (Nat.eqb (length missingInputs) 0) || negb (Nat.eqb (length problemInputs) 0)
         || isSome conflictInfo || isSome cyclePath
      then
        let reason :=
          match cyclePath, conflictInfo with
          | Some path, _ => PR_circular_dependency path
          | None, Some info => PR_duplicate_output info.2
          | None, None => PR_missing_input (missingInputs ++ problemInputs)
          end in
        _createProblemComputation fuel definition reason
          (fold_left (fun s id => set_add_str id s) (missingInputs ++ problemInputs) []) ;;
        ret Problematic
      else
        let* initialCauseAt := gets (computeInitialCauseAt definition) in
        let* dirtyCount := gets (countInitialDirtyInputs (d_inputs definition)) in
        match dirtyCount with
        | inl e => throw e
        | inr initialDirtyInputCount =>
            let* computation :=
              allocComp (set_c_scheduler true
                           (newComputation (d_id definition)
                              (fold_left (fun s id => set_add_str id s) (d_inputs definition) [])
                              [] (d_body definition)
                              initialCauseAt initialDirtyInputCount 0 0 true)) in
            modify (fun k => set_computations
                               (omap_set (d_id definition) computation (k_computations k)) k) ;;
            forM (fun outputId =>
                    let* variable := allocVar (newVariable outputId Uninitialized 0
                                                 initialCauseAt true (Some computation)) in
                    modify (fun k => set_variables (<[outputId := variable]> (k_variables k)) k) ;;
                    modify (updC computation
                              (fun c => set_c_outputs (omap_set outputId variable (c_outputs c)) c)))
                 (d_outputs definition) ;;
            modify (establishDependencies definition computation) ;;
            ret Healthy
        end
  end.

(** ** Repair engine (module_repair_engine.ts) *)

Definition getMissingInputsList (definition : ComputationDefinition) (k : Kernel) : list string :=
  List.filter (fun input => negb (isSome (k_variables k !! input))) (d_inputs definition).

Definition hasOutputConflicts (definition : ComputationDefinition) (k : Kernel) : bool :=
  existsb (fun outId => isSome (k_variables k !! outId)) (d_outputs definition).

Definition canRecover (c : Comp) (k : Kernel) : bool :=
  match c_definition c with
  | Some def => Nat.eqb (length (getMissingInputsList def k)) 0 && negb (hasOutputConflicts def k)
  | None => false
  end.

(** [createComputationObject] *)
Definition createComputationObject (definition : ComputationDefinition)
    (staticInputs : list string) (outputsMap : list (string * vref))
    (initialDirtyInputCount initialCauseAt : Z) : M cref :=
  let* newComp :=
    allocComp (set_c_scheduler true
                 (newComputation (d_id definition) staticInputs outputsMap (d_body definition)
                    initialCauseAt initialDirtyInputCount 0 0 true)) in
  forM (fun inputId =>
          modify (fun k =>
                    match k_variables k !! inputId with
                    | Some variable =>
                        updC newComp (fun c => set_c_runtimeInputs
                                                 (set_add_nat variable (c_runtimeInputs c)) c) k
                    | None => k
                    end))
       staticInputs ;;
  modify (fun k => set_computations (omap_set (d_id definition) newComp (k_computations k)) k) ;;
  ret newComp.

Definition establishInputDependencies (definition : ComputationDefinition) (computation : cref)
    (k : Kernel) : Kernel :=
  fold_left (fun k inputId =>
               match k_variables k !! inputId with
               | Some inputVariable =>
                   updV inputVariable
                     (fun v => set_v_dependents (set_add_nat computation (v_dependents v)) v) k
               | None => k
               end)
            (d_inputs definition) k.

Fixpoint recoverComputation (fuel : nat) (comp : cref) {struct fuel} : M unit :=
  match fuel with
  | O => fun _ => OutOfFuel
  | S fuel' =>
      let* c := gets (fun k => k_comps k !! comp) in
      match c with
      | Some c =>
          match c_definition c with
          | Some def =>
              let* initialCauseAt := gets (computeInitialCauseAt def) in
              (* 1. *)
              let* outputsMap :=
                (fix prepare (outs : list string) (acc : list (string * vref))
                   : M (list (string * vref)) :=
                   match outs with
                   | [] => ret acc
                   | outId :: rest =>
                       let* taken := gets (fun k => isSome (k_variables k !! outId)) in
                       if (taken : bool) then
                         throw (JsError ("Recovery failed: Output " +:+ outId +:+ " conflict."))
                       else
                         let* variable :=
                           match assoc outId (c_outputs c) with
                           | Some variable =>
                               modify (fun k => set_problem_variables
                                                  (delete outId (k_problem_variables k)) k) ;;
                               modify (updV variable
                                         (fun v => set_v_producer None
                                                     (set_v_dirty true
                                                        (set_v_cause_at initialCauseAt
                                                           (set_v_value_at 0
                                                              (set_v_result Uninitialized v)))))) ;;
                               ret variable
                           | None =>
                               allocVar (newVariable outId Uninitialized 0 initialCauseAt true None)
                           end in
                         modify (fun k => set_variables (<[outId := variable]> (k_variables k)) k) ;;
                         prepare rest (omap_set outId variable acc)
                   end) (d_outputs def) [] in
              modify (fun k => set_problem_computations
                                 (omap_delete (c_id c) (k_problem_computations k)) k) ;;
              (* 2. *)
              let staticInputs := fold_left (fun s id => set_add_str id s) (d_inputs def) [] in
              let* dirtyCount := gets (countInitialDirtyInputs (d_inputs def)) in
              match dirtyCount with
              | inl e => throw e
              | inr initialDirtyInputCount =>
                  let* newComp := createComputationObject def staticInputs outputsMap
                                    initialDirtyInputCount initialCauseAt in
                  forM (fun (o : string * vref) =>
                          modify (updV o.2 (set_v_producer (Some newComp))))
                       outputsMap ;;
                  modify (establishInputDependencies def newComp) ;;
                  forM (fun (o : string * vref) =>
                          let* v := gets (fun k => k_vars k !! o.2) in
                          match v with
                          | Some variable =>
                              if v_observeCount variable >? 0 then
                                (fun k =>
                                   match k_comps k !! newComp with
                                   | Some nc =>
                                       Ok tt (set_observeCount newComp
                                                (c_observeCount nc + v_observeCount variable) k)
                                   | None => Ok tt k
                                   end) ;;
                                (fun k =>
                                   match k_comps k !! newComp with
                                   | Some nc =>
                                       forM (fun input =>
                                               _propagateObserveCountUpward fuel' input
                                                 (v_observeCount variable))
                                            (c_runtimeInputs nc) k
                                   | None => Ok tt k
                                   end)
                              else ret tt
                          | None => ret tt
                          end)
                       outputsMap ;;
                  (* 3. *)
                  forM (fun out => _tryRepairUndefinedInputs fuel' out) (d_outputs def) ;;
                  _tryRepairCircularDependencies fuel'
              end
          | None => ret tt
          end
      | None => ret tt
      end
  end

with _tryRepairUndefinedInputs (fuel : nat) (changedVarId : string) {struct fuel} : M unit :=
  match fuel with
  | O => fun _ => OutOfFuel
  | S fuel' =>
      let* candidates :=
        gets (fun k =>
                flat_map (fun e : string * cref =>
                            match k_comps k !! e.2 with
                            | Some c =>
                                match c_missingInputs c with
                                | Some s => if set_has_str changedVarId s then [c_id c] else []
                                | None => []
                                end
                            | None => []
                            end) (k_problem_computations k)) in
      forM (fun compId =>
              let* pc := gets (fun k => assoc compId (k_problem_computations k)) in
              match pc with
              | None => ret tt
              | Some comp =>
                  modify (updC comp (fun c =>
                            match c_missingInputs c with
                            | Some s => set_c_missingInputs (Some (set_delete_str changedVarId s)) c
                            | None => c
                            end)) ;;
                  let* c := gets (fun k => k_comps k !! comp) in
                  match c with
                  | Some c =>
                      match c_definition c with
                      | Some def =>
                          let* missingInputs := gets (getMissingInputsList def) in
                          let* conflicts := gets (hasOutputConflicts def) in
                          if Nat.eqb (length missingInputs) 0 && negb conflicts
                          then recoverComputation fuel' comp
                          else
                            (if negb (Nat.eqb (length missingInputs) 0)
                             then modify (updC comp (set_c_missingInputs
                                                       (Some (fold_left (fun s id => set_add_str id s)
                                                                missingInputs []))))
                             else ret tt) ;;
                            modify (updateProblemReason comp)
                      | None => ret tt
                      end
                  | None => ret tt
                  end
              end)
           candidates
  end

with _tryRepairCircularDependencies (fuel : nat) {struct fuel} : M unit :=
  match fuel with
  | O => fun _ => OutOfFuel
  | S fuel' =>
      let* candidates := gets (fun k => map fst (k_problem_computations k)) in
      forM (fun compId =>
              let* pc := gets (fun k => assoc compId (k_problem_computations k)) in
              match pc with
              | None => ret tt
              | Some comp =>
                  let* c := gets (fun k => k_comps k !! comp) in
                  match c with
                  | Some c =>
                      let* recoverable := gets (canRecover c) in
                      if (recoverable : bool) then recoverComputation fuel' comp
                      else
                        match c_definition c, c_problemReason c with
                        | Some def, Some (PR_circular_dependency _) =>
                            let* cycle := gets (detectCircularDependencyIfAdded def) in
                            match cycle with
                            | None => fun _ => OutOfFuel
                            | Some (Some _) => ret tt
                            | Some None =>
                                let* missingInputs := gets (getMissingInputsList def) in
                                let newReason := PR_missing_input missingInputs in
                                modify (updC comp (set_c_problemReason (Some newReason))) ;;
                                forM (fun (o : string * vref) =>
                                        modify (fun k =>
                                          match k_vars k !! o.2 with
                                          | Some outVar =>
                                              match v_result outVar with
                                              | Fatal err =>
                                                  notifySwallow o.2
                                                    (updV o.2
                                                       (set_v_result
                                                          (Fatal {|
                                                             se_reason := MissingInput;
                                                             se_details :=
                                                               {| sd_computationId := sd_computationId (se_details err);
                                                                  sd_missingInputs := Some missingInputs;
                                                                  sd_cyclePath := sd_cyclePath (se_details err);
                                                                  sd_definitionError := sd_definitionError (se_details err);
                                                                  sd_conflictsWith := sd_conflictsWith (se_details err) |} |}))
                                                       k)
                                              | _ => k
                                              end
                                          | None => k
                                          end))
                                     (c_outputs c)
                            end
                        | Some def, _ =>
                            (* the cycle test is still evaluated *)
                            let* cycle := gets (detectCircularDependencyIfAdded def) in
                            match cycle with
                            | None => fun _ => OutOfFuel
                            | Some _ => ret tt
                            end
                        | None, _ => ret tt
                        end
                  | None => ret tt
                  end
              end)
           candidates
  end.

(** [_tryRepairOutputConflicts] *)
Definition _tryRepairOutputConflicts (fuel : nat) (releasedOutputId : string) : M unit :=
  let* waiters := gets (fun k => k_outputWaiters k !! releasedOutputId) in
  match waiters with
  | None | Some [] => ret tt
  | Some candidates =>
      forM (fun compId =>
              let* pc := gets (fun k => assoc compId (k_problem_computations k)) in
              match pc with
              | None =>
                  (* lazy cleanup *)
                  modify (fun k => set_outputWaiters
                                     (alter (set_delete_str compId) releasedOutputId
                                            (k_outputWaiters k)) k)
              | Some comp =>
                  let* c := gets (fun k => k_comps k !! comp) in
                  match c with
                  | Some c =>
                      let* recoverable := gets (canRecover c) in
                      if (recoverable : bool) then recoverComputation fuel comp
                      else
                        match c_problemReason c, c_definition c with
                        | Some (PR_duplicate_output _), Some def =>
                            forM (fun outId =>
                                    modify (fun k =>
                                      match lookupVar outId k with
                                      | Some r =>
                                          match k_vars k !! r with
                                          | Some existing =>
                                              match producerIdOf existing k with
                                              | Some pid =>
                                                  if negb (String.eqb pid (c_id c))
                                                  then updC comp (set_c_problemReason
                                                                    (Some (PR_duplicate_output pid))) k
                                                  else k
                                              | None => k
                                              end
                                          | None => k
                                          end
                                      | None => k
                                      end))
                                 (d_outputs def)
                        | _, _ => ret tt
                        end
                  | None => ret tt
                  end
              end)
           candidates
  end.

(** ** Lifecycle operations (module_base.ts) and the public definitions *)

Definition removeProblemComputation (fuel : nat) (id : string) (comp : cref) : M bool :=
  let* c := gets (fun k => k_comps k !! comp) in
  modify (fun k => set_problem_computations (omap_delete id (k_problem_computations k)) k) ;;
  forM (fun out =>
          modify (fun k => set_variables (delete out (k_variables k)) k) ;;
          modify (fun k => set_problem_variables (delete out (k_problem_variables k)) k) ;;
          _tryRepairOutputConflicts fuel out)
       (match c with Some c => map fst (c_outputs c) | None => [] end) ;;
  _tryRepairCircularDependencies fuel ;;
  ret true.

(** [removeComputation]; the result is the [success] field of the status. *)
Definition removeComputation (fuel : nat) (id : string) : M bool :=
  let* pc := gets (fun k => assoc id (k_problem_computations k)) in
  match pc with
  | Some comp => removeProblemComputation fuel id comp
  | None =>
      let* hc := gets (fun k => assoc id (k_computations k)) in
      match hc with
      | None => ret false
      | Some comp =>
          let* c := gets (fun k => k_comps k !! comp) in
          match c with
          | None => ret false
          | Some c =>
              modify (abortTask comp (AbortOther "removeComputation")) ;;
              let outputs := map fst (c_outputs c) in
              (* dependents, found before the variables are deleted *)
              let* affectedDependents :=
                gets (fun k =>
                        fold_left (fun acc outputId =>
                                     match k_variables k !! outputId with
                                     | Some r =>
                                         match k_vars k !! r with
                                         | Some v => fold_left (fun acc dep => set_add_nat dep acc)
                                                               (v_dependents v) acc
                                         | None => acc
                                         end
                                     | None => acc
                                     end) outputs []) in
              (* cleanup *)
              forM (fun outputId =>
                      modify (fun k => set_variables (delete outputId (k_variables k)) k) ;;
                      _tryRepairOutputConflicts fuel outputId)
                   outputs ;;
              (fun k =>
                 match k_comps k !! comp with
                 | Some c1 =>
                     forM (fun inputVar =>
                             modify (updV inputVar
                                       (fun v => set_v_dependents
                                                   (set_delete_nat comp (v_dependents v)) v)) ;;
                             (fun k =>
                                match k_comps k !! comp with
                                | Some c2 =>
                                    if c_observeCount c2 >? 0
                                    then _propagateObserveCountUpward fuel inputVar
                                           (- c_observeCount c2) k
                                    else Ok tt k
                                | None => Ok tt k
                                end))
                          (c_runtimeInputs c1) k
                 | None => Ok tt k
                 end) ;;
              modify (fun k => set_computations (omap_delete id (k_computations k)) k) ;;
              (* recursive marking *)
              forM (fun dep =>
                      let* d := gets (fun k => k_comps k !! dep) in
                      match d with
                      | Some d =>
                          let* missing :=
                            gets (fun k =>
                                    flat_map (fun r =>
                                                match k_vars k !! r with
                                                | Some v => if set_has_str (v_id v) outputs
                                                            then [v_id v] else []
                                                | None => []
                                                end) (c_runtimeInputs d)) in
                          let missingIds := match missing with [] => outputs | _ => missing end in
                          let* healthy := gets (fun k => omap_has (c_id d) (k_computations k)) in
                          if (healthy : bool)
                          then markComputationAsProblem fuel dep (PR_missing_input missingIds)
                          else modify (addMissingToProblem (c_id d) missingIds)
                      | None => ret tt
                      end)
                   affectedDependents ;;
              _tryRepairCircularDependencies fuel ;;
              ret true
          end
      end
  end.

(** Public [defineSource(definition)] (no options). *)
Definition defineSource (fuel : nat) (id : string) (initialValue : option Value) : M Status :=
  let* existing := gets (fun k => k_variables k !! id) in
  match existing with
  | Some _ => ret Problematic
  | None =>
      _defineSource id initialValue ;;
      _tryRepairUndefinedInputs fuel id ;;
      ret Healthy
  end.

(** The "mark cycle" phase of [defineNewComputation]. *)
Definition markCycle (fuel : nat) (ownId : string) (cycle : list string) : M unit :=
  forM (fun nodeId =>
          if String.eqb nodeId ownId then ret tt
          else
            let* node := gets (fun k => assoc nodeId (k_computations k)) in
            match node with
            | Some node => markComputationAsProblem fuel node (PR_circular_dependency cycle)
            | None =>
                let* probNode := gets (fun k => assoc nodeId (k_problem_computations k)) in
                match probNode with
                | Some probNode =>
                    modify (updC probNode (set_c_problemReason (Some (PR_circular_dependency cycle)))) ;;
                    (fun k =>
                       match k_comps k !! probNode with
                       | Some pc =>
                           forM (fun (o : string * vref) =>
                                   modify (fun k =>
                                     match k_vars k !! o.2 with
                                     | Some output =>
                                         match v_result output with
                                         | Fatal err =>
                                             notifySwallow o.2
                                               (updV o.2
                                                  (set_v_result
                                                     (Fatal {|
                                                        se_reason := CircularDependency;
                                                        se_details :=
                                                          {| sd_computationId := sd_computationId (se_details err);
                                                             sd_missingInputs := sd_missingInputs (se_details err);
                                                             sd_cyclePath := Some cycle;
                                                             sd_definitionError := sd_definitionError (se_details err);
                                                             sd_conflictsWith := sd_conflictsWith (se_details err) |} |}))
                                                  k)
                                         | _ => k
                                         end
                                     | None => k
                                     end))
                                (c_outputs pc) k
                       | None => Ok tt k
                       end)
                | None => ret tt
                end
            end)
       cycle.

(** Public [defineComputation(definition)] (no options): an existing id is
    refused, a new one goes through [defineNewComputation]. *)
Definition defineComputation (fuel : nat) (definition : ComputationDefinition) : M Status :=
  let* existing := gets (fun k => omap_has (d_id definition) (k_computations k)
                                  || omap_has (d_id definition) (k_problem_computations k)) in
  if (existing : bool) then ret Problematic
  else
    _defineComputation fuel definition ;;
    let* pc := gets (fun k => assoc (d_id definition) (k_problem_computations k)) in
    match pc with
    | Some comp =>
        forM (fun out => _tryRepairUndefinedInputs fuel out) (d_outputs definition) ;;
        let* c := gets (fun k => k_comps k !! comp) in
        match c with
        | Some c =>
            match c_problemReason c with
            | Some (PR_circular_dependency cycle) => markCycle fuel (d_id definition) cycle
            | _ => ret tt
            end
        | None => ret tt
        end ;;
        ret Problematic
    | None =>
        forM (fun out => _tryRepairUndefinedInputs fuel out) (d_outputs definition) ;;
        ret Healthy
    end.

(** The empty kernel of [new ReactiveModule()]. *)
Definition emptyKernel : Kernel :=
  {| k_logicalClock := 0; k_vars := ∅; k_comps := ∅; k_tasks := ∅;
     k_next_vref := 0%nat; k_next_cref := 0%nat; k_variables := ∅;
     k_computations := []; k_problem_variables := ∅; k_problem_computations := [];
     k_outputWaiters := ∅; k_readyQueue := []; k_scheduleScheduled := false;
     k_runningTasksCount := 0; k_taskIdCounter := 0%nat; k_calls := []; k_log := [] |}.

(** Run a list of operations, stopping at the first that does not return. *)
Definition run {A} (m : M A) (k : Kernel) : option Kernel :=
  match m k with Ok _ k' => Some k' | _ => None end.

(** * Properties *)

(** ** The state function *)

Lemma state_Idle_iff (c : Comp) :
  state c = Idle <-> c_dirty c = false \/ c_observeCount c = 0.
Proof.
  unfold state.
  destruct (c_dirty c); simpl.
  - destruct (Z.eqb_spec (c_observeCount c) 0) as [E|E].
    + split; auto.
    + destruct (c_dirtyInputCount c >? 0); split; try discriminate;
        intros [H|H]; congruence.
  - split; auto.
Qed.

(** A run of the public API that withdraws an observation twice.  [P]
    feeds [Y], [Y] feeds [W], and [w] is observed, so each of the three
    computations counts one observer.  [removeComputation('Y')] withdraws
    [Y]'s count from [p] and [P], but leaves [Y.runtimeInputs] and the
    producer of [y] in place; marking [W] as a problem then withdraws [W]'s
    count from [y], and through the removed [Y] from [p] and [P] again. *)
Definition defP : ComputationDefinition :=
  {| d_id := "P"; d_inputs := ["x"]; d_outputs := ["p"]; d_body := 1%nat |}.
Definition defYp : ComputationDefinition :=
  {| d_id := "Y"; d_inputs := ["p"]; d_outputs := ["y"]; d_body := 2%nat |}.
Definition defWy : ComputationDefinition :=
  {| d_id := "W"; d_inputs := ["y"]; d_outputs := ["w"]; d_body := 3%nat |}.

Definition doubleWithdrawal : Outcome bool :=
  (defineSource 8 "x" (Some (VNum 1)) ;;
   defineComputation 8 defP ;;
   defineComputation 8 defYp ;;
   defineComputation 8 defWy ;;
   _observe 8 "w" {| obs_id := 1; obs_run := fun _ => None |} ;;
   removeComputation 8 "Y") emptyKernel.

(** C6.  (1) [state] is the function of (dirty, observeCount,
    dirtyInputCount) that the getter computes; [runningTask] (and
    [abortingTasks]) do not enter it, and two computations that agree on the
    three fields are in the same state, so nothing else can set it.
    (2) The getter tests [observeCount === 0] and [dirtyInputCount > 0]; on
    non-negative counters that is the three-state table of the claim and of
    the getter's own documentation.
    (3) The table fails on a state the public API reaches: after
    [doubleWithdrawal] the healthy computation [P] has [observeCount = -1];
    it is dirty, so its state is Ready and it is in the ready queue, with no
    observer anywhere above it. *)
Theorem C6_state_is_pure_function :
  (forall c : Comp,
     (state c = Idle <-> c_dirty c = false \/ c_observeCount c = 0) /\
     (state c = Pending <->
        c_dirty c = true /\ c_observeCount c <> 0 /\ c_dirtyInputCount c > 0) /\
     (state c = Ready <->
        c_dirty c = true /\ c_observeCount c <> 0 /\ c_dirtyInputCount c <= 0) /\
     (forall task aborting,
        state (set_c_abortingTasks aborting (set_c_runningTask task c)) = state c) /\
     (forall c',
        c_dirty c' = c_dirty c ->
        c_observeCount c' = c_observeCount c ->
        c_dirtyInputCount c' = c_dirtyInputCount c ->
        state c' = state c)) /\
  (forall c : Comp,
     0 <= c_observeCount c -> 0 <= c_dirtyInputCount c ->
     (state c = Idle <-> c_dirty c = false \/ c_observeCount c = 0) /\
     (state c = Pending <->
        c_dirty c = true /\ c_observeCount c > 0 /\ c_dirtyInputCount c > 0) /\
     (state c = Ready <->
        c_dirty c = true /\ c_observeCount c > 0 /\ c_dirtyInputCount c = 0)) /\
  (exists k c,
     doubleWithdrawal = Ok true k /\
     k_computations k = [("P", 0%nat)] /\ k_comps k !! 0%nat = Some c /\
     c_dirty c = true /\ c_observeCount c = -1 /\ c_dirtyInputCount c = 0 /\
     state c = Ready /\ In 0%nat (k_readyQueue k) /\
     ~ (c_dirty c = true /\ c_observeCount c > 0 /\ c_dirtyInputCount c = 0)).
Proof.
  assert (T : forall c : Comp,
            (state c = Pending <->
               c_dirty c = true /\ c_observeCount c <> 0 /\ c_dirtyInputCount c > 0) /\
            (state c = Ready <->
               c_dirty c = true /\ c_observeCount c <> 0 /\ c_dirtyInputCount c <= 0)).
  { intros c. unfold state.
    destruct (c_dirty c); cbn [negb orb];
      destruct (Z.eqb_spec (c_observeCount c) 0) as [E|E];
      destruct (Z.gtb_spec (c_dirtyInputCount c) 0) as [G|G];
      (split;
       (split;
        [intros H; first [discriminate H
                         |repeat split; first [reflexivity|assumption|lia]]
        |intros (A & B & C); first [reflexivity|discriminate A|exfalso; lia]])). }
  split; [|split].
  - intros c. split; [apply state_Idle_iff|]. destruct (T c) as [TP TR].
    split; [exact TP|]. split; [exact TR|]. split; [reflexivity|].
    intros c' Hd Ho Hi. unfold state. rewrite Hd, Ho, Hi. reflexivity.
  - intros c Hobs Hdic. split; [apply state_Idle_iff|]. destruct (T c) as [TP TR]. split.
    + rewrite TP. split; intros (A & B & C); repeat split; auto; lia.
    + rewrite TR. split; intros (A & B & C); repeat split; auto; lia.
  - exists (finalState doubleWithdrawal emptyKernel),
           (match k_comps (finalState doubleWithdrawal emptyKernel) !! 0%nat with
            | Some c => c
            | None => newComputation "" [] [] 0 0 0 0 0 false
            end).
    split; [vm_compute; reflexivity|]. split; [vm_compute; reflexivity|].
    split; [vm_compute; reflexivity|]. split; [vm_compute; reflexivity|].
    split; [vm_compute; reflexivity|]. split; [vm_compute; reflexivity|].
    split; [vm_compute; reflexivity|]. split; [vm_compute; auto|].
    intros (_ & H & _). vm_compute in H. discriminate H.
Qed.

Definition sampleComp : Comp :=
  set_c_runningTask (Some 7%nat) (newComputation "c" ["x"] [] 0 3 0 0 2 true).

Lemma C6_state_is_pure_function_witness :
  state sampleComp = Ready /\
  (state sampleComp = Ready <->
     c_dirty sampleComp = true /\ c_observeCount sampleComp > 0 /\
     c_dirtyInputCount sampleComp = 0).
Proof.
  split; [reflexivity|].
  apply (proj1 (proj2 C6_state_is_pure_function) sampleComp); simpl; lia.
Defined.

(** ** getValue *)

(** C2, the public [getValue]: a success resolves with its value, an error
    result throws the stored error, an uninitialized result throws an
    "uninitialized" error -- and a fatal result throws that same
    "uninitialized" error, which does not carry the structural error. *)
Theorem C2_getValue_by_result (variableId : string) (k : Kernel) :
  (forall value, getValue_resume variableId (Success value) k = Ok value k) /\
  (forall error, getValue_resume variableId (Error error) k = Throw error k) /\
  getValue_resume variableId Uninitialized k =
    Throw (JsError ("Variable " +:+ variableId +:+ " is uninitialized and has no value.")) k /\
  (forall structural,
     getValue_resume variableId (Fatal structural) k =
       getValue_resume variableId Uninitialized k /\
     getValue_resume variableId (Fatal structural) k <> Throw (ExnStructural structural) k /\
     _getValue_resume (Fatal structural) k = Throw (ExnStructural structural) k).
Proof.
  repeat split; intros; try reflexivity.
  unfold getValue_resume, throw, JsError. intros H. discriminate H.
Qed.

(** ** What the setters of a computation can touch *)

(** Everything of the kernel except the computation and task heaps, the
    ready queue and the log. *)
Definition core (k : Kernel) :=
  (k_logicalClock k, k_vars k, k_next_vref k, k_next_cref k, k_variables k,
   k_computations k, k_problem_variables k, k_problem_computations k,
   k_outputWaiters k, k_runningTasksCount k, k_taskIdCounter k, k_calls k).

(** [c'] is [c] up to [runningTask] and [abortingTasks]. *)
Definition ctl (c c' : Comp) : Prop :=
  c' = set_c_abortingTasks (c_abortingTasks c') (set_c_runningTask (c_runningTask c') c).

Lemma ctl_refl c : ctl c c.
Proof. destruct c; reflexivity. Qed.

Lemma ctl_trans c1 c2 c3 : ctl c1 c2 -> ctl c2 c3 -> ctl c1 c3.
Proof.
  unfold ctl. intros H12 H23. rewrite H23. rewrite H12.
  destruct c1; reflexivity.
Qed.

Lemma ctl_state c c' : ctl c c' -> state c' = state c.
Proof. intros H. rewrite H. reflexivity. Qed.

(** Pointwise relation between two heaps. *)
Definition heap_rel {A} (R : A -> A -> Prop) (m m' : gmap nat A) : Prop :=
  forall r, option_Forall2 R (m !! r) (m' !! r).

Lemma heap_rel_refl {A} (R : A -> A -> Prop) (m : gmap nat A) : (forall c, R c c) -> heap_rel R m m.
Proof. intros HR r. destruct (m !! r); constructor; auto. Qed.

Lemma heap_rel_trans {A} (R : A -> A -> Prop) (m1 m2 m3 : gmap nat A) :
  (forall a b c, R a b -> R b c -> R a c) ->
  heap_rel R m1 m2 -> heap_rel R m2 m3 -> heap_rel R m1 m3.
Proof.
  intros HR H12 H23 r. specialize (H12 r). specialize (H23 r).
  destruct H12; inversion H23; subst; constructor; eauto.
Qed.

Lemma heap_rel_alter {A} (R : A -> A -> Prop) f r (m : gmap nat A) :
  (forall c, R c c) -> (forall c, m !! r = Some c -> R c (f c)) ->
  heap_rel R m (alter f r m).
Proof.
  intros Hrefl Hf r'. destruct (decide (r = r')) as [->|Hne].
  - rewrite lookup_alter_eq. destruct (m !! r') eqn:E; simpl; constructor; auto.
  - rewrite lookup_alter_ne by done. destruct (m !! r'); constructor; auto.
Qed.

Lemma heap_rel_impl {A} (R R' : A -> A -> Prop) (m m' : gmap nat A) :
  (forall a b, R a b -> R' a b) -> heap_rel R m m' -> heap_rel R' m m'.
Proof. intros H Hm r. destruct (Hm r); constructor; auto. Qed.

Lemma heap_rel_lookup {A} (R : A -> A -> Prop) (m m' : gmap nat A) r c :
  heap_rel R m m' -> m !! r = Some c -> exists c', m' !! r = Some c' /\ R c c'.
Proof. intros H E. specialize (H r). rewrite E in H. inversion H; subst. eauto. Qed.

Lemma heap_rel_lookup_r {A} (R : A -> A -> Prop) (m m' : gmap nat A) r c' :
  heap_rel R m m' -> m' !! r = Some c' -> exists c, m !! r = Some c /\ R c c'.
Proof. intros H E. specialize (H r). rewrite E in H. inversion H; subst. eauto. Qed.

Lemma heap_rel_size {A} (R : A -> A -> Prop) (m m' : gmap nat A) : heap_rel R m m' -> size m' = size m.
Proof.
  intros H. rewrite <- !size_dom. f_equal. apply set_eq. intros r.
  rewrite !elem_of_dom. specialize (H r).
  destruct H; split; intros [? ?]; try discriminate; eauto.
Qed.

(** The scheduling side effects of a setter: aborting the running task and
    queueing the computation. *)
Definition sched_step (k k' : Kernel) : Prop :=
  core k' = core k /\ heap_rel ctl (k_comps k) (k_comps k').

Lemma sched_step_refl k : sched_step k k.
Proof. split; [reflexivity|]. apply heap_rel_refl, ctl_refl. Qed.

Lemma sched_step_trans k1 k2 k3 : sched_step k1 k2 -> sched_step k2 k3 -> sched_step k1 k3.
Proof.
  intros [C12 H12] [C23 H23]. split; [congruence|].
  eapply heap_rel_trans; eauto using ctl_trans.
Qed.

Lemma addToReadyQueue_sched r k : sched_step k (addToReadyQueue r k).
Proof.
  unfold addToReadyQueue. destruct (k_comps k !! r); [|apply sched_step_refl].
  destruct (_ && _); [|apply sched_step_refl].
  split; [reflexivity|]. apply heap_rel_refl, ctl_refl.
Qed.

Lemma checkScheduleNeeded_sched r s k : sched_step k (checkScheduleNeeded r s k).
Proof.
  unfold checkScheduleNeeded. destruct (k_comps k !! r); [|apply sched_step_refl].
  destruct (_ && _); [apply addToReadyQueue_sched|apply sched_step_refl].
Qed.

Lemma abortTask_sched r why k : sched_step k (abortTask r why k).
Proof.
  unfold abortTask. destruct (k_comps k !! r) as [c|] eqn:E; [|apply sched_step_refl].
  destruct (c_runningTask c) as [task|]; [|apply sched_step_refl].
  eapply sched_step_trans; [|apply checkScheduleNeeded_sched].
  split; [reflexivity|]. simpl.
  apply heap_rel_alter; [apply ctl_refl|].
  intros c0 _. destruct c0; reflexivity.
Qed.

Lemma checkAbortNeeded_sched r s1 s2 k : sched_step k (checkAbortNeeded r s1 s2 k).
Proof.
  unfold checkAbortNeeded. destruct (k_comps k !! r) as [c|]; [|apply sched_step_refl].
  destruct (_ || _); [apply sched_step_refl|].
  destruct s2; try apply sched_step_refl; try apply abortTask_sched.
  destruct (c_dirty c); [apply abortTask_sched|apply sched_step_refl].
Qed.

Lemma onStateChange_sched r s k : sched_step k (onStateChange r s k).
Proof.
  unfold onStateChange. destruct (k_comps k !! r) as [c|]; [|apply sched_step_refl].
  destruct (ComputationState_eqb _ _); [apply sched_step_refl|].
  eapply sched_step_trans; [apply checkAbortNeeded_sched|apply checkScheduleNeeded_sched].
Qed.

Lemma checkAbortOnCauseAtChange_sched r t1 t2 k :
  sched_step k (checkAbortOnCauseAtChange r t1 t2 k).
Proof.
  unfold checkAbortOnCauseAtChange.
  destruct (k_comps k !! r) as [c|]; [|apply sched_step_refl].
  destruct (c_runningTask c); [|apply sched_step_refl].
  destruct (k_tasks k !! _); [|apply sched_step_refl].
  destruct (_ <? _); [apply abortTask_sched|apply sched_step_refl].
Qed.

Lemma updC_id_sched r f k :
  (forall c, ctl c (f c)) -> sched_step k (updC r f k).
Proof.
  intros Hf. split; [reflexivity|]. simpl.
  apply heap_rel_alter; [apply ctl_refl|auto].
Qed.

Lemma k_comps_updC r f k : k_comps (updC r f k) = alter f r (k_comps k).
Proof. reflexivity. Qed.

Lemma k_vars_updV r f k : k_vars (updV r f k) = alter f r (k_vars k).
Proof. reflexivity. Qed.

Lemma updC_noop_sched r f k :
  (forall c, k_comps k !! r = Some c -> ctl (f c) c) -> sched_step (updC r f k) k.
Proof.
  intros Hf. split; [reflexivity|]. rewrite k_comps_updC. intros r'.
  destruct (decide (r = r')) as [->|Hn].
  - rewrite lookup_alter_eq. destruct (k_comps k !! r') eqn:E; constructor; auto.
  - rewrite lookup_alter_ne by done. destruct (k_comps k !! r'); constructor.
    apply ctl_refl.
Qed.

(** Each setter is the field assignment followed by scheduling side effects. *)
Lemma set_dirty_spec r value k :
  sched_step (updC r (set_c_dirty value) k) (set_dirty r value k).
Proof.
  unfold set_dirty. destruct (k_comps k !! r) as [c|] eqn:E.
  - destruct (Bool.eqb_spec (c_dirty c) value) as [Heq|Hne].
    + apply updC_noop_sched. intros c0 E0. rewrite E in E0. injection E0 as <-.
      subst value. destruct c; reflexivity.
    + apply onStateChange_sched.
  - apply updC_noop_sched. intros c0 E0. congruence.
Qed.

Lemma set_observeCount_spec r value k :
  sched_step (updC r (set_c_observeCount value) k) (set_observeCount r value k).
Proof.
  unfold set_observeCount. destruct (k_comps k !! r) as [c|] eqn:E.
  - destruct (Z.eqb_spec (c_observeCount c) value) as [Heq|Hne].
    + apply updC_noop_sched. intros c0 E0. rewrite E in E0. injection E0 as <-.
      subst value. destruct c; reflexivity.
    + apply onStateChange_sched.
  - apply updC_noop_sched. intros c0 E0. congruence.
Qed.

Lemma set_dirtyInputCount_spec r value k :
  sched_step (updC r (set_c_dirtyInputCount value) k) (set_dirtyInputCount r value k).
Proof.
  unfold set_dirtyInputCount. destruct (k_comps k !! r) as [c|] eqn:E.
  - destruct (Z.eqb_spec (c_dirtyInputCount c) value) as [Heq|Hne].
    + apply updC_noop_sched. intros c0 E0. rewrite E in E0. injection E0 as <-.
      subst value. destruct c; reflexivity.
    + apply onStateChange_sched.
  - apply updC_noop_sched. intros c0 E0. congruence.
Qed.

Lemma set_cause_at_spec r value k :
  sched_step (updC r (set_c_cause_at value) k) (set_cause_at r value k).
Proof.
  unfold set_cause_at. destruct (k_comps k !! r) as [c|] eqn:E.
  - destruct (_ =? _); [apply sched_step_refl|apply checkAbortOnCauseAtChange_sched].
  - apply updC_noop_sched. intros c0 E0. congruence.
Qed.

(** ** Downward propagation: an induction principle *)

Lemma foldO_inv {A} (P : Kernel -> Prop) (f : A -> Kernel -> option Kernel) (l : list A) :
  forall k k',
    (forall x k k', In x l -> P k -> f x k = Some k' -> P k') ->
    P k -> foldO f l k = Some k' -> P k'.
Proof.
  induction l as [|x l IH]; simpl; intros k k' Hstep HP Hf.
  - congruence.
  - destruct (f x k) as [k1|] eqn:E; [|discriminate].
    apply (IH k1 k'); eauto.
Qed.

Section PropagateRel.
Variable R : Kernel -> Kernel -> Prop.
Hypothesis R_refl : forall k, R k k.
Hypothesis R_trans : forall k1 k2 k3, R k1 k2 -> R k2 k3 -> R k1 k3.
Hypothesis R_outputs : forall k k' comp c,
  R k k' -> k_comps k !! comp = Some c ->
  exists c', k_comps k' !! comp = Some c' /\ c_outputs c' = c_outputs c.
Hypothesis R_inc : forall comp src nd k,
  R k (tryIncrementDirtyInputCount comp src nd k).
Hypothesis R_head : forall comp t c k,
  k_comps k !! comp = Some c -> c_cause_at c < t ->
  R k (set_dirty comp true (updateCauseAt comp t k)).
Hypothesis R_out : forall comp c o output k,
  k_comps k !! comp = Some c -> In o (c_outputs c) ->
  k_vars k !! o.2 = Some output ->
  R k (updV o.2 (fun v => set_v_dirty true (set_v_cause_at (c_cause_at c) v)) k).

Lemma propagateCauseAtDownward_rel :
  forall fuel comp t src nd k k',
    propagateCauseAtDownward_fuel fuel comp t src nd k = Some k' -> R k k'.
Proof.
  induction fuel as [|fuel IH]; intros comp t src nd k k' H; [discriminate|].
  cbn [propagateCauseAtDownward_fuel] in H.
  set (k1 := tryIncrementDirtyInputCount comp src nd k) in *.
  assert (H01 : R k k1) by apply R_inc.
  destruct (k_comps k1 !! comp) as [c|] eqn:Ec.
  2:{ injection H as <-. exact H01. }
  destruct (Z.leb_spec t (c_cause_at c)) as [Hle|Hlt].
  { injection H as <-. exact H01. }
  set (k3 := set_dirty comp true (updateCauseAt comp t k1)) in *.
  assert (H13 : R k1 k3) by (eapply R_head; eauto).
  eapply R_trans; [exact H01|]. eapply R_trans; [exact H13|].
  revert H. apply (foldO_inv (fun kx => R k3 kx)); [|apply R_refl].
  intros o ka kb Hin HRa Hstep.
  destruct (k_vars ka !! o.2) as [output|] eqn:Ev.
  2:{ injection Hstep as <-. exact HRa. }
  destruct (k_comps ka !! comp) as [c'|] eqn:Ec'.
  2:{ injection Hstep as <-. exact HRa. }
  assert (Hc' : c_outputs c' = c_outputs c).
  { destruct (R_outputs k1 ka comp c (R_trans _ _ _ H13 HRa) Ec) as (c2 & E2 & Ho).
    congruence. }
  set (kc := updV o.2 _ ka) in *.
  assert (Hac : R ka kc).
  { eapply R_out; eauto. rewrite Hc'. exact Hin. }
  eapply R_trans; [exact HRa|]. eapply R_trans; [exact Hac|].
  revert Hstep. apply (foldO_inv (fun kx => R kc kx)); [|apply R_refl].
  intros d kd ke _ HRd Hd. eapply R_trans; [exact HRd|]. eapply IH; eauto.
Qed.
End PropagateRel.

(** ** Propagation only moves the dynamic fields *)

Definition base (k : Kernel) :=
  (k_logicalClock k, k_next_vref k, k_next_cref k, k_variables k,
   k_computations k, k_problem_variables k, k_problem_computations k,
   k_outputWaiters k, k_runningTasksCount k, k_taskIdCounter k, k_calls k).

(** [v'] is [v] up to [cause_at], [dirty] and [observeCount]. *)
Definition vdyn (v v' : Var) : Prop :=
  v' = set_v_observeCount (v_observeCount v')
         (set_v_dirty (v_dirty v') (set_v_cause_at (v_cause_at v') v)).

(** [c'] is [c] up to the four reactive fields and the task fields. *)
Definition cdyn (c c' : Comp) : Prop :=
  c' = set_c_dirty (c_dirty c')
         (set_c_observeCount (c_observeCount c')
            (set_c_dirtyInputCount (c_dirtyInputCount c')
               (set_c_cause_at (c_cause_at c')
                  (set_c_abortingTasks (c_abortingTasks c')
                     (set_c_runningTask (c_runningTask c') c))))).

Lemma vdyn_refl v : vdyn v v.
Proof. destruct v; reflexivity. Qed.
Lemma vdyn_trans v1 v2 v3 : vdyn v1 v2 -> vdyn v2 v3 -> vdyn v1 v3.
Proof. unfold vdyn. intros H1 H2. rewrite H2, H1. destruct v1; reflexivity. Qed.
Lemma cdyn_refl c : cdyn c c.
Proof. destruct c; reflexivity. Qed.
Lemma cdyn_trans c1 c2 c3 : cdyn c1 c2 -> cdyn c2 c3 -> cdyn c1 c3.
Proof. unfold cdyn. intros H1 H2. rewrite H2, H1. destruct c1; reflexivity. Qed.
Lemma ctl_cdyn c c' : ctl c c' -> cdyn c c'.
Proof. unfold ctl, cdyn. intros H. rewrite H. destruct c; reflexivity. Qed.

Definition dyn_step (k k' : Kernel) : Prop :=
  base k' = base k /\
  heap_rel vdyn (k_vars k) (k_vars k') /\
  heap_rel cdyn (k_comps k) (k_comps k').

Lemma dyn_step_refl k : dyn_step k k.
Proof.
  split; [reflexivity|]. split; apply heap_rel_refl; auto using vdyn_refl, cdyn_refl.
Qed.

Lemma dyn_step_trans k1 k2 k3 : dyn_step k1 k2 -> dyn_step k2 k3 -> dyn_step k1 k3.
Proof.
  intros (B1 & V1 & C1) (B2 & V2 & C2). split; [congruence|]. split.
  - eapply heap_rel_trans; eauto using vdyn_trans.
  - eapply heap_rel_trans; eauto using cdyn_trans.
Qed.

Lemma sched_dyn k k' : sched_step k k' -> dyn_step k k'.
Proof.
  intros [Hc Hr]. unfold core in Hc. injection Hc as ? ? ? ? ? ? ? ? ? ? ? ?.
  split; [unfold base; congruence|]. split.
  - replace (k_vars k') with (k_vars k) by congruence.
    apply heap_rel_refl, vdyn_refl.
  - eapply heap_rel_impl; [|exact Hr]. apply ctl_cdyn.
Qed.

Lemma updC_dyn r f k : (forall c, cdyn c (f c)) -> dyn_step k (updC r f k).
Proof.
  intros Hf. split; [reflexivity|]. split.
  - apply heap_rel_refl, vdyn_refl.
  - rewrite k_comps_updC. apply heap_rel_alter; auto using cdyn_refl.
Qed.

Lemma updV_dyn r f k : (forall v, vdyn v (f v)) -> dyn_step k (updV r f k).
Proof.
  intros Hf. split; [reflexivity|]. split.
  - rewrite k_vars_updV. apply heap_rel_alter; auto using vdyn_refl.
  - apply heap_rel_refl, cdyn_refl.
Qed.

Lemma set_dirty_dyn r b k : dyn_step k (set_dirty r b k).
Proof.
  eapply dyn_step_trans; [|apply sched_dyn, set_dirty_spec].
  apply updC_dyn. intros c; destruct c; reflexivity.
Qed.
Lemma set_observeCount_dyn r n k : dyn_step k (set_observeCount r n k).
Proof.
  eapply dyn_step_trans; [|apply sched_dyn, set_observeCount_spec].
  apply updC_dyn. intros c; destruct c; reflexivity.
Qed.
Lemma set_dirtyInputCount_dyn r n k : dyn_step k (set_dirtyInputCount r n k).
Proof.
  eapply dyn_step_trans; [|apply sched_dyn, set_dirtyInputCount_spec].
  apply updC_dyn. intros c; destruct c; reflexivity.
Qed.
Lemma set_cause_at_dyn r n k : dyn_step k (set_cause_at r n k).
Proof.
  eapply dyn_step_trans; [|apply sched_dyn, set_cause_at_spec].
  apply updC_dyn. intros c; destruct c; reflexivity.
Qed.

Lemma tryIncrementDirtyInputCount_dyn comp src nd k :
  dyn_step k (tryIncrementDirtyInputCount comp src nd k).
Proof.
  unfold tryIncrementDirtyInputCount.
  destruct src; [|apply dyn_step_refl].
  destruct (k_vars k !! _); [|apply dyn_step_refl].
  destruct (k_comps k !! comp); [|apply dyn_step_refl].
  destruct (_ || _); [apply dyn_step_refl|].
  destruct (_ && _); [apply set_dirtyInputCount_dyn|apply dyn_step_refl].
Qed.

Lemma dyn_step_comp k k' r c :
  dyn_step k k' -> k_comps k !! r = Some c ->
  exists c', k_comps k' !! r = Some c' /\ cdyn c c'.
Proof. intros (_ & _ & H) E. eapply heap_rel_lookup; eauto. Qed.

Lemma dyn_step_var k k' r v :
  dyn_step k k' -> k_vars k !! r = Some v ->
  exists v', k_vars k' !! r = Some v' /\ vdyn v v'.
Proof. intros (_ & H & _) E. eapply heap_rel_lookup; eauto. Qed.

Lemma cdyn_outputs c c' : cdyn c c' -> c_outputs c' = c_outputs c.
Proof. intros H. rewrite H. reflexivity. Qed.

Lemma dyn_step_outputs k k' comp c :
  dyn_step k k' -> k_comps k !! comp = Some c ->
  exists c', k_comps k' !! comp = Some c' /\ c_outputs c' = c_outputs c.
Proof.
  intros H E. destruct (dyn_step_comp _ _ _ _ H E) as (c' & E' & Hc).
  eauto using cdyn_outputs.
Qed.

Lemma propagateCauseAtDownward_dyn fuel comp t src nd k k' :
  propagateCauseAtDownward_fuel fuel comp t src nd k = Some k' -> dyn_step k k'.
Proof.
  apply propagateCauseAtDownward_rel.
  - apply dyn_step_refl.
  - apply dyn_step_trans.
  - apply dyn_step_outputs.
  - apply tryIncrementDirtyInputCount_dyn.
  - intros. eapply dyn_step_trans; [apply set_cause_at_dyn|apply set_dirty_dyn].
  - intros. apply updV_dyn. intros v; destruct v; reflexivity.
Qed.

Lemma dyn_step_clock k k' : dyn_step k k' -> k_logicalClock k' = k_logicalClock k.
Proof. intros (B & _). unfold base in B. congruence. Qed.

Lemma dyn_step_calls k k' : dyn_step k k' -> k_calls k' = k_calls k.
Proof. intros (B & _). unfold base in B. congruence. Qed.

Lemma dyn_step_size k k' : dyn_step k k' -> size (k_comps k') = size (k_comps k).
Proof. intros (_ & _ & H). eapply heap_rel_size; eauto. Qed.

(** ** Downward propagation terminates *)

Definition causeMap (k : Kernel) : gmap nat Z := c_cause_at <$> k_comps k.

(** Number of computation objects whose [cause_at] is below [t]. *)
Definition below (t : Z) (k : Kernel) : nat :=
  size (filter (fun p : nat * Z => p.2 < t) (causeMap k)).

Lemma heap_rel_fmap {A B} (R : A -> A -> Prop) (f : A -> B) (m m' : gmap nat A) :
  (forall a b, R a b -> f b = f a) -> heap_rel R m m' -> f <$> m' = f <$> m.
Proof.
  intros Hf H. apply map_eq. intros r. rewrite !lookup_fmap.
  destruct (H r) as [a b Hab|]; simpl; [|reflexivity]. f_equal. auto.
Qed.

Lemma sched_causeMap k k' : sched_step k k' -> causeMap k' = causeMap k.
Proof.
  intros [_ H]. unfold causeMap. eapply heap_rel_fmap; [|exact H].
  intros a b Hab. rewrite Hab. reflexivity.
Qed.

Lemma updC_causeMap r f k :
  (forall c, c_cause_at (f c) = c_cause_at c) -> causeMap (updC r f k) = causeMap k.
Proof.
  intros Hf. unfold causeMap. rewrite k_comps_updC. apply map_eq. intros r'.
  rewrite !lookup_fmap. destruct (decide (r = r')) as [->|Hn].
  - rewrite lookup_alter_eq. destruct (k_comps k !! r'); simpl; [|reflexivity].
    f_equal. auto.
  - rewrite lookup_alter_ne by done. reflexivity.
Qed.

Lemma set_dirty_causeMap r b k : causeMap (set_dirty r b k) = causeMap k.
Proof.
  rewrite (sched_causeMap _ _ (set_dirty_spec r b k)).
  apply updC_causeMap. reflexivity.
Qed.

Lemma set_dirtyInputCount_causeMap r n k : causeMap (set_dirtyInputCount r n k) = causeMap k.
Proof.
  rewrite (sched_causeMap _ _ (set_dirtyInputCount_spec r n k)).
  apply updC_causeMap. reflexivity.
Qed.

Lemma tryIncrementDirtyInputCount_causeMap comp src nd k :
  causeMap (tryIncrementDirtyInputCount comp src nd k) = causeMap k.
Proof.
  unfold tryIncrementDirtyInputCount.
  destruct src; [|reflexivity].
  destruct (k_vars k !! _); [|reflexivity].
  destruct (k_comps k !! comp); [|reflexivity].
  destruct (_ || _); [reflexivity|].
  destruct (_ && _); [apply set_dirtyInputCount_causeMap|reflexivity].
Qed.

Lemma set_cause_at_causeMap r t c k :
  k_comps k !! r = Some c ->
  causeMap (set_cause_at r t k) = <[r := t]> (causeMap k).
Proof.
  intros E. rewrite (sched_causeMap _ _ (set_cause_at_spec r t k)).
  unfold causeMap. rewrite k_comps_updC. apply map_eq. intros r'.
  destruct (decide (r = r')) as [->|Hn].
  - rewrite lookup_insert_eq, lookup_fmap, lookup_alter_eq, E. reflexivity.
  - rewrite lookup_insert_ne by done. rewrite !lookup_fmap.
    rewrite lookup_alter_ne by done. reflexivity.
Qed.

Lemma below_set_cause_at r t c k :
  k_comps k !! r = Some c -> c_cause_at c < t ->
  (below t k > 0)%nat /\ below t (set_cause_at r t k) = pred (below t k).
Proof.
  intros E Hlt. unfold below.
  rewrite (set_cause_at_causeMap r t c k E).
  assert (Hin : filter (fun p : nat * Z => p.2 < t) (causeMap k) !! r = Some (c_cause_at c)).
  { apply map_lookup_filter_Some. split; [|exact Hlt].
    unfold causeMap. rewrite lookup_fmap, E. reflexivity. }
  split.
  - assert (size (filter (fun p : nat * Z => p.2 < t) (causeMap k)) <> 0%nat); [|lia].
    apply map_size_ne_0_lookup. eauto.
  - rewrite map_filter_insert_False by (simpl; lia).
    rewrite map_filter_delete. apply map_size_delete_Some. eauto.
Qed.

Lemma below_le_size t k : (below t k <= size (k_comps k))%nat.
Proof.
  unfold below, causeMap.
  etransitivity; [apply map_subseteq_size, map_filter_subseteq|].
  rewrite map_size_fmap. reflexivity.
Qed.

Lemma foldO_total {A} (P : Kernel -> Prop) (f : A -> Kernel -> option Kernel) (l : list A) :
  forall k,
    P k ->
    (forall x k, In x l -> P k -> exists k', f x k = Some k' /\ P k') ->
    exists k', foldO f l k = Some k' /\ P k'.
Proof.
  induction l as [|x l IH]; simpl; intros k HP Hstep; [eauto|].
  destruct (Hstep x k) as (k1 & E & HP1); auto.
  rewrite E. apply IH; auto.
Qed.

Lemma propagateCauseAtDownward_terminates :
  forall fuel comp t src nd k,
    (below t k < fuel)%nat ->
    exists k', propagateCauseAtDownward_fuel fuel comp t src nd k = Some k' /\
               (below t k' <= below t k)%nat.
Proof.
  induction fuel as [|fuel IH]; intros comp t src nd k Hfuel; [lia|].
  cbn [propagateCauseAtDownward_fuel].
  set (k1 := tryIncrementDirtyInputCount comp src nd k).
  assert (B1 : below t k1 = below t k).
  { unfold below. subst k1. rewrite tryIncrementDirtyInputCount_causeMap. reflexivity. }
  destruct (k_comps k1 !! comp) as [c|] eqn:Ec; [|exists k1; split; [reflexivity|lia]].
  destruct (Z.leb_spec t (c_cause_at c)) as [Hle|Hlt];
    [exists k1; split; [reflexivity|lia]|].
  destruct (below_set_cause_at comp t c k1 Ec Hlt) as [Hpos Hpred].
  set (k3 := set_dirty comp true (updateCauseAt comp t k1)).
  assert (B3 : (below t k3 < fuel)%nat).
  { unfold below in *. subst k3. rewrite set_dirty_causeMap. unfold updateCauseAt. lia. }
  assert (B31 : (below t k3 <= below t k)%nat).
  { unfold below in *. subst k3. rewrite set_dirty_causeMap. unfold updateCauseAt. lia. }
  destruct (foldO_total (fun kx => (below t kx <= below t k3)%nat)
              (fun (o : string * vref) k =>
                 match k_vars k !! o.2, k_comps k !! comp with
                 | Some output, Some c' =>
                     let wasOutputDirty := v_dirty output in
                     let k' := updV o.2 (fun v => set_v_dirty true
                                                    (set_v_cause_at (c_cause_at c') v)) k in
                     foldO (fun downstreamComp k =>
                              propagateCauseAtDownward_fuel fuel downstreamComp
                                t (Some o.2) (negb wasOutputDirty) k)
                           (v_dependents output) k'
                 | _, _ => Some k
                 end) (c_outputs c) k3) as (k' & E & HB); [lia| |].
  - intros o ka _ Ha.
    destruct (k_vars ka !! o.2) as [output|]; [|eauto].
    destruct (k_comps ka !! comp) as [c'|]; [|eauto].
    cbv zeta.
    apply (foldO_total (fun kx => (below t kx <= below t k3)%nat)).
    + exact Ha.
    + intros d kd _ Hd. destruct (IH d t (Some o.2) (negb (v_dirty output)) kd) as (ke & Ee & He).
      * lia.
      * exists ke. split; [exact Ee|lia].
  - exists k'. split; [exact E|lia].
Qed.

(** The fuel that [_propagateCauseAtDownward] supplies is enough. *)
Lemma propagateCauseAtDownward_total comp t src nd k :
  exists k', _propagateCauseAtDownward comp t src nd k = Some k'.
Proof.
  destruct (propagateCauseAtDownward_terminates (S (size (k_comps k))) comp t src nd k)
    as (k' & E & _).
  - pose proof (below_le_size t k). lia.
  - eauto.
Qed.

Lemma _markDirty_total variable t nd k : exists k', _markDirty variable t nd k = Some k'.
Proof.
  unfold _markDirty. destruct (k_vars k !! variable) as [v|]; [|eauto].
  destruct (foldO_total (fun _ => True)
              (fun comp k => _propagateCauseAtDownward comp t (Some variable) nd k)
              (v_dependents v) k) as (k' & E & _); eauto.
  intros comp ka _ _. destruct (propagateCauseAtDownward_total comp t (Some variable) nd ka).
  eauto.
Qed.

(** ** Variables that no computation owns are not touched by propagation *)

(** [r] is not in the [outputs] map of any computation object. *)
Definition not_output (k : Kernel) (r : vref) : Prop :=
  forall cr c o, k_comps k !! cr = Some c -> In o (c_outputs c) -> o.2 <> r.

Lemma dyn_step_not_output k k' r : dyn_step k k' -> not_output k r -> not_output k' r.
Proof.
  intros (_ & _ & H) Hn cr c' o E Hin.
  destruct (heap_rel_lookup_r _ _ _ _ _ H E) as (c & Ec & Hc).
  apply (Hn cr c o Ec). rewrite <- (cdyn_outputs _ _ Hc). exact Hin.
Qed.

Definition keeps_sources (k k' : Kernel) : Prop :=
  dyn_step k k' /\ forall r, not_output k r -> k_vars k' !! r = k_vars k !! r.

Lemma keeps_sources_refl k : keeps_sources k k.
Proof. split; [apply dyn_step_refl|auto]. Qed.

Lemma keeps_sources_trans k1 k2 k3 :
  keeps_sources k1 k2 -> keeps_sources k2 k3 -> keeps_sources k1 k3.
Proof.
  intros [D1 H1] [D2 H2]. split; [eapply dyn_step_trans; eauto|].
  intros r Hr. rewrite H2, H1; eauto using dyn_step_not_output.
Qed.

Lemma keeps_sources_comps k k' :
  dyn_step k k' -> k_vars k' = k_vars k -> keeps_sources k k'.
Proof. intros D E. split; [exact D|]. intros; congruence. Qed.

Lemma sched_vars k k' : sched_step k k' -> k_vars k' = k_vars k.
Proof. intros [Hc _]. unfold core in Hc. congruence. Qed.

Lemma set_dirty_vars r b k : k_vars (set_dirty r b k) = k_vars k.
Proof. rewrite (sched_vars _ _ (set_dirty_spec r b k)). reflexivity. Qed.
Lemma set_dirtyInputCount_vars r n k : k_vars (set_dirtyInputCount r n k) = k_vars k.
Proof. rewrite (sched_vars _ _ (set_dirtyInputCount_spec r n k)). reflexivity. Qed.
Lemma set_observeCount_vars r n k : k_vars (set_observeCount r n k) = k_vars k.
Proof. rewrite (sched_vars _ _ (set_observeCount_spec r n k)). reflexivity. Qed.
Lemma set_cause_at_vars r n k : k_vars (set_cause_at r n k) = k_vars k.
Proof. rewrite (sched_vars _ _ (set_cause_at_spec r n k)). reflexivity. Qed.

Lemma tryIncrementDirtyInputCount_vars comp src nd k :
  k_vars (tryIncrementDirtyInputCount comp src nd k) = k_vars k.
Proof.
  unfold tryIncrementDirtyInputCount.
  destruct src; [|reflexivity].
  destruct (k_vars k !! _); [|reflexivity].
  destruct (k_comps k !! comp); [|reflexivity].
  destruct (_ || _); [reflexivity|].
  destruct (_ && _); [apply set_dirtyInputCount_vars|reflexivity].
Qed.

Lemma propagateCauseAtDownward_keeps_sources fuel comp t src nd k k' :
  propagateCauseAtDownward_fuel fuel comp t src nd k = Some k' -> keeps_sources k k'.
Proof.
  apply propagateCauseAtDownward_rel.
  - apply keeps_sources_refl.
  - apply keeps_sources_trans.
  - intros ka kb c0 c1 [D _]. apply dyn_step_outputs. exact D.
  - intros. apply keeps_sources_comps;
      [apply tryIncrementDirtyInputCount_dyn|apply tryIncrementDirtyInputCount_vars].
  - intros. apply keeps_sources_comps.
    + eapply dyn_step_trans; [apply set_cause_at_dyn|apply set_dirty_dyn].
    + rewrite set_dirty_vars. unfold updateCauseAt. apply set_cause_at_vars.
  - intros cr c o output ka Ec Hin Ev. split.
    + apply updV_dyn. intros v; destruct v; reflexivity.
    + intros r Hr. rewrite k_vars_updV. apply lookup_alter_ne.
      apply (Hr cr c o Ec Hin).
Qed.

Lemma _markDirty_keeps_sources variable t nd k k' :
  _markDirty variable t nd k = Some k' -> keeps_sources k k'.
Proof.
  unfold _markDirty. destruct (k_vars k !! variable) as [v|].
  - apply (foldO_inv (fun kx => keeps_sources k kx)); [|apply keeps_sources_refl].
    intros comp ka kb _ Ha Hb. eapply keeps_sources_trans; [exact Ha|].
    eapply propagateCauseAtDownward_keeps_sources. exact Hb.
  - intros H. injection H as <-. apply keeps_sources_refl.
Qed.

(** ** Cleaning a variable *)

Definition base0 (k : Kernel) :=
  (k_logicalClock k, k_next_vref k, k_next_cref k, k_variables k,
   k_computations k, k_problem_variables k, k_problem_computations k,
   k_outputWaiters k, k_runningTasksCount k, k_taskIdCounter k).

(** The only reactive field that cleaning moves is [dirtyInputCount], and it
    only goes down. *)
Definition cclean (c c' : Comp) : Prop :=
  c' = set_c_dirtyInputCount (c_dirtyInputCount c')
         (set_c_abortingTasks (c_abortingTasks c')
            (set_c_runningTask (c_runningTask c') c)) /\
  c_dirtyInputCount c' <= c_dirtyInputCount c.

Lemma cclean_refl c : cclean c c.
Proof. split; [destruct c; reflexivity|lia]. Qed.
Lemma cclean_trans c1 c2 c3 : cclean c1 c2 -> cclean c2 c3 -> cclean c1 c3.
Proof.
  unfold cclean. intros [H1 L1] [H2 L2]. split; [|lia].
  rewrite H2, H1. destruct c1; reflexivity.
Qed.
Lemma ctl_cclean c c' : ctl c c' -> cclean c c'.
Proof.
  unfold ctl, cclean. intros H. split.
  - rewrite H. destruct c; reflexivity.
  - rewrite H. simpl. lia.
Qed.

Definition clean_step (k k' : Kernel) : Prop :=
  base0 k' = base0 k /\ k_vars k' = k_vars k /\
  (exists l, k_calls k' = k_calls k ++ l) /\
  heap_rel cclean (k_comps k) (k_comps k').

Lemma clean_step_refl k : clean_step k k.
Proof.
  split; [reflexivity|]. split; [reflexivity|]. split.
  - exists []. rewrite app_nil_r. reflexivity.
  - apply heap_rel_refl, cclean_refl.
Qed.

Lemma clean_step_trans k1 k2 k3 : clean_step k1 k2 -> clean_step k2 k3 -> clean_step k1 k3.
Proof.
  intros (B1 & V1 & [l1 C1] & H1) (B2 & V2 & [l2 C2] & H2).
  split; [congruence|]. split; [congruence|]. split.
  - exists (l1 ++ l2). rewrite C2, C1, app_assoc. reflexivity.
  - eapply heap_rel_trans; eauto using cclean_trans.
Qed.

Lemma sched_clean k k' : sched_step k k' -> clean_step k k'.
Proof.
  intros [Hc Hr]. unfold core in Hc. injection Hc as ? ? ? ? ? ? ? ? ? ? ? ?.
  split; [unfold base0; congruence|]. split; [congruence|]. split.
  - exists []. rewrite app_nil_r. congruence.
  - eapply heap_rel_impl; [|exact Hr]. apply ctl_cclean.
Qed.

Lemma decrementDirtyInputCount_clean comp variable k :
  clean_step k (decrementDirtyInputCount comp variable k).
Proof.
  unfold decrementDirtyInputCount.
  destruct (k_vars k !! variable); [|apply clean_step_refl].
  destruct (k_comps k !! comp) as [c|] eqn:E; [|apply clean_step_refl].
  destruct (isSome _); [|apply clean_step_refl].
  eapply clean_step_trans; [|apply sched_clean, set_dirtyInputCount_spec].
  split; [reflexivity|]. split; [reflexivity|]. split.
  - exists []. rewrite app_nil_r. reflexivity.
  - rewrite k_comps_updC. apply heap_rel_alter; [apply cclean_refl|].
    intros c0 E0. rewrite E in E0. injection E0 as <-. split.
    + destruct c; reflexivity.
    + simpl. lia.
Qed.

(** An outcome that is not fuel exhaustion and whose state satisfies [P]. *)
Definition ends {A} (P : Kernel -> Prop) (o : Outcome A) : Prop :=
  match o with
  | Ok _ k' | Throw _ k' => P k'
  | OutOfFuel => False
  end.

Lemma ends_bind {A B} (P Q : Kernel -> Prop) (m : M A) (f : A -> M B) k :
  ends P (m k) ->
  (forall k', P k' -> Q k') ->
  (forall a k', m k = Ok a k' -> P k' -> ends Q (f a k')) ->
  ends Q (bind m f k).
Proof.
  unfold bind. intros Hm HPQ Hf. destruct (m k) as [a k'|e k'|]; simpl in *; auto.
Qed.

Lemma forM_ends {A} (P : Kernel -> Prop) (f : A -> M unit) (l : list A) :
  forall k,
    P k ->
    (forall x k, In x l -> P k -> ends P (f x k)) ->
    ends P (forM f l k).
Proof.
  induction l as [|x l IH]; intros k HP Hstep; [exact HP|].
  cbn [forM]. eapply ends_bind; [apply Hstep; simpl; auto| auto |].
  intros _ k' _ HP'. apply IH; auto. intros; apply Hstep; simpl; auto.
Qed.

Lemma notifyObservers_clean variable k :
  ends (clean_step k) (notifyObservers variable k).
Proof.
  unfold notifyObservers. destruct (k_vars k !! variable) as [v|]; [|apply clean_step_refl].
  apply forM_ends; [apply clean_step_refl|].
  intros ob ka _ Ha. destruct (k_vars ka !! variable) as [v'|]; [|exact Ha].
  assert (Hs : clean_step ka (with_calls (k_calls ka ++ [(obs_id ob, v_id v', v_result v')]) ka)).
  { split; [reflexivity|]. split; [reflexivity|]. split; [eexists; reflexivity|].
    apply heap_rel_refl, cclean_refl. }
  destruct (obs_run ob (v_result v')); simpl; eapply clean_step_trans; eauto.
Qed.

Lemma _cleanVariable_clean variable k :
  ends (clean_step k) (_cleanVariable variable k).
Proof.
  unfold _cleanVariable.
  eapply ends_bind; [apply notifyObservers_clean|auto|].
  intros _ k1 _ H1. destruct (k_vars k1 !! variable) as [v|]; [|exact H1].
  apply forM_ends; [exact H1|].
  intros comp ka _ Ha. unfold modify. simpl.
  eapply clean_step_trans; [exact Ha|].
  destruct (k_vars ka !! variable); [|apply clean_step_refl].
  destruct (k_comps ka !! comp); [|apply clean_step_refl].
  destruct (isInputOfComputation _ _); [|apply clean_step_refl].
  apply decrementDirtyInputCount_clean.
Qed.

(** Observers that never throw. *)
Definition quiet (v : Var) : Prop :=
  forall ob, In ob (v_observers v) -> forall r, obs_run ob r = None.

Lemma forM_ok {A} (P : Kernel -> Prop) (f : A -> M unit) (l : list A) :
  forall k,
    P k ->
    (forall x k, In x l -> P k -> exists k', f x k = Ok tt k' /\ P k') ->
    exists k', forM f l k = Ok tt k' /\ P k'.
Proof.
  induction l as [|x l IH]; intros k HP Hstep; [exists k; split; [reflexivity|exact HP]|].
  cbn [forM]. unfold bind. destruct (Hstep x k) as (k1 & E & HP1); simpl; auto.
  rewrite E. apply IH; auto. intros; apply Hstep; simpl; auto.
Qed.

Lemma notifyObservers_ok variable v k :
  k_vars k !! variable = Some v -> quiet v ->
  exists k', notifyObservers variable k = Ok tt k' /\ clean_step k k'.
Proof.
  intros E Hq. unfold notifyObservers. rewrite E.
  apply forM_ok; [apply clean_step_refl|].
  intros ob ka Hin Ha. destruct (k_vars ka !! variable) as [v'|]; [|eauto].
  rewrite Hq by exact Hin. eexists. split; [reflexivity|].
  eapply clean_step_trans; [exact Ha|].
  split; [reflexivity|]. split; [reflexivity|]. split; [eexists; reflexivity|].
  apply heap_rel_refl, cclean_refl.
Qed.

Lemma _cleanVariable_ok variable v k :
  k_vars k !! variable = Some v -> quiet v ->
  exists k', _cleanVariable variable k = Ok tt k' /\ clean_step k k'.
Proof.
  intros E Hq. unfold _cleanVariable, bind.
  destruct (notifyObservers_ok variable v k E Hq) as (k1 & E1 & H1). rewrite E1.
  destruct (k_vars k1 !! variable) as [v1|]; [|eauto].
  apply forM_ok; [exact H1|].
  intros comp ka _ Ha. unfold modify. eexists. split; [reflexivity|].
  eapply clean_step_trans; [exact Ha|].
  destruct (k_vars ka !! variable); [|apply clean_step_refl].
  destruct (k_comps ka !! comp); [|apply clean_step_refl].
  destruct (isInputOfComputation _ _); [|apply clean_step_refl].
  apply decrementDirtyInputCount_clean.
Qed.

Lemma clean_step_clock k k' : clean_step k k' -> k_logicalClock k' = k_logicalClock k.
Proof. intros (B & _). unfold base0 in B. congruence. Qed.

Lemma clean_step_vars k k' : clean_step k k' -> k_vars k' = k_vars k.
Proof. intros (_ & V & _). exact V. Qed.

(** ** updateSource *)

(** The state in which [_updateSource] starts to propagate. *)
Definition sourceWritten (x : vref) (value : Value) (v : Var) (k : Kernel) : Kernel :=
  let t := k_logicalClock k + 1 in
  let k1 := with_clock t k in
  let k2 := if negb (deepEqual (oldValueOf (v_result v)) value)
            then updV x (fun v => set_v_value_at t (set_v_result (Success value) v)) k1
            else k1 in
  updV x (fun v => set_v_dirty false (set_v_cause_at t v)) k2.

Lemma _updateSource_unfold k variableId value x v :
  k_variables k !! variableId = Some x ->
  k_vars k !! x = Some v ->
  v_producer v = None ->
  _updateSource variableId value k =
    match _markDirty x (k_logicalClock k + 1) true (sourceWritten x value v k) with
    | Some k4 => _cleanVariable x k4
    | None => OutOfFuel
    end.
Proof.
  intros Ex Ev Hp. unfold _updateSource, bind, nextLogicalClock, _getVariable, gets.
  cbn [k_variables with_clock k_vars]. rewrite Ex.
  change (k_vars (with_clock (k_logicalClock k + 1) k)) with (k_vars k).
  rewrite Ev, Hp. cbn [isSome].
  unfold sourceWritten, liftO, modify, ret.
  destruct (negb (deepEqual (oldValueOf (v_result v)) value));
    cbv zeta; destruct (_markDirty _ _ _ _); reflexivity.
Qed.

Lemma sourceWritten_var k x value v :
  k_vars k !! x = Some v ->
  k_vars (sourceWritten x value v k) !! x =
    Some (set_v_dirty false
            (set_v_cause_at (k_logicalClock k + 1)
               (if negb (deepEqual (oldValueOf (v_result v)) value)
                then set_v_value_at (k_logicalClock k + 1) (set_v_result (Success value) v)
                else v))).
Proof.
  intros Ev. unfold sourceWritten.
  destruct (negb (deepEqual (oldValueOf (v_result v)) value));
    rewrite !k_vars_updV, ?lookup_alter_eq; cbn [k_vars with_clock];
    rewrite ?lookup_alter_eq, Ev; reflexivity.
Qed.

Lemma sourceWritten_comps k x value v :
  k_comps (sourceWritten x value v k) = k_comps k.
Proof.
  unfold sourceWritten.
  destruct (negb (deepEqual (oldValueOf (v_result v)) value)); reflexivity.
Qed.

Lemma sourceWritten_clock k x value v :
  k_logicalClock (sourceWritten x value v k) = k_logicalClock k + 1.
Proof.
  unfold sourceWritten.
  destruct (negb (deepEqual (oldValueOf (v_result v)) value)); reflexivity.
Qed.

(** C8: [updateSource] on an existing source (a variable without producer
    that no computation owns) never runs out of fuel and, however it ends,
    has ticked the clock exactly once, has set the variable's [cause_at] to
    the new clock value (changed or not) and its [dirty] flag to false, and
    has moved [value_at] (to that same value) and the result exactly when
    [deepEqual] tells the old and new values apart.  It returns normally
    when no observer of the source throws. *)
Theorem C8_updateSource_clock_and_timestamps
    (k : Kernel) (variableId : string) (value : Value) (x : vref) (v : Var) :
  k_variables k !! variableId = Some x ->
  k_vars k !! x = Some v ->
  v_producer v = None ->
  not_output k x ->
  let t := k_logicalClock k + 1 in
  ends (fun k' =>
          k_logicalClock k' = t /\
          exists v', k_vars k' !! x = Some v' /\
                     v_cause_at v' = t /\
                     v_dirty v' = false /\
                     (if deepEqual (oldValueOf (v_result v)) value
                      then v_value_at v' = v_value_at v /\ v_result v' = v_result v
                      else v_value_at v' = t /\ v_result v' = Success value))
       (updateSource variableId value k) /\
  (quiet v -> exists k', updateSource variableId value k = Ok tt k').
Proof.
  intros Ex Ev Hp Hno t. unfold updateSource.
  rewrite (_updateSource_unfold k variableId value x v Ex Ev Hp).
  destruct (_markDirty_total x (k_logicalClock k + 1) true (sourceWritten x value v k))
    as (k4 & E4).
  rewrite E4.
  pose proof (_markDirty_keeps_sources _ _ _ _ _ E4) as [D4 K4].
  assert (Hv4 : k_vars k4 !! x = k_vars (sourceWritten x value v k) !! x).
  { apply K4. intros cr c o Ec. rewrite sourceWritten_comps in Ec. eauto. }
  rewrite (sourceWritten_var k x value v Ev) in Hv4.
  assert (Hc4 : k_logicalClock k4 = t).
  { rewrite (dyn_step_clock _ _ D4). apply sourceWritten_clock. }
  split.
  - pose proof (_cleanVariable_clean x k4) as Hcl.
    destruct (_cleanVariable x k4) as [[] k5|e k5|]; simpl in *; try contradiction.
    + split; [rewrite (clean_step_clock _ _ Hcl); exact Hc4|].
      rewrite (clean_step_vars _ _ Hcl), Hv4. eexists. split; [reflexivity|].
      destruct (deepEqual (oldValueOf (v_result v)) value); simpl; auto.
    + split; [rewrite (clean_step_clock _ _ Hcl); exact Hc4|].
      rewrite (clean_step_vars _ _ Hcl), Hv4. eexists. split; [reflexivity|].
      destruct (deepEqual (oldValueOf (v_result v)) value); simpl; auto.
  - intros Hq.
    destruct (_cleanVariable_ok x _ k4 Hv4) as (k5 & E5 & _); [|eauto].
    intros ob Hin. apply Hq.
    destruct (negb (deepEqual (oldValueOf (v_result v)) value)); exact Hin.
Qed.

(** A boolean test for [not_output]. *)
Definition not_output_b (k : Kernel) (r : vref) : bool :=
  forallb (fun rc : nat * Comp =>
             forallb (fun o : string * vref => negb (Nat.eqb o.2 r)) (c_outputs rc.2))
          (map_to_list (k_comps k)).

Lemma not_output_check k r : not_output_b k r = true -> not_output k r.
Proof.
  unfold not_output_b, not_output. intros H cr c o Ec Hin.
  rewrite forallb_forall in H.
  assert (Hrc : In (cr, c) (map_to_list (k_comps k))).
  { apply list_elem_of_In, elem_of_map_to_list. exact Ec. }
  specialize (H _ Hrc). cbn [snd] in H. rewrite forallb_forall in H.
  specialize (H o Hin). apply negb_true_iff, Nat.eqb_neq in H. exact H.
Qed.

(** ** Sample kernels: the chain [x -> y] with an observer on [y] *)

Definition silentObserver (n : nat) : Observer :=
  {| obs_id := n; obs_run := fun _ => None |}.

Definition throwingObserver (n : nat) : Observer :=
  {| obs_id := n; obs_run := fun _ => Some (JsError "observer failed") |}.

Definition defY : ComputationDefinition :=
  {| d_id := "Y"; d_inputs := ["x"]; d_outputs := ["y"]; d_body := 1%nat |}.

Definition chainKernel : Kernel :=
  finalState
    ((defineSource 8 "x" (Some (VNum 1)) ;;
      defineComputation 8 defY ;;
      _observe 8 "y" (silentObserver 1)) emptyKernel)
    emptyKernel.

Definition chainSourceVar : Var :=
  {| v_id := "x"; v_result := Success (VNum 1); v_value_at := 2; v_cause_at := 2;
     v_dirty := false; v_producer := None; v_dependents := [0%nat];
     v_observers := []; v_observeCount := 1 |}.

Lemma C8_updateSource_clock_and_timestamps_witness :
  ends (fun k' =>
          k_logicalClock k' = 3 /\
          exists v', k_vars k' !! 0%nat = Some v' /\
                     v_cause_at v' = 3 /\
                     v_dirty v' = false /\
                     (if deepEqual (oldValueOf (v_result chainSourceVar)) (VNum 10)
                      then v_value_at v' = v_value_at chainSourceVar /\
                           v_result v' = v_result chainSourceVar
                      else v_value_at v' = 3 /\ v_result v' = Success (VNum 10)))
       (updateSource "x" (VNum 10) chainKernel) /\
  (quiet chainSourceVar -> exists k', updateSource "x" (VNum 10) chainKernel = Ok tt k').
Proof.
  apply (C8_updateSource_clock_and_timestamps chainKernel "x" (VNum 10) 0%nat chainSourceVar).
  - vm_compute. reflexivity.
  - vm_compute. reflexivity.
  - reflexivity.
  - apply not_output_check. vm_compute. reflexivity.
Defined.

(** ** The error commit *)

Lemma clean_step_comp k k' r c :
  clean_step k k' -> k_comps k !! r = Some c -> exists c', k_comps k' !! r = Some c'.
Proof.
  intros (_ & _ & _ & H) E. destruct (heap_rel_lookup _ _ _ _ _ H E) as (c' & E' & _). eauto.
Qed.

(** One iteration of the loop of [updateOutputsWithError]. *)
Definition errorCommitStep (comp : cref) (error : Exn) (o : string * vref) : M unit :=
  fun k =>
    match k_comps k !! comp with
    | Some c' =>
        let (t, k1) := nextLogicalClock k in
        let k2 := updV o.2 (fun v => set_v_dirty false
                                       (set_v_cause_at (c_cause_at c')
                                          (set_v_value_at t
                                             (set_v_result (Error error) v)))) k1 in
        _cleanVariable o.2 k2
    | None => Ok tt k
    end.

Lemma errorCommit_loop comp error :
  forall (outs : list (string * vref)) k,
    is_Some (k_comps k !! comp) ->
    NoDup (map snd outs) ->
    (forall o, In o outs -> exists v, k_vars k !! o.2 = Some v /\ quiet v) ->
    exists k',
      forM (errorCommitStep comp error) outs k = Ok tt k' /\
      k_logicalClock k' = k_logicalClock k + Z.of_nat (length outs) /\
      is_Some (k_comps k' !! comp) /\
      (forall r, ~ In r (map snd outs) -> k_vars k' !! r = k_vars k !! r) /\
      (forall (i : nat) o, outs !! i = Some o ->
         exists v', k_vars k' !! o.2 = Some v' /\
                    v_result v' = Error error /\ v_dirty v' = false /\
                    v_value_at v' = k_logicalClock k + Z.of_nat i + 1).
Proof.
  induction outs as [|o outs IH]; intros k [c Ec] Hnd Hq.
  - exists k. cbn [forM length]. split; [reflexivity|]. split; [simpl; lia|].
    split; [eauto|]. split; [auto|]. intros i o H. rewrite lookup_nil in H. discriminate.
  - cbn [map] in Hnd. apply NoDup_cons in Hnd as [Hnotin Hnd].
    rewrite list_elem_of_In in Hnotin.
    cbn [forM]. unfold bind, errorCommitStep at 1. rewrite Ec.
    unfold nextLogicalClock.
    set (t := k_logicalClock k + 1).
    set (k2 := updV o.2 _ (with_clock t k)).
    destruct (Hq o (or_introl eq_refl)) as (v & Ev & Hqv).
    assert (Ev2 : k_vars k2 !! o.2 =
                  Some (set_v_dirty false (set_v_cause_at (c_cause_at c)
                          (set_v_value_at t (set_v_result (Error error) v))))).
    { subst k2. rewrite k_vars_updV, lookup_alter_eq. cbn [k_vars with_clock].
      rewrite Ev. reflexivity. }
    destruct (_cleanVariable_ok o.2 _ k2 Ev2) as (k3 & E3 & H3); [exact Hqv|].
    rewrite E3.
    assert (Hv3 : k_vars k3 = k_vars k2) by (apply clean_step_vars; exact H3).
    assert (Hc3 : k_logicalClock k3 = t).
    { rewrite (clean_step_clock _ _ H3). reflexivity. }
    destruct (IH k3) as (k' & E' & Hclk & Hcomp & Hframe & Hidx).
    + apply (clean_step_comp k2 k3 comp c H3). exact Ec.
    + exact Hnd.
    + intros o' Hin'. destruct (Hq o' (or_intror Hin')) as (v' & Ev' & Hq').
      exists v'. split; [|exact Hq'].
      rewrite Hv3. subst k2. rewrite k_vars_updV, lookup_alter_ne; [exact Ev'|].
      intros Heq. apply Hnotin. rewrite Heq. apply in_map. exact Hin'.
    + exists k'. split; [exact E'|]. split.
      { rewrite Hclk, Hc3. subst t. cbn [length]. lia. }
      split; [exact Hcomp|]. split.
      { intros r Hr. rewrite Hframe.
        - rewrite Hv3. subst k2. rewrite k_vars_updV, lookup_alter_ne; [reflexivity|].
          intros Heq. apply Hr. left. exact Heq.
        - intros Hin. apply Hr. right. exact Hin. }
      intros [|i] o' Hi.
      * cbn in Hi. injection Hi as <-.
        rewrite Hframe by exact Hnotin. rewrite Hv3, Ev2.
        eexists. split; [reflexivity|]. cbn. repeat split. subst t. lia.
      * cbn in Hi. destruct (Hidx i o' Hi) as (v' & Ev' & Hr & Hd & Hva).
        exists v'. split; [exact Ev'|]. split; [exact Hr|]. split; [exact Hd|].
        rewrite Hva, Hc3. subst t. lia.
Qed.

Lemma set_input_version_to_max_vars comp k :
  k_vars (set_input_version_to_max comp k) = k_vars k.
Proof. unfold set_input_version_to_max. destruct (k_comps k !! comp); reflexivity. Qed.

Lemma set_input_version_to_max_clock comp k :
  k_logicalClock (set_input_version_to_max comp k) = k_logicalClock k.
Proof. unfold set_input_version_to_max. destruct (k_comps k !! comp); reflexivity. Qed.

Lemma updateOutputsWithError_unfold comp error c k :
  k_comps k !! comp = Some c ->
  updateOutputsWithError comp error k =
    forM (errorCommitStep comp error) (c_outputs c)
         (with_log (k_log k ++ [LogError "updateOutputsWithError"]) k).
Proof.
  intros Ec. unfold updateOutputsWithError, bind, modify.
  cbn [k_comps with_log]. rewrite Ec. reflexivity.
Qed.

(** C10: a body that fails with an error that is not an abort commits, for
    a computation whose output cells exist, are pairwise distinct objects and
    have observers that do not throw: every output holds [Error error] with
    [dirty = false]; the i-th output (from 0) has [value_at = clock + i + 1],
    each from its own tick, so the clock advanced by the number of outputs
    and two different outputs never share a [value_at].  The handler ends by
    rethrowing the error. *)
Theorem C10_error_commit_ticks_per_output
    (k : Kernel) (comp : cref) (c : Comp) (error : Exn) :
  k_comps k !! comp = Some c ->
  isAbortError error = false ->
  NoDup (map snd (c_outputs c)) ->
  (forall o, In o (c_outputs c) -> exists v, k_vars k !! o.2 = Some v /\ quiet v) ->
  exists k',
    handleExecutionError comp error k = Throw error k' /\
    k_logicalClock k' = k_logicalClock k + Z.of_nat (length (c_outputs c)) /\
    (forall (i : nat) o, c_outputs c !! i = Some o ->
       exists v', k_vars k' !! o.2 = Some v' /\
                  v_result v' = Error error /\ v_dirty v' = false /\
                  v_value_at v' = k_logicalClock k + Z.of_nat i + 1) /\
    (forall (i j : nat) oi oj vi vj,
       i <> j ->
       c_outputs c !! i = Some oi -> c_outputs c !! j = Some oj ->
       k_vars k' !! oi.2 = Some vi -> k_vars k' !! oj.2 = Some vj ->
       v_value_at vi <> v_value_at vj).
Proof.
  intros Ec Hab Hnd Hq.
  unfold handleExecutionError. rewrite Hab.
  set (k0 := with_log (k_log k ++ [LogError "executeComputation"]) k).
  destruct (errorCommit_loop comp error (c_outputs c)
              (with_log (k_log k0 ++ [LogError "updateOutputsWithError"]) k0))
    as (k1 & E1 & Hclk & Hcomp & _ & Hidx).
  { exists c. exact Ec. }
  { exact Hnd. }
  { exact Hq. }
  set (k2 := set_dirty comp false k1).
  set (k3 := set_input_version_to_max comp k2).
  assert (Hv3 : k_vars k3 = k_vars k1).
  { subst k3 k2. rewrite set_input_version_to_max_vars. apply set_dirty_vars. }
  assert (Hc3 : k_logicalClock k3 = k_logicalClock k1).
  { subst k3 k2. rewrite set_input_version_to_max_clock.
    apply dyn_step_clock, set_dirty_dyn. }
  assert (Hidx3 : forall (i : nat) o, c_outputs c !! i = Some o ->
            exists v', k_vars k3 !! o.2 = Some v' /\
                       v_result v' = Error error /\ v_dirty v' = false /\
                       v_value_at v' = k_logicalClock k + Z.of_nat i + 1).
  { intros i o Hi. rewrite Hv3. exact (Hidx i o Hi). }
  exists k3. split.
  - unfold bind, modify, throw.
    change (with_log (k_log k ++ [LogError "executeComputation"]) k) with k0.
    rewrite (updateOutputsWithError_unfold comp error c k0 Ec), E1. reflexivity.
  - split; [rewrite Hc3, Hclk; reflexivity|]. split; [exact Hidx3|].
    intros i j oi oj vi vj Hij Hi Hj Evi Evj.
    destruct (Hidx3 i oi Hi) as (vi' & Ei' & _ & _ & Hvi).
    destruct (Hidx3 j oj Hj) as (vj' & Ej' & _ & _ & Hvj).
    assert (vi' = vi) by congruence. assert (vj' = vj) by congruence. subst.
    rewrite Hvi, Hvj. lia.
Qed.

(** ** Sample kernel: one computation with two outputs, [p] observed *)

Definition getC (k : Kernel) (r : cref) : Comp :=
  match k_comps k !! r with
  | Some c => c
  | None => newComputation "" [] [] 0 0 0 0 0 false
  end.

Definition getV (k : Kernel) (r : vref) : Var :=
  match k_vars k !! r with
  | Some v => v
  | None => newVariable "" Uninitialized 0 0 false None
  end.

Definition defPQ : ComputationDefinition :=
  {| d_id := "PQ"; d_inputs := ["x"]; d_outputs := ["p"; "q"]; d_body := 2%nat |}.

Definition twoOutputKernel : Kernel :=
  finalState
    ((defineSource 8 "x" (Some (VNum 1)) ;;
      defineComputation 8 defPQ ;;
      _observe 8 "p" (silentObserver 1)) emptyKernel)
    emptyKernel.

Definition twoOutputComp : Comp := Eval vm_compute in getC twoOutputKernel 0.

Lemma twoOutputKernel_quiet :
  forall o, In o (c_outputs twoOutputComp) ->
            exists v, k_vars twoOutputKernel !! o.2 = Some v /\ quiet v.
Proof.
  intros o Hin. cbn in Hin. destruct Hin as [<-|[<-|[]]].
  - exists (getV twoOutputKernel 1). split; [vm_compute; reflexivity|].
    intros ob Hob r. vm_compute in Hob. destruct Hob as [<-|[]]. reflexivity.
  - exists (getV twoOutputKernel 2). split; [vm_compute; reflexivity|].
    intros ob Hob r. vm_compute in Hob. destruct Hob.
Qed.

Lemma C10_error_commit_ticks_per_output_witness :
  exists k',
    handleExecutionError 0%nat (JsError "boom") twoOutputKernel = Throw (JsError "boom") k' /\
    k_logicalClock k' = 4 /\
    v_value_at (getV k' 1) = 3 /\ v_value_at (getV k' 2) = 4.
Proof.
  destruct (C10_error_commit_ticks_per_output twoOutputKernel 0%nat twoOutputComp
              (JsError "boom")) as (k' & Hrun & Hclk & Hidx & _).
  - vm_compute. reflexivity.
  - reflexivity.
  - cbn. apply NoDup_cons. split; [|apply NoDup_singleton].
    intros H. apply list_elem_of_In in H. destruct H as [H|[]]. discriminate H.
  - exact twoOutputKernel_quiet.
  - exists k'. split; [exact Hrun|]. split; [exact Hclk|].
    destruct (Hidx 0%nat ("p", 1%nat) eq_refl) as (vp & Ep & _ & _ & Hp).
    destruct (Hidx 1%nat ("q", 2%nat) eq_refl) as (vq & Eq & _ & _ & Hq).
    unfold getV. cbn [snd] in Ep, Eq. rewrite Ep, Eq. split; [exact Hp|exact Hq].
Defined.

(** ** The success commit with unchanged values (output pruning) *)

(** [v'] is [v] up to [cause_at] and [dirty]. *)
Definition vclean (v v' : Var) : Prop :=
  v' = set_v_dirty (v_dirty v') (set_v_cause_at (v_cause_at v') v).

Lemma vclean_refl v : vclean v v.
Proof. destruct v; reflexivity. Qed.
Lemma vclean_trans v1 v2 v3 : vclean v1 v2 -> vclean v2 v3 -> vclean v1 v3.
Proof. unfold vclean. intros H1 H2. rewrite H2, H1. destruct v1; reflexivity. Qed.

(** What a commit of unchanged values can do to the kernel. *)
Definition commit_step (k k' : Kernel) : Prop :=
  base0 k' = base0 k /\
  heap_rel vclean (k_vars k) (k_vars k') /\
  (exists l, k_calls k' = k_calls k ++ l) /\
  heap_rel cclean (k_comps k) (k_comps k').

Lemma commit_step_refl k : commit_step k k.
Proof.
  split; [reflexivity|]. split; [apply heap_rel_refl, vclean_refl|]. split.
  - exists []. rewrite app_nil_r. reflexivity.
  - apply heap_rel_refl, cclean_refl.
Qed.

Lemma commit_step_trans k1 k2 k3 :
  commit_step k1 k2 -> commit_step k2 k3 -> commit_step k1 k3.
Proof.
  intros (B1 & V1 & [l1 C1] & H1) (B2 & V2 & [l2 C2] & H2).
  split; [congruence|]. split; [eapply heap_rel_trans; eauto using vclean_trans|]. split.
  - exists (l1 ++ l2). rewrite C2, C1, app_assoc. reflexivity.
  - eapply heap_rel_trans; eauto using cclean_trans.
Qed.

Lemma clean_commit k k' : clean_step k k' -> commit_step k k'.
Proof.
  intros (B & V & C & H). split; [exact B|]. split; [|split; assumption].
  rewrite V. apply heap_rel_refl, vclean_refl.
Qed.

Lemma valueChangedAt_stable k k' outputs o :
  heap_rel vclean (k_vars k) (k_vars k') ->
  valueChangedAt k' outputs o = valueChangedAt k outputs o.
Proof.
  intros H. unfold valueChangedAt. destruct (H o.2) as [v v' Hv|]; [|reflexivity].
  rewrite Hv. reflexivity.
Qed.

(** The calls that cleaning output [o] makes when nothing throws. *)
Definition notifications (k : Kernel) (r : vref) : list (nat * string * Result) :=
  match k_vars k !! r with
  | Some v => map (fun ob => (obs_id ob, v_id v, v_result v)) (v_observers v)
  | None => []
  end.

Lemma with_calls_with_calls l1 l2 k : with_calls l2 (with_calls l1 k) = with_calls l2 k.
Proof. reflexivity. Qed.

Lemma with_calls_same k : with_calls (k_calls k) k = k.
Proof. destruct k; reflexivity. Qed.

Lemma notifyObservers_quiet variable v k :
  k_vars k !! variable = Some v -> quiet v ->
  notifyObservers variable k =
    Ok tt (with_calls (k_calls k ++ notifications k variable) k).
Proof.
  intros E Hq. unfold notifyObservers, notifications. rewrite E.
  assert (G : forall obs ka,
             k_vars ka !! variable = Some v ->
             (forall ob, In ob obs -> forall r, obs_run ob r = None) ->
             forM (fun observer k =>
                     match k_vars k !! variable with
                     | Some v' =>
                         let k1 := with_calls (k_calls k ++ [(obs_id observer, v_id v', v_result v')]) k in
                         match obs_run observer (v_result v') with
                         | Some e => Throw e k1
                         | None => Ok tt k1
                         end
                     | None => Ok tt k
                     end) obs ka =
             Ok tt (with_calls (k_calls ka ++
                                map (fun ob => (obs_id ob, v_id v, v_result v)) obs) ka)).
  { induction obs as [|ob obs IH]; intros ka Ea Hobs.
    - cbn. rewrite app_nil_r, with_calls_same. reflexivity.
    - cbn [forM]. unfold bind. rewrite Ea. cbv zeta.
      rewrite (Hobs ob) by (left; reflexivity).
      rewrite IH; [|exact Ea|intros; apply Hobs; right; assumption].
      cbn [k_calls with_calls map]. rewrite <- app_assoc. reflexivity. }
  apply G; [exact E|exact Hq].
Qed.

Lemma sched_calls k k' : sched_step k k' -> k_calls k' = k_calls k.
Proof. intros [Hc _]. unfold core in Hc. congruence. Qed.

Lemma decrementDirtyInputCount_calls comp variable k :
  k_calls (decrementDirtyInputCount comp variable k) = k_calls k.
Proof.
  unfold decrementDirtyInputCount.
  destruct (k_vars k !! variable); [|reflexivity].
  destruct (k_comps k !! comp); [|reflexivity].
  destruct (isSome _); [|reflexivity].
  rewrite (sched_calls _ _ (set_dirtyInputCount_spec _ _ _)). reflexivity.
Qed.

Lemma _cleanVariable_quiet variable v k :
  k_vars k !! variable = Some v -> quiet v ->
  exists k', _cleanVariable variable k = Ok tt k' /\
             k_calls k' = k_calls k ++ notifications k variable /\
             clean_step k k'.
Proof.
  intros E Hq. pose proof (_cleanVariable_clean variable k) as Hcl.
  unfold _cleanVariable, bind in *.
  rewrite (notifyObservers_quiet variable v k E Hq) in *.
  set (k1 := with_calls _ k) in *.
  change (k_vars k1) with (k_vars k) in *. rewrite E in *.
  destruct (forM_ok (fun kx => k_calls kx = k_calls k1)
              (fun comp => modify (fun k =>
                 match k_vars k !! variable, k_comps k !! comp with
                 | Some v', Some c =>
                     if isInputOfComputation v' c
                     then decrementDirtyInputCount comp variable k
                     else k
                 | _, _ => k
                 end)) (v_dependents v) k1) as (k2 & E2 & H2); [reflexivity| |].
  - intros comp ka _ Ha. unfold modify. eexists. split; [reflexivity|].
    rewrite <- Ha.
    destruct (k_vars ka !! variable); [|reflexivity].
    destruct (k_comps ka !! comp); [|reflexivity].
    destruct (isInputOfComputation _ _); [|reflexivity].
    apply decrementDirtyInputCount_calls.
  - rewrite E2 in *. exists k2. split; [reflexivity|]. split; [|exact Hcl].
    rewrite H2. reflexivity.
Qed.

Lemma ends_impl {A} (P Q : Kernel -> Prop) (o : Outcome A) :
  ends P o -> (forall k, P k -> Q k) -> ends Q o.
Proof. destruct o; simpl; auto. Qed.

(** One iteration of the second pass of [updateOutputs]. *)
Definition commitStep (comp : cref) (newOutputs : list (string * Value)) (newValueAt : Z)
    (o : string * vref) : M unit :=
  fun k =>
    match k_comps k !! comp with
    | Some c' =>
        let k' :=
          if valueChangedAt k newOutputs o
          then updV o.2 (fun v => set_v_value_at newValueAt
                                    (set_v_result (Success (outputOf newOutputs o.1)) v)) k
          else k in
        let k'' := updV o.2 (fun v => set_v_dirty false
                                        (set_v_cause_at (c_cause_at c') v)) k' in
        _cleanVariable o.2 k''
    | None => Ok tt k
    end.

Lemma updateOutputs_unchanged_unfold comp outputs c k :
  k_comps k !! comp = Some c ->
  (forall o, In o (c_outputs c) -> valueChangedAt k outputs o = false) ->
  updateOutputs comp outputs k = forM (commitStep comp outputs 0) (c_outputs c) k.
Proof.
  intros Ec Hun. unfold updateOutputs. rewrite Ec.
  assert (Hex : existsb (valueChangedAt k outputs) (c_outputs c) = false).
  { apply not_true_is_false. intros H. apply existsb_exists in H as (o & Hin & Ho).
    rewrite (Hun o Hin) in Ho. discriminate. }
  rewrite Hex. reflexivity.
Qed.

Lemma updV_vclean_commit r f k :
  (forall v, vclean v (f v)) -> commit_step k (updV r f k).
Proof.
  intros Hf. split; [reflexivity|]. split.
  - rewrite k_vars_updV. apply heap_rel_alter; auto using vclean_refl.
  - split; [exists []; rewrite app_nil_r; reflexivity|].
    apply heap_rel_refl, cclean_refl.
Qed.

Lemma commitStep_unchanged comp outputs k ka o :
  commit_step k ka ->
  valueChangedAt k outputs o = false ->
  ends (commit_step k) (commitStep comp outputs 0 o ka).
Proof.
  intros Ha Hun. unfold commitStep.
  destruct (k_comps ka !! comp) as [c'|]; [|exact Ha].
  rewrite (valueChangedAt_stable k ka) by apply Ha. rewrite Hun. cbv zeta.
  set (k2 := updV o.2 _ ka).
  assert (H2 : commit_step k k2).
  { eapply commit_step_trans; [exact Ha|].
    apply updV_vclean_commit. intros v; destruct v; reflexivity. }
  eapply ends_impl; [apply _cleanVariable_clean|].
  intros k3 H3. eapply commit_step_trans; [exact H2|apply clean_commit, H3].
Qed.

Lemma notifications_stable k k' r :
  heap_rel vclean (k_vars k) (k_vars k') -> notifications k' r = notifications k r.
Proof.
  intros H. unfold notifications. destruct (H r) as [v v' Hv|]; [|reflexivity].
  rewrite Hv. reflexivity.
Qed.

Lemma commit_loop_quiet comp outputs k :
  forall (outs : list (string * vref)) ka,
    commit_step k ka ->
    is_Some (k_comps k !! comp) ->
    (forall o, In o outs -> valueChangedAt k outputs o = false) ->
    (forall o, In o outs -> exists v, k_vars k !! o.2 = Some v /\ quiet v) ->
    exists k',
      forM (commitStep comp outputs 0) outs ka = Ok tt k' /\
      k_calls k' = k_calls ka ++ flat_map (fun o => notifications k o.2) outs /\
      commit_step k k'.
Proof.
  induction outs as [|o outs IH]; intros ka Ha Hc Hun Hq.
  - exists ka. cbn. rewrite app_nil_r. auto.
  - cbn [forM flat_map]. unfold bind, commitStep at 1.
    destruct Hc as [c0 Ec0].
    destruct (heap_rel_lookup _ _ _ _ _ (proj2 (proj2 (proj2 Ha))) Ec0) as (c' & Ec' & _).
    rewrite Ec'.
    rewrite (valueChangedAt_stable k ka) by apply Ha.
    rewrite (Hun o) by (left; reflexivity). cbv zeta.
    set (k2 := updV o.2 _ ka).
    assert (H2 : commit_step k k2).
    { eapply commit_step_trans; [exact Ha|].
      apply updV_vclean_commit. intros v; destruct v; reflexivity. }
    destruct (Hq o (or_introl eq_refl)) as (v & Ev & Hqv).
    destruct (heap_rel_lookup _ _ _ _ _ (proj1 (proj2 H2)) Ev) as (v2 & Ev2 & Hv2).
    destruct (_cleanVariable_quiet o.2 v2 k2 Ev2) as (k3 & E3 & Hcalls3 & H3).
    { intros ob Hin. apply Hqv. rewrite Hv2 in Hin. exact Hin. }
    rewrite E3.
    assert (H3' : commit_step k k3).
    { eapply commit_step_trans; [exact H2|apply clean_commit, H3]. }
    destruct (IH k3 H3') as (k' & E' & Hcalls' & H').
    + eauto.
    + intros; apply Hun; right; assumption.
    + intros; apply Hq; right; assumption.
    + exists k'. split; [exact E'|]. split; [|exact H'].
      rewrite Hcalls', Hcalls3.
      rewrite (notifications_stable k k2) by apply H2.
      change (k_calls k2) with (k_calls ka). rewrite app_assoc. reflexivity.
Qed.

(** C1 (output pruning), in the form that holds: when the body returns, for
    every output, a value that [deepEqual] finds equal to the committed one,
    [updateOutputs] does not
    tick the clock, leaves every variable's [value_at] and result as they
    were and does not raise any computation's [dirtyInputCount] -- however it
    ends.  The observers of the outputs are still called: when none of them
    throws, the calls made are exactly one per observer of each output, with
    the output's unchanged result. *)
Theorem C1_output_pruning_keeps_timestamps_and_counts
    (k : Kernel) (comp : cref) (c : Comp) (outputs : list (string * Value)) :
  k_comps k !! comp = Some c ->
  (forall o, In o (c_outputs c) -> valueChangedAt k outputs o = false) ->
  ends (fun k' =>
          k_logicalClock k' = k_logicalClock k /\
          (forall r v, k_vars k !! r = Some v ->
             exists v', k_vars k' !! r = Some v' /\
                        v_value_at v' = v_value_at v /\ v_result v' = v_result v) /\
          (forall r c0, k_comps k !! r = Some c0 ->
             exists c', k_comps k' !! r = Some c' /\
                        c_dirtyInputCount c' <= c_dirtyInputCount c0))
       (updateOutputs comp outputs k) /\
  ((forall o, In o (c_outputs c) -> exists v, k_vars k !! o.2 = Some v /\ quiet v) ->
   exists k',
     updateOutputs comp outputs k = Ok tt k' /\
     k_calls k' = k_calls k ++ flat_map (fun o => notifications k o.2) (c_outputs c)).
Proof.
  intros Ec Hun.
  rewrite (updateOutputs_unchanged_unfold comp outputs c k Ec Hun). split.
  - eapply ends_impl.
    + apply (forM_ends (commit_step k)); [apply commit_step_refl|].
      intros o ka Hin Ha. apply commitStep_unchanged; auto.
    + intros k' (B & V & _ & C). split; [unfold base0 in B; congruence|]. split.
      * intros r v Ev. destruct (heap_rel_lookup _ _ _ _ _ V Ev) as (v' & Ev' & Hv).
        exists v'. split; [exact Ev'|]. rewrite Hv. split; reflexivity.
      * intros r c0 Ec0. destruct (heap_rel_lookup _ _ _ _ _ C Ec0) as (c' & Ec' & Hc).
        exists c'. split; [exact Ec'|]. apply Hc.
  - intros Hq.
    destruct (commit_loop_quiet comp outputs k (c_outputs c) k) as (k' & E & Hcalls & _);
      eauto using commit_step_refl.
Qed.

(** ** Sample run: [Y] commits [y = 2], then runs again and returns [2] *)

Definition committedKernel : Kernel :=
  finalState
    ((executeComputation_start 0%nat ;;
      executeComputation_finish 8 0%nat 1%nat (Returned [("y", VNum 2)]) [0%nat])
       chainKernel)
    chainKernel.

Definition rerunKernel : Kernel :=
  finalState
    ((updateSource "x" (VNum 5) ;; executeComputation_start 0%nat) committedKernel)
    committedKernel.

Definition rerunComp : Comp := Eval vm_compute in getC rerunKernel 0.

Example committedKernel_y :
  v_result (getV committedKernel 1) = Success (VNum 2) /\
  v_dirty (getV committedKernel 1) = false /\
  k_calls committedKernel =
    [(1%nat, "y", Success (VNum 2))].
Proof. vm_compute. repeat split. Qed.

Example rerunKernel_running :
  c_runningTask rerunComp = Some 2%nat /\ state rerunComp = Ready /\
  v_dirty (getV rerunKernel 1) = true.
Proof. vm_compute. repeat split. Qed.

(** C1, the observers: the body returned the committed value of its only
    output, and the observer of that output was called all the same. *)
Lemma C1_observer_notified_counterexample :
  (forall o, In o (c_outputs rerunComp) ->
             valueChangedAt rerunKernel [("y", VNum 2)] o = false) /\
  match updateOutputs 0%nat [("y", VNum 2)] rerunKernel with
  | Ok _ k' =>
      k_calls k' = k_calls rerunKernel ++ [(1%nat, "y", Success (VNum 2))] /\
      k_calls k' <> k_calls rerunKernel
  | _ => False
  end.
Proof.
  split.
  - intros o Hin. cbn in Hin. destruct Hin as [<-|[]]. vm_compute. reflexivity.
  - vm_compute. split; [reflexivity|discriminate].
Qed.

Lemma C1_output_pruning_keeps_timestamps_and_counts_witness :
  ends (fun k' =>
          k_logicalClock k' = k_logicalClock rerunKernel /\
          (forall r v, k_vars rerunKernel !! r = Some v ->
             exists v', k_vars k' !! r = Some v' /\
                        v_value_at v' = v_value_at v /\ v_result v' = v_result v) /\
          (forall r c0, k_comps rerunKernel !! r = Some c0 ->
             exists c', k_comps k' !! r = Some c' /\
                        c_dirtyInputCount c' <= c_dirtyInputCount c0))
       (updateOutputs 0%nat [("y", VNum 2)] rerunKernel).
Proof.
  apply (C1_output_pruning_keeps_timestamps_and_counts rerunKernel 0%nat rerunComp
           [("y", VNum 2)]).
  - vm_compute. reflexivity.
  - intros o Hin. cbn in Hin. destruct Hin as [<-|[]]. vm_compute. reflexivity.
Defined.

(** ** Dispatch and input pruning *)

Lemma state_Ready_inv c :
  state c = Ready ->
  c_dirty c = true /\ (c_observeCount c =? 0) = false /\ (c_dirtyInputCount c >? 0) = false.
Proof.
  unfold state. destruct (c_dirty c); cbn; [|discriminate].
  destruct (c_observeCount c =? 0); [discriminate|].
  destruct (c_dirtyInputCount c >? 0); [discriminate|]. auto.
Qed.

Lemma getMaxInputVersion_vars inputs k k' :
  k_vars k' = k_vars k -> getMaxInputVersion inputs k' = getMaxInputVersion inputs k.
Proof. intros H. unfold getMaxInputVersion. rewrite H. reflexivity. Qed.

Lemma executeComputation_start_unfold comp c k :
  k_comps k !! comp = Some c ->
  state c = Ready ->
  executeComputation_start comp k =
    let taskId := S (k_taskIdCounter k) in
    let k1 := with_taskIdCounter taskId k in
    if shouldExecute c k
    then Ok (BodyInvoked taskId) (setupExecutionTask comp taskId k1)
    else match cleanOutputDirty comp k1 with
         | Ok _ k2 => Ok Skipped (set_dirty comp false k2)
         | Throw e k2 => Throw e k2
         | OutOfFuel => OutOfFuel
         end.
Proof.
  intros Ec Hs. destruct (state_Ready_inv c Hs) as (Hd & Ho & _).
  unfold executeComputation_start. rewrite Ec, Hs, Ho. cbn [ComputationState_eqb negb orb].
  cbv zeta. unfold bind, maybeSkipExecution.
  change (k_comps (with_taskIdCounter (S (k_taskIdCounter k)) k)) with (k_comps k).
  rewrite Ec.
  assert (Hse : shouldExecute c (with_taskIdCounter (S (k_taskIdCounter k)) k) = shouldExecute c k)
    by reflexivity.
  rewrite Hse. destruct (shouldExecute c k); cbn [negb].
  - reflexivity.
  - unfold bind, modify, ret.
    destruct (cleanOutputDirty comp _); reflexivity.
Qed.

(** [v'] is [v], or [v] with [dirty] cleared. *)
Definition vcleared (v v' : Var) : Prop :=
  v' = v \/ v' = set_v_dirty false v.

Lemma vcleared_refl v : vcleared v v.
Proof. left. reflexivity. Qed.
Lemma vcleared_trans v1 v2 v3 : vcleared v1 v2 -> vcleared v2 v3 -> vcleared v1 v3.
Proof.
  intros [->| ->] [->| ->]; unfold vcleared; auto.
Qed.
Lemma vcleared_quiet v v' : vcleared v v' -> quiet v -> quiet v'.
Proof. intros [->| ->] H; exact H. Qed.
Lemma vcleared_clean v v' : vcleared v v' -> v_dirty v = false -> v_dirty v' = false.
Proof. intros [->| ->] H; [exact H|reflexivity]. Qed.

Lemma cleanOutputDirty_loop :
  forall (outs : list (string * vref)) k,
    (forall o, In o outs -> exists v, k_vars k !! o.2 = Some v /\ quiet v) ->
    exists k',
      forM (fun (o : string * vref) =>
              modify (updV o.2 (set_v_dirty false)) ;; _cleanVariable o.2) outs k = Ok tt k' /\
      heap_rel vcleared (k_vars k) (k_vars k') /\
      heap_rel cclean (k_comps k) (k_comps k') /\
      (forall o, In o outs ->
         exists v', k_vars k' !! o.2 = Some v' /\ v_dirty v' = false).
Proof.
  induction outs as [|o outs IH]; intros k Hq.
  - exists k. split; [reflexivity|].
    split; [apply heap_rel_refl, vcleared_refl|].
    split; [apply heap_rel_refl, cclean_refl|]. intros o [].
  - cbn [forM]. unfold bind at 1. unfold bind at 1. unfold modify at 1.
    set (k1 := updV o.2 (set_v_dirty false) k).
    destruct (Hq o (or_introl eq_refl)) as (v & Ev & Hqv).
    assert (Ev1 : k_vars k1 !! o.2 = Some (set_v_dirty false v)).
    { subst k1. rewrite k_vars_updV, lookup_alter_eq, Ev. reflexivity. }
    assert (H01 : heap_rel vcleared (k_vars k) (k_vars k1)).
    { subst k1. rewrite k_vars_updV. apply heap_rel_alter; [apply vcleared_refl|].
      intros v0 _. right. reflexivity. }
    destruct (_cleanVariable_quiet o.2 _ k1 Ev1 Hqv) as (k2 & E2 & _ & H2).
    rewrite E2.
    pose proof (clean_step_vars _ _ H2) as Hv2.
    destruct (IH k2) as (k' & E' & HV & HC & Hall).
    { intros o' Hin. destruct (Hq o' (or_intror Hin)) as (v' & Ev' & Hq').
      rewrite Hv2. destruct (heap_rel_lookup _ _ _ _ _ H01 Ev') as (v1 & E1 & Hc1).
      exists v1. split; [exact E1|]. eapply vcleared_quiet; eauto. }
    exists k'. split; [exact E'|]. split.
    { eapply heap_rel_trans; [apply vcleared_trans|exact H01|]. rewrite <- Hv2. exact HV. }
    split.
    { eapply heap_rel_trans; [apply cclean_trans| |exact HC]. apply H2. }
    intros o' [<-|Hin]; [|apply Hall; exact Hin].
    rewrite <- Hv2 in Ev1.
    destruct (heap_rel_lookup _ _ _ _ _ HV Ev1) as (v' & Ev' & Hc').
    exists v'. split; [exact Ev'|]. eapply vcleared_clean; eauto.
Qed.

Lemma set_dirty_result r b c k :
  k_comps k !! r = Some c ->
  exists c', k_comps (set_dirty r b k) !! r = Some c' /\
             c_dirty c' = b /\ ctl (set_c_dirty b c) c'.
Proof.
  intros Ec. destruct (set_dirty_spec r b k) as [_ H].
  assert (E1 : k_comps (updC r (set_c_dirty b) k) !! r = Some (set_c_dirty b c)).
  { rewrite k_comps_updC, lookup_alter_eq, Ec. reflexivity. }
  destruct (heap_rel_lookup _ _ _ _ _ H E1) as (c' & Ec' & Hc).
  exists c'. split; [exact Ec'|]. split; [|exact Hc]. rewrite Hc. reflexivity.
Qed.

(** C7: dispatching a Ready computation.  With [input_version > 0] and the
    largest [value_at] of the runtime inputs not above it, the body is not
    invoked, whatever happens; when the observers of the outputs do not
    throw, the dispatch returns as skipped with every output clean and the
    computation's [dirty] false.  With [input_version = 0] the body is
    invoked, as the task with the next task id. *)
Theorem C7_input_pruning (k : Kernel) (comp : cref) (c : Comp) :
  k_comps k !! comp = Some c ->
  state c = Ready ->
  (0 < c_input_version c ->
   getMaxInputVersion (c_runtimeInputs c) k <= c_input_version c ->
   (forall task k', executeComputation_start comp k <> Ok (BodyInvoked task) k') /\
   ((forall o, In o (c_outputs c) -> exists v, k_vars k !! o.2 = Some v /\ quiet v) ->
    exists k',
      executeComputation_start comp k = Ok Skipped k' /\
      (forall o, In o (c_outputs c) ->
         exists v', k_vars k' !! o.2 = Some v' /\ v_dirty v' = false) /\
      exists c', k_comps k' !! comp = Some c' /\ c_dirty c' = false)) /\
  (c_input_version c = 0 ->
   exists k',
     executeComputation_start comp k = Ok (BodyInvoked (S (k_taskIdCounter k))) k' /\
     exists c', k_comps k' !! comp = Some c' /\
                c_runningTask c' = Some (S (k_taskIdCounter k))).
Proof.
  intros Ec Hs. rewrite (executeComputation_start_unfold comp c k Ec Hs). cbv zeta.
  split.
  - intros Hiv Hmax.
    assert (Hse : shouldExecute c k = false).
    { unfold shouldExecute. destruct (Z.eqb_spec (c_input_version c) 0); [lia|].
      destruct (Z.gtb_spec (getMaxInputVersion (c_runtimeInputs c) k) (c_input_version c));
        [lia|reflexivity]. }
    rewrite Hse. split.
    + intros task k'. destruct (cleanOutputDirty comp _); discriminate.
    + intros Hq. unfold cleanOutputDirty.
      change (k_comps (with_taskIdCounter (S (k_taskIdCounter k)) k)) with (k_comps k).
      rewrite Ec.
      destruct (cleanOutputDirty_loop (c_outputs c)
                  (with_taskIdCounter (S (k_taskIdCounter k)) k) Hq)
        as (k2 & E2 & HV & HC & Hall).
      rewrite E2. eexists. split; [reflexivity|]. split.
      * intros o Hin. rewrite set_dirty_vars. apply Hall. exact Hin.
      * destruct (heap_rel_lookup _ _ _ _ _ HC Ec) as (c2 & Ec2 & _).
        destruct (set_dirty_result comp false c2 k2 Ec2) as (c' & Ec' & Hd & _).
        eauto.
  - intros Hiv.
    assert (Hse : shouldExecute c k = true).
    { unfold shouldExecute. rewrite Hiv. reflexivity. }
    rewrite Hse. eexists. split; [reflexivity|].
    unfold setupExecutionTask.
    change (k_comps (with_taskIdCounter (S (k_taskIdCounter k)) k)) with (k_comps k).
    rewrite Ec. rewrite k_comps_updC. cbn [k_comps with_tasks].
    change (k_comps (with_taskIdCounter (S (k_taskIdCounter k)) k)) with (k_comps k).
    rewrite lookup_alter_eq, Ec. eexists. split; [reflexivity|]. reflexivity.
Qed.

Definition unchangedSourceKernel : Kernel :=
  finalState (updateSource "x" (VNum 1) committedKernel) committedKernel.

Definition unchangedSourceComp : Comp := Eval vm_compute in getC unchangedSourceKernel 0.

Lemma C7_input_pruning_witness :
  (exists k',
     executeComputation_start 0%nat unchangedSourceKernel = Ok Skipped k' /\
     (forall o, In o (c_outputs unchangedSourceComp) ->
        exists v', k_vars k' !! o.2 = Some v' /\ v_dirty v' = false) /\
     exists c', k_comps k' !! 0%nat = Some c' /\ c_dirty c' = false) /\
  (exists k',
     executeComputation_start 0%nat chainKernel = Ok (BodyInvoked 1%nat) k' /\
     exists c', k_comps k' !! 0%nat = Some c' /\ c_runningTask c' = Some 1%nat).
Proof.
  split.
  - destruct (C7_input_pruning unchangedSourceKernel 0%nat unchangedSourceComp) as [Hskip _].
    + vm_compute. reflexivity.
    + reflexivity.
    + destruct Hskip as [_ Hq].
      * cbn. lia.
      * vm_compute. discriminate.
      * apply Hq. intros o Hin. cbn in Hin. destruct Hin as [<-|[]].
        exists (getV unchangedSourceKernel 1). split; [vm_compute; reflexivity|].
        intros ob Hob r. vm_compute in Hob. destruct Hob as [<-|[]]. reflexivity.
  - destruct (C7_input_pruning chainKernel 0%nat (getC chainKernel 0%nat)) as [_ Hrun].
    + vm_compute. reflexivity.
    + reflexivity.
    + apply Hrun. reflexivity.
Defined.

(** ** Observers that throw *)

Definition throwingKernel : Kernel :=
  finalState
    ((defineSource 8 "x" (Some (VNum 1)) ;;
      _observe 8 "x" (throwingObserver 1)) emptyKernel)
    emptyKernel.

(** C3: at observe time a throwing callback is caught and logged -- the only
    exception that leaves [_observe] is the one for an unknown id.  When a
    variable is cleaned, [notifyObservers] calls the callback unguarded: on
    the sample kernel, whose source [x] has a throwing observer (caught and
    logged when it was attached), [updateSource] ends by throwing the
    observer's exception. *)
Theorem C3_observer_throw_caught_at_observe_only :
  (forall fuel variableId callback k e k',
     _observe fuel variableId callback k = Throw e k' ->
     lookupVar variableId k = None /\
     e = JsError ("Variable " +:+ variableId +:+ " not found.")) /\
  (forall fuel variableId callback k r k' v' e,
     _observe fuel variableId callback k = Ok r k' ->
     k_vars k' !! r = Some v' -> v_dirty v' = false ->
     obs_run callback (v_result v') = Some e ->
     last (k_log k') = Some (LogObserverFailed e)) /\
  k_log throwingKernel = [LogObserverFailed (JsError "observer failed")] /\
  exists k', updateSource "x" (VNum 2) throwingKernel = Throw (JsError "observer failed") k'.
Proof.
  split; [|split; [|split]].
  - intros fuel variableId callback k e k' H.
    unfold _observe, bind, _getVariable, lookupVar in *.
    destruct (k_variables k !! variableId) as [r|].
    + unfold modify, _propagateObserveCountUpward, liftO in H.
      destruct (propagateObserveCountUpward_fuel _ _ _ _) as [k1|]; [|discriminate].
      destruct (k_vars k1 !! r) as [v|]; [|discriminate].
      destruct (negb (v_dirty v)); [|discriminate].
      destruct (obs_run callback (v_result v)); discriminate.
    + destruct (k_problem_variables k !! variableId) as [r|].
      * unfold modify, _propagateObserveCountUpward, liftO in H.
        destruct (propagateObserveCountUpward_fuel _ _ _ _) as [k1|]; [|discriminate].
        destruct (k_vars k1 !! r) as [v|]; [|discriminate].
        destruct (negb (v_dirty v)); [|discriminate].
        destruct (obs_run callback (v_result v)); discriminate.
      * injection H as <- _. auto.
  - intros fuel variableId callback k r k' v' e H Ev Hd He.
    unfold _observe, bind in H.
    destruct (_getVariable variableId k) as [r0 k0|?|]; [|discriminate|discriminate].
    unfold modify, _propagateObserveCountUpward, liftO in H.
    destruct (propagateObserveCountUpward_fuel _ _ _ _) as [k1|]; [|discriminate].
    destruct (k_vars k1 !! r0) as [v|] eqn:Ev1.
    + destruct (v_dirty v) eqn:Hdv; cbn [negb] in H.
      * injection H as <- <-. rewrite Ev1 in Ev. injection Ev as <-. congruence.
      * destruct (obs_run callback (v_result v)) as [e0|] eqn:He0.
        -- injection H as <- <-. cbn [k_vars with_log with_calls] in Ev.
           rewrite Ev1 in Ev. injection Ev as <-.
           cbn [k_log with_log]. rewrite last_snoc. congruence.
        -- injection H as <- <-. cbn [k_vars with_calls] in Ev.
           rewrite Ev1 in Ev. injection Ev as <-. congruence.
    + injection H as <- <-. congruence.
  - vm_compute. reflexivity.
  - eexists. vm_compute. reflexivity.
Qed.

(** ** Setters are local to their computation *)

Lemma addToReadyQueue_comps r k : k_comps (addToReadyQueue r k) = k_comps k.
Proof.
  unfold addToReadyQueue. destruct (k_comps k !! r); [|reflexivity].
  destruct (_ && _); reflexivity.
Qed.

Lemma addToReadyQueue_tasks r k : k_tasks (addToReadyQueue r k) = k_tasks k.
Proof.
  unfold addToReadyQueue. destruct (k_comps k !! r); [|reflexivity].
  destruct (_ && _); reflexivity.
Qed.

Lemma checkScheduleNeeded_comps r s k : k_comps (checkScheduleNeeded r s k) = k_comps k.
Proof.
  unfold checkScheduleNeeded. destruct (k_comps k !! r); [|reflexivity].
  destruct (_ && _); [apply addToReadyQueue_comps|reflexivity].
Qed.

Lemma checkScheduleNeeded_tasks r s k : k_tasks (checkScheduleNeeded r s k) = k_tasks k.
Proof.
  unfold checkScheduleNeeded. destruct (k_comps k !! r); [|reflexivity].
  destruct (_ && _); [apply addToReadyQueue_tasks|reflexivity].
Qed.

Lemma abortTask_other r r' why k :
  r' <> r -> k_comps (abortTask r why k) !! r' = k_comps k !! r'.
Proof.
  intros Hne. unfold abortTask. destruct (k_comps k !! r) as [c|]; [|reflexivity].
  destruct (c_runningTask c); [|reflexivity].
  rewrite checkScheduleNeeded_comps, k_comps_updC.
  rewrite lookup_alter_ne by congruence. reflexivity.
Qed.

Lemma checkAbortNeeded_other r r' s1 s2 k :
  r' <> r -> k_comps (checkAbortNeeded r s1 s2 k) !! r' = k_comps k !! r'.
Proof.
  intros Hne. unfold checkAbortNeeded. destruct (k_comps k !! r) as [c|]; [|reflexivity].
  destruct (_ || _); [reflexivity|].
  destruct s2; try reflexivity; try (apply abortTask_other; exact Hne).
  destruct (c_dirty c); [apply abortTask_other; exact Hne|reflexivity].
Qed.

Lemma onStateChange_other r r' s k :
  r' <> r -> k_comps (onStateChange r s k) !! r' = k_comps k !! r'.
Proof.
  intros Hne. unfold onStateChange. destruct (k_comps k !! r) as [c|]; [|reflexivity].
  destruct (ComputationState_eqb _ _); [reflexivity|].
  rewrite checkScheduleNeeded_comps. apply checkAbortNeeded_other. exact Hne.
Qed.

Lemma updC_other r r' f k : r' <> r -> k_comps (updC r f k) !! r' = k_comps k !! r'.
Proof. intros Hne. rewrite k_comps_updC. apply lookup_alter_ne. congruence. Qed.

Lemma set_dirty_other r r' b k :
  r' <> r -> k_comps (set_dirty r b k) !! r' = k_comps k !! r'.
Proof.
  intros Hne. unfold set_dirty. destruct (k_comps k !! r) as [c|]; [|reflexivity].
  destruct (Bool.eqb _ _); [reflexivity|].
  rewrite onStateChange_other by exact Hne. apply updC_other. exact Hne.
Qed.

Lemma set_observeCount_other r r' n k :
  r' <> r -> k_comps (set_observeCount r n k) !! r' = k_comps k !! r'.
Proof.
  intros Hne. unfold set_observeCount. destruct (k_comps k !! r) as [c|]; [|reflexivity].
  destruct (_ =? _); [reflexivity|].
  rewrite onStateChange_other by exact Hne. apply updC_other. exact Hne.
Qed.

Lemma set_dirtyInputCount_other r r' n k :
  r' <> r -> k_comps (set_dirtyInputCount r n k) !! r' = k_comps k !! r'.
Proof.
  intros Hne. unfold set_dirtyInputCount. destruct (k_comps k !! r) as [c|]; [|reflexivity].
  destruct (_ =? _); [reflexivity|].
  rewrite onStateChange_other by exact Hne. apply updC_other. exact Hne.
Qed.

Lemma checkAbortOnCauseAtChange_other r r' t1 t2 k :
  r' <> r -> k_comps (checkAbortOnCauseAtChange r t1 t2 k) !! r' = k_comps k !! r'.
Proof.
  intros Hne. unfold checkAbortOnCauseAtChange.
  destruct (k_comps k !! r) as [c|]; [|reflexivity].
  destruct (c_runningTask c); [|reflexivity].
  destruct (k_tasks k !! _); [|reflexivity].
  destruct (_ <? _); [apply abortTask_other; exact Hne|reflexivity].
Qed.

Lemma set_cause_at_other r r' n k :
  r' <> r -> k_comps (set_cause_at r n k) !! r' = k_comps k !! r'.
Proof.
  intros Hne. unfold set_cause_at. destruct (k_comps k !! r) as [c|]; [|reflexivity].
  destruct (_ =? _).
  - apply updC_other. exact Hne.
  - rewrite checkAbortOnCauseAtChange_other by exact Hne. apply updC_other. exact Hne.
Qed.

Lemma tryIncrementDirtyInputCount_other comp r' src nd k :
  r' <> comp -> k_comps (tryIncrementDirtyInputCount comp src nd k) !! r' = k_comps k !! r'.
Proof.
  intros Hne. unfold tryIncrementDirtyInputCount.
  destruct src; [|reflexivity].
  destruct (k_vars k !! _); [|reflexivity].
  destruct (k_comps k !! comp); [|reflexivity].
  destruct (_ || _); [reflexivity|].
  destruct (_ && _); [apply set_dirtyInputCount_other; exact Hne|reflexivity].
Qed.

(** ** The [cause_at] setter and the running task *)

Definition taskAborted (k : Kernel) (comp : cref) (tid : nat) : Prop :=
  exists c t, k_comps k !! comp = Some c /\ k_tasks k !! tid = Some t /\
              c_runningTask c = None /\ In tid (c_abortingTasks c) /\ rt_aborted t = true.

Definition taskRunning (k : Kernel) (comp : cref) (tid : nat) : Prop :=
  exists c, k_comps k !! comp = Some c /\ c_runningTask c = Some tid.

Lemma set_add_nat_In x l : In x (set_add_nat x l).
Proof.
  unfold set_add_nat. destruct (existsb (Nat.eqb x) l) eqn:E.
  - apply existsb_exists in E as (y & Hy & Hxy). apply Nat.eqb_eq in Hxy. subst. exact Hy.
  - apply in_or_app. right. left. reflexivity.
Qed.

Lemma abortTask_aborts r why k c tid t :
  k_comps k !! r = Some c -> c_runningTask c = Some tid -> k_tasks k !! tid = Some t ->
  taskAborted (abortTask r why k) r tid.
Proof.
  intros Ec Hr Et. unfold abortTask. rewrite Ec, Hr.
  unfold taskAborted. rewrite checkScheduleNeeded_comps, checkScheduleNeeded_tasks.
  unfold updC, updT. cbn [with_comps with_tasks k_comps k_tasks with_log].
  rewrite !lookup_alter_eq, Ec, Et. cbn [fmap option_fmap option_map].
  eexists _, _. split; [reflexivity|]. split; [reflexivity|].
  cbn. split; [reflexivity|]. split; [apply set_add_nat_In|reflexivity].
Qed.

Lemma set_cause_at_running r value k c tid t :
  k_comps k !! r = Some c -> c_runningTask c = Some tid -> k_tasks k !! tid = Some t ->
  c_cause_at c <> value ->
  (rt_cause_at t < value -> taskAborted (set_cause_at r value k) r tid) /\
  (value <= rt_cause_at t ->
     set_cause_at r value k = updC r (set_c_cause_at value) k /\
     taskRunning (set_cause_at r value k) r tid).
Proof.
  intros Ec Hr Et Hne.
  assert (E1 : k_comps (updC r (set_c_cause_at value) k) !! r = Some (set_c_cause_at value c)).
  { rewrite k_comps_updC, lookup_alter_eq, Ec. reflexivity. }
  assert (Hs : set_cause_at r value k =
               if rt_cause_at t <? value
               then abortTask r (AbortCauseAtUpdated (c_cause_at c) value (rt_cause_at t))
                      (updC r (set_c_cause_at value) k)
               else updC r (set_c_cause_at value) k).
  { unfold set_cause_at. rewrite Ec.
    destruct (Z.eqb_spec (c_cause_at c) value); [contradiction|].
    unfold checkAbortOnCauseAtChange. rewrite E1. cbn [c_runningTask set_c_cause_at].
    rewrite Hr. change (k_tasks (updC r (set_c_cause_at value) k)) with (k_tasks k).
    rewrite Et. reflexivity. }
  rewrite Hs. split.
  - intros Hlt. destruct (Z.ltb_spec (rt_cause_at t) value); [|lia].
    eapply abortTask_aborts; [exact E1|exact Hr|exact Et].
  - intros Hle. destruct (Z.ltb_spec (rt_cause_at t) value); [lia|].
    split; [reflexivity|]. exists (set_c_cause_at value c). split; [exact E1|exact Hr].
Qed.

(** ** Tasks: setters only fire abort signals *)

Definition tflag (t t' : RunningTask) : Prop :=
  rt_taskId t' = rt_taskId t /\ rt_cause_at t' = rt_cause_at t.

Lemma tflag_refl t : tflag t t.
Proof. split; reflexivity. Qed.
Lemma tflag_trans t1 t2 t3 : tflag t1 t2 -> tflag t2 t3 -> tflag t1 t3.
Proof. intros [A1 B1] [A2 B2]. split; congruence. Qed.

Definition tasks_step (k k' : Kernel) : Prop := heap_rel tflag (k_tasks k) (k_tasks k').

Lemma tasks_step_refl k : tasks_step k k.
Proof. apply heap_rel_refl, tflag_refl. Qed.
Lemma tasks_step_trans k1 k2 k3 : tasks_step k1 k2 -> tasks_step k2 k3 -> tasks_step k1 k3.
Proof. intros H1 H2. eapply heap_rel_trans; eauto using tflag_trans. Qed.
Lemma tasks_step_eq k k' : k_tasks k' = k_tasks k -> tasks_step k k'.
Proof. intros E. unfold tasks_step. rewrite E. apply heap_rel_refl, tflag_refl. Qed.

Lemma abortTask_tasks r why k : tasks_step k (abortTask r why k).
Proof.
  unfold abortTask. destruct (k_comps k !! r) as [c|]; [|apply tasks_step_refl].
  destruct (c_runningTask c) as [task|]; [|apply tasks_step_refl].
  unfold tasks_step. rewrite checkScheduleNeeded_tasks.
  unfold updC, updT. cbn [with_comps with_tasks k_tasks with_log].
  apply heap_rel_alter; [apply tflag_refl|]. intros t _. split; reflexivity.
Qed.

Lemma checkAbortNeeded_tasks r s1 s2 k : tasks_step k (checkAbortNeeded r s1 s2 k).
Proof.
  unfold checkAbortNeeded. destruct (k_comps k !! r) as [c|]; [|apply tasks_step_refl].
  destruct (_ || _); [apply tasks_step_refl|].
  destruct s2; try apply tasks_step_refl; try apply abortTask_tasks.
  destruct (c_dirty c); [apply abortTask_tasks|apply tasks_step_refl].
Qed.

Lemma onStateChange_tasks r s k : tasks_step k (onStateChange r s k).
Proof.
  unfold onStateChange. destruct (k_comps k !! r) as [c|]; [|apply tasks_step_refl].
  destruct (ComputationState_eqb _ _); [apply tasks_step_refl|].
  eapply tasks_step_trans; [apply checkAbortNeeded_tasks|].
  apply tasks_step_eq, checkScheduleNeeded_tasks.
Qed.

Lemma set_dirty_tasks r b k : tasks_step k (set_dirty r b k).
Proof.
  unfold set_dirty. destruct (k_comps k !! r) as [c|]; [|apply tasks_step_refl].
  destruct (Bool.eqb _ _); [apply tasks_step_refl|].
  eapply tasks_step_trans;
    [apply (tasks_step_eq k (updC r (set_c_dirty b) k)); reflexivity|].
  apply onStateChange_tasks.
Qed.

Lemma set_observeCount_tasks r n k : tasks_step k (set_observeCount r n k).
Proof.
  unfold set_observeCount. destruct (k_comps k !! r) as [c|]; [|apply tasks_step_refl].
  destruct (_ =? _); [apply tasks_step_refl|].
  eapply tasks_step_trans;
    [apply (tasks_step_eq k (updC r (set_c_observeCount n) k)); reflexivity|].
  apply onStateChange_tasks.
Qed.

Lemma set_dirtyInputCount_tasks r n k : tasks_step k (set_dirtyInputCount r n k).
Proof.
  unfold set_dirtyInputCount. destruct (k_comps k !! r) as [c|]; [|apply tasks_step_refl].
  destruct (_ =? _); [apply tasks_step_refl|].
  eapply tasks_step_trans;
    [apply (tasks_step_eq k (updC r (set_c_dirtyInputCount n) k)); reflexivity|].
  apply onStateChange_tasks.
Qed.

Lemma set_cause_at_tasks r n k : tasks_step k (set_cause_at r n k).
Proof.
  unfold set_cause_at. destruct (k_comps k !! r) as [c|]; [|apply tasks_step_refl].
  destruct (_ =? _); [apply tasks_step_eq; reflexivity|].
  eapply tasks_step_trans;
    [apply (tasks_step_eq k (updC r (set_c_cause_at n) k)); reflexivity|].
  unfold checkAbortOnCauseAtChange.
  destruct (k_comps _ !! r) as [c1|]; [|apply tasks_step_refl].
  destruct (c_runningTask c1); [|apply tasks_step_refl].
  destruct (k_tasks _ !! _); [|apply tasks_step_refl].
  destruct (_ <? _); [|apply tasks_step_refl].
  apply abortTask_tasks.
Qed.

Lemma tryIncrementDirtyInputCount_tasks comp src nd k :
  tasks_step k (tryIncrementDirtyInputCount comp src nd k).
Proof.
  unfold tryIncrementDirtyInputCount.
  destruct src; [|apply tasks_step_refl].
  destruct (k_vars k !! _); [|apply tasks_step_refl].
  destruct (k_comps k !! comp); [|apply tasks_step_refl].
  destruct (_ || _); [apply tasks_step_refl|].
  destruct (_ && _); [apply set_dirtyInputCount_tasks|apply tasks_step_refl].
Qed.

Lemma propagateCauseAtDownward_tasks fuel comp t src nd k k' :
  propagateCauseAtDownward_fuel fuel comp t src nd k = Some k' ->
  dyn_step k k' /\ tasks_step k k'.
Proof.
  apply (propagateCauseAtDownward_rel (fun k k' => dyn_step k k' /\ tasks_step k k')).
  - intros. split; [apply dyn_step_refl|apply tasks_step_refl].
  - intros k1 k2 k3 [D1 T1] [D2 T2].
    split; [eapply dyn_step_trans|eapply tasks_step_trans]; eauto.
  - intros ka kb c0 c1 [D _]. apply dyn_step_outputs. exact D.
  - intros. split; [apply tryIncrementDirtyInputCount_dyn|apply tryIncrementDirtyInputCount_tasks].
  - intros. split.
    + eapply dyn_step_trans; [apply set_cause_at_dyn|apply set_dirty_dyn].
    + eapply tasks_step_trans; [apply set_cause_at_tasks|apply set_dirty_tasks].
  - intros. split; [|apply tasks_step_eq; reflexivity].
    apply updV_dyn. intros v; destruct v; reflexivity.
Qed.

(** ** Downward propagation in a ranked (acyclic) graph *)

(** [rank] grows along every edge output -> dependent. *)
Definition ranked (rank : nat -> nat) (k : Kernel) : Prop :=
  forall p P o ov d,
    k_comps k !! p = Some P -> In o (c_outputs P) ->
    k_vars k !! o.2 = Some ov -> In d (v_dependents ov) ->
    (rank p < rank d)%nat.

(** Every owner of [x] ranks below [n]. *)
Definition owners_below (rank : nat -> nat) (n : nat) (k : Kernel) (x : vref) : Prop :=
  forall p P o, k_comps k !! p = Some P -> In o (c_outputs P) -> o.2 = x -> (rank p < n)%nat.

Lemma vdyn_dependents v v' : vdyn v v' -> v_dependents v' = v_dependents v.
Proof. intros H. rewrite H. reflexivity. Qed.

Lemma dyn_step_ranked rank k k' : dyn_step k k' -> ranked rank k -> ranked rank k'.
Proof.
  intros (_ & HV & HC) Hr p P' o ov' d Ep Hin Ev Hd.
  destruct (heap_rel_lookup_r _ _ _ _ _ HC Ep) as (P & EP & HP).
  destruct (heap_rel_lookup_r _ _ _ _ _ HV Ev) as (ov & Eov & Hov).
  apply (Hr p P o ov d EP); [rewrite <- (cdyn_outputs _ _ HP); exact Hin|exact Eov|].
  rewrite <- (vdyn_dependents _ _ Hov). exact Hd.
Qed.

Lemma dyn_step_owners_below rank n k k' x :
  dyn_step k k' -> owners_below rank n k x -> owners_below rank n k' x.
Proof.
  intros (_ & _ & HC) Ho p P' o Ep Hin Hx.
  destruct (heap_rel_lookup_r _ _ _ _ _ HC Ep) as (P & EP & HP).
  apply (Ho p P o EP); [rewrite <- (cdyn_outputs _ _ HP); exact Hin|exact Hx].
Qed.

(** A propagation started at rank [n] leaves alone the computations below
    [n] and the variables whose owners are all below [n]. *)
Definition above (rank : nat -> nat) (n : nat) (k k' : Kernel) : Prop :=
  dyn_step k k' /\ tasks_step k k' /\
  (forall r, (rank r < n)%nat -> k_comps k' !! r = k_comps k !! r) /\
  (forall x, owners_below rank n k x -> k_vars k' !! x = k_vars k !! x).

Lemma above_refl rank n k : above rank n k k.
Proof. split; [apply dyn_step_refl|]. split; [apply tasks_step_refl|]. auto. Qed.

Lemma above_trans rank n k1 k2 k3 :
  above rank n k1 k2 -> above rank n k2 k3 -> above rank n k1 k3.
Proof.
  intros (D1 & T1 & C1 & V1) (D2 & T2 & C2 & V2).
  split; [eapply dyn_step_trans; eauto|]. split; [eapply tasks_step_trans; eauto|]. split.
  - intros r Hr. rewrite C2, C1; auto.
  - intros x Hx. rewrite V2, V1; eauto using dyn_step_owners_below.
Qed.

Lemma above_mono rank n m k k' : (n <= m)%nat -> above rank m k k' -> above rank n k k'.
Proof.
  intros Hle (D & T & C & V). split; [exact D|]. split; [exact T|]. split.
  - intros r Hr. apply C. lia.
  - intros x Hx. apply V. intros p P o Ep Hin Ho. specialize (Hx p P o Ep Hin Ho). lia.
Qed.

Lemma propagateCauseAtDownward_above rank :
  forall fuel comp t src nd k k',
    ranked rank k ->
    propagateCauseAtDownward_fuel fuel comp t src nd k = Some k' ->
    above rank (rank comp) k k'.
Proof.
  induction fuel as [|fuel IH]; intros comp t src nd k k' Hrk H; [discriminate|].
  cbn [propagateCauseAtDownward_fuel] in H.
  set (k1 := tryIncrementDirtyInputCount comp src nd k) in *.
  assert (H01 : above rank (rank comp) k k1).
  { split; [apply tryIncrementDirtyInputCount_dyn|].
    split; [apply tryIncrementDirtyInputCount_tasks|]. split.
    - intros r Hr. apply tryIncrementDirtyInputCount_other. intros ->. lia.
    - intros x _. subst k1. rewrite tryIncrementDirtyInputCount_vars. reflexivity. }
  destruct (k_comps k1 !! comp) as [c|] eqn:Ec.
  2:{ injection H as <-. exact H01. }
  destruct (t <=? c_cause_at c).
  { injection H as <-. exact H01. }
  set (k3 := set_dirty comp true (updateCauseAt comp t k1)) in *.
  assert (H13 : above rank (rank comp) k1 k3).
  { split; [eapply dyn_step_trans; [apply set_cause_at_dyn|apply set_dirty_dyn]|].
    split; [eapply tasks_step_trans; [apply set_cause_at_tasks|apply set_dirty_tasks]|].
    split.
    - intros r Hr. subst k3. rewrite set_dirty_other by (intros ->; lia).
      unfold updateCauseAt. apply set_cause_at_other. intros ->. lia.
    - intros x _. subst k3. rewrite set_dirty_vars. unfold updateCauseAt.
      rewrite set_cause_at_vars. reflexivity. }
  eapply above_trans; [exact H01|]. eapply above_trans; [exact H13|].
  assert (Hrk3 : ranked rank k3).
  { eapply dyn_step_ranked; [|exact Hrk].
    eapply dyn_step_trans; [apply H01|apply H13]. }
  revert H. apply (foldO_inv (fun kx => above rank (rank comp) k3 kx)); [|apply above_refl].
  intros o ka kb Hin Ha Hstep.
  destruct (k_vars ka !! o.2) as [output|] eqn:Ev.
  2:{ injection Hstep as <-. exact Ha. }
  destruct (k_comps ka !! comp) as [c'|] eqn:Ec'.
  2:{ injection Hstep as <-. exact Ha. }
  assert (Hc' : c_outputs c' = c_outputs c).
  { destruct (dyn_step_outputs k1 ka comp c) as (c2 & E2 & Ho); [|exact Ec|congruence].
    eapply dyn_step_trans; [apply H13|apply Ha]. }
  assert (Hrka : ranked rank ka) by (eapply dyn_step_ranked; [apply Ha|exact Hrk3]).
  set (kc := updV o.2 _ ka) in *.
  assert (Hac : above rank (rank comp) ka kc).
  { split; [apply updV_dyn; intros v; destruct v; reflexivity|].
    split; [apply tasks_step_eq; reflexivity|]. split; [reflexivity|].
    intros x Hx. subst kc. rewrite k_vars_updV. apply lookup_alter_ne. intros Heq.
    specialize (Hx comp c' o Ec'). rewrite Hc' in Hx. specialize (Hx Hin Heq). lia. }
  eapply above_trans; [exact Ha|]. eapply above_trans; [exact Hac|].
  assert (Hrkc : ranked rank kc) by (eapply dyn_step_ranked; [apply Hac|exact Hrka]).
  revert Hstep. apply (foldO_inv (fun kx => above rank (rank comp) kc kx)); [|apply above_refl].
  intros d kd ke Hd HRd Hde. eapply above_trans; [exact HRd|].
  apply (above_mono rank (rank comp) (rank d)).
  - assert (rank comp < rank d)%nat; [|lia].
    apply (Hrka comp c' o output d Ec'); [rewrite Hc'; exact Hin|exact Ev|exact Hd].
  - eapply IH; [|exact Hde]. eapply dyn_step_ranked; [apply HRd|exact Hrkc].
Qed.

(** ** Upward propagation that finds nothing stale *)

(** Invariant C2 (first half) for the computations other than [comp]. *)
Definition InvC2_except (comp : cref) (k : Kernel) : Prop :=
  forall p P i vi,
    p <> comp -> k_comps k !! p = Some P -> In i (c_runtimeInputs P) ->
    k_vars k !! i = Some vi -> v_cause_at vi <= c_cause_at P.

Definition InvC2 (k : Kernel) : Prop :=
  forall p P i vi,
    k_comps k !! p = Some P -> In i (c_runtimeInputs P) ->
    k_vars k !! i = Some vi -> v_cause_at vi <= c_cause_at P.

Definition Uinv (comp : cref) (k : Kernel) : Prop :=
  InvC2_except comp k /\
  forall c, k_comps k !! comp = Some c -> c_dirty c = true /\ 0 < c_observeCount c.

Definition vobs (v v' : Var) : Prop := v' = set_v_observeCount (v_observeCount v') v.
Definition cobs (c c' : Comp) : Prop :=
  c' = set_c_observeCount (c_observeCount c')
         (set_c_abortingTasks (c_abortingTasks c')
            (set_c_runningTask (c_runningTask c') c)).

Lemma vobs_refl v : vobs v v.
Proof. destruct v; reflexivity. Qed.
Lemma vobs_trans v1 v2 v3 : vobs v1 v2 -> vobs v2 v3 -> vobs v1 v3.
Proof. unfold vobs. intros H1 H2. rewrite H2, H1. destruct v1; reflexivity. Qed.
Lemma cobs_refl c : cobs c c.
Proof. destruct c; reflexivity. Qed.
Lemma cobs_trans c1 c2 c3 : cobs c1 c2 -> cobs c2 c3 -> cobs c1 c3.
Proof. unfold cobs. intros H1 H2. rewrite H2, H1. destruct c1; reflexivity. Qed.
Lemma ctl_cobs c c' : ctl c c' -> cobs c c'.
Proof. unfold ctl, cobs. intros H. rewrite H. destruct c; reflexivity. Qed.
Lemma vobs_vdyn v v' : vobs v v' -> vdyn v v'.
Proof. unfold vobs, vdyn. intros H. rewrite H. destruct v; reflexivity. Qed.
Lemma cobs_cdyn c c' : cobs c c' -> cdyn c c'.
Proof. unfold cobs, cdyn. intros H. rewrite H. destruct c; reflexivity. Qed.

Definition up_step (comp : cref) (k k' : Kernel) : Prop :=
  base k' = base k /\
  heap_rel vobs (k_vars k) (k_vars k') /\
  heap_rel cobs (k_comps k) (k_comps k') /\
  tasks_step k k' /\
  forall c, k_comps k !! comp = Some c -> c_dirty c = true -> 0 < c_observeCount c ->
            exists c', k_comps k' !! comp = Some c' /\
                       c_runningTask c' = c_runningTask c /\
                       c_abortingTasks c' = c_abortingTasks c /\
                       c_observeCount c <= c_observeCount c'.

Lemma up_step_refl comp k : up_step comp k k.
Proof.
  split; [reflexivity|]. split; [apply heap_rel_refl, vobs_refl|].
  split; [apply heap_rel_refl, cobs_refl|]. split; [apply tasks_step_refl|].
  intros c Ec _ _. exists c. repeat split; auto. lia.
Qed.

Lemma up_step_trans comp k1 k2 k3 :
  up_step comp k1 k2 -> up_step comp k2 k3 -> up_step comp k1 k3.
Proof.
  intros (B1 & V1 & C1 & T1 & E1) (B2 & V2 & C2 & T2 & E2).
  split; [congruence|]. split; [eapply heap_rel_trans; eauto using vobs_trans|].
  split; [eapply heap_rel_trans; eauto using cobs_trans|].
  split; [eapply tasks_step_trans; eauto|].
  intros c Ec Hd Ho. destruct (E1 c Ec Hd Ho) as (c2 & Ec2 & R2 & A2 & O2).
  destruct (heap_rel_lookup _ _ _ _ _ C1 Ec) as (c2' & Ec2' & Hc2).
  assert (c2' = c2) by congruence. subst c2'.
  destruct (E2 c2 Ec2) as (c3 & Ec3 & R3 & A3 & O3).
  { rewrite Hc2. exact Hd. }
  { lia. }
  exists c3. split; [exact Ec3|]. split; [congruence|]. split; [congruence|lia].
Qed.

Lemma up_step_dyn comp k k' : up_step comp k k' -> dyn_step k k'.
Proof.
  intros (B & V & C & _). split; [exact B|]. split.
  - eapply heap_rel_impl; [|exact V]. apply vobs_vdyn.
  - eapply heap_rel_impl; [|exact C]. apply cobs_cdyn.
Qed.

Lemma up_step_Uinv comp k k' : up_step comp k k' -> Uinv comp k -> Uinv comp k'.
Proof.
  intros (B & V & C & T & E) [HC2 Hcomp]. split.
  - intros p P' i vi' Hne EP Hin Evi.
    destruct (heap_rel_lookup_r _ _ _ _ _ C EP) as (P & EP0 & HP).
    destruct (heap_rel_lookup_r _ _ _ _ _ V Evi) as (vi & Evi0 & Hvi).
    assert (Hin0 : In i (c_runtimeInputs P)) by (rewrite HP in Hin; exact Hin).
    specialize (HC2 p P i vi Hne EP0 Hin0 Evi0).
    rewrite HP, Hvi. exact HC2.
  - intros c' Ec'.
    destruct (heap_rel_lookup_r _ _ _ _ _ C Ec') as (c & Ec & Hc).
    destruct (Hcomp c Ec) as [Hd Ho].
    destruct (E c Ec Hd Ho) as (c2 & Ec2 & _ & _ & Hoc).
    assert (c2 = c') by congruence. subst c2.
    split; [rewrite Hc; exact Hd|lia].
Qed.

Lemma maxCauseAt_le inputs k B :
  (forall i vi, In i inputs -> k_vars k !! i = Some vi -> v_cause_at vi <= B) ->
  forall m, maxCauseAt inputs k = Some m -> m <= B.
Proof.
  unfold maxCauseAt.
  assert (G : forall l acc,
             (forall i vi, In i l -> k_vars k !! i = Some vi -> v_cause_at vi <= B) ->
             (forall a, acc = Some a -> a <= B) ->
             forall m,
               fold_left (fun acc input =>
                            match k_vars k !! input with
                            | Some v => match acc with
                                        | Some m => Some (Z.max m (v_cause_at v))
                                        | None => Some (v_cause_at v)
                                        end
                            | None => acc
                            end) l acc = Some m -> m <= B).
  { induction l as [|i l IH]; intros acc Hl Hacc m Hm.
    - cbn in Hm. auto.
    - cbn [fold_left] in Hm. eapply IH; [| |exact Hm].
      + intros; eapply Hl; [right|]; eauto.
      + intros a Ha. destruct (k_vars k !! i) as [vi|] eqn:Ei; [|auto].
        assert (v_cause_at vi <= B) by (eapply Hl; [left; reflexivity|exact Ei]).
        destruct acc as [a0|]; injection Ha as <-; [|assumption].
        specialize (Hacc a0 eq_refl). lia. }
  intros Hl m Hm. eapply G; [exact Hl| |exact Hm]. intros a Ha. discriminate.
Qed.

Lemma state_observeCount_nonzero c n :
  c_observeCount c <> 0 -> n <> 0 -> state (set_c_observeCount n c) = state c.
Proof.
  intros H1 H2. unfold state. cbn.
  destruct (Z.eqb_spec (c_observeCount c) 0); [contradiction|].
  destruct (Z.eqb_spec n 0); [contradiction|]. reflexivity.
Qed.

Lemma ComputationState_eqb_refl s : ComputationState_eqb s s = true.
Proof. destruct s; reflexivity. Qed.

Lemma set_observeCount_quiet r n c k :
  k_comps k !! r = Some c -> c_observeCount c <> 0 -> n <> 0 ->
  k_comps (set_observeCount r n k) !! r = Some (set_c_observeCount n c).
Proof.
  intros Ec H1 H2. unfold set_observeCount. rewrite Ec.
  destruct (Z.eqb_spec (c_observeCount c) n) as [Heq|Hne].
  - rewrite Ec. subst n. destruct c; reflexivity.
  - unfold onStateChange.
    assert (E1 : k_comps (updC r (set_c_observeCount n) k) !! r = Some (set_c_observeCount n c)).
    { rewrite k_comps_updC, lookup_alter_eq, Ec. reflexivity. }
    rewrite E1. rewrite (state_observeCount_nonzero c n H1 H2).
    rewrite ComputationState_eqb_refl. exact E1.
Qed.

Lemma set_observeCount_up comp r n k :
  (r = comp -> forall c, k_comps k !! comp = Some c -> 0 < c_observeCount c ->
               c_observeCount c <= n) ->
  up_step comp k (set_observeCount r n k).
Proof.
  intros Hn. split; [apply (set_observeCount_dyn r n k)|].
  split; [rewrite set_observeCount_vars; apply heap_rel_refl, vobs_refl|].
  split.
  { apply (heap_rel_trans _ _ (k_comps (updC r (set_c_observeCount n) k))).
    - apply cobs_trans.
    - rewrite k_comps_updC.
      apply heap_rel_alter; [apply cobs_refl|]. intros c _. destruct c; reflexivity.
    - eapply heap_rel_impl; [apply ctl_cobs|]. apply set_observeCount_spec. }
  split; [apply set_observeCount_tasks|].
  intros c Ec Hd Ho. destruct (decide (r = comp)) as [->|Hne].
  - rewrite (set_observeCount_quiet comp n c k Ec); [|lia|specialize (Hn eq_refl c Ec Ho); lia].
    eexists. split; [reflexivity|]. cbn. repeat split. apply (Hn eq_refl c Ec Ho).
  - rewrite set_observeCount_other by congruence. exists c. repeat split; auto. lia.
Qed.

Lemma updV_observeCount_up comp x f k :
  (forall v, vobs v (f v)) -> up_step comp k (updV x f k).
Proof.
  intros Hf. split; [reflexivity|]. split.
  - rewrite k_vars_updV. apply heap_rel_alter; [apply vobs_refl|]. auto.
  - split; [apply heap_rel_refl, cobs_refl|]. split; [apply tasks_step_eq; reflexivity|].
    intros c Ec _ _. exists c. repeat split; auto. lia.
Qed.

Lemma propagateObserveCountUpward_inert comp :
  forall fuel x delta k k',
    0 < delta -> Uinv comp k ->
    propagateObserveCountUpward_fuel fuel x delta k = Some k' ->
    up_step comp k k'.
Proof.
  induction fuel as [|fuel IH]; intros x delta k k' Hdelta HU H; [discriminate|].
  cbn [propagateObserveCountUpward_fuel] in H.
  destruct (Z.eqb_spec delta 0); [lia|].
  set (k1 := updV x _ k) in *.
  assert (H01 : up_step comp k k1).
  { apply updV_observeCount_up. intros v; destruct v; reflexivity. }
  destruct (k_vars k1 !! x) as [v|]; [|injection H as <-; exact H01].
  destruct (v_producer v) as [producer|]; [|injection H as <-; exact H01].
  destruct (k_comps k1 !! producer) as [p|] eqn:Ep; [|injection H as <-; exact H01].
  set (k2 := set_observeCount producer (c_observeCount p + delta) k1) in *.
  assert (H12 : up_step comp k1 k2).
  { apply set_observeCount_up. intros -> c Ec Ho.
    assert (c = p) by congruence. subst c. lia. }
  assert (H02 : up_step comp k k2) by (eapply up_step_trans; eauto).
  destruct (foldO _ (c_runtimeInputs p) k2) as [k3|] eqn:Ef; [|discriminate].
  assert (H23 : up_step comp k2 k3).
  { revert Ef. apply (foldO_inv (fun kx => up_step comp k2 kx)); [|apply up_step_refl].
    intros i ka kb _ Ha Hb. eapply up_step_trans; [exact Ha|].
    eapply IH; [exact Hdelta| |exact Hb].
    eapply up_step_Uinv; [|exact HU]. eapply up_step_trans; eauto. }
  assert (H03 : up_step comp k k3) by (eapply up_step_trans; eauto).
  destruct (k_comps k3 !! producer) as [p'|] eqn:Ep'; [|injection H as <-; exact H03].
  destruct (up_step_Uinv comp k k3 H03 HU) as [HC2 Hcomp].
  destruct ((delta >? 0) && negb (c_dirty p') && isStale p' k3) eqn:Hcond;
    [|injection H as <-; exact H03].
  destruct (maxCauseAt (c_runtimeInputs p') k3) as [m|] eqn:Em;
    [|injection H as <-; exact H03].
  assert (Hm : (m >? c_cause_at p') = false).
  { destruct (decide (producer = comp)) as [->|Hne].
    - destruct (Hcomp p' Ep') as [Hd _]. rewrite Hd in Hcond.
      rewrite andb_false_r in Hcond. discriminate.
    - assert (m <= c_cause_at p').
      { eapply maxCauseAt_le; [|exact Em]. intros i vi Hin Evi.
        eapply HC2; eauto. }
      destruct (Z.gtb_spec m (c_cause_at p')); [lia|reflexivity]. }
  rewrite Hm in H. injection H as <-. exact H03.
Qed.

(** ** A propagation started by the running computation itself *)

(** As [above], but the computations of rank [n] itself are left alone too. *)
Definition above_eq (rank : nat -> nat) (n : nat) (k k' : Kernel) : Prop :=
  dyn_step k k' /\ tasks_step k k' /\
  (forall r, (rank r <= n)%nat -> k_comps k' !! r = k_comps k !! r) /\
  (forall x, owners_below rank n k x -> k_vars k' !! x = k_vars k !! x).

Lemma above_eq_refl rank n k : above_eq rank n k k.
Proof. split; [apply dyn_step_refl|]. split; [apply tasks_step_refl|]. auto. Qed.

Lemma above_eq_trans rank n k1 k2 k3 :
  above_eq rank n k1 k2 -> above_eq rank n k2 k3 -> above_eq rank n k1 k3.
Proof.
  intros (D1 & T1 & C1 & V1) (D2 & T2 & C2 & V2).
  split; [eapply dyn_step_trans; eauto|]. split; [eapply tasks_step_trans; eauto|]. split.
  - intros r Hr. rewrite C2, C1; auto.
  - intros x Hx. rewrite V2, V1; eauto using dyn_step_owners_below.
Qed.

Lemma above_above_eq rank n m k k' : (n < m)%nat -> above rank m k k' -> above_eq rank n k k'.
Proof.
  intros Hlt (D & T & C & V). split; [exact D|]. split; [exact T|]. split.
  - intros r Hr. apply C. lia.
  - intros x Hx. apply V. intros p P o Ep Hin Ho. specialize (Hx p P o Ep Hin Ho). lia.
Qed.

Lemma tryIncrementDirtyInputCount_not_new comp src k :
  tryIncrementDirtyInputCount comp src false k = k.
Proof.
  unfold tryIncrementDirtyInputCount. destruct src as [sv|]; [|reflexivity].
  destruct (k_vars k !! sv); [|reflexivity]. destruct (k_comps k !! comp); reflexivity.
Qed.

Lemma set_dirty_already r b c k :
  k_comps k !! r = Some c -> c_dirty c = b -> set_dirty r b k = k.
Proof.
  intros Ec Hb. unfold set_dirty. rewrite Ec, Hb. rewrite eqb_reflx. reflexivity.
Qed.

(** The outputs loop of a propagation at [comp] touches neither [comp] nor
    anything upstream of it. *)
Lemma propagateToOutputs_above_eq rank fuel comp t c outs k k' :
  ranked rank k -> k_comps k !! comp = Some c -> incl outs (c_outputs c) ->
  foldO (fun (o : string * vref) k =>
           match k_vars k !! o.2, k_comps k !! comp with
           | Some output, Some c' =>
               let wasOutputDirty := v_dirty output in
               let k' := updV o.2 (fun v => set_v_dirty true
                                              (set_v_cause_at (c_cause_at c') v)) k in
               foldO (fun downstreamComp k =>
                        propagateCauseAtDownward_fuel fuel downstreamComp
                          t (Some o.2) (negb wasOutputDirty) k)
                     (v_dependents output) k'
           | _, _ => Some k
           end) outs k = Some k' ->
  above_eq rank (rank comp) k k'.
Proof.
  intros Hrk Ec Hincl.
  apply (foldO_inv (fun kx => above_eq rank (rank comp) k kx)); [|apply above_eq_refl].
  intros o ka kb Hin Ha Hstep.
  destruct (k_vars ka !! o.2) as [output|] eqn:Ev.
  2:{ injection Hstep as <-. exact Ha. }
  assert (Ec' : k_comps ka !! comp = Some c).
  { destruct Ha as (_ & _ & HC & _). rewrite HC by lia. exact Ec. }
  rewrite Ec' in Hstep.
  assert (Hrka : ranked rank ka) by (eapply dyn_step_ranked; [apply Ha|exact Hrk]).
  set (kc := updV o.2 _ ka) in *.
  assert (Hac : above_eq rank (rank comp) ka kc).
  { split; [apply updV_dyn; intros v; destruct v; reflexivity|].
    split; [apply tasks_step_eq; reflexivity|]. split; [reflexivity|].
    intros x Hx. subst kc. rewrite k_vars_updV. apply lookup_alter_ne. intros Heq.
    specialize (Hx comp c o Ec' (Hincl _ Hin) Heq). lia. }
  eapply above_eq_trans; [exact Ha|]. eapply above_eq_trans; [exact Hac|].
  assert (Hrkc : ranked rank kc) by (eapply dyn_step_ranked; [apply Hac|exact Hrka]).
  revert Hstep.
  apply (foldO_inv (fun kx => above_eq rank (rank comp) kc kx)); [|apply above_eq_refl].
  intros d kd ke Hd HRd Hde. eapply above_eq_trans; [exact HRd|].
  apply (above_above_eq rank (rank comp) (rank d)).
  - apply (Hrka comp c o output d Ec'); [exact (Hincl _ Hin)|exact Ev|exact Hd].
  - eapply propagateCauseAtDownward_above; [|exact Hde].
    eapply dyn_step_ranked; [apply HRd|exact Hrkc].
Qed.

(** A propagation at a dirty computation whose running task has captured a
    [cause_at] no smaller than the propagated one leaves the task running. *)
Lemma propagateCauseAtDownward_own rank fuel comp t src k k' c tid task :
  ranked rank k ->
  k_comps k !! comp = Some c -> c_dirty c = true -> c_runningTask c = Some tid ->
  k_tasks k !! tid = Some task -> t <= rt_cause_at task ->
  propagateCauseAtDownward_fuel fuel comp t src false k = Some k' ->
  tasks_step k k' /\
  (forall x, owners_below rank (rank comp) k x -> k_vars k' !! x = k_vars k !! x) /\
  exists c', k_comps k' !! comp = Some c' /\ c_runningTask c' = Some tid /\
             c_dirty c' = true /\ c_dirtyInputCount c' = c_dirtyInputCount c /\
             c_observeCount c' = c_observeCount c /\
             c_cause_at c' = Z.max (c_cause_at c) t.
Proof.
  intros Hrk Ec Hd Hr Et Hle H. destruct fuel as [|fuel]; [discriminate|].
  cbn [propagateCauseAtDownward_fuel] in H.
  rewrite tryIncrementDirtyInputCount_not_new, Ec in H.
  destruct (Z.leb_spec t (c_cause_at c)) as [Hold|Hnew].
  { injection H as <-. split; [apply tasks_step_refl|]. split; [reflexivity|].
    exists c. repeat split; auto. lia. }
  destruct (set_cause_at_running comp t k c tid task Ec Hr Et) as [_ Hrun]; [lia|].
  destruct (Hrun Hle) as [Hset _]. unfold updateCauseAt in H. rewrite Hset in H.
  assert (E1 : k_comps (updC comp (set_c_cause_at t) k) !! comp = Some (set_c_cause_at t c)).
  { rewrite k_comps_updC, lookup_alter_eq, Ec. reflexivity. }
  rewrite (set_dirty_already comp true _ _ E1) in H by exact Hd.
  assert (Hrk1 : ranked rank (updC comp (set_c_cause_at t) k)).
  { eapply dyn_step_ranked; [|exact Hrk]. apply updC_dyn. intros c0; destruct c0; reflexivity. }
  pose proof (propagateToOutputs_above_eq rank fuel comp t _ _ _ _ Hrk1 E1
                (incl_refl _) H) as (HD & HT & HC & HV).
  split; [eapply tasks_step_trans; [apply tasks_step_eq; reflexivity|exact HT]|].
  split.
  - intros x Hx. rewrite HV; [reflexivity|].
    eapply dyn_step_owners_below; [|exact Hx].
    apply updC_dyn. intros c0; destruct c0; reflexivity.
  - exists (set_c_cause_at t c). rewrite HC by lia. split; [exact E1|].
    cbn. repeat split; auto. lia.
Qed.

(** ** Dynamic attachment: the state after the pre-bump and step 1 *)

Definition attachDependency (comp : cref) (variable : vref) (k : Kernel) : Kernel :=
  updV variable (fun v => set_v_dependents (set_add_nat comp (v_dependents v)) v)
    (updC comp (fun c => set_c_runtimeInputs (set_add_nat variable (c_runtimeInputs c)) c)
       (prebumpTaskCauseAt comp variable k)).

Lemma prebumpTaskCauseAt_comps comp variable k :
  k_comps (prebumpTaskCauseAt comp variable k) = k_comps k.
Proof.
  unfold prebumpTaskCauseAt. destruct (k_vars k !! variable); [|reflexivity].
  destruct (k_comps k !! comp) as [c|]; [|reflexivity].
  destruct (c_runningTask c); [|reflexivity]. destruct (_ >? _); reflexivity.
Qed.

Lemma prebumpTaskCauseAt_vars comp variable k :
  k_vars (prebumpTaskCauseAt comp variable k) = k_vars k.
Proof.
  unfold prebumpTaskCauseAt. destruct (k_vars k !! variable); [|reflexivity].
  destruct (k_comps k !! comp) as [c|]; [|reflexivity].
  destruct (c_runningTask c); [|reflexivity]. destruct (_ >? _); reflexivity.
Qed.

Lemma attachDependency_comps comp variable k :
  k_comps (attachDependency comp variable k) =
  alter (fun c => set_c_runtimeInputs (set_add_nat variable (c_runtimeInputs c)) c)
        comp (k_comps k).
Proof.
  unfold attachDependency.
  change (k_comps (updV ?x ?f ?k0)) with (k_comps k0).
  rewrite k_comps_updC, prebumpTaskCauseAt_comps. reflexivity.
Qed.

Lemma attachDependency_vars comp variable k :
  k_vars (attachDependency comp variable k) =
  alter (fun v => set_v_dependents (set_add_nat comp (v_dependents v)) v)
        variable (k_vars k).
Proof.
  unfold attachDependency. rewrite k_vars_updV.
  change (k_vars (updC ?x ?f ?k0)) with (k_vars k0).
  rewrite prebumpTaskCauseAt_vars. reflexivity.
Qed.

Lemma attachDependency_task comp variable k c v tid t :
  k_comps k !! comp = Some c -> k_vars k !! variable = Some v ->
  c_runningTask c = Some tid -> k_tasks k !! tid = Some t ->
  exists t', k_tasks (attachDependency comp variable k) !! tid = Some t' /\
             rt_aborted t' = rt_aborted t /\
             (c_cause_at c < v_cause_at v -> rt_cause_at t' = v_cause_at v).
Proof.
  intros Ec Ev Hr Et. unfold attachDependency.
  change (k_tasks (updV ?x ?f ?k0)) with (k_tasks k0).
  change (k_tasks (updC ?x ?f ?k0)) with (k_tasks k0).
  unfold prebumpTaskCauseAt. rewrite Ev, Ec, Hr.
  destruct (Z.gtb_spec (v_cause_at v) (c_cause_at c)) as [Hgt|Hle].
  - unfold updT. cbn [with_tasks k_tasks]. rewrite lookup_alter_eq, Et.
    eexists. split; [reflexivity|]. cbn. split; reflexivity.
  - exists t. split; [exact Et|]. split; [reflexivity|lia].
Qed.

Lemma set_add_nat_elim x y l : In y (set_add_nat x l) -> y = x \/ In y l.
Proof.
  unfold set_add_nat. destruct (existsb _ l); [auto|].
  intros H. apply in_app_or in H. destruct H as [H|[H|[]]]; auto.
Qed.

Lemma attachDependency_ranked rank comp variable k :
  ranked rank k -> owners_below rank (rank comp) k variable ->
  ranked rank (attachDependency comp variable k).
Proof.
  intros Hrk Hown p P' o ov' d EP Hin Eov Hd.
  rewrite attachDependency_comps in EP. rewrite attachDependency_vars in Eov.
  assert (HP : exists P, k_comps k !! p = Some P /\ c_outputs P' = c_outputs P).
  { destruct (decide (comp = p)) as [->|Hne].
    - rewrite lookup_alter_eq in EP. destruct (k_comps k !! p) as [P|]; [|discriminate].
      injection EP as <-. eauto.
    - rewrite lookup_alter_ne in EP by exact Hne. eauto. }
  destruct HP as (P & EP0 & HPo). rewrite HPo in Hin.
  destruct (decide (variable = o.2)) as [Heq|Hne].
  - rewrite Heq, lookup_alter_eq in Eov.
    destruct (k_vars k !! o.2) as [ov|] eqn:Eov0; [|discriminate].
    injection Eov as <-. cbn in Hd. apply set_add_nat_elim in Hd. destruct Hd as [->|Hd].
    + apply (Hown p P o EP0 Hin). congruence.
    + apply (Hrk p P o ov d EP0 Hin Eov0 Hd).
  - rewrite lookup_alter_ne in Eov by exact Hne.
    apply (Hrk p P o ov' d EP0 Hin Eov Hd).
Qed.

Lemma attachDependency_owners_below rank n comp variable k x :
  owners_below rank n k x -> owners_below rank n (attachDependency comp variable k) x.
Proof.
  intros Hown p P' o EP Hin Hx. rewrite attachDependency_comps in EP.
  destruct (decide (comp = p)) as [->|Hne].
  - rewrite lookup_alter_eq in EP. destruct (k_comps k !! p) as [P|] eqn:EP0; [|discriminate].
    injection EP as <-. apply (Hown p P o EP0 Hin Hx).
  - rewrite lookup_alter_ne in EP by exact Hne. apply (Hown p P' o EP Hin Hx).
Qed.

Lemma attachDependency_InvC2_except comp variable k :
  InvC2_except comp k -> InvC2_except comp (attachDependency comp variable k).
Proof.
  intros HI p P i vi' Hne EP Hin Evi.
  rewrite attachDependency_comps, lookup_alter_ne in EP by congruence.
  rewrite attachDependency_vars in Evi.
  destruct (decide (variable = i)) as [->|Hni].
  - rewrite lookup_alter_eq in Evi. destruct (k_vars k !! i) as [vi|] eqn:Evi0; [|discriminate].
    injection Evi as <-. apply (HI p P i vi Hne EP Hin Evi0).
  - rewrite lookup_alter_ne in Evi by exact Hni. apply (HI p P i vi' Hne EP Hin Evi).
Qed.

Lemma taskAborted_not_running k comp tid : taskAborted k comp tid -> ~ taskRunning k comp tid.
Proof.
  intros (c & t & Ec & _ & Hn & _) (c' & Ec' & Hr). congruence.
Qed.

(** C5. While [comp] has the running task [tid], raising [comp.cause_at] to
    [value] aborts the task exactly when the [cause_at] the task captured is
    smaller than [value], and leaves it running otherwise.  A dynamic access
    of the running body to a clean variable -- however far its [cause_at] lies
    above [comp.cause_at] -- leaves the task running: [trackVariableAccess]
    first lifts the captured [cause_at] to the variable's, so that the
    downward propagation it then starts at [comp] passes the abort test.  The
    hypotheses of the second part are those of a quiescent acyclic graph:
    [comp] is dirty and observed, every other computation carries a
    [cause_at] no smaller than its runtime inputs' (invariant C2), and [rank]
    orders producers before consumers, the producers of [variable] before
    [comp]. *)
Theorem C5_cause_at_raise_aborts_iff_task_older
    (k : Kernel) (comp : cref) (c : Comp) (tid : nat) (t : RunningTask)
    (Ec : k_comps k !! comp = Some c)
    (Hr : c_runningTask c = Some tid)
    (Et : k_tasks k !! tid = Some t) :
  (forall value, c_cause_at c < value ->
     (taskAborted (set_cause_at comp value k) comp tid <-> rt_cause_at t < value) /\
     (taskRunning (set_cause_at comp value k) comp tid <-> value <= rt_cause_at t)) /\
  (forall rank variable v fuel,
     c_dirty c = true -> 0 < c_observeCount c ->
     k_vars k !! variable = Some v -> v_dirty v = false ->
     InvC2_except comp k ->
     ranked rank k -> owners_below rank (rank comp) k variable ->
     match trackVariableAccess fuel comp variable tid k with
     | Ok _ k' | Throw _ k' => taskRunning k' comp tid
     | OutOfFuel => True
     end).
Proof.
  split.
  { intros value Hlt.
    destruct (set_cause_at_running comp value k c tid t Ec Hr Et) as [Hab Hrun]; [lia|].
    split; split.
    - intros Ha. destruct (Z.lt_ge_cases (rt_cause_at t) value) as [|Hge]; [assumption|].
      destruct (Hrun Hge) as [_ Hrn]. destruct (taskAborted_not_running _ _ _ Ha Hrn).
    - exact Hab.
    - intros Hrn. destruct (Z.lt_ge_cases (rt_cause_at t) value) as [Hl|]; [|assumption].
      destruct (taskAborted_not_running _ _ _ (Hab Hl) Hrn).
    - intros Hge. apply (Hrun Hge). }
  intros rank variable v fuel Hd Hoc Ev Hclean HI Hrk Hown.
  assert (Hk : taskRunning k comp tid) by (exists c; auto).
  unfold trackVariableAccess, bind, gets. rewrite Ec, Ev.
  destruct (existsb _ (c_runtimeInputs c)); [exact Hk|].
  unfold checkAbortSignal at 1. rewrite Et.
  destruct (rt_aborted t) eqn:Hab; [exact Hk|].
  destruct (negb (set_has_str (v_id v) (c_staticInputs c))); [exact Hk|].
  unfold modify at 1 2 3. fold (attachDependency comp variable k).
  set (ka := attachDependency comp variable k).
  set (ca := set_c_runtimeInputs (set_add_nat variable (c_runtimeInputs c)) c).
  set (va := set_v_dependents (set_add_nat comp (v_dependents v)) v).
  assert (Eca : k_comps ka !! comp = Some ca).
  { subst ka. rewrite attachDependency_comps, lookup_alter_eq, Ec. reflexivity. }
  assert (Eva : k_vars ka !! variable = Some va).
  { subst ka. rewrite attachDependency_vars, lookup_alter_eq, Ev. reflexivity. }
  destruct (attachDependency_task comp variable k c v tid t Ec Ev Hr Et)
    as (ta & Eta & _ & Hta). fold ka in Eta.
  assert (Hrka : ranked rank ka) by (apply attachDependency_ranked; assumption).
  assert (Howna : owners_below rank (rank comp) ka variable)
    by (apply attachDependency_owners_below; assumption).
  assert (HUa : Uinv comp ka).
  { split; [apply attachDependency_InvC2_except; exact HI|].
    intros c0 E0. rewrite Eca in E0. injection E0 as <-. split; assumption. }
  rewrite Eca. change (c_observeCount ca) with (c_observeCount c).
  destruct (Z.gtb_spec (c_observeCount c) 0) as [_|]; [|lia].
  unfold _propagateObserveCountUpward, liftO at 1.
  destruct (propagateObserveCountUpward_fuel fuel variable (c_observeCount c) ka)
    as [k2|] eqn:Eup; [|exact I].
  pose proof (propagateObserveCountUpward_inert comp fuel variable _ ka k2 Hoc HUa Eup) as Hup.
  pose proof (up_step_dyn _ _ _ Hup) as Hdyn.
  destruct Hup as (_ & HV & HC & HT & HE).
  destruct (HE ca Eca Hd Hoc) as (c2 & Ec2 & Hr2 & _ & _).
  destruct (heap_rel_lookup _ _ _ _ _ HC Eca) as (c2' & Ec2' & Hc2).
  assert (c2' = c2) by congruence. subst c2'.
  destruct (heap_rel_lookup _ _ _ _ _ HV Eva) as (v2 & Ev2 & Hv2).
  destruct (heap_rel_lookup _ _ _ _ _ HT Eta) as (t2 & Et2 & _ & Ht2).
  assert (Hc2cause : c_cause_at c2 = c_cause_at c) by (rewrite Hc2; reflexivity).
  assert (Hc2dirty : c_dirty c2 = true) by (rewrite Hc2; exact Hd).
  assert (Hv2cause : v_cause_at v2 = v_cause_at v) by (rewrite Hv2; reflexivity).
  assert (Hv2dirty : v_dirty v2 = false) by (rewrite Hv2; exact Hclean).
  assert (Hr2' : c_runningTask c2 = Some tid) by (rewrite Hr2; exact Hr).
  unfold liftO. rewrite Ev2, Ec2.
  destruct (Z.gtb_spec (v_cause_at v2) (c_cause_at c2)) as [Hgt|Hle].
  - unfold _propagateCauseAtDownward.
    destruct (propagateCauseAtDownward_fuel _ comp (v_cause_at v2) (Some variable) false k2)
      as [k3|] eqn:Edown; [|exact I].
    assert (Hrk2 : ranked rank k2) by (eapply dyn_step_ranked; eassumption).
    assert (Hcap : v_cause_at v2 <= rt_cause_at t2) by (rewrite Ht2, Hv2cause, Hta; lia).
    destruct (propagateCauseAtDownward_own rank _ comp _ _ k2 k3 c2 tid t2
                Hrk2 Ec2 Hc2dirty Hr2' Et2 Hcap Edown) as (_ & HV3 & c3 & Ec3 & Hr3 & _).
    unfold modify. rewrite HV3, Ev2, Ec3, Hv2dirty
      by (eapply dyn_step_owners_below; eassumption).
    exists c3. split; assumption.
  - unfold modify. rewrite Ev2, Ec2, Hv2dirty. exists c2. split; assumption.
Qed.

(** Boolean tests for the graph hypotheses. *)
Definition ranked_b (rank : nat -> nat) (k : Kernel) : bool :=
  forallb (fun pc : nat * Comp =>
             forallb (fun o : string * vref =>
                        match k_vars k !! o.2 with
                        | Some ov => forallb (fun d => Nat.ltb (rank pc.1) (rank d))
                                       (v_dependents ov)
                        | None => true
                        end) (c_outputs pc.2))
          (map_to_list (k_comps k)).

Definition owners_below_b (rank : nat -> nat) (n : nat) (k : Kernel) (x : vref) : bool :=
  forallb (fun pc : nat * Comp =>
             forallb (fun o : string * vref => negb (Nat.eqb o.2 x) || Nat.ltb (rank pc.1) n)
                     (c_outputs pc.2))
          (map_to_list (k_comps k)).

Definition InvC2_except_b (comp : cref) (k : Kernel) : bool :=
  forallb (fun pc : nat * Comp =>
             Nat.eqb pc.1 comp ||
             forallb (fun i => match k_vars k !! i with
                               | Some vi => v_cause_at vi <=? c_cause_at pc.2
                               | None => true
                               end) (c_runtimeInputs pc.2))
          (map_to_list (k_comps k)).

Lemma comps_forallb (f : nat * Comp -> bool) k p P :
  forallb f (map_to_list (k_comps k)) = true -> k_comps k !! p = Some P -> f (p, P) = true.
Proof.
  intros H E. rewrite forallb_forall in H. apply H.
  apply list_elem_of_In, elem_of_map_to_list. exact E.
Qed.

Lemma ranked_check rank k : ranked_b rank k = true -> ranked rank k.
Proof.
  intros H p P o ov d EP Hin Eov Hd.
  pose proof (comps_forallb _ k p P H EP) as H1. cbn [fst snd] in H1.
  rewrite forallb_forall in H1. specialize (H1 o Hin). rewrite Eov in H1.
  rewrite forallb_forall in H1. specialize (H1 d Hd). apply Nat.ltb_lt in H1. exact H1.
Qed.

Lemma owners_below_check rank n k x : owners_below_b rank n k x = true -> owners_below rank n k x.
Proof.
  intros H p P o EP Hin Hx.
  pose proof (comps_forallb _ k p P H EP) as H1. cbn [fst snd] in H1.
  rewrite forallb_forall in H1. specialize (H1 o Hin). rewrite Hx, Nat.eqb_refl in H1.
  cbn in H1. apply Nat.ltb_lt in H1. exact H1.
Qed.

Lemma InvC2_except_check comp k : InvC2_except_b comp k = true -> InvC2_except comp k.
Proof.
  intros H p P i vi Hne EP Hin Evi.
  pose proof (comps_forallb _ k p P H EP) as H1. cbn [fst snd] in H1.
  apply orb_true_iff in H1. destruct H1 as [H1|H1].
  - apply Nat.eqb_eq in H1. contradiction.
  - rewrite forallb_forall in H1. specialize (H1 i Hin). rewrite Evi in H1.
    apply Z.leb_le in H1. exact H1.
Qed.

(** ** Sample run: the body of [Z] reads [b] for the first time *)

Definition defZ : ComputationDefinition :=
  {| d_id := "Z"; d_inputs := ["a"; "b"]; d_outputs := ["z"]; d_body := 1%nat |}.

(** [Z] (inputs [a], [b]) ran once reading only [a]; then [a] was written,
    the second run of [Z] started, and [b] was written. *)
Definition dynamicAccessKernel : Kernel :=
  finalState
    ((defineSource 8 "a" (Some (VNum 1)) ;;
      defineSource 8 "b" (Some (VNum 1)) ;;
      defineComputation 8 defZ ;;
      _observe 8 "z" (silentObserver 1) ;;
      executeComputation_start 0%nat ;;
      executeComputation_finish 8 0%nat 1%nat (Returned [("z", VNum 2)]) [0%nat] ;;
      updateSource "a" (VNum 5) ;;
      executeComputation_start 0%nat ;;
      updateSource "b" (VNum 7)) emptyKernel)
    emptyKernel.

Definition dynamicAccessComp : Comp := Eval vm_compute in getC dynamicAccessKernel 0.

Example dynamicAccessKernel_state :
  c_runtimeInputs dynamicAccessComp = [0%nat] /\
  c_cause_at dynamicAccessComp = 6 /\
  c_runningTask dynamicAccessComp = Some 2%nat /\
  k_tasks dynamicAccessKernel !! 2%nat =
    Some {| rt_taskId := 2; rt_cause_at := 6; rt_aborted := false |} /\
  v_cause_at (getV dynamicAccessKernel 1) = 7.
Proof. vm_compute. repeat split. Qed.

Lemma C5_cause_at_raise_aborts_iff_task_older_witness :
  taskAborted (set_cause_at 0%nat 9 dynamicAccessKernel) 0%nat 2%nat /\
  exists k',
    trackVariableAccess 8 0%nat 1%nat 2%nat dynamicAccessKernel = Ok tt k' /\
    taskRunning k' 0%nat 2%nat /\
    c_cause_at (getC k' 0) = 7.
Proof.
  destruct (C5_cause_at_raise_aborts_iff_task_older dynamicAccessKernel 0%nat
              dynamicAccessComp 2%nat
              {| rt_taskId := 2; rt_cause_at := 6; rt_aborted := false |})
    as [HA HB].
  - vm_compute. reflexivity.
  - reflexivity.
  - vm_compute. reflexivity.
  - split.
    + destruct (HA 9) as [[_ Hab] _]; [cbn; lia|]. apply Hab. cbn. lia.
    + specialize (HB (fun r => r) 1%nat (getV dynamicAccessKernel 1) 8%nat).
      destruct (trackVariableAccess 8 0%nat 1%nat 2%nat dynamicAccessKernel)
        as [[] k'|e k'|] eqn:E; [|vm_compute in E; discriminate E..].
      exists k'. split; [reflexivity|]. split.
      * apply HB.
        -- reflexivity.
        -- cbn. lia.
        -- vm_compute. reflexivity.
        -- vm_compute. reflexivity.
        -- apply InvC2_except_check. vm_compute. reflexivity.
        -- apply ranked_check. vm_compute. reflexivity.
        -- apply owners_below_check. vm_compute. reflexivity.
      * vm_compute in E. injection E as <-. vm_compute. reflexivity.
Defined.

(** ** Invariant C4: [dirtyInputCount] counts the dirty computed runtime inputs *)

Definition dirtyComputed (k : Kernel) (i : vref) : bool :=
  match k_vars k !! i with
  | Some v => isSome (v_producer v) && v_dirty v
  | None => false
  end.

Definition dirtyComputedInputs (k : Kernel) (c : Comp) : Z :=
  Z.of_nat (length (List.filter (dirtyComputed k) (c_runtimeInputs c))).

Definition InvC4 (k : Kernel) : Prop :=
  forall r c, k_comps k !! r = Some c -> c_dirtyInputCount c = dirtyComputedInputs k c.

(** The invariant while increments are still owed: [owe r] of them to [r]. *)
Definition Owed (owe : cref -> Z) (k : Kernel) : Prop :=
  forall r c, k_comps k !! r = Some c ->
              c_dirtyInputCount c + owe r = dirtyComputedInputs k c.

(** The shape of the graph: [runtimeInputs] and [dependents] are sets and
    mirror each other, runtime inputs are static inputs, outputs have a
    producer. *)
Record WellFormed (k : Kernel) : Prop := {
  wf_inputs_nodup : forall r c, k_comps k !! r = Some c -> List.NoDup (c_runtimeInputs c);
  wf_dependents_nodup : forall x v, k_vars k !! x = Some v -> List.NoDup (v_dependents v);
  wf_symmetric : forall x v d c,
      k_vars k !! x = Some v -> k_comps k !! d = Some c ->
      (In d (v_dependents v) <-> In x (c_runtimeInputs c));
  wf_static : forall d c x v,
      k_comps k !! d = Some c -> In x (c_runtimeInputs c) -> k_vars k !! x = Some v ->
      isInputOfComputation v c = true;
  wf_outputs : forall r c o v,
      k_comps k !! r = Some c -> In o (c_outputs c) -> k_vars k !! o.2 = Some v ->
      isSome (v_producer v) = true
}.

Lemma InvC4_Owed k : InvC4 k <-> Owed (fun _ => 0) k.
Proof.
  split; intros H r c E; specialize (H r c E); cbv beta in *; lia.
Qed.

Lemma Owed_ext owe owe' k :
  (forall r c, k_comps k !! r = Some c -> owe r = owe' r) -> Owed owe k -> Owed owe' k.
Proof. intros He H r c E. rewrite <- (He r c E). apply H; exact E. Qed.

Lemma cdyn_runtimeInputs c c' : cdyn c c' -> c_runtimeInputs c' = c_runtimeInputs c.
Proof. intros H. rewrite H. reflexivity. Qed.
Lemma cdyn_staticInputs c c' : cdyn c c' -> c_staticInputs c' = c_staticInputs c.
Proof. intros H. rewrite H. reflexivity. Qed.
Lemma vdyn_id v v' : vdyn v v' -> v_id v' = v_id v.
Proof. intros H. rewrite H. reflexivity. Qed.
Lemma vdyn_producer v v' : vdyn v v' -> v_producer v' = v_producer v.
Proof. intros H. rewrite H. reflexivity. Qed.

Lemma dyn_step_WellFormed k k' : dyn_step k k' -> WellFormed k -> WellFormed k'.
Proof.
  intros (_ & HV & HC) [W1 W2 W3 W4 W5]. split.
  - intros r c' E. destruct (heap_rel_lookup_r _ _ _ _ _ HC E) as (c & E0 & Hc).
    rewrite (cdyn_runtimeInputs _ _ Hc). eauto.
  - intros x v' E. destruct (heap_rel_lookup_r _ _ _ _ _ HV E) as (v & E0 & Hv).
    rewrite (vdyn_dependents _ _ Hv). eauto.
  - intros x v' d c' Ev Ec.
    destruct (heap_rel_lookup_r _ _ _ _ _ HC Ec) as (c & Ec0 & Hc).
    destruct (heap_rel_lookup_r _ _ _ _ _ HV Ev) as (v & Ev0 & Hv).
    rewrite (cdyn_runtimeInputs _ _ Hc), (vdyn_dependents _ _ Hv). eauto.
  - intros d c' x v' Ec Hin Ev.
    destruct (heap_rel_lookup_r _ _ _ _ _ HC Ec) as (c & Ec0 & Hc).
    destruct (heap_rel_lookup_r _ _ _ _ _ HV Ev) as (v & Ev0 & Hv).
    unfold isInputOfComputation.
    rewrite (cdyn_staticInputs _ _ Hc), (vdyn_id _ _ Hv).
    rewrite (cdyn_runtimeInputs _ _ Hc) in Hin. apply (W4 d c x v Ec0 Hin Ev0).
  - intros r c' o v' Ec Hin Ev.
    destruct (heap_rel_lookup_r _ _ _ _ _ HC Ec) as (c & Ec0 & Hc).
    destruct (heap_rel_lookup_r _ _ _ _ _ HV Ev) as (v & Ev0 & Hv).
    rewrite (vdyn_producer _ _ Hv). rewrite (cdyn_outputs _ _ Hc) in Hin.
    apply (W5 r c o v Ec0 Hin Ev0).
Qed.

(** Counting under a change of the test at one element. *)
Definition memb (x : nat) (l : list nat) : Z := if existsb (Nat.eqb x) l then 1 else 0.

Lemma existsb_eqb_In x l : existsb (Nat.eqb x) l = true <-> In x l.
Proof.
  rewrite existsb_exists. split.
  - intros (y & Hy & E). apply Nat.eqb_eq in E. subst. exact Hy.
  - intros H. exists x. split; [exact H|apply Nat.eqb_refl].
Qed.

Lemma memb_In x l : In x l -> memb x l = 1.
Proof. intros H. unfold memb. apply existsb_eqb_In in H. rewrite H. reflexivity. Qed.

Lemma memb_not_In x l : ~ In x l -> memb x l = 0.
Proof.
  intros H. unfold memb. destruct (existsb (Nat.eqb x) l) eqn:E; [|reflexivity].
  apply existsb_eqb_In in E. contradiction.
Qed.

Lemma count_same (f g : nat -> bool) l :
  (forall y, In y l -> g y = f y) ->
  length (List.filter g l) = length (List.filter f l).
Proof.
  induction l as [|a l IH]; intros H; [reflexivity|].
  cbn [List.filter]. rewrite (H a) by (left; reflexivity).
  destruct (f a); cbn [length]; rewrite IH; auto; intros; apply H; right; assumption.
Qed.

Lemma count_flip (f g : nat -> bool) x l :
  List.NoDup l -> (forall y, y <> x -> g y = f y) -> f x = false -> g x = true ->
  Z.of_nat (length (List.filter g l)) = Z.of_nat (length (List.filter f l)) + memb x l.
Proof.
  intros Hnd Hne Hf Hg. induction l as [|a l IH].
  - reflexivity.
  - inversion Hnd as [|a' l' Hnotin Hnd']; subst.
    cbn [List.filter]. destruct (Nat.eq_dec a x) as [->|Hax].
    + rewrite Hf, Hg. cbn [length].
      rewrite (count_same f g l) by (intros y Hy; apply Hne; intros ->; contradiction).
      rewrite (memb_In x (x :: l)) by (left; reflexivity). lia.
    + rewrite (Hne a Hax). specialize (IH Hnd').
      assert (Hm : memb x (a :: l) = memb x l).
      { unfold memb. cbn [existsb]. destruct (Nat.eqb_spec x a); [congruence|reflexivity]. }
      rewrite Hm. destruct (f a); cbn [length]; lia.
Qed.

Definition ckeep (c c' : Comp) : Prop :=
  c_dirtyInputCount c' = c_dirtyInputCount c /\ c_runtimeInputs c' = c_runtimeInputs c.

Lemma ckeep_refl c : ckeep c c.
Proof. split; reflexivity. Qed.
Lemma ckeep_trans c1 c2 c3 : ckeep c1 c2 -> ckeep c2 c3 -> ckeep c1 c3.
Proof. intros [A1 B1] [A2 B2]. split; congruence. Qed.
Lemma ctl_ckeep c c' : ctl c c' -> ckeep c c'.
Proof. intros H. rewrite H. split; reflexivity. Qed.

Lemma dirtyComputedInputs_eq k k' c c' :
  (forall i, In i (c_runtimeInputs c) -> dirtyComputed k' i = dirtyComputed k i) ->
  c_runtimeInputs c' = c_runtimeInputs c ->
  dirtyComputedInputs k' c' = dirtyComputedInputs k c.
Proof.
  intros Hf Hr. unfold dirtyComputedInputs. rewrite Hr.
  rewrite (count_same (dirtyComputed k) (dirtyComputed k')); auto.
Qed.

Lemma dirtyComputed_vars k k' i : k_vars k' = k_vars k -> dirtyComputed k' i = dirtyComputed k i.
Proof. intros E. unfold dirtyComputed. rewrite E. reflexivity. Qed.

Lemma Owed_comps_step owe k k' :
  k_vars k' = k_vars k -> heap_rel ckeep (k_comps k) (k_comps k') ->
  Owed owe k -> Owed owe k'.
Proof.
  intros Ev HC H r c' E.
  destruct (heap_rel_lookup_r _ _ _ _ _ HC E) as (c & E0 & Hd & Hr).
  rewrite Hd, (H r c E0). symmetry. apply dirtyComputedInputs_eq; [|exact Hr].
  intros i _. apply dirtyComputed_vars. exact Ev.
Qed.

Lemma sched_after_updC_ckeep r f k k' :
  (forall c, ckeep c (f c)) -> sched_step (updC r f k) k' ->
  heap_rel ckeep (k_comps k) (k_comps k').
Proof.
  intros Hf [_ H]. apply (heap_rel_trans _ _ (k_comps (updC r f k))).
  - apply ckeep_trans.
  - rewrite k_comps_updC. apply heap_rel_alter; [apply ckeep_refl|]. auto.
  - eapply heap_rel_impl; [apply ctl_ckeep|exact H].
Qed.

Lemma Owed_set_cause_at owe r t k : Owed owe k -> Owed owe (set_cause_at r t k).
Proof.
  apply Owed_comps_step; [apply set_cause_at_vars|].
  eapply sched_after_updC_ckeep; [|apply set_cause_at_spec].
  intros c. split; reflexivity.
Qed.

Lemma Owed_set_dirty owe r b k : Owed owe k -> Owed owe (set_dirty r b k).
Proof.
  apply Owed_comps_step; [apply set_dirty_vars|].
  eapply sched_after_updC_ckeep; [|apply set_dirty_spec].
  intros c. split; reflexivity.
Qed.

Lemma set_dirtyInputCount_entry r n k c :
  k_comps k !! r = Some c ->
  exists c', k_comps (set_dirtyInputCount r n k) !! r = Some c' /\
             c_dirtyInputCount c' = n /\ c_runtimeInputs c' = c_runtimeInputs c /\
             c_cause_at c' = c_cause_at c.
Proof.
  intros Ec. destruct (set_dirtyInputCount_spec r n k) as [_ H].
  assert (E1 : k_comps (updC r (set_c_dirtyInputCount n) k) !! r =
               Some (set_c_dirtyInputCount n c)).
  { rewrite k_comps_updC, lookup_alter_eq, Ec. reflexivity. }
  destruct (heap_rel_lookup _ _ _ _ _ H E1) as (c' & Ec' & Hc).
  exists c'. split; [exact Ec'|]. rewrite Hc. repeat split.
Qed.

(** The condition under which [tryIncrementDirtyInputCount] increments. *)
Definition fires (comp : cref) (sourceVariable : option vref) (isNewDirty : bool)
    (k : Kernel) : bool :=
  match sourceVariable with
  | None => false
  | Some sv =>
      match k_vars k !! sv, k_comps k !! comp with
      | Some v, Some c =>
          isNewDirty && isInputOfComputation v c && isSome (v_producer v) && v_dirty v
      | _, _ => false
      end
  end.

Definition paid (b : bool) (comp r : cref) : Z := if b && Nat.eqb r comp then 1 else 0.

Lemma tryIncrementDirtyInputCount_fires comp src nd k :
  tryIncrementDirtyInputCount comp src nd k =
  if fires comp src nd k
  then match k_comps k !! comp with
       | Some c => set_dirtyInputCount comp (c_dirtyInputCount c + 1) k
       | None => k
       end
  else k.
Proof.
  unfold tryIncrementDirtyInputCount, fires. destruct src as [sv|]; [|reflexivity].
  destruct (k_vars k !! sv) as [v|]; [|reflexivity].
  destruct (k_comps k !! comp) as [c|]; [|reflexivity].
  destruct nd, (isInputOfComputation v c), (isSome (v_producer v)), (v_dirty v); reflexivity.
Qed.

Lemma tryIncrementDirtyInputCount_owed owe comp src nd k :
  Owed owe k ->
  Owed (fun r => owe r - paid (fires comp src nd k) comp r)
       (tryIncrementDirtyInputCount comp src nd k).
Proof.
  intros H. rewrite tryIncrementDirtyInputCount_fires.
  destruct (fires comp src nd k) eqn:Hf.
  2:{ eapply Owed_ext; [|exact H]. intros r c _. unfold paid. cbn. lia. }
  destruct (k_comps k !! comp) as [c|] eqn:Ec.
  2:{ unfold fires in Hf. destruct src as [sv|]; [|discriminate].
      destruct (k_vars k !! sv); [|discriminate]. rewrite Ec in Hf. discriminate. }
  intros r c' E.
  assert (Hv : forall c1 c2, c_runtimeInputs c2 = c_runtimeInputs c1 ->
               dirtyComputedInputs (set_dirtyInputCount comp (c_dirtyInputCount c + 1) k) c2 =
               dirtyComputedInputs k c1).
  { intros c1 c2 Hr. apply dirtyComputedInputs_eq; [|exact Hr].
    intros i _. apply dirtyComputed_vars, set_dirtyInputCount_vars. }
  unfold paid. cbn [andb]. destruct (Nat.eqb_spec r comp) as [->|Hne].
  - destruct (set_dirtyInputCount_entry comp (c_dirtyInputCount c + 1) k c Ec)
      as (c2 & E2 & Hd & Hr & _).
    assert (c2 = c') by congruence. subst c2.
    rewrite Hd, (Hv c c' Hr). specialize (H comp c Ec). lia.
  - rewrite set_dirtyInputCount_other in E by exact Hne.
    rewrite (Hv c' c' eq_refl). specialize (H r c' E). lia.
Qed.

(** Propagation only ever sets dirty flags. *)
Definition stays_dirty (k k' : Kernel) : Prop :=
  dyn_step k k' /\ forall x, dirtyComputed k x = true -> dirtyComputed k' x = true.

Lemma stays_dirty_refl k : stays_dirty k k.
Proof. split; [apply dyn_step_refl|auto]. Qed.
Lemma stays_dirty_trans k1 k2 k3 : stays_dirty k1 k2 -> stays_dirty k2 k3 -> stays_dirty k1 k3.
Proof. intros [D1 M1] [D2 M2]. split; [eapply dyn_step_trans; eauto|auto]. Qed.

Lemma stays_dirty_vars k k' : dyn_step k k' -> k_vars k' = k_vars k -> stays_dirty k k'.
Proof.
  intros D E. split; [exact D|]. intros x. rewrite (dirtyComputed_vars k k' x E). auto.
Qed.

Lemma propagateCauseAtDownward_stays_dirty fuel comp t src nd k k' :
  propagateCauseAtDownward_fuel fuel comp t src nd k = Some k' -> stays_dirty k k'.
Proof.
  apply propagateCauseAtDownward_rel.
  - apply stays_dirty_refl.
  - apply stays_dirty_trans.
  - intros k1 k2 r c [D _]. apply dyn_step_outputs. exact D.
  - intros. apply stays_dirty_vars;
      [apply tryIncrementDirtyInputCount_dyn|apply tryIncrementDirtyInputCount_vars].
  - intros. apply stays_dirty_vars.
    + eapply dyn_step_trans; [apply set_cause_at_dyn|apply set_dirty_dyn].
    + rewrite set_dirty_vars. apply set_cause_at_vars.
  - intros r c o output k0 Ec Hin Ev. split.
    + apply updV_dyn. intros v; destruct v; reflexivity.
    + intros x. unfold dirtyComputed. rewrite k_vars_updV.
      destruct (decide (o.2 = x)) as [<-|Hne].
      * rewrite lookup_alter_eq, Ev. cbn. intros H.
        apply andb_true_iff in H. destruct H as [H _]. rewrite H. reflexivity.
      * rewrite lookup_alter_ne by exact Hne. auto.
Qed.

Lemma memb_iff x l y l' : (In x l <-> In y l') -> memb x l = memb y l'.
Proof.
  intros H. unfold memb.
  destruct (existsb (Nat.eqb x) l) eqn:E1, (existsb (Nat.eqb y) l') eqn:E2; try reflexivity.
  - apply existsb_eqb_In, H, existsb_eqb_In in E1. congruence.
  - apply existsb_eqb_In, H, existsb_eqb_In in E2. congruence.
Qed.

Lemma memb_cons_eq d l : memb d (d :: l) = 1.
Proof. apply memb_In. left. reflexivity. Qed.

Lemma memb_cons_ne r d l : r <> d -> memb r (d :: l) = memb r l.
Proof.
  intros Hne. unfold memb. cbn [existsb]. destruct (Nat.eqb_spec r d); [contradiction|reflexivity].
Qed.

Lemma fires_not_new comp src k : fires comp src false k = false.
Proof.
  unfold fires. destruct src as [sv|]; [|reflexivity].
  destruct (k_vars k !! sv); [|reflexivity]. destruct (k_comps k !! comp); reflexivity.
Qed.

Lemma Owed_flags owe k k' :
  k_comps k' = k_comps k -> (forall i, dirtyComputed k' i = dirtyComputed k i) ->
  Owed owe k -> Owed owe k'.
Proof.
  intros Ec Hf H r c E. rewrite Ec in E. rewrite (H r c E). symmetry.
  apply dirtyComputedInputs_eq; auto.
Qed.

(** Marking the output [x] dirty: every computation reading it is owed one
    increment if the output was clean, none if it was dirty already. *)
Lemma Owed_mark_output owe k x output t :
  WellFormed k -> k_vars k !! x = Some output -> isSome (v_producer output) = true ->
  Owed owe k ->
  Owed (fun r => owe r + (if v_dirty output then 0 else memb r (v_dependents output)))
       (updV x (fun v => set_v_dirty true (set_v_cause_at t v)) k).
Proof.
  intros WF Ev Hp H. set (k' := updV x _ k).
  assert (Hother : forall y, y <> x -> dirtyComputed k' y = dirtyComputed k y).
  { intros y Hne. unfold dirtyComputed. subst k'. rewrite k_vars_updV.
    rewrite lookup_alter_ne by congruence. reflexivity. }
  assert (Hx : dirtyComputed k' x = true).
  { unfold dirtyComputed. subst k'. rewrite k_vars_updV, lookup_alter_eq, Ev. cbn.
    rewrite Hp. reflexivity. }
  assert (Hx0 : dirtyComputed k x = v_dirty output).
  { unfold dirtyComputed. rewrite Ev, Hp. reflexivity. }
  destruct (v_dirty output) eqn:Hd.
  - eapply Owed_ext; [intros r c _; symmetry; apply Z.add_0_r|].
    apply (Owed_flags _ k); [reflexivity| |exact H].
    intros i. destruct (decide (i = x)) as [->|Hne]; [congruence|auto].
  - intros r c E. change (k_comps k') with (k_comps k) in E.
    specialize (H r c E). unfold dirtyComputedInputs.
    rewrite (count_flip (dirtyComputed k) (dirtyComputed k') x);
      [|eapply wf_inputs_nodup; eauto|exact Hother|exact Hx0|exact Hx].
    unfold dirtyComputedInputs in H.
    rewrite (memb_iff r (v_dependents output) x (c_runtimeInputs c)); [lia|].
    eapply wf_symmetric; eauto.
Qed.

(** The counter of every computation is right again once a propagation has
    paid what it owed: the call at [comp] pays one increment exactly when its
    edge fires -- before the monotonicity test -- and each output it turns
    dirty is paid for by the calls at the output's dependents. *)
Lemma propagateCauseAtDownward_owed :
  forall fuel comp t src nd k k' owe,
    WellFormed k -> Owed owe k ->
    propagateCauseAtDownward_fuel fuel comp t src nd k = Some k' ->
    Owed (fun r => owe r - paid (fires comp src nd k) comp r) k'.
Proof.
  induction fuel as [|fuel IH]; intros comp t src nd k k' owe WF HO H; [discriminate|].
  cbn [propagateCauseAtDownward_fuel] in H.
  set (owe1 := fun r => owe r - paid (fires comp src nd k) comp r).
  set (k1 := tryIncrementDirtyInputCount comp src nd k) in *.
  assert (H1 : Owed owe1 k1) by (apply tryIncrementDirtyInputCount_owed; exact HO).
  assert (D01 : dyn_step k k1) by apply tryIncrementDirtyInputCount_dyn.
  destruct (k_comps k1 !! comp) as [c|] eqn:Ec.
  2:{ injection H as <-. exact H1. }
  destruct (t <=? c_cause_at c).
  { injection H as <-. exact H1. }
  set (k3 := set_dirty comp true (updateCauseAt comp t k1)) in *.
  assert (H3 : Owed owe1 k3) by (apply Owed_set_dirty, Owed_set_cause_at; exact H1).
  assert (D13 : dyn_step k1 k3).
  { eapply dyn_step_trans; [apply set_cause_at_dyn|apply set_dirty_dyn]. }
  assert (WF3 : WellFormed k3).
  { eapply dyn_step_WellFormed; [|exact WF]. eapply dyn_step_trans; eauto. }
  cut (dyn_step k3 k' /\ Owed owe1 k'); [intros [_ G]; exact G|].
  revert H.
  apply (foldO_inv (fun kx => dyn_step k3 kx /\ Owed owe1 kx));
    [|split; [apply dyn_step_refl|exact H3]].
  intros o ka kb Hin [Da Ha] Hstep.
  destruct (k_vars ka !! o.2) as [output|] eqn:Ev.
  2:{ injection Hstep as <-. split; assumption. }
  destruct (k_comps ka !! comp) as [c'|] eqn:Ec'.
  2:{ injection Hstep as <-. split; assumption. }
  assert (WFa : WellFormed ka) by (eapply dyn_step_WellFormed; eauto).
  assert (Hc' : c_outputs c' = c_outputs c).
  { destruct (dyn_step_outputs k1 ka comp c) as (c2 & E2 & Ho); [|exact Ec|congruence].
    eapply dyn_step_trans; eauto. }
  assert (Hp : isSome (v_producer output) = true).
  { apply (wf_outputs ka WFa comp c' o output Ec'); [rewrite Hc'; exact Hin|exact Ev]. }
  cbv zeta in Hstep. set (kc := updV o.2 _ ka) in *.
  assert (Dac : dyn_step ka kc) by (apply updV_dyn; intros v; destruct v; reflexivity).
  assert (Hc : Owed (fun r => owe1 r +
                               (if v_dirty output then 0 else memb r (v_dependents output))) kc).
  { apply Owed_mark_output; assumption. }
  assert (Hxc : dirtyComputed kc o.2 = true).
  { unfold dirtyComputed. subst kc. rewrite k_vars_updV, lookup_alter_eq, Ev. cbn.
    rewrite Hp. reflexivity. }
  assert (Hdepc : forall kd vo, dyn_step kc kd -> k_vars kd !! o.2 = Some vo ->
                                v_dependents vo = v_dependents output).
  { intros kd vo Dd Evo.
    destruct Dd as (_ & HVd & _). destruct Dac as (_ & HVc & _).
    destruct (heap_rel_lookup_r _ _ _ _ _ HVd Evo) as (v1 & Ev1 & Hv1).
    destruct (heap_rel_lookup_r _ _ _ _ _ HVc Ev1) as (v0 & Ev0 & Hv0).
    assert (v0 = output) by congruence. subst v0.
    rewrite (vdyn_dependents _ _ Hv1), (vdyn_dependents _ _ Hv0). reflexivity. }
  assert (Hloop : forall l kd ke ow,
             List.NoDup l -> (forall d, In d l -> In d (v_dependents output)) ->
             dyn_step kc kd -> Owed ow kd -> dirtyComputed kd o.2 = true ->
             foldO (fun downstreamComp k =>
                      propagateCauseAtDownward_fuel fuel downstreamComp t (Some o.2)
                        (negb (v_dirty output)) k) l kd = Some ke ->
             dyn_step kc ke /\
             Owed (fun r => ow r - (if v_dirty output then 0 else memb r l)) ke).
  { induction l as [|d l IHl]; intros kd ke ow Hnd Hsub Dd Hd Hxd Hf.
    - cbn in Hf. injection Hf as <-. split; [exact Dd|].
      eapply Owed_ext; [|exact Hd]. intros r cr _.
      destruct (v_dirty output); cbn; lia.
    - cbn [foldO] in Hf.
      destruct (propagateCauseAtDownward_fuel fuel d t (Some o.2) (negb (v_dirty output)) kd)
        as [kd1|] eqn:Ecall; [|discriminate].
      inversion Hnd as [|d' l' Hnotin Hnd']; subst.
      assert (WFd : WellFormed kd).
      { eapply dyn_step_WellFormed; [|exact WFa]. eapply dyn_step_trans; eauto. }
      pose proof (IH _ _ _ _ _ _ _ WFd Hd Ecall) as Hd1.
      destruct (propagateCauseAtDownward_stays_dirty _ _ _ _ _ _ _ Ecall) as [Dd1 Md1].
      destruct (IHl kd1 ke _ Hnd' (fun d0 H0 => Hsub d0 (or_intror H0))
                  (dyn_step_trans _ _ _ Dd Dd1) Hd1 (Md1 _ Hxd) Hf) as [De He].
      split; [exact De|].
      eapply Owed_ext; [|exact He]. intros r cr Er. cbv beta.
      destruct (v_dirty output) eqn:Hdirty.
      + cbn [negb]. rewrite fires_not_new. unfold paid. cbn. lia.
      + cbn [negb]. destruct (Nat.eq_dec r d) as [->|Hne].
        * rewrite memb_cons_eq, (memb_not_In d l Hnotin).
          assert (Hfire : fires d (Some o.2) true kd = true).
          { assert (Dde : dyn_step kd ke).
            { eapply dyn_step_trans; [exact Dd1|].
              clear - Hf. revert Hf.
              apply (foldO_inv (fun kx => dyn_step kd1 kx)); [|apply dyn_step_refl].
              intros z kx ky _ Hx Hy. eapply dyn_step_trans; [exact Hx|].
              eapply propagateCauseAtDownward_dyn; exact Hy. }
            destruct Dde as (_ & _ & HCde).
            destruct (heap_rel_lookup_r _ _ _ _ _ HCde Er) as (cd & Ecd & _).
            unfold fires. unfold dirtyComputed in Hxd.
            destruct (k_vars kd !! o.2) as [vo|] eqn:Evo; [|discriminate].
            rewrite Ecd. apply andb_true_iff in Hxd. destruct Hxd as [Hpo Hdo].
            rewrite Hpo, Hdo, !andb_true_r. cbn [andb].
            apply (wf_static kd WFd d cd o.2 vo Ecd); [|exact Evo].
            apply (wf_symmetric kd WFd o.2 vo d cd Evo Ecd).
            rewrite (Hdepc kd vo Dd Evo). apply Hsub. left. reflexivity. }
          rewrite Hfire. unfold paid. rewrite Nat.eqb_refl. cbn. lia.
        * rewrite (memb_cons_ne r d l Hne). unfold paid.
          destruct (Nat.eqb_spec r d); [contradiction|]. rewrite andb_false_r. lia. }
  destruct (Hloop (v_dependents output) kc kb _
              (wf_dependents_nodup ka WFa _ _ Ev) (fun d H0 => H0)
              (dyn_step_refl kc) Hc Hxc Hstep) as [Dcb Hb].
  split.
  - eapply dyn_step_trans; [exact Da|]. eapply dyn_step_trans; [exact Dac|exact Dcb].
  - eapply Owed_ext; [|exact Hb]. intros r cr _. cbv beta.
    destruct (v_dirty output); lia.
Qed.

(** ** [updateSource] keeps invariant C4 *)

Definition vshape (v v' : Var) : Prop :=
  v_id v' = v_id v /\ v_producer v' = v_producer v /\ v_dependents v' = v_dependents v.

Lemma WellFormed_vars k k' :
  k_comps k' = k_comps k -> heap_rel vshape (k_vars k) (k_vars k') ->
  WellFormed k -> WellFormed k'.
Proof.
  intros EC HV [W1 W2 W3 W4 W5]. split.
  - intros r c E. rewrite EC in E. eauto.
  - intros x v' E. destruct (heap_rel_lookup_r _ _ _ _ _ HV E) as (v & E0 & _ & _ & Hd).
    rewrite Hd. eauto.
  - intros x v' d c Ev Ec. rewrite EC in Ec.
    destruct (heap_rel_lookup_r _ _ _ _ _ HV Ev) as (v & E0 & _ & _ & Hd).
    rewrite Hd. eauto.
  - intros d c x v' Ec Hin Ev. rewrite EC in Ec.
    destruct (heap_rel_lookup_r _ _ _ _ _ HV Ev) as (v & E0 & Hi & _ & _).
    unfold isInputOfComputation. rewrite Hi. apply (W4 d c x v Ec Hin E0).
  - intros r c o v' Ec Hin Ev. rewrite EC in Ec.
    destruct (heap_rel_lookup_r _ _ _ _ _ HV Ev) as (v & E0 & _ & Hp & _).
    rewrite Hp. apply (W5 r c o v Ec Hin E0).
Qed.

Lemma sourceWritten_other k x value v y :
  y <> x -> k_vars (sourceWritten x value v k) !! y = k_vars k !! y.
Proof.
  intros Hne. unfold sourceWritten.
  destruct (negb (deepEqual (oldValueOf (v_result v)) value));
    rewrite !k_vars_updV; rewrite !lookup_alter_ne by congruence; reflexivity.
Qed.

Lemma sourceWritten_WellFormed k x value v :
  k_vars k !! x = Some v -> WellFormed k -> WellFormed (sourceWritten x value v k).
Proof.
  intros Ev. apply WellFormed_vars; [apply sourceWritten_comps|].
  intros y. destruct (decide (y = x)) as [->|Hne].
  - rewrite (sourceWritten_var k x value v Ev), Ev. constructor.
    destruct (negb (deepEqual (oldValueOf (v_result v)) value)); repeat split.
  - rewrite (sourceWritten_other k x value v y Hne).
    destruct (k_vars k !! y); constructor. repeat split.
Qed.

Lemma sourceWritten_Owed owe k x value v :
  k_vars k !! x = Some v -> v_producer v = None ->
  Owed owe k -> Owed owe (sourceWritten x value v k).
Proof.
  intros Ev Hp. apply Owed_flags; [apply sourceWritten_comps|].
  intros i. unfold dirtyComputed. destruct (decide (i = x)) as [->|Hne].
  - rewrite (sourceWritten_var k x value v Ev), Ev.
    destruct (negb (deepEqual (oldValueOf (v_result v)) value)); cbn; rewrite Hp; reflexivity.
  - rewrite (sourceWritten_other k x value v i Hne). reflexivity.
Qed.

(** An edge from a variable without producer never fires. *)
Lemma fires_source comp x nd k v :
  k_vars k !! x = Some v -> v_producer v = None -> fires comp (Some x) nd k = false.
Proof.
  intros Ev Hp. unfold fires. rewrite Ev. destruct (k_comps k !! comp); [|reflexivity].
  rewrite Hp. cbn. rewrite andb_false_r. reflexivity.
Qed.

Lemma _markDirty_source_Owed owe x t nd k k' v :
  WellFormed k -> k_vars k !! x = Some v -> v_producer v = None ->
  Owed owe k -> _markDirty x t nd k = Some k' -> dyn_step k k' /\ Owed owe k'.
Proof.
  intros WF Ev Hp HO. unfold _markDirty. rewrite Ev.
  apply (foldO_inv (fun kx => dyn_step k kx /\ Owed owe kx));
    [|split; [apply dyn_step_refl|exact HO]].
  intros comp ka kb _ [Da Ha] Hb. unfold _propagateCauseAtDownward in Hb.
  split; [eapply dyn_step_trans; [exact Da|eapply propagateCauseAtDownward_dyn; exact Hb]|].
  assert (WFa : WellFormed ka) by (eapply dyn_step_WellFormed; eauto).
  pose proof (propagateCauseAtDownward_owed _ _ _ _ _ _ _ owe WFa Ha Hb) as H.
  eapply Owed_ext; [|exact H]. intros r c _. cbv beta.
  destruct Da as (_ & HV & _).
  destruct (heap_rel_lookup _ _ _ _ _ HV Ev) as (va & Eva & Hva).
  rewrite (fires_source comp x nd ka va Eva); [unfold paid; cbn; lia|].
  rewrite (vdyn_producer _ _ Hva). exact Hp.
Qed.

Lemma notifyObservers_heaps x k :
  ends (fun k' => k_vars k' = k_vars k /\ k_comps k' = k_comps k) (notifyObservers x k).
Proof.
  unfold notifyObservers. destruct (k_vars k !! x) as [v|]; [|split; reflexivity].
  apply forM_ends; [split; reflexivity|].
  intros ob ka _ [HV HC]. destruct (k_vars ka !! x) as [v'|]; [|split; assumption].
  destruct (obs_run ob (v_result v')); cbn; split; assumption.
Qed.

(** Cleaning a variable without producer decrements nothing. *)
Lemma _cleanVariable_source x k v :
  k_vars k !! x = Some v -> v_producer v = None ->
  ends (fun k' => k_vars k' = k_vars k /\ k_comps k' = k_comps k) (_cleanVariable x k).
Proof.
  intros Ev Hp. unfold _cleanVariable.
  eapply ends_bind; [apply notifyObservers_heaps|auto|].
  intros _ k1 _ [HV HC]. rewrite HV, Ev.
  apply forM_ends; [split; assumption|].
  intros comp ka _ [HVa HCa]. unfold modify. cbn [ends].
  unfold decrementDirtyInputCount. rewrite HVa, Ev.
  destruct (k_comps ka !! comp) as [c|]; [|split; assumption].
  destruct (isInputOfComputation v c); [|split; assumption].
  rewrite Hp. cbn. split; assumption.
Qed.

(** Boolean tests for [WellFormed] and [InvC4]. *)
Fixpoint nodupb (l : list nat) : bool :=
  match l with
  | [] => true
  | a :: rest => negb (existsb (Nat.eqb a) rest) && nodupb rest
  end.

Definition comp_shape_b (k : Kernel) (rc : nat * Comp) : bool :=
  nodupb (c_runtimeInputs rc.2) &&
  forallb (fun x => match k_vars k !! x with
                    | Some v => isInputOfComputation v rc.2 &&
                                existsb (Nat.eqb rc.1) (v_dependents v)
                    | None => true
                    end) (c_runtimeInputs rc.2) &&
  forallb (fun o : string * vref =>
             match k_vars k !! o.2 with
             | Some v => isSome (v_producer v)
             | None => true
             end) (c_outputs rc.2).

Definition var_shape_b (k : Kernel) (xv : nat * Var) : bool :=
  nodupb (v_dependents xv.2) &&
  forallb (fun d => match k_comps k !! d with
                    | Some c => existsb (Nat.eqb xv.1) (c_runtimeInputs c)
                    | None => true
                    end) (v_dependents xv.2).

Definition WellFormed_b (k : Kernel) : bool :=
  forallb (comp_shape_b k) (map_to_list (k_comps k)) &&
  forallb (var_shape_b k) (map_to_list (k_vars k)).

Definition InvC4_b (k : Kernel) : bool :=
  forallb (fun rc : nat * Comp => c_dirtyInputCount rc.2 =? dirtyComputedInputs k rc.2)
          (map_to_list (k_comps k)).

Lemma nodupb_NoDup l : nodupb l = true -> List.NoDup l.
Proof.
  induction l as [|a l IH]; intros H; [constructor|].
  cbn in H. apply andb_true_iff in H. destruct H as [H1 H2].
  constructor; [|auto]. intros Hin. apply existsb_eqb_In in Hin.
  rewrite Hin in H1. discriminate.
Qed.

Lemma vars_forallb (f : nat * Var -> bool) k x v :
  forallb f (map_to_list (k_vars k)) = true -> k_vars k !! x = Some v -> f (x, v) = true.
Proof.
  intros H E. rewrite forallb_forall in H. apply H.
  apply list_elem_of_In, elem_of_map_to_list. exact E.
Qed.

Lemma WellFormed_check k : WellFormed_b k = true -> WellFormed k.
Proof.
  intros H. apply andb_true_iff in H. destruct H as [HC HV].
  assert (Hc : forall r c, k_comps k !! r = Some c -> comp_shape_b k (r, c) = true)
    by (intros; eapply comps_forallb; eauto).
  assert (Hv : forall x v, k_vars k !! x = Some v -> var_shape_b k (x, v) = true)
    by (intros; eapply vars_forallb; eauto).
  assert (Hc1 : forall r c x v, k_comps k !! r = Some c -> In x (c_runtimeInputs c) ->
                  k_vars k !! x = Some v ->
                  isInputOfComputation v c = true /\ In r (v_dependents v)).
  { intros r c x v Ec Hin Ev. specialize (Hc r c Ec). unfold comp_shape_b in Hc.
    cbn [fst snd] in Hc. apply andb_true_iff in Hc. destruct Hc as [Hc _].
    apply andb_true_iff in Hc. destruct Hc as [_ Hc].
    rewrite forallb_forall in Hc. specialize (Hc x Hin). rewrite Ev in Hc.
    apply andb_true_iff in Hc. destruct Hc as [Hi Hd].
    split; [exact Hi|apply existsb_eqb_In; exact Hd]. }
  split.
  - intros r c Ec. specialize (Hc r c Ec). unfold comp_shape_b in Hc.
    apply andb_true_iff in Hc. destruct Hc as [Hc _].
    apply andb_true_iff in Hc. destruct Hc as [Hc _]. apply nodupb_NoDup. exact Hc.
  - intros x v Ev. specialize (Hv x v Ev). unfold var_shape_b in Hv.
    apply andb_true_iff in Hv. destruct Hv as [Hv _]. apply nodupb_NoDup. exact Hv.
  - intros x v d c Ev Ec. split.
    + intros Hin. specialize (Hv x v Ev). unfold var_shape_b in Hv. cbn [fst snd] in Hv.
      apply andb_true_iff in Hv. destruct Hv as [_ Hv].
      rewrite forallb_forall in Hv. specialize (Hv d Hin). rewrite Ec in Hv.
      apply existsb_eqb_In. exact Hv.
    + intros Hin. apply (Hc1 d c x v Ec Hin Ev).
  - intros d c x v Ec Hin Ev. apply (Hc1 d c x v Ec Hin Ev).
  - intros r c o v Ec Hin Ev. specialize (Hc r c Ec). unfold comp_shape_b in Hc.
    cbn [fst snd] in Hc. apply andb_true_iff in Hc. destruct Hc as [_ Hc].
    rewrite forallb_forall in Hc. specialize (Hc o Hin). rewrite Ev in Hc. exact Hc.
Qed.

Lemma InvC4_check k : InvC4_b k = true <-> InvC4 k.
Proof.
  unfold InvC4_b. split.
  - intros H r c Ec. pose proof (comps_forallb _ k r c H Ec) as H1. cbn [snd] in H1.
    apply Z.eqb_eq in H1. exact H1.
  - intros H. apply forallb_forall. intros [r c] Hin.
    apply list_elem_of_In, elem_of_map_to_list in Hin. cbn [snd].
    apply Z.eqb_eq. apply (H r c Hin).
Qed.

(** ** Sample kernels: a diamond, and an input listed twice *)

Definition defA : ComputationDefinition :=
  {| d_id := "A"; d_inputs := ["x"]; d_outputs := ["a"]; d_body := 1%nat |}.
Definition defB : ComputationDefinition :=
  {| d_id := "B"; d_inputs := ["x"]; d_outputs := ["b"]; d_body := 2%nat |}.
Definition defC : ComputationDefinition :=
  {| d_id := "C"; d_inputs := ["a"; "b"]; d_outputs := ["c"]; d_body := 3%nat |}.

(** [x] feeds [A] and [B], whose outputs [a] and [b] feed [C]; [c] is
    observed and everything has run once. *)
Definition diamondKernel : Kernel :=
  finalState
    ((defineSource 8 "x" (Some (VNum 1)) ;;
      defineComputation 8 defA ;;
      defineComputation 8 defB ;;
      defineComputation 8 defC ;;
      _observe 8 "c" (silentObserver 1) ;;
      executeComputation_start 0%nat ;;
      executeComputation_finish 8 0%nat 1%nat (Returned [("a", VNum 1)]) [0%nat] ;;
      executeComputation_start 1%nat ;;
      executeComputation_finish 8 1%nat 2%nat (Returned [("b", VNum 1)]) [0%nat] ;;
      executeComputation_start 2%nat ;;
      executeComputation_finish 8 2%nat 3%nat (Returned [("c", VNum 2)]) [1%nat; 2%nat])
       emptyKernel)
    emptyKernel.

Definition defW : ComputationDefinition :=
  {| d_id := "W"; d_inputs := ["y"; "y"]; d_outputs := ["w"]; d_body := 2%nat |}.

(** [W] lists its input [y] twice; [y] is the output of [Y], not yet run. *)
Definition duplicateInputKernel : Kernel :=
  finalState
    ((defineSource 8 "x" (Some (VNum 1)) ;;
      defineComputation 8 defY ;;
      defineComputation 8 defW) emptyKernel)
    emptyKernel.

(** [w] is observed and [Y] commits [y = 2]: [W] is left Pending with no
    dirty input. *)
Definition duplicateInputCommitted : Kernel :=
  finalState
    ((_observe 8 "w" (silentObserver 1) ;;
      executeComputation_start 0%nat ;;
      executeComputation_finish 8 0%nat 1%nat (Returned [("y", VNum 2)]) [0%nat])
       duplicateInputKernel)
    duplicateInputKernel.

Example duplicateInputCommitted_stuck :
  v_dirty (getV duplicateInputCommitted 1) = false /\
  c_dirtyInputCount (getC duplicateInputCommitted 1) = 1 /\
  dirtyComputedInputs duplicateInputCommitted (getC duplicateInputCommitted 1) = 0 /\
  state (getC duplicateInputCommitted 1) = Pending.
Proof. vm_compute. repeat split. Qed.

(** The diamond in the middle of the propagation of a write to [x]: the
    branch through [A] has reached [C], the branch through [B] has just
    turned [b] dirty. *)
Definition diamondMidKernel : Kernel :=
  let ks := sourceWritten 0%nat (VNum 5) (getV diamondKernel 0) diamondKernel in
  match propagateCauseAtDownward_fuel 4 0%nat 6 (Some 0%nat) true ks with
  | Some ka =>
      updV 2%nat (fun v => set_v_dirty true (set_v_cause_at 6 v))
        (set_dirty 1%nat true (updateCauseAt 1%nat 6 ka))
  | None => diamondKernel
  end.

Example diamondMidKernel_state :
  c_dirtyInputCount (getC diamondMidKernel 2) = 1 /\
  c_cause_at (getC diamondMidKernel 2) = 6 /\
  v_dirty (getV diamondMidKernel 1) = true /\ v_dirty (getV diamondMidKernel 2) = true.
Proof. vm_compute. repeat split. Qed.

(** C4.  (1) In [_propagateCauseAtDownward] the counter comes first: when the
    edge from [sv] to [comp] is a clean-to-dirty edge ([isNewDirty], [sv]
    dirty with a producer, input of [comp]) and [t <= comp.cause_at], the call
    returns right after the increment, with [dirtyInputCount] one higher and
    [cause_at] and all variables as they were.  (2) On a well-formed graph
    (dependents mirror runtime inputs, both duplicate-free) in which every
    [dirtyInputCount] equals the number of dirty computed runtime inputs,
    [updateSource] on a source -- whatever the topology -- never runs out of
    fuel and ends in a state where that equality holds again.  (3) The
    equality does not hold in every quiescent state: after defining [W] with
    [inputs = [y; y]] over the dirty output [y] of [Y], the graph is
    well-formed, nothing is running, and [W.dirtyInputCount] is 2 for the one
    dirty computed runtime input [y]. *)
Theorem C4_dirtyInputCount_counts_dirty_computed_inputs :
  (forall fuel comp sv t k c v,
     k_comps k !! comp = Some c -> k_vars k !! sv = Some v ->
     isInputOfComputation v c = true -> isSome (v_producer v) = true -> v_dirty v = true ->
     t <= c_cause_at c ->
     exists k' c',
       propagateCauseAtDownward_fuel (S fuel) comp t (Some sv) true k = Some k' /\
       k_comps k' !! comp = Some c' /\
       c_dirtyInputCount c' = c_dirtyInputCount c + 1 /\
       c_cause_at c' = c_cause_at c /\
       k_vars k' = k_vars k) /\
  (forall k variableId value x v,
     WellFormed k -> InvC4 k ->
     k_variables k !! variableId = Some x -> k_vars k !! x = Some v ->
     v_producer v = None ->
     ends InvC4 (updateSource variableId value k)) /\
  (WellFormed duplicateInputKernel /\
   k_readyQueue duplicateInputKernel = [] /\
   (forall r c, k_comps duplicateInputKernel !! r = Some c -> c_runningTask c = None) /\
   exists c, k_comps duplicateInputKernel !! 1%nat = Some c /\
             c_id c = "W" /\ c_runtimeInputs c = [1%nat] /\
             c_dirtyInputCount c = 2 /\
             dirtyComputedInputs duplicateInputKernel c = 1).
Proof.
  split; [|split].
  - intros fuel comp sv t k c v Ec Ev Hi Hp Hd Hle.
    cbn [propagateCauseAtDownward_fuel].
    assert (Hinc : tryIncrementDirtyInputCount comp (Some sv) true k =
                   set_dirtyInputCount comp (c_dirtyInputCount c + 1) k).
    { unfold tryIncrementDirtyInputCount. rewrite Ev, Ec, Hi, Hp, Hd. reflexivity. }
    rewrite Hinc.
    destruct (set_dirtyInputCount_entry comp (c_dirtyInputCount c + 1) k c Ec)
      as (c' & Ec' & Hdic & _ & Hcause).
    rewrite Ec', Hcause.
    destruct (Z.leb_spec t (c_cause_at c)); [|lia].
    eexists. exists c'. split; [reflexivity|]. split; [exact Ec'|].
    split; [exact Hdic|]. split; [exact Hcause|apply set_dirtyInputCount_vars].
  - intros k variableId value x v WF HI Ex Ev Hp. unfold updateSource.
    rewrite (_updateSource_unfold k variableId value x v Ex Ev Hp).
    destruct (_markDirty_total x (k_logicalClock k + 1) true (sourceWritten x value v k))
      as (k4 & E4).
    rewrite E4.
    assert (Evs : exists vs, k_vars (sourceWritten x value v k) !! x = Some vs /\
                             v_producer vs = None).
    { rewrite (sourceWritten_var k x value v Ev). eexists. split; [reflexivity|].
      destruct (negb (deepEqual (oldValueOf (v_result v)) value)); exact Hp. }
    destruct Evs as (vs & Evs & Hps).
    destruct (_markDirty_source_Owed (fun _ => 0) x _ true _ k4 vs
                (sourceWritten_WellFormed k x value v Ev WF) Evs Hps
                (sourceWritten_Owed _ k x value v Ev Hp (proj1 (InvC4_Owed k) HI)) E4)
      as [D4 H4].
    destruct (dyn_step_var _ _ _ _ D4 Evs) as (v4 & Ev4 & Hv4).
    eapply ends_impl; [apply (_cleanVariable_source x k4 v4 Ev4)|].
    + rewrite (vdyn_producer _ _ Hv4). exact Hps.
    + intros k' [HV HC]. apply InvC4_Owed.
      apply (Owed_flags _ k4); [exact HC| |exact H4].
      intros i. apply dirtyComputed_vars. exact HV.
  - split; [apply WellFormed_check; vm_compute; reflexivity|].
    split; [vm_compute; reflexivity|]. split.
    + intros r c Ec.
      assert (Hall : forallb (fun rc : nat * Comp => negb (isSome (c_runningTask rc.2)))
                       (map_to_list (k_comps duplicateInputKernel)) = true)
        by (vm_compute; reflexivity).
      pose proof (comps_forallb _ _ r c Hall Ec) as H. cbn [snd] in H.
      destruct (c_runningTask c); [discriminate|reflexivity].
    + exists (getC duplicateInputKernel 1). vm_compute. repeat split.
Qed.

Lemma C4_dirtyInputCount_counts_dirty_computed_inputs_witness :
  (exists k',
     propagateCauseAtDownward_fuel 1 2%nat 6 (Some 2%nat) true diamondMidKernel = Some k' /\
     c_dirtyInputCount (getC k' 2) = 2 /\ c_cause_at (getC k' 2) = 6) /\
  ends (fun k' => InvC4 k' /\ c_dirtyInputCount (getC k' 2) = 2)
       (updateSource "x" (VNum 5) diamondKernel).
Proof.
  destruct C4_dirtyInputCount_counts_dirty_computed_inputs as (Hfirst & Hkeep & _).
  split.
  - destruct (Hfirst 0%nat 2%nat 2%nat 6 diamondMidKernel
                (getC diamondMidKernel 2) (getV diamondMidKernel 2))
      as (k' & c' & Ecall & Ec' & Hdic & Hcause & _).
    + vm_compute. reflexivity.
    + vm_compute. reflexivity.
    + vm_compute. reflexivity.
    + vm_compute. reflexivity.
    + vm_compute. reflexivity.
    + vm_compute. discriminate.
    + exists k'. split; [exact Ecall|]. unfold getC. rewrite Ec'.
      split; [rewrite Hdic|rewrite Hcause]; vm_compute; reflexivity.
  - pose proof (Hkeep diamondKernel "x" (VNum 5) 0%nat (getV diamondKernel 0)) as H.
    destruct (updateSource "x" (VNum 5) diamondKernel) as [[] k'|e k'|] eqn:E;
      [|vm_compute in E; discriminate E..].
    cbn [ends] in *. split.
    + apply H.
      * apply WellFormed_check. vm_compute. reflexivity.
      * apply InvC4_check. vm_compute. reflexivity.
      * vm_compute. reflexivity.
      * vm_compute. reflexivity.
      * reflexivity.
    + vm_compute in E. injection E as <-. vm_compute. reflexivity.
Defined.

(** ** Quarantine of a definition whose output is taken *)

Lemma assoc_omap_set_eq {A} key (a : A) m : assoc key (omap_set key a m) = Some a.
Proof.
  unfold omap_set. destruct (assoc key m) as [a0|] eqn:E; cbn [isSome].
  - induction m as [|[k0 b] m IH]; [discriminate|].
    cbn [map assoc fst] in *. destruct (String.eqb_spec key k0) as [->|Hne].
    + cbn [assoc]. rewrite String.eqb_refl. reflexivity.
    + cbn [assoc]. destruct (String.eqb_spec key k0); [contradiction|]. auto.
  - induction m as [|[k0 b] m IH]; cbn [app assoc].
    + rewrite String.eqb_refl. reflexivity.
    + cbn [assoc] in E. destruct (String.eqb key k0); [discriminate|]. auto.
Qed.

Lemma assoc_omap_set_ne {A} key key' (a : A) m :
  key' <> key -> assoc key' (omap_set key a m) = assoc key' m.
Proof.
  intros Hne. unfold omap_set. destruct (isSome (assoc key m)).
  - induction m as [|[k0 b] m IH]; [reflexivity|].
    cbn [map assoc fst]. destruct (String.eqb_spec key k0) as [->|Hk].
    + cbn [assoc]. destruct (String.eqb_spec key' k0); [contradiction|]. exact IH.
    + cbn [assoc]. rewrite IH. reflexivity.
  - induction m as [|[k0 b] m IH]; cbn [app assoc].
    + destruct (String.eqb_spec key' key); [contradiction|]. reflexivity.
    + rewrite IH. reflexivity.
Qed.


Lemma assoc_app_None {A} key (m1 m2 : list (string * A)) :
  assoc key m1 = None -> assoc key (m1 ++ m2) = assoc key m2.
Proof.
  induction m1 as [|[k0 b] m1 IH]; [reflexivity|]. cbn [app assoc].
  destruct (String.eqb key k0); [discriminate|]. exact IH.
Qed.


Lemma fold_left_inv {A S} (P : S -> Prop) (f : S -> A -> S) l :
  forall s, P s -> (forall x s, In x l -> P s -> P (f s x)) -> P (fold_left f l s).
Proof.
  induction l as [|x l IH]; intros s HP Hstep; [exact HP|].
  cbn [fold_left]. apply IH.
  - apply Hstep; [left; reflexivity|exact HP].
  - intros y s' Hy. apply Hstep. right. exact Hy.
Qed.

(** What the steps of [_createProblemComputation] leave alone: the healthy
    tables, the computation objects, and every field of an old cell but its
    dependents. *)
Definition vdep (v v' : Var) : Prop := v' = set_v_dependents (v_dependents v') v.

Lemma vdep_refl v : vdep v v.
Proof. destruct v; reflexivity. Qed.
Lemma vdep_trans v1 v2 v3 : vdep v1 v2 -> vdep v2 v3 -> vdep v1 v3.
Proof. unfold vdep. intros H1 H2. rewrite H2, H1. destruct v1; reflexivity. Qed.







Lemma set_has_str_add id s : set_has_str id (set_add_str id s) = true.
Proof.
  unfold set_add_str. destruct (set_has_str id s) eqn:E; [exact E|].
  unfold set_has_str. rewrite existsb_app. cbn. rewrite String.eqb_refl.
  apply orb_true_iff. right. reflexivity.
Qed.

Lemma set_has_str_add_mono id id' s :
  set_has_str id s = true -> set_has_str id (set_add_str id' s) = true.
Proof.
  intros H. unfold set_add_str. destruct (set_has_str id' s); [exact H|].
  unfold set_has_str in *. rewrite existsb_app, H. reflexivity.
Qed.

















(** ** The cycle search terminates *)

(** Keys of the graph not yet visited (with multiplicity). *)
Definition unvisited (graph : list (string * list string)) (visited : list string) : nat :=
  length (List.filter (fun key => negb (set_has_str key visited)) (map fst graph)).

Lemma filter_length_le {A} (f g : A -> bool) l :
  (forall x, g x = true -> f x = true) ->
  (length (List.filter g l) <= length (List.filter f l))%nat.
Proof.
  intros H. induction l as [|a l IH]; [reflexivity|]. cbn [List.filter].
  destruct (g a) eqn:Eg.
  - rewrite (H a Eg). cbn [length]. lia.
  - destruct (f a); cbn [length]; lia.
Qed.

Lemma filter_length_lt {A} (f g : A -> bool) l x :
  (forall y, g y = true -> f y = true) -> In x l -> f x = true -> g x = false ->
  (length (List.filter g l) < length (List.filter f l))%nat.
Proof.
  intros H Hin Hf Hg. induction l as [|a l IH]; [destruct Hin|]. cbn [List.filter].
  destruct Hin as [->|Hin].
  - rewrite Hf, Hg. cbn [length]. pose proof (filter_length_le f g l H). lia.
  - specialize (IH Hin). destruct (g a) eqn:Eg.
    + rewrite (H a Eg). cbn [length]. lia.
    + destruct (f a); cbn [length]; lia.
Qed.

Lemma unvisited_mono graph visited visited' :
  (forall x, set_has_str x visited = true -> set_has_str x visited' = true) ->
  (unvisited graph visited' <= unvisited graph visited)%nat.
Proof.
  intros H. apply filter_length_le. intros x Hx.
  apply negb_true_iff in Hx. apply negb_true_iff.
  destruct (set_has_str x visited) eqn:E; [|reflexivity].
  rewrite (H x E) in Hx. discriminate.
Qed.

Lemma assoc_In_fst {A} key (m : list (string * A)) a : assoc key m = Some a -> In key (map fst m).
Proof.
  induction m as [|[k0 b] m IH]; [discriminate|]. cbn [assoc map fst].
  destruct (String.eqb_spec key k0) as [->|Hne]; [left; reflexivity|right; auto].
Qed.

Lemma unvisited_add graph visited node s :
  assoc node graph = Some s -> set_has_str node visited = false ->
  (unvisited graph (set_add_str node visited) < unvisited graph visited)%nat.
Proof.
  intros Ea Hv. apply (filter_length_lt _ _ _ node).
  - intros y Hy. apply negb_true_iff in Hy. apply negb_true_iff.
    destruct (set_has_str y visited) eqn:E; [|reflexivity].
    rewrite (set_has_str_add_mono y node visited E) in Hy. discriminate.
  - eapply assoc_In_fst; eauto.
  - rewrite Hv. reflexivity.
  - rewrite set_has_str_add. reflexivity.
Qed.

Lemma dfs_total :
  forall fuel graph node visited stack,
    set_has_str node visited = false ->
    (unvisited graph visited < fuel)%nat ->
    exists r visited',
      dfs fuel graph node visited stack = Some (r, visited') /\
      (forall x, set_has_str x visited = true -> set_has_str x visited' = true).
Proof.
  induction fuel as [|fuel IH]; intros graph node visited stack Hnode Hfuel; [lia|].
  cbn [dfs].
  assert (Hsub1 : forall x, set_has_str x visited = true ->
                            set_has_str x (set_add_str node visited) = true)
    by (intros; apply set_has_str_add_mono; assumption).
  destruct (assoc node graph) as [neighbors|] eqn:Ea.
  2:{ eexists _, _. split; [reflexivity|exact Hsub1]. }
  pose proof (unvisited_add graph visited node neighbors Ea Hnode) as Hdec.
  assert (Hfuel1 : (unvisited graph (set_add_str node visited) < fuel)%nat) by lia.
  clear Ea Hdec. revert Hsub1 Hfuel1. generalize (set_add_str node visited) as vis.
  induction neighbors as [|next rest IHn]; intros vis Hsub Hlt.
  - eexists _, _. split; [reflexivity|exact Hsub].
  - destruct (set_has_str next vis) eqn:Ev; cbn [negb].
    + destruct (set_has_str next (stack ++ [node])).
      * eexists _, _. split; [reflexivity|exact Hsub].
      * apply IHn; assumption.
    + destruct (IH graph next vis (stack ++ [node]) Ev Hlt) as (r & vis' & E & Hmono).
      rewrite E. destruct r as [cycle|].
      * eexists _, _. split; [reflexivity|]. intros x Hx. apply Hmono, Hsub, Hx.
      * apply IHn.
        -- intros x Hx. apply Hmono, Hsub, Hx.
        -- pose proof (unvisited_mono graph vis vis' Hmono). lia.
Qed.

Lemma detectCycleFrom_total graph startId : exists r, detectCycleFrom graph startId = Some r.
Proof.
  unfold detectCycleFrom.
  destruct (dfs_total (S (length graph)) graph startId [] []) as (r & v & E & _).
  - reflexivity.
  - unfold unvisited. pose proof (filter_length_le (fun _ : string => true)
      (fun key => negb (set_has_str key [])) (map fst graph) (fun _ _ => eq_refl)) as H.
    assert (Hall : length (List.filter (fun _ : string => true) (map fst graph)) = length graph).
    { clear. induction graph as [|a g IH]; [reflexivity|]. cbn. rewrite IH. reflexivity. }
    lia.
  - rewrite E. eauto.
Qed.

Lemma detectCircularDependencyIfAdded_total definition k :
  exists r, detectCircularDependencyIfAdded definition k = Some r.
Proof. unfold detectCircularDependencyIfAdded. apply detectCycleFrom_total. Qed.

(** ** Promotion of a waiter *)




Definition undefinedCandidates (changedVarId : string) (k : Kernel) : list string :=
  flat_map (fun e : string * cref =>
              match k_comps k !! e.2 with
              | Some c =>
                  match c_missingInputs c with
                  | Some s => if set_has_str changedVarId s then [c_id c] else []
                  | None => []
                  end
              | None => []
              end) (k_problem_computations k).

Lemma _tryRepairUndefinedInputs_no_candidate fuel changedVarId k :
  undefinedCandidates changedVarId k = [] ->
  _tryRepairUndefinedInputs (S fuel) changedVarId k = Ok tt k.
Proof.
  intros H. cbn [_tryRepairUndefinedInputs]. unfold bind at 1, gets at 1.
  fold (undefinedCandidates changedVarId k). rewrite H. reflexivity.
Qed.




























Lemma countInitialDirtyInputs_ok inputs k :
  (forall i, In i inputs -> lookupVar i k <> None) ->
  exists n, countInitialDirtyInputs inputs k = inr n.
Proof.
  induction inputs as [|i inputs IH]; intros H; [exists 0; reflexivity|].
  cbn [countInitialDirtyInputs].
  destruct (lookupVar i k) as [r|] eqn:El; [|destruct (H i (or_introl eq_refl) El)].
  destruct IH as (n & En); [intros; apply H; right; assumption|]. rewrite En.
  destruct (k_vars k !! r); eauto.
Qed.





























(** ** Sample run: two definitions wait for the output [y] of [Y] *)

Definition defW1 : ComputationDefinition :=
  {| d_id := "W1"; d_inputs := ["m"]; d_outputs := ["y"]; d_body := 2%nat |}.
Definition defW2 : ComputationDefinition :=
  {| d_id := "W2"; d_inputs := ["x"]; d_outputs := ["y"]; d_body := 3%nat |}.

(** [Y] owns [y]; [W1], whose input [m] does not exist, has been defined
    after it. *)
Definition ownedKernel : Kernel :=
  finalState
    ((defineSource 8 "x" (Some (VNum 1)) ;;
      defineComputation 8 defY ;;
      defineComputation 8 defW1) emptyKernel)
    emptyKernel.

(** ... and then [W2], whose input exists. *)
Definition waitersKernel : Kernel :=
  finalState (defineComputation 8 defW2 ownedKernel) ownedKernel.

Example waitersKernel_state :
  k_computations waitersKernel = [("Y", 0%nat)] /\
  k_problem_computations waitersKernel = [("W1", 1%nat); ("W2", 2%nat)] /\
  k_outputWaiters waitersKernel !! "y" = Some ["W1"; "W2"].
Proof. vm_compute. repeat split. Qed.

(** ** Sample run: a later declarer of [y] that reads downstream of [y] *)




(** A definition under an id that is in use is no second computation:
    [_defineComputation] throws, and the public [defineComputation] reports
    a problem and leaves the kernel as it is. *)
Example defineComputation_existing_id :
  let again := {| d_id := "Y"; d_inputs := ["x"]; d_outputs := ["y"]; d_body := 3%nat |} in
  _defineComputation 8 again ownedKernel =
    Throw (JsError "Computation Y already defined.") ownedKernel /\
  defineComputation 8 again ownedKernel = Ok Problematic ownedKernel.
Proof. vm_compute. split; reflexivity. Qed.



(** * Further properties of the kernel *)

(** ** Downward propagation: what one call can change *)

(** The induction principle [propagateCauseAtDownward_rel] for one fixed
    timestamp. *)
Section PropagateAt.
Variable t : Z.
Variable R : Kernel -> Kernel -> Prop.
Hypothesis R_refl : forall k, R k k.
Hypothesis R_trans : forall k1 k2 k3, R k1 k2 -> R k2 k3 -> R k1 k3.
Hypothesis R_outputs : forall k k' comp c,
  R k k' -> k_comps k !! comp = Some c ->
  exists c', k_comps k' !! comp = Some c' /\ c_outputs c' = c_outputs c.
Hypothesis R_inc : forall comp src nd k,
  R k (tryIncrementDirtyInputCount comp src nd k).
Hypothesis R_head : forall comp c k,
  k_comps k !! comp = Some c -> c_cause_at c < t ->
  R k (set_dirty comp true (updateCauseAt comp t k)).
Hypothesis R_out : forall comp c o output k,
  k_comps k !! comp = Some c -> In o (c_outputs c) ->
  k_vars k !! o.2 = Some output ->
  R k (updV o.2 (fun v => set_v_dirty true (set_v_cause_at (c_cause_at c) v)) k).

Lemma propagateCauseAtDownward_rel_at :
  forall fuel comp src nd k k',
    propagateCauseAtDownward_fuel fuel comp t src nd k = Some k' -> R k k'.
Proof.
  induction fuel as [|fuel IH]; intros comp src nd k k' H; [discriminate|].
  cbn [propagateCauseAtDownward_fuel] in H.
  set (k1 := tryIncrementDirtyInputCount comp src nd k) in *.
  assert (H01 : R k k1) by apply R_inc.
  destruct (k_comps k1 !! comp) as [c|] eqn:Ec.
  2:{ injection H as <-. exact H01. }
  destruct (Z.leb_spec t (c_cause_at c)) as [Hle|Hlt].
  { injection H as <-. exact H01. }
  set (k3 := set_dirty comp true (updateCauseAt comp t k1)) in *.
  assert (H13 : R k1 k3) by (eapply R_head; eauto).
  eapply R_trans; [exact H01|]. eapply R_trans; [exact H13|].
  revert H. apply (foldO_inv (fun kx => R k3 kx)); [|apply R_refl].
  intros o ka kb Hin HRa Hstep.
  destruct (k_vars ka !! o.2) as [output|] eqn:Ev.
  2:{ injection Hstep as <-. exact HRa. }
  destruct (k_comps ka !! comp) as [c'|] eqn:Ec'.
  2:{ injection Hstep as <-. exact HRa. }
  assert (Hc' : c_outputs c' = c_outputs c).
  { destruct (R_outputs k1 ka comp c (R_trans _ _ _ H13 HRa) Ec) as (c2 & E2 & Ho).
    congruence. }
  set (kc := updV o.2 _ ka) in *.
  assert (Hac : R ka kc).
  { eapply R_out; eauto. rewrite Hc'. exact Hin. }
  eapply R_trans; [exact HRa|]. eapply R_trans; [exact Hac|].
  revert Hstep. apply (foldO_inv (fun kx => R kc kx)); [|apply R_refl].
  intros d kd ke _ HRd Hd. eapply R_trans; [exact HRd|]. eapply IH; eauto.
Qed.
End PropagateAt.

(** What a propagation of timestamp [t] may do to a computation: move the
    task fields, raise [dirtyInputCount], set [dirty], and raise [cause_at] to
    [t], the latter only together with [dirty]. *)
Definition cmark (t : Z) (c c' : Comp) : Prop :=
  c' = set_c_dirty (c_dirty c')
         (set_c_dirtyInputCount (c_dirtyInputCount c')
            (set_c_cause_at (c_cause_at c')
               (set_c_abortingTasks (c_abortingTasks c')
                  (set_c_runningTask (c_runningTask c') c)))) /\
  (c_cause_at c' = c_cause_at c \/
   (c_cause_at c < t /\ c_cause_at c' = t /\ c_dirty c' = true)) /\
  (c_dirty c = true -> c_dirty c' = true) /\
  c_dirtyInputCount c <= c_dirtyInputCount c'.

(** ... and to a variable: nothing, or a new [cause_at] with [dirty] set. *)
Definition vmark (v v' : Var) : Prop :=
  v' = set_v_dirty (v_dirty v') (set_v_cause_at (v_cause_at v') v) /\
  (v' = v \/ v_dirty v' = true).

Definition mark_step (t : Z) (k k' : Kernel) : Prop :=
  base k' = base k /\
  heap_rel vmark (k_vars k) (k_vars k') /\
  heap_rel (cmark t) (k_comps k) (k_comps k').

Lemma cmark_refl t c : cmark t c c.
Proof. split; [destruct c; reflexivity|]. split; [auto|]. split; [auto|lia]. Qed.

Lemma cmark_trans t c1 c2 c3 : cmark t c1 c2 -> cmark t c2 c3 -> cmark t c1 c3.
Proof.
  intros (H1 & A1 & D1 & N1) (H2 & A2 & D2 & N2). split; [|split; [|split]].
  - rewrite H2, H1. destruct c1; reflexivity.
  - destruct A1 as [E1|(L1 & E1 & T1)], A2 as [E2|(L2 & E2 & T2)].
    + left. congruence.
    + right. rewrite <- E1. auto.
    + right. split; [exact L1|]. split; [congruence|auto].
    + lia.
  - auto.
  - lia.
Qed.

Lemma vmark_refl v : vmark v v.
Proof. split; [destruct v; reflexivity|auto]. Qed.

Lemma vmark_trans v1 v2 v3 : vmark v1 v2 -> vmark v2 v3 -> vmark v1 v3.
Proof.
  intros (H1 & A1) (H2 & A2). split.
  - rewrite H2, H1. destruct v1; reflexivity.
  - destruct A2 as [->|T2]; [exact A1|auto].
Qed.

Lemma ctl_cmark t c c' : ctl c c' -> cmark t c c'.
Proof.
  unfold ctl. intros H. split; [|split; [|split]].
  - rewrite H. destruct c; reflexivity.
  - left. rewrite H. reflexivity.
  - rewrite H. auto.
  - rewrite H. simpl. lia.
Qed.

Lemma mark_step_refl t k : mark_step t k k.
Proof.
  split; [reflexivity|].
  split; apply heap_rel_refl; auto using vmark_refl, cmark_refl.
Qed.

Lemma mark_step_trans t k1 k2 k3 :
  mark_step t k1 k2 -> mark_step t k2 k3 -> mark_step t k1 k3.
Proof.
  intros (B1 & V1 & C1) (B2 & V2 & C2). split; [congruence|]. split.
  - eapply heap_rel_trans; eauto using vmark_trans.
  - eapply heap_rel_trans; eauto using cmark_trans.
Qed.

Lemma sched_mark t k k' : sched_step k k' -> mark_step t k k'.
Proof.
  intros [Hc Hr]. unfold core in Hc. injection Hc as ? ? ? ? ? ? ? ? ? ? ? ?.
  split; [unfold base; congruence|]. split.
  - replace (k_vars k') with (k_vars k) by congruence.
    apply heap_rel_refl, vmark_refl.
  - eapply heap_rel_impl; [|exact Hr]. apply ctl_cmark.
Qed.

Lemma mark_step_outputs t k k' comp c :
  mark_step t k k' -> k_comps k !! comp = Some c ->
  exists c', k_comps k' !! comp = Some c' /\ c_outputs c' = c_outputs c.
Proof.
  intros (_ & _ & H) E. destruct (heap_rel_lookup _ _ _ _ _ H E) as (c' & E' & (Hc & _)).
  exists c'. split; [exact E'|]. rewrite Hc. reflexivity.
Qed.

Lemma tryIncrementDirtyInputCount_mark t comp src nd k :
  mark_step t k (tryIncrementDirtyInputCount comp src nd k).
Proof.
  unfold tryIncrementDirtyInputCount.
  destruct src; [|apply mark_step_refl].
  destruct (k_vars k !! _); [|apply mark_step_refl].
  destruct (k_comps k !! comp) as [c|] eqn:Ec; [|apply mark_step_refl].
  destruct (_ || _); [apply mark_step_refl|].
  destruct (_ && _); [|apply mark_step_refl].
  eapply mark_step_trans; [|apply sched_mark, set_dirtyInputCount_spec].
  split; [reflexivity|]. split; [apply heap_rel_refl, vmark_refl|].
  rewrite k_comps_updC. apply heap_rel_alter; [apply cmark_refl|].
  intros c0 E0. rewrite Ec in E0. injection E0 as <-.
  split; [destruct c; reflexivity|]. split; [left; reflexivity|].
  split; [auto|]. simpl. lia.
Qed.

(** The head of a propagation step: the computation ends at [t], dirty. *)
Lemma raise_head_mark t comp c k :
  k_comps k !! comp = Some c -> c_cause_at c < t ->
  mark_step t k (set_dirty comp true (updateCauseAt comp t k)).
Proof.
  intros Ec Hlt. unfold updateCauseAt.
  pose proof (set_cause_at_spec comp t k) as [Ca Ha].
  pose proof (set_dirty_spec comp true (set_cause_at comp t k)) as [Cb Hb].
  set (ka := set_cause_at comp t k) in *.
  set (kb := set_dirty comp true ka) in *.
  assert (Hcore : core kb = core k).
  { rewrite Cb. unfold updC. change (core (with_comps ?m ka)) with (core ka).
    rewrite Ca. reflexivity. }
  unfold core in Hcore. injection Hcore as ? ? ? ? ? ? ? ? ? ? ? ?.
  split; [unfold base; congruence|]. split.
  - replace (k_vars kb) with (k_vars k) by congruence. apply heap_rel_refl, vmark_refl.
  - intros r. destruct (decide (r = comp)) as [->|Hne].
    + specialize (Ha comp). rewrite k_comps_updC, lookup_alter_eq, Ec in Ha.
      cbn in Ha. inversion Ha as [x ca Hctl Ex Eca|]; subst x.
      specialize (Hb comp). rewrite k_comps_updC, lookup_alter_eq, <- Eca in Hb.
      cbn in Hb. inversion Hb as [x cb Hctl' Ex Ecb|]; subst x.
      rewrite Ec. constructor. unfold ctl in Hctl, Hctl'.
      split; [|split; [|split]].
      * rewrite Hctl', Hctl. destruct c; reflexivity.
      * right. split; [exact Hlt|]. rewrite Hctl', Hctl. split; reflexivity.
      * intros _. rewrite Hctl'. reflexivity.
      * rewrite Hctl', Hctl. simpl. lia.
    + unfold kb, ka. rewrite set_dirty_other, set_cause_at_other by exact Hne.
      destruct (k_comps k !! r); constructor. apply cmark_refl.
Qed.

Lemma propagateCauseAtDownward_mark t fuel comp src nd k k' :
  propagateCauseAtDownward_fuel fuel comp t src nd k = Some k' -> mark_step t k k'.
Proof.
  apply propagateCauseAtDownward_rel_at.
  - apply mark_step_refl.
  - apply mark_step_trans.
  - apply mark_step_outputs.
  - apply tryIncrementDirtyInputCount_mark.
  - apply raise_head_mark.
  - intros r c o output k0 Ec Hin Ev. split; [reflexivity|]. split.
    + rewrite k_vars_updV. apply heap_rel_alter; [apply vmark_refl|].
      intros v _. split; [destruct v; reflexivity|right; reflexivity].
    + apply heap_rel_refl, cmark_refl.
Qed.

(** [_propagateCauseAtDownward] returns on every kernel state, cyclic graphs
    included, and leaves each computation's [cause_at] where it was or, when
    it was below [newCauseAt], at [newCauseAt]: a [cause_at] is never
    lowered. *)
Theorem propagateCauseAtDownward_returns_and_raises
    (comp : cref) (newCauseAt : Z) (sourceVariable : option vref) (isNewDirty : bool)
    (k : Kernel) :
  exists k',
    _propagateCauseAtDownward comp newCauseAt sourceVariable isNewDirty k = Some k' /\
    forall r c, k_comps k !! r = Some c ->
      exists c', k_comps k' !! r = Some c' /\
                 (c_cause_at c' = c_cause_at c \/
                  (c_cause_at c < newCauseAt /\ c_cause_at c' = newCauseAt)).
Proof.
  destruct (propagateCauseAtDownward_total comp newCauseAt sourceVariable isNewDirty k)
    as (k' & E).
  exists k'. split; [exact E|]. intros r c Ec.
  destruct (propagateCauseAtDownward_mark _ _ _ _ _ _ _ E) as (_ & _ & H).
  destruct (heap_rel_lookup _ _ _ _ _ H Ec) as (c' & E' & (_ & A & _)).
  exists c'. split; [exact E'|]. destruct A as [A|(A1 & A2 & _)]; auto.
Qed.

(** A raised [cause_at] comes with the dirty mark: after
    [_propagateCauseAtDownward] every computation and every variable whose
    [cause_at] moved is dirty, whatever was dirty before still is, and no
    [dirtyInputCount] went down. *)
Theorem propagateCauseAtDownward_raise_marks_dirty
    (comp : cref) (newCauseAt : Z) (sourceVariable : option vref) (isNewDirty : bool)
    (k : Kernel) :
  exists k',
    _propagateCauseAtDownward comp newCauseAt sourceVariable isNewDirty k = Some k' /\
    (forall r c, k_comps k !! r = Some c ->
       exists c', k_comps k' !! r = Some c' /\
                  (c_dirty c = true \/ c_cause_at c' <> c_cause_at c -> c_dirty c' = true) /\
                  c_dirtyInputCount c <= c_dirtyInputCount c') /\
    (forall x v, k_vars k !! x = Some v ->
       exists v', k_vars k' !! x = Some v' /\
                  (v_dirty v = true \/ v_cause_at v' <> v_cause_at v -> v_dirty v' = true)).
Proof.
  destruct (propagateCauseAtDownward_total comp newCauseAt sourceVariable isNewDirty k)
    as (k' & E).
  exists k'. split; [exact E|].
  destruct (propagateCauseAtDownward_mark _ _ _ _ _ _ _ E) as (_ & HV & HC). split.
  - intros r c Ec.
    destruct (heap_rel_lookup _ _ _ _ _ HC Ec) as (c' & E' & (_ & A & D & N)).
    exists c'. split; [exact E'|]. split; [|exact N].
    intros [Hd|Hne]; [auto|]. destruct A as [A|(_ & _ & A)]; [contradiction|exact A].
  - intros x v Ev.
    destruct (heap_rel_lookup _ _ _ _ _ HV Ev) as (v' & E' & (_ & A)).
    exists v'. split; [exact E'|].
    intros [Hd|Hne]; destruct A as [->|A]; auto; try congruence.
Qed.


(** ** The ready queue (computation.ts, module_schedule.ts) *)

(** The invariant that [addToReadyQueue] states: the queue holds no
    computation twice, and none that has a running task. *)
Definition queueExclusive (k : Kernel) : Prop :=
  List.NoDup (k_readyQueue k) /\
  forall r c, In r (k_readyQueue k) -> k_comps k !! r = Some c -> c_runningTask c = None.

Lemma existsb_eqb_false x l : existsb (Nat.eqb x) l = false -> ~ In x l.
Proof.
  intros H Hin. assert (E : existsb (Nat.eqb x) l = true).
  { apply existsb_exists. exists x. split; [exact Hin|apply Nat.eqb_refl]. }
  congruence.
Qed.

Lemma addToReadyQueue_exclusive r k : queueExclusive k -> queueExclusive (addToReadyQueue r k).
Proof.
  intros [Hn Hq]. unfold addToReadyQueue.
  destruct (k_comps k !! r) as [c|] eqn:Ec; [|split; assumption].
  destruct (existsb (Nat.eqb r) (k_readyQueue k)) eqn:Ein; cbn [negb andb];
    [split; assumption|].
  destruct (c_runningTask c) eqn:Er; cbn [isSome negb]; [split; assumption|].
  split; cbn [k_readyQueue with_readyQueue].
  - apply List.NoDup_app; [exact Hn|repeat constructor; auto|].
    intros x Hx [<-|[]]. exact (existsb_eqb_false _ _ Ein Hx).
  - intros r' c' Hin E'. change (k_comps k !! r' = Some c') in E'.
    apply in_app_or in Hin as [Hin|[<-|[]]]; [eauto|]. congruence.
Qed.

Lemma checkScheduleNeeded_exclusive r s k :
  queueExclusive k -> queueExclusive (checkScheduleNeeded r s k).
Proof.
  intros H. unfold checkScheduleNeeded. destruct (k_comps k !! r); [|exact H].
  destruct (_ && _); [apply addToReadyQueue_exclusive; exact H|exact H].
Qed.

(** A field update that leaves the task slot alone, or empties it. *)
Lemma updC_exclusive r f k :
  (forall c, c_runningTask (f c) = c_runningTask c \/ c_runningTask (f c) = None) ->
  queueExclusive k -> queueExclusive (updC r f k).
Proof.
  intros Hf [Hn Hq]. split; [exact Hn|].
  intros r' c' Hin E'. change (k_readyQueue (updC r f k)) with (k_readyQueue k) in Hin.
  rewrite k_comps_updC in E'. destruct (decide (r = r')) as [->|Hne].
  - rewrite lookup_alter_eq in E'. destruct (k_comps k !! r') as [c|] eqn:Ec; [|discriminate].
    cbn in E'. injection E' as <-. destruct (Hf c) as [E|E]; [|exact E].
    rewrite E. eauto.
  - rewrite lookup_alter_ne in E' by exact Hne. eauto.
Qed.

Lemma abortTask_exclusive r why k : queueExclusive k -> queueExclusive (abortTask r why k).
Proof.
  intros H. unfold abortTask. destruct (k_comps k !! r) as [c|]; [|exact H].
  destruct (c_runningTask c); [|exact H].
  apply checkScheduleNeeded_exclusive, updC_exclusive; [intros c0; right; reflexivity|].
  exact H.
Qed.

Lemma checkAbortNeeded_exclusive r s1 s2 k :
  queueExclusive k -> queueExclusive (checkAbortNeeded r s1 s2 k).
Proof.
  intros H. unfold checkAbortNeeded. destruct (k_comps k !! r) as [c|]; [|exact H].
  destruct (_ || _); [exact H|].
  destruct s2; try exact H; try (apply abortTask_exclusive; exact H).
  destruct (c_dirty c); [apply abortTask_exclusive; exact H|exact H].
Qed.

Lemma onStateChange_exclusive r s k :
  queueExclusive k -> queueExclusive (onStateChange r s k).
Proof.
  intros H. unfold onStateChange. destruct (k_comps k !! r) as [c|]; [|exact H].
  destruct (ComputationState_eqb _ _); [exact H|].
  apply checkScheduleNeeded_exclusive, checkAbortNeeded_exclusive, H.
Qed.

Lemma set_dirty_exclusive r b k : queueExclusive k -> queueExclusive (set_dirty r b k).
Proof.
  intros H. unfold set_dirty. destruct (k_comps k !! r) as [c|]; [|exact H].
  destruct (Bool.eqb _ _); [exact H|].
  apply onStateChange_exclusive, updC_exclusive; [intros c0; left; reflexivity|exact H].
Qed.

Lemma set_observeCount_exclusive r n k :
  queueExclusive k -> queueExclusive (set_observeCount r n k).
Proof.
  intros H. unfold set_observeCount. destruct (k_comps k !! r) as [c|]; [|exact H].
  destruct (_ =? _); [exact H|].
  apply onStateChange_exclusive, updC_exclusive; [intros c0; left; reflexivity|exact H].
Qed.

Lemma set_dirtyInputCount_exclusive r n k :
  queueExclusive k -> queueExclusive (set_dirtyInputCount r n k).
Proof.
  intros H. unfold set_dirtyInputCount. destruct (k_comps k !! r) as [c|]; [|exact H].
  destruct (_ =? _); [exact H|].
  apply onStateChange_exclusive, updC_exclusive; [intros c0; left; reflexivity|exact H].
Qed.

Lemma set_cause_at_exclusive r n k :
  queueExclusive k -> queueExclusive (set_cause_at r n k).
Proof.
  intros H. unfold set_cause_at. destruct (k_comps k !! r) as [c|]; [|exact H].
  assert (H1 : queueExclusive (updC r (set_c_cause_at n) k))
    by (apply updC_exclusive; [intros c0; left; reflexivity|exact H]).
  destruct (_ =? _); [exact H1|].
  unfold checkAbortOnCauseAtChange.
  destruct (k_comps _ !! r) as [c1|]; [|exact H1].
  destruct (c_runningTask c1); [|exact H1].
  destruct (k_tasks _ !! _); [|exact H1].
  destruct (_ <? _); [apply abortTask_exclusive; exact H1|exact H1].
Qed.

Lemma tryIncrementDirtyInputCount_exclusive comp src nd k :
  queueExclusive k -> queueExclusive (tryIncrementDirtyInputCount comp src nd k).
Proof.
  intros H. unfold tryIncrementDirtyInputCount.
  destruct src; [|exact H].
  destruct (k_vars k !! _); [|exact H].
  destruct (k_comps k !! comp); [|exact H].
  destruct (_ || _); [exact H|].
  destruct (_ && _); [apply set_dirtyInputCount_exclusive; exact H|exact H].
Qed.

Lemma propagateCauseAtDownward_exclusive fuel comp t src nd k k' :
  propagateCauseAtDownward_fuel fuel comp t src nd k = Some k' ->
  dyn_step k k' /\ (queueExclusive k -> queueExclusive k').
Proof.
  apply (propagateCauseAtDownward_rel
           (fun k k' => dyn_step k k' /\ (queueExclusive k -> queueExclusive k'))).
  - intros k0. split; [apply dyn_step_refl|auto].
  - intros k1 k2 k3 [D1 Q1] [D2 Q2]. split; [eapply dyn_step_trans; eauto|auto].
  - intros k1 k2 r c [D _]. apply dyn_step_outputs. exact D.
  - intros. split; [apply tryIncrementDirtyInputCount_dyn|
                    apply tryIncrementDirtyInputCount_exclusive].
  - intros r t0 c k0 _ _. split.
    + eapply dyn_step_trans; [apply set_cause_at_dyn|apply set_dirty_dyn].
    + intros H. apply set_dirty_exclusive, set_cause_at_exclusive, H.
  - intros r c o output k0 _ _ _. split.
    + apply updV_dyn. intros v; destruct v; reflexivity.
    + intros H. exact H.
Qed.

(** The four setters of a computation and [_propagateCauseAtDownward] keep
    the ready queue free of duplicates and of computations that have a
    running task. *)
Theorem ready_queue_stays_exclusive (k : Kernel) :
  queueExclusive k ->
  (forall r value, queueExclusive (set_dirty r value k)) /\
  (forall r value, queueExclusive (set_observeCount r value k)) /\
  (forall r value, queueExclusive (set_dirtyInputCount r value k)) /\
  (forall r value, queueExclusive (set_cause_at r value k)) /\
  (forall comp newCauseAt sourceVariable isNewDirty,
     exists k', _propagateCauseAtDownward comp newCauseAt sourceVariable isNewDirty k = Some k' /\
                queueExclusive k').
Proof.
  intros H. repeat split.
  - apply set_dirty_exclusive, H.
  - apply set_dirty_exclusive, H.
  - apply set_observeCount_exclusive, H.
  - apply set_observeCount_exclusive, H.
  - apply set_dirtyInputCount_exclusive, H.
  - apply set_dirtyInputCount_exclusive, H.
  - apply set_cause_at_exclusive, H.
  - apply set_cause_at_exclusive, H.
  - intros comp t src nd.
    destruct (propagateCauseAtDownward_total comp t src nd k) as (k' & E).
    exists k'. split; [exact E|]. eapply propagateCauseAtDownward_exclusive; eauto.
Qed.

Lemma chainKernel_queueExclusive : queueExclusive chainKernel.
Proof.
  split.
  - vm_compute. repeat constructor; simpl; tauto.
  - intros r c Hin Ec. vm_compute in Hin. destruct Hin as [<-|[]].
    vm_compute in Ec. injection Ec as <-. reflexivity.
Defined.

Lemma ready_queue_stays_exclusive_witness :
  (forall r value, queueExclusive (set_dirty r value chainKernel)) /\
  (forall r value, queueExclusive (set_observeCount r value chainKernel)) /\
  (forall r value, queueExclusive (set_dirtyInputCount r value chainKernel)) /\
  (forall r value, queueExclusive (set_cause_at r value chainKernel)) /\
  (forall comp newCauseAt sourceVariable isNewDirty,
     exists k', _propagateCauseAtDownward comp newCauseAt sourceVariable isNewDirty
                  chainKernel = Some k' /\
                queueExclusive k').
Proof. exact (ready_queue_stays_exclusive chainKernel chainKernel_queueExclusive). Defined.

(** A setter that takes a computation without running task into [Ready]
    leaves it in the ready queue (when the scheduler is attached, as it is for
    every computation the kernel creates). *)
Theorem entering_Ready_queues (r : cref) (k : Kernel) (c : Comp) :
  k_comps k !! r = Some c ->
  c_runningTask c = None -> c_scheduler c = true -> state c <> Ready ->
  (forall value, state (set_c_dirty value c) = Ready ->
                 In r (k_readyQueue (set_dirty r value k))) /\
  (forall value, state (set_c_observeCount value c) = Ready ->
                 In r (k_readyQueue (set_observeCount r value k))) /\
  (forall value, state (set_c_dirtyInputCount value c) = Ready ->
                 In r (k_readyQueue (set_dirtyInputCount r value k))).
Proof.
  intros Ec Hr Hs Hst.
  assert (Hgen : forall f, c_runningTask (f c) = None -> c_scheduler (f c) = true ->
                           state (f c) = Ready ->
                           In r (k_readyQueue (onStateChange r (state c) (updC r f k)))).
  { intros f Fr Fs Fst. unfold onStateChange.
    assert (E1 : k_comps (updC r f k) !! r = Some (f c))
      by (rewrite k_comps_updC, lookup_alter_eq, Ec; reflexivity).
    rewrite E1, Fst.
    destruct (state c) eqn:Es; try congruence; cbn [ComputationState_eqb].
    all: unfold checkAbortNeeded; rewrite E1; cbn [ComputationState_eqb negb orb].
    all: unfold checkScheduleNeeded; rewrite E1, Fr, Fs; cbn [ComputationState_eqb isSome negb andb].
    all: unfold addToReadyQueue; rewrite E1, Fr; cbn [isSome negb].
    all: destruct (existsb (Nat.eqb r) (k_readyQueue (updC r f k))) eqn:Ein;
         cbn [negb andb k_readyQueue with_readyQueue].
    all: try (apply in_or_app; right; left; reflexivity).
    all: apply existsb_exists in Ein as (x & Hx & Hxr); apply Nat.eqb_eq in Hxr;
         subst x; exact Hx. }
  split; [|split]; intros value Hv.
  - unfold set_dirty. rewrite Ec.
    destruct (Bool.eqb_spec (c_dirty c) value) as [E|_].
    + exfalso. apply Hst. rewrite <- Hv. subst value. destruct c; reflexivity.
    + apply Hgen; [exact Hr|exact Hs|exact Hv].
  - unfold set_observeCount. rewrite Ec.
    destruct (Z.eqb_spec (c_observeCount c) value) as [E|_].
    + exfalso. apply Hst. rewrite <- Hv. subst value. destruct c; reflexivity.
    + apply Hgen; [exact Hr|exact Hs|exact Hv].
  - unfold set_dirtyInputCount. rewrite Ec.
    destruct (Z.eqb_spec (c_dirtyInputCount c) value) as [E|_].
    + exfalso. apply Hst. rewrite <- Hv. subst value. destruct c; reflexivity.
    + apply Hgen; [exact Hr|exact Hs|exact Hv].
Qed.

(** The producer [Y] of the chain, before anyone observes its output. *)
Definition unobservedChainKernel : Kernel :=
  finalState
    ((defineSource 8 "x" (Some (VNum 1)) ;;
      defineComputation 8 defY) emptyKernel)
    emptyKernel.

Definition unobservedChainComp : Comp := Eval vm_compute in getC unobservedChainKernel 0%nat.

Lemma entering_Ready_queues_witness :
  (forall value, state (set_c_dirty value unobservedChainComp) = Ready ->
                 In 0%nat (k_readyQueue (set_dirty 0%nat value unobservedChainKernel))) /\
  (forall value, state (set_c_observeCount value unobservedChainComp) = Ready ->
                 In 0%nat (k_readyQueue (set_observeCount 0%nat value unobservedChainKernel))) /\
  (forall value, state (set_c_dirtyInputCount value unobservedChainComp) = Ready ->
                 In 0%nat (k_readyQueue (set_dirtyInputCount 0%nat value unobservedChainKernel))).
Proof.
  apply (entering_Ready_queues 0%nat unobservedChainKernel unobservedChainComp).
  - vm_compute. reflexivity.
  - reflexivity.
  - reflexivity.
  - vm_compute. discriminate.
Defined.

(** Leaving [Ready] with a task in flight: raising [dirtyInputCount] above
    zero, or dropping [observeCount] to zero, aborts the running task (signal
    fired, task parked in [abortingTasks], slot emptied); clearing [dirty],
    which is how a task completes, aborts nothing. *)
Theorem leaving_Ready_aborts_unless_completed
    (r : cref) (k : Kernel) (c : Comp) (tid : nat) (t : RunningTask) :
  k_comps k !! r = Some c -> state c = Ready ->
  c_runningTask c = Some tid -> k_tasks k !! tid = Some t ->
  (forall value, 0 < value -> taskAborted (set_dirtyInputCount r value k) r tid) /\
  taskAborted (set_observeCount r 0 k) r tid /\
  (taskRunning (set_dirty r false k) r tid /\
   k_tasks (set_dirty r false k) = k_tasks k).
Proof.
  intros Ec Hst Hr Et.
  assert (Hd : c_dirty c = true /\ c_observeCount c <> 0 /\ c_dirtyInputCount c <= 0).
  { unfold state in Hst. destruct (c_dirty c); cbn [negb orb] in Hst; [|discriminate].
    destruct (Z.eqb_spec (c_observeCount c) 0); [discriminate|].
    destruct (Z.gtb_spec (c_dirtyInputCount c) 0); [discriminate|]. auto. }
  destruct Hd as (Hdirty & Hobs & Hdic).
  split; [|split].
  - intros value Hpos. unfold set_dirtyInputCount. rewrite Ec.
    destruct (Z.eqb_spec (c_dirtyInputCount c) value) as [E|_]; [lia|].
    set (k1 := updC r (set_c_dirtyInputCount value) k).
    assert (E1 : k_comps k1 !! r = Some (set_c_dirtyInputCount value c))
      by (unfold k1; rewrite k_comps_updC, lookup_alter_eq, Ec; reflexivity).
    assert (Hnew : state (set_c_dirtyInputCount value c) = Pending).
    { unfold state. cbn [set_c_dirtyInputCount c_dirty c_observeCount c_dirtyInputCount].
      rewrite Hdirty. destruct (Z.eqb_spec (c_observeCount c) 0); [contradiction|].
      cbn [negb orb]. destruct (Z.gtb_spec value 0); [reflexivity|lia]. }
    unfold onStateChange. rewrite E1, Hst, Hnew. cbn [ComputationState_eqb].
    unfold checkAbortNeeded. rewrite E1. cbn [ComputationState_eqb negb orb].
    cbn [set_c_dirtyInputCount c_runningTask]. rewrite Hr. cbn [isSome negb].
    assert (Ha : taskAborted (abortTask r AbortDirtyInputCount k1) r tid)
      by (eapply abortTask_aborts; [exact E1|exact Hr|exact Et]).
    destruct Ha as (c' & t' & Ec' & Et' & Hrun & Hin & Hab).
    unfold checkScheduleNeeded. rewrite Ec'. cbn [ComputationState_eqb andb].
    exists c', t'. auto.
  - unfold set_observeCount. rewrite Ec.
    destruct (Z.eqb_spec (c_observeCount c) 0) as [E|_]; [contradiction|].
    set (k1 := updC r (set_c_observeCount 0) k).
    assert (E1 : k_comps k1 !! r = Some (set_c_observeCount 0 c))
      by (unfold k1; rewrite k_comps_updC, lookup_alter_eq, Ec; reflexivity).
    assert (Hnew : state (set_c_observeCount 0 c) = Idle).
    { unfold state. cbn [set_c_observeCount c_dirty c_observeCount].
      rewrite Hdirty. reflexivity. }
    unfold onStateChange. rewrite E1, Hst, Hnew. cbn [ComputationState_eqb].
    unfold checkAbortNeeded. rewrite E1. cbn [ComputationState_eqb negb orb].
    cbn [set_c_observeCount c_runningTask c_dirty]. rewrite Hr, Hdirty. cbn [isSome negb].
    assert (Ha : taskAborted (abortTask r AbortObserveCountZero k1) r tid)
      by (eapply abortTask_aborts; [exact E1|exact Hr|exact Et]).
    destruct Ha as (c' & t' & Ec' & Et' & Hrun & Hin & Hab).
    unfold checkScheduleNeeded. rewrite Ec'. cbn [ComputationState_eqb andb].
    exists c', t'. auto.
  - unfold set_dirty. rewrite Ec, Hdirty. cbn [Bool.eqb].
    set (k1 := updC r (set_c_dirty false) k).
    assert (E1 : k_comps k1 !! r = Some (set_c_dirty false c))
      by (unfold k1; rewrite k_comps_updC, lookup_alter_eq, Ec; reflexivity).
    unfold onStateChange. rewrite E1, Hst.
    change (state (set_c_dirty false c)) with Idle. cbn [ComputationState_eqb].
    unfold checkAbortNeeded. rewrite E1. cbn [ComputationState_eqb negb orb].
    cbn [set_c_dirty c_runningTask c_dirty]. rewrite Hr. cbn [isSome negb].
    unfold checkScheduleNeeded. rewrite E1. cbn [ComputationState_eqb andb].
    split; [|reflexivity].
    exists (set_c_dirty false c). split; [exact E1|exact Hr].
Qed.

Lemma leaving_Ready_aborts_unless_completed_witness :
  (forall value, 0 < value -> taskAborted (set_dirtyInputCount 0%nat value rerunKernel) 0%nat 2%nat) /\
  taskAborted (set_observeCount 0%nat 0 rerunKernel) 0%nat 2%nat /\
  (taskRunning (set_dirty 0%nat false rerunKernel) 0%nat 2%nat /\
   k_tasks (set_dirty 0%nat false rerunKernel) = k_tasks rerunKernel).
Proof.
  apply (leaving_Ready_aborts_unless_completed 0%nat rerunKernel rerunComp 2%nat
           {| rt_taskId := 2%nat; rt_cause_at := 4; rt_aborted := false |}).
  - vm_compute. reflexivity.
  - vm_compute. reflexivity.
  - vm_compute. reflexivity.
  - vm_compute. reflexivity.
Defined.

(** ** Deep equality (utils.ts) *)

(** The two loops of [deepEqual], named. *)
Fixpoint deepEqualItems (l1 l2 : list Value) : bool :=
  match l1, l2 with
  | x :: l1', y :: l2' => deepEqual x y && deepEqualItems l1' l2'
  | _, _ => true
  end.

Fixpoint deepEqualFields (fb l1 : list (string * Value)) : bool :=
  match l1 with
  | [] => true
  | (key, va) :: l1' =>
      match assoc key fb with
      | Some vb => deepEqual va vb
      | None => false
      end && deepEqualFields fb l1'
  end.

Lemma deepEqual_VArr r r' xs ys :
  deepEqual (VArr r xs) (VArr r' ys) =
  Nat.eqb r r' || (Nat.eqb (length xs) (length ys) && deepEqualItems xs ys).
Proof.
  reflexivity.
Qed.

Lemma deepEqual_VObj r r' fa fb :
  deepEqual (VObj r fa) (VObj r' fb) =
  Nat.eqb r r' ||
  (negb (constructorDiffers fa fb) && Nat.eqb (length fa) (length fb) &&
   deepEqualFields fb fa).
Proof.
  cbn [deepEqual strictEqual]. do 2 f_equal.
  induction fa as [|[key va] fa IH]; cbn [deepEqualFields]; [reflexivity|].
  rewrite <- IH. reflexivity.
Qed.

(** A successful [===] ends [deepEqual] at its first line. *)
Lemma deepEqual_strictEqual a b : strictEqual a b = true -> deepEqual a b = true.
Proof.
  intros H. destruct a; cbn [deepEqual]; rewrite H; reflexivity.
Qed.

(** When [===] fails, [deepEqual] holds between two arrays or between two
    objects only. *)
Lemma deepEqual_not_strict a b :
  strictEqual a b = false -> deepEqual a b = true ->
  (exists r xs r' ys, a = VArr r xs /\ b = VArr r' ys) \/
  (exists r fa r' fb, a = VObj r fa /\ b = VObj r' fb).
Proof.
  intros Hs H.
  destruct a; cbn [deepEqual] in H; rewrite Hs in H; cbn [orb] in H; try discriminate H;
    destruct b; try discriminate H.
  - left. eauto 8.
  - right. eauto 8.
Qed.

Lemma strictEqual_sym a b : strictEqual a b = strictEqual b a.
Proof.
  destruct a, b; cbn [strictEqual]; try reflexivity.
  - destruct b, b0; reflexivity.
  - apply Z.eqb_sym.
  - apply String.eqb_sym.
  - apply Nat.eqb_sym.
  - apply Nat.eqb_sym.
Qed.

Lemma constructorDiffers_sym fa fb : constructorDiffers fa fb = constructorDiffers fb fa.
Proof.
  unfold constructorDiffers.
  destruct (assoc "constructor" fa), (assoc "constructor" fb); try reflexivity.
  rewrite strictEqual_sym. reflexivity.
Qed.

(** Values as JavaScript builds them: the keys of an object are pairwise
    distinct. *)
Fixpoint distinctKeys (l : list string) : bool :=
  match l with
  | [] => true
  | a :: rest => negb (set_has_str a rest) && distinctKeys rest
  end.

Fixpoint wellFormedValue (v : Value) : bool :=
  match v with
  | VArr _ items => forallb wellFormedValue items
  | VObj _ fields =>
      distinctKeys (map fst fields) &&
      forallb (fun e : string * Value => wellFormedValue (snd e)) fields
  | _ => true
  end.

(** No object anywhere inside. *)
Fixpoint objectFree (v : Value) : bool :=
  match v with
  | VArr _ items => forallb objectFree items
  | VObj _ _ => false
  | _ => true
  end.

(** No NaN anywhere inside. *)
Fixpoint nanFree (v : Value) : bool :=
  match v with
  | VNaN => false
  | VArr _ items => forallb nanFree items
  | VObj _ fields => forallb (fun e : string * Value => nanFree (snd e)) fields
  | _ => true
  end.

(** No object anywhere inside has an own key [constructor] that holds an
    array or an object. *)
Fixpoint scalarConstructors (v : Value) : bool :=
  match v with
  | VArr _ items => forallb scalarConstructors items
  | VObj _ fields =>
      match assoc "constructor" fields with
      | Some (VArr _ _) | Some (VObj _ _) => false
      | _ => true
      end &&
      forallb (fun e : string * Value => scalarConstructors (snd e)) fields
  | _ => true
  end.

(** The content of a value: the value with its references forgotten. *)
Fixpoint content (v : Value) : Value :=
  match v with
  | VArr _ items => VArr 0 (map content items)
  | VObj _ fields => VObj 0 (map (fun e : string * Value => (fst e, content (snd e))) fields)
  | _ => v
  end.

(** The arrays of a value, each with its reference. *)
Fixpoint arraysOf (v : Value) : list (nat * list Value) :=
  match v with
  | VArr r items => (r, items) :: flat_map arraysOf items
  | VObj _ fields => flat_map (fun e : string * Value => arraysOf (snd e)) fields
  | _ => []
  end.

(** One reference, one array: an array that occurs in [a] and in [b] has
    the same items in both.  It holds of any two values that are alive
    together, which the two arguments of a call are. *)
Definition coherent (a b : Value) : Prop :=
  forall r xs ys, In (r, xs) (arraysOf a) -> In (r, ys) (arraysOf b) -> xs = ys.

Section ValueInduction.
Variable P : Value -> Prop.
Hypothesis P_undefined : P VUndefined.
Hypothesis P_null : P VNull.
Hypothesis P_bool : forall b, P (VBool b).
Hypothesis P_num : forall n, P (VNum n).
Hypothesis P_nan : P VNaN.
Hypothesis P_str : forall s, P (VStr s).
Hypothesis P_arr : forall r items, List.Forall P items -> P (VArr r items).
Hypothesis P_obj : forall r fields,
  List.Forall (fun e : string * Value => P (snd e)) fields -> P (VObj r fields).

Fixpoint Value_nested_ind (v : Value) : P v :=
  match v with
  | VUndefined => P_undefined
  | VNull => P_null
  | VBool b => P_bool b
  | VNum n => P_num n
  | VNaN => P_nan
  | VStr s => P_str s
  | VArr r items =>
      P_arr r items
        ((fix go (l : list Value) : List.Forall P l :=
            match l with
            | [] => @List.Forall_nil _ P
            | x :: rest => @List.Forall_cons _ P x rest (Value_nested_ind x) (go rest)
            end) items)
  | VObj r fields =>
      P_obj r fields
        ((fix go (l : list (string * Value))
            : List.Forall (fun e : string * Value => P (snd e)) l :=
            match l with
            | [] => @List.Forall_nil _ (fun e : string * Value => P (snd e))
            | e :: rest =>
                @List.Forall_cons _ (fun e : string * Value => P (snd e)) e rest
                  (match e as e0 return P (snd e0) with
                   | (_, v0) => Value_nested_ind v0
                   end)
                  (go rest)
            end) fields)
  end.
End ValueInduction.

Lemma set_has_str_In x l : set_has_str x l = true <-> In x l.
Proof.
  unfold set_has_str. rewrite existsb_exists. split.
  - intros (y & Hy & E). apply String.eqb_eq in E. subst. exact Hy.
  - intros H. exists x. split; [exact H|apply String.eqb_refl].
Qed.

Lemma distinctKeys_NoDup l : distinctKeys l = true -> List.NoDup l.
Proof.
  induction l as [|a l IH]; cbn [distinctKeys]; intros H; [constructor|].
  apply andb_true_iff in H as [Ha Hl]. constructor; [|auto].
  intros Hin. apply set_has_str_In in Hin. rewrite Hin in Ha. discriminate.
Qed.

Lemma assoc_distinct {A} key (a : A) (l : list (string * A)) :
  distinctKeys (map fst l) = true -> In (key, a) l -> assoc key l = Some a.
Proof.
  induction l as [|[k0 b] l IH]; cbn [map fst distinctKeys assoc]; intros Hd Hin;
    [destruct Hin|].
  apply andb_true_iff in Hd as [Hk Hl].
  destruct Hin as [E|Hin].
  - injection E as -> ->. rewrite String.eqb_refl. reflexivity.
  - destruct (String.eqb_spec key k0) as [->|_]; [|auto].
    exfalso. apply negb_true_iff in Hk.
    assert (Hx : set_has_str k0 (map fst l) = true).
    { apply set_has_str_In. apply (in_map fst) in Hin. exact Hin. }
    congruence.
Qed.

Lemma assoc_Some_In {A} key (a : A) (l : list (string * A)) :
  assoc key l = Some a -> In (key, a) l.
Proof.
  induction l as [|[k0 b] l IH]; cbn [assoc]; [discriminate|].
  destruct (String.eqb_spec key k0) as [->|_].
  - intros E. injection E as ->. left. reflexivity.
  - intros E. right. auto.
Qed.

Lemma deepEqualFields_spec fb l :
  deepEqualFields fb l = true <->
  forall key va, In (key, va) l ->
    exists vb, assoc key fb = Some vb /\ deepEqual va vb = true.
Proof.
  induction l as [|[key va] l IH]; cbn [deepEqualFields].
  - split; [intros _ ? ? []|reflexivity].
  - rewrite andb_true_iff, IH. split.
    + intros [H1 H2] key' va' [E|Hin]; [|auto].
      injection E as <- <-. destruct (assoc key fb) as [vb|]; [eauto|discriminate].
    + intros H. split.
      * destruct (H key va (or_introl eq_refl)) as (vb & -> & E). exact E.
      * intros key' va' Hin. apply H. right. exact Hin.
Qed.

Lemma deepEqualItems_spec xs ys :
  length xs = length ys ->
  (deepEqualItems xs ys = true <->
   List.Forall2 (fun x y => deepEqual x y = true) xs ys).
Proof.
  revert ys. induction xs as [|x xs IH]; intros [|y ys] Hlen; try discriminate;
    cbn [deepEqualItems].
  - split; [constructor|reflexivity].
  - injection Hlen as Hlen. rewrite andb_true_iff, (IH ys Hlen). split.
    + intros [H1 H2]. constructor; assumption.
    + intros H. inversion H; subst. auto.
Qed.

(** NaN is equal to nothing, itself included; an array that holds it is
    still equal to itself, being the same reference. *)
Example deepEqual_NaN :
  deepEqual VNaN VNaN = false /\
  deepEqual (VArr 0 [VNaN]) (VArr 1 [VNaN]) = false /\
  deepEqual (VArr 0 [VNaN]) (VArr 0 [VNaN]) = true.
Proof. repeat split. Qed.

(** Two objects whose own key [constructor] holds two distinct objects fail
    the constructor test; under any other key they are compared in depth. *)
Example deepEqual_constructor_key :
  deepEqual (VObj 0 [("constructor", VObj 1 [])]) (VObj 2 [("constructor", VObj 3 [])])
    = false /\
  deepEqual (VObj 0 [("k", VObj 1 [])]) (VObj 2 [("k", VObj 3 [])]) = true.
Proof. split; reflexivity. Qed.

Lemma content_scalar a b :
  objectFree a = true -> nanFree a = true ->
  (forall r xs, a <> VArr r xs) ->
  (strictEqual a b = true <-> content b = content a).
Proof.
  intros Ho Hn Harr.
  destruct a as [| |x|n| |s|r xs|r fa]; try discriminate;
    try (exfalso; eapply Harr; reflexivity);
    destruct b as [| |y|m| |t|r' ys|r' fb]; cbn [strictEqual content]; split; intros H;
    try discriminate H; try reflexivity.
  - apply Bool.eqb_prop in H. congruence.
  - injection H as ->. destruct x; reflexivity.
  - apply Z.eqb_eq in H. congruence.
  - injection H as ->. apply Z.eqb_refl.
  - apply String.eqb_eq in H. congruence.
  - injection H as ->. apply String.eqb_refl.
Qed.

Lemma assoc_content (fa fb : list (string * Value)) key :
  map (fun e : string * Value => (fst e, content (snd e))) fb =
  map (fun e : string * Value => (fst e, content (snd e))) fa ->
  match assoc key fa, assoc key fb with
  | Some va, Some vb => content vb = content va
  | None, None => True
  | _, _ => False
  end.
Proof.
  revert fb. induction fa as [|[ka va] fa IH]; intros [|[kb vb] fb] M; try discriminate M.
  - exact I.
  - cbn [map fst snd] in M. injection M as Ek Ev M. subst kb. cbn [assoc].
    destruct (String.eqb key ka); [exact Ev|apply IH; exact M].
Qed.

(** A structural copy is deep-equal to its original. *)
Lemma deepEqual_copy :
  forall v v',
    wellFormedValue v = true -> nanFree v = true -> scalarConstructors v = true ->
    content v' = content v -> deepEqual v v' = true.
Proof.
  induction v as [| |x|n| |s|ra items IH|ra fields IH] using Value_nested_ind;
    intros v' Hw Hn Hs E; try discriminate Hn.
  1-5: (apply deepEqual_strictEqual; apply content_scalar;
        [reflexivity|reflexivity|discriminate|exact E]).
  - destruct v' as [| | | | | |rb ys|]; try discriminate E.
    cbn [content] in E. injection E as E.
    cbn [wellFormedValue] in Hw. cbn [nanFree] in Hn. cbn [scalarConstructors] in Hs.
    rewrite deepEqual_VArr. apply orb_true_iff. right.
    assert (Hlen : length items = length ys).
    { apply (f_equal (@length Value)) in E. rewrite !length_map in E. auto. }
    rewrite Hlen, Nat.eqb_refl. cbn [andb]. clear Hlen.
    revert ys E. induction IH as [|x l Hx _ IHl]; intros [|y ys] E; try discriminate E;
      [reflexivity|].
    cbn [forallb] in Hw, Hn, Hs. apply andb_true_iff in Hw as [Hw1 Hw2].
    apply andb_true_iff in Hn as [Hn1 Hn2]. apply andb_true_iff in Hs as [Hs1 Hs2].
    cbn [map] in E. injection E as E1 E2. cbn [deepEqualItems].
    rewrite (Hx y Hw1 Hn1 Hs1 E1), (IHl Hw2 Hn2 Hs2 ys E2). reflexivity.
  - destruct v' as [| | | | | | |rb fb]; try discriminate E.
    cbn [content] in E. injection E as E.
    cbn [wellFormedValue] in Hw. cbn [nanFree] in Hn. cbn [scalarConstructors] in Hs.
    apply andb_true_iff in Hw as [Hd Hw]. apply andb_true_iff in Hs as [Hc Hs].
    rewrite forallb_forall in Hw, Hn, Hs. rewrite List.Forall_forall in IH.
    rewrite deepEqual_VObj. apply orb_true_iff. right.
    assert (Hlen : length fields = length fb).
    { apply (f_equal (@length (string * Value))) in E. rewrite !length_map in E. auto. }
    rewrite Hlen, Nat.eqb_refl, andb_true_r. apply andb_true_iff. split.
    + apply negb_true_iff. unfold constructorDiffers.
      pose proof (assoc_content fields fb "constructor" E) as A.
      destruct (assoc "constructor" fields) as [x|] eqn:Ex,
               (assoc "constructor" fb) as [y|] eqn:Ey; try contradiction; [|reflexivity].
      apply negb_false_iff. apply assoc_Some_In in Ex.
      apply (content_scalar x y).
      * destruct x; try reflexivity; discriminate Hc.
      * apply (Hn _ Ex).
      * intros r xs ->. discriminate Hc.
      * exact A.
    + apply deepEqualFields_spec. intros key va Hin.
      pose proof (assoc_content fields fb key E) as A.
      rewrite (assoc_distinct key va fields Hd Hin) in A.
      destruct (assoc key fb) as [vb|]; [|contradiction].
      exists vb. split; [reflexivity|].
      apply (IH (key, va) Hin vb); [apply (Hw _ Hin)|apply (Hn _ Hin)|apply (Hs _ Hin)|exact A].
Qed.

(** [deepEqual] holds between a value and itself, for every value but NaN:
    a scalar is [===] to itself, and an array or an object is the same
    reference as itself, whatever it contains.  It also holds between a
    value and any structural copy of it (same content, other arrays and
    objects), when the value contains no NaN, its objects have pairwise
    distinct keys, and none of them has an own key [constructor] that holds
    an array or an object. *)
Theorem deepEqual_reflexive (v : Value) :
  (v <> VNaN -> deepEqual v v = true) /\
  (wellFormedValue v = true -> nanFree v = true -> scalarConstructors v = true ->
   forall v', content v' = content v -> deepEqual v v' = true).
Proof.
  split.
  - intros Hn. apply deepEqual_strictEqual.
    destruct v as [| |x|n| |s|r xs|r fa]; cbn [strictEqual]; try reflexivity.
    + destruct x; reflexivity.
    + apply Z.eqb_refl.
    + contradiction.
    + apply String.eqb_refl.
    + apply Nat.eqb_refl.
    + apply Nat.eqb_refl.
  - intros Hw Hn Hs v' E. apply deepEqual_copy; assumption.
Qed.

Lemma deepEqual_reflexive_witness :
  deepEqual (VObj 1 [("a", VNum 1); ("b", VArr 2 [VStr "x"; VNaN])])
            (VObj 1 [("a", VNum 1); ("b", VArr 2 [VStr "x"; VNaN])]) = true /\
  deepEqual (VObj 1 [("a", VNum 1); ("b", VArr 2 [VStr "x"])])
            (VObj 3 [("a", VNum 1); ("b", VArr 4 [VStr "x"])]) = true.
Proof.
  split.
  - apply (proj1 (deepEqual_reflexive
                    (VObj 1 [("a", VNum 1); ("b", VArr 2 [VStr "x"; VNaN])]))).
    discriminate.
  - apply (proj2 (deepEqual_reflexive (VObj 1 [("a", VNum 1); ("b", VArr 2 [VStr "x"])])));
      reflexivity.
Defined.

Lemma deepEqual_true_sym :
  forall a b, wellFormedValue a = true -> wellFormedValue b = true ->
              deepEqual a b = true -> deepEqual b a = true.
Proof.
  induction a as [| |x|n| |s|ra items IH|ra fields IH] using Value_nested_ind;
    intros b Ha Hb H;
    (match type of H with
     | deepEqual ?v _ = true => destruct (strictEqual v b) eqn:Hs
     end;
     [apply deepEqual_strictEqual; rewrite strictEqual_sym; exact Hs|]);
    (destruct (deepEqual_not_strict _ b Hs H)
       as [(r & xs & r' & ys & Ea & Eb)|(r & fa & r' & fb & Ea & Eb)];
     try discriminate Ea; subst b).
  - injection Ea as <- <-.
    rewrite deepEqual_VArr in H. cbn [strictEqual] in Hs. rewrite Hs in H. cbn [orb] in H.
    rewrite deepEqual_VArr. apply orb_true_iff. right.
    apply andb_true_iff in H as [Hlen H].
    apply Nat.eqb_eq in Hlen. rewrite <- Hlen, Nat.eqb_refl. cbn [andb].
    cbn [wellFormedValue] in Ha, Hb. clear Hlen Hs.
    revert ys Ha Hb H. induction IH as [|x l Hx _ IHl]; intros [|y ys] Ha Hb H;
      try reflexivity.
    cbn [forallb] in Ha, Hb. apply andb_true_iff in Ha as [Ha1 Ha2].
    apply andb_true_iff in Hb as [Hb1 Hb2].
    cbn [deepEqualItems] in *. apply andb_true_iff in H as [H1 H2].
    rewrite (Hx y Ha1 Hb1 H1), (IHl ys Ha2 Hb2 H2). reflexivity.
  - injection Ea as <- <-.
    rewrite deepEqual_VObj in H. cbn [strictEqual] in Hs. rewrite Hs in H. cbn [orb] in H.
    rewrite deepEqual_VObj. apply orb_true_iff. right.
    apply andb_true_iff in H as [H0 H]. apply andb_true_iff in H0 as [Hc Hlen].
    apply Nat.eqb_eq in Hlen.
    rewrite constructorDiffers_sym, Hc, <- Hlen, Nat.eqb_refl. cbn [andb].
    cbn [wellFormedValue] in Ha, Hb.
    apply andb_true_iff in Ha as [Hda Hwa]. apply andb_true_iff in Hb as [Hdb Hwb].
    rewrite forallb_forall in Hwa, Hwb. rewrite List.Forall_forall in IH.
    pose proof (proj1 (deepEqualFields_spec fb fields) H) as Hab.
    apply deepEqualFields_spec. intros key vb Hin.
    assert (Hincl : incl (map fst fb) (map fst fields)).
    { apply List.NoDup_length_incl.
      - apply distinctKeys_NoDup, Hda.
      - rewrite !length_map. lia.
      - intros k0 Hk. apply in_map_iff in Hk as ([k1 va] & E & Hk). cbn in E. subst k1.
        destruct (Hab k0 va Hk) as (vb0 & Eb & _).
        apply assoc_Some_In in Eb. apply (in_map fst) in Eb. exact Eb. }
    assert (Hk : In key (map fst fields)).
    { apply Hincl. apply (in_map fst) in Hin. exact Hin. }
    apply in_map_iff in Hk as ([k1 va] & E & Hk). cbn in E. subst k1.
    exists va. split; [apply assoc_distinct; assumption|].
    destruct (Hab key va Hk) as (vb0 & Eb & Hd).
    rewrite (assoc_distinct key vb fb Hdb Hin) in Eb. injection Eb as <-.
    apply (IH (key, va) Hk vb); [apply (Hwa (key, va) Hk)|apply (Hwb (key, vb) Hin)|exact Hd].
Qed.

(** [deepEqual] is symmetric on values whose objects have pairwise distinct
    keys, whatever the order of the keys of the objects on either side. *)
Theorem deepEqual_symmetric (a b : Value) :
  wellFormedValue a = true -> wellFormedValue b = true ->
  deepEqual a b = deepEqual b a.
Proof.
  intros Ha Hb.
  destruct (deepEqual a b) eqn:Eab, (deepEqual b a) eqn:Eba; try reflexivity.
  - rewrite (deepEqual_true_sym a b Ha Hb Eab) in Eba. discriminate.
  - rewrite (deepEqual_true_sym b a Hb Ha Eba) in Eab. discriminate.
Qed.

Lemma deepEqual_symmetric_witness :
  deepEqual (VObj 1 [("a", VNum 1); ("b", VNull)]) (VObj 2 [("b", VNull); ("a", VNum 1)]) =
  deepEqual (VObj 2 [("b", VNull); ("a", VNum 1)]) (VObj 1 [("a", VNum 1); ("b", VNull)]).
Proof.
  apply (deepEqual_symmetric (VObj 1 [("a", VNum 1); ("b", VNull)])
           (VObj 2 [("b", VNull); ("a", VNum 1)])); reflexivity.
Defined.

(** On values that contain no object and no NaN (scalars other than NaN and
    nested arrays of them), [deepEqual] decides equality of content:
    [deepEqual a b] holds exactly when [b] is [a] up to the references of
    the arrays, that is the same scalar, or an array of the same length
    with the same content item by item. *)
Theorem deepEqual_decides_equality_without_objects (a b : Value) :
  objectFree a = true -> nanFree a = true -> coherent a b ->
  (deepEqual a b = true <-> content b = content a).
Proof.
  revert b.
  induction a as [| |x|n| |s|ra items IH|ra fields IH] using Value_nested_ind;
    intros b Ho Hn Hco; try discriminate Ho; try discriminate Hn.
  1-5: (split;
        [intros H;
         match goal with
         | |- content _ = content ?v =>
             destruct (strictEqual v b) eqn:Hs;
               [apply (content_scalar v b); [reflexivity|reflexivity|discriminate|exact Hs]
               |destruct (deepEqual_not_strict v b Hs H)
                  as [(r & xs & r' & ys & Ea & _)|(r & fa & r' & fb & Ea & _)];
                discriminate Ea]
         end
        |intros E; apply deepEqual_strictEqual; apply content_scalar;
           [reflexivity|reflexivity|discriminate|exact E]]).
  cbn [objectFree] in Ho. cbn [nanFree] in Hn.
  assert (Hitems : forall ys,
            (forall r xs0 ys0, In (r, xs0) (flat_map arraysOf items) ->
                               In (r, ys0) (flat_map arraysOf ys) -> xs0 = ys0) ->
            (length items = length ys /\ deepEqualItems items ys = true <->
             map content ys = map content items)).
  { clear Hco. induction IH as [|x l Hx _ IHl]; intros [|y ys] Hco.
    - split; [reflexivity|split; reflexivity].
    - split; [intros [E _]; discriminate E|discriminate].
    - split; [intros [E _]; discriminate E|discriminate].
    - cbn [forallb] in Ho, Hn. apply andb_true_iff in Ho as [Ho1 Ho2].
      apply andb_true_iff in Hn as [Hn1 Hn2].
      cbn [flat_map] in Hco.
      assert (Hco1 : coherent x y).
      { intros r xs0 ys0 Hr Hr'. apply (Hco r); apply in_or_app; left; assumption. }
      assert (Hco2 : forall r xs0 ys0, In (r, xs0) (flat_map arraysOf l) ->
                                       In (r, ys0) (flat_map arraysOf ys) -> xs0 = ys0).
      { intros r xs0 ys0 Hr Hr'. apply (Hco r); apply in_or_app; right; assumption. }
      specialize (Hx y Ho1 Hn1 Hco1). specialize (IHl Ho2 Hn2 ys Hco2).
      cbn [map deepEqualItems length]. rewrite andb_true_iff. split.
      + intros (Hlen & H1 & H2). injection Hlen as Hlen. f_equal.
        * apply Hx, H1.
        * apply IHl. split; assumption.
      + intros E. injection E as E1 E2. apply Hx in E1. apply IHl in E2 as [Hlen H2].
        rewrite Hlen. auto. }
  split.
  - intros H. destruct (strictEqual (VArr ra items) b) eqn:Hs.
    + destruct b as [| | | | | |rb ys|]; try discriminate Hs.
      cbn [strictEqual] in Hs. apply Nat.eqb_eq in Hs. subst rb.
      rewrite (Hco ra items ys); [reflexivity|left; reflexivity|left; reflexivity].
    + destruct (deepEqual_not_strict _ b Hs H)
        as [(r & xs & r' & ys & Ea & ->)|(r & fa & r' & fb & Ea & _)]; [|discriminate Ea].
      rewrite deepEqual_VArr in H. cbn [strictEqual] in Hs. rewrite Hs in H. cbn [orb] in H.
      apply andb_true_iff in H as [Hlen H]. apply Nat.eqb_eq in Hlen.
      cbn [content]. f_equal. apply (Hitems ys); [|split; assumption].
      intros r0 xs0 ys0 Hr Hr'. apply (Hco r0); right; assumption.
  - intros E. destruct b as [| | | | | |rb ys|]; try discriminate E.
    cbn [content] in E. injection E as E.
    apply (Hitems ys) in E as [A B].
    + rewrite deepEqual_VArr, A, B, Nat.eqb_refl. apply orb_true_r.
    + intros r0 xs0 ys0 Hr Hr'. apply (Hco r0); right; assumption.
Qed.

Lemma deepEqual_decides_equality_without_objects_witness :
  deepEqual (VArr 0 [VNum 1; VArr 1 [VStr "x"]]) (VArr 2 [VNum 1; VArr 1 [VStr "x"]]) = true <->
  content (VArr 2 [VNum 1; VArr 1 [VStr "x"]]) = content (VArr 0 [VNum 1; VArr 1 [VStr "x"]]).
Proof.
  apply (deepEqual_decides_equality_without_objects
           (VArr 0 [VNum 1; VArr 1 [VStr "x"]]) (VArr 2 [VNum 1; VArr 1 [VStr "x"]]));
    [reflexivity|reflexivity|].
  intros r xs ys Ha Hb. cbn in Ha, Hb.
  destruct Ha as [Ha|[Ha|[]]]; destruct Hb as [Hb|[Hb|[]]]; congruence.
Defined.

(** ** The dependency graph and the cycle search (dependency_graph.ts) *)

(** [b] is in the consumer set of [a]. *)
Definition edge (graph : list (string * list string)) (a b : string) : Prop :=
  exists s, assoc a graph = Some s /\ In b s.

(** Every node of the list has an edge to the next one. *)
Fixpoint chain (graph : list (string * list string)) (l : list string) : Prop :=
  match l with
  | [] => True
  | a :: rest =>
      match rest with
      | [] => True
      | b :: _ => edge graph a b /\ chain graph rest
      end
  end.

Lemma chain_suffix graph pre l : chain graph (pre ++ l) -> chain graph l.
Proof.
  induction pre as [|a pre IH]; [auto|]. cbn [app chain].
  destruct (pre ++ l) as [|b rest] eqn:E.
  - destruct pre; [|discriminate]. cbn in E. subst l. intros _. exact I.
  - intros [_ H]. auto.
Qed.

Lemma chain_snoc graph l a b :
  chain graph (l ++ [a]) -> edge graph a b -> chain graph ((l ++ [a]) ++ [b]).
Proof.
  intros H Hab. induction l as [|x l IH].
  - cbn. auto.
  - cbn [app] in *. cbn [chain] in *.
    destruct (l ++ [a]) as [|y rest] eqn:E; [destruct l; discriminate|].
    cbn [app]. destruct H as [Hxy H]. split; [exact Hxy|]. apply IH. exact H.
Qed.

Lemma sliceFromLast_spec next stack :
  set_has_str next stack = true ->
  exists pre suf, stack = pre ++ next :: suf /\ sliceFromLast next stack = next :: suf.
Proof.
  induction stack as [|x rest IH]; [discriminate|]. intros H. cbn [sliceFromLast].
  destruct (set_has_str next rest) eqn:Er.
  - destruct (IH eq_refl) as (pre & suf & E & Es).
    exists (x :: pre), suf. split; [rewrite E; reflexivity|exact Es].
  - unfold set_has_str in H, Er. cbn [existsb] in H. rewrite Er, orb_false_r in H.
    rewrite H. apply String.eqb_eq in H. subst x.
    exists [], rest. split; reflexivity.
Qed.

Lemma suffix_last {A} (l1 pre l2 : list A) a :
  l1 ++ [a] = pre ++ l2 -> l2 <> [] -> exists l2', l2 = l2' ++ [a].
Proof.
  intros E Hne. destruct (exists_last Hne) as (l2' & b & ->).
  rewrite app_assoc in E. apply app_inj_tail in E as [_ ->]. eauto.
Qed.

Lemma dfs_sound graph :
  forall fuel node visited stack cycle visited',
    chain graph (stack ++ [node]) ->
    dfs fuel graph node visited stack = Some (Some cycle, visited') ->
    exists x mid, cycle = x :: mid ++ [x] /\ chain graph cycle.
Proof.
  induction fuel as [|fuel IH]; intros node visited stack cycle visited' Hch H;
    [discriminate|].
  cbn [dfs] in H.
  assert (Hedge : forall n, In n (match assoc node graph with Some s => s | None => [] end) ->
                            edge graph node n).
  { intros n Hn. destruct (assoc node graph) as [s|] eqn:Ea; [|destruct Hn].
    exists s. auto. }
  revert Hedge H. generalize (set_add_str node visited) as vis.
  generalize (match assoc node graph with Some s => s | None => [] end) as neighbors.
  induction neighbors as [|next rest IHn]; intros vis Hedge H; [discriminate|].
  destruct (set_has_str next vis) eqn:Ev; cbn [negb] in H.
  - destruct (set_has_str next (stack ++ [node])) eqn:Es.
    + injection H as <- <-.
      destruct (sliceFromLast_spec next _ Es) as (pre & suf & E & Esl).
      rewrite Esl. exists next, suf. split; [reflexivity|].
      destruct (suffix_last stack pre (next :: suf) node E) as (l2 & E2); [discriminate|].
      rewrite E2. apply chain_snoc; [|apply Hedge; left; reflexivity].
      rewrite <- E2. apply (chain_suffix graph pre). rewrite <- E. exact Hch.
    + apply (IHn vis); [intros n Hn; apply Hedge; right; exact Hn|exact H].
  - destruct (dfs fuel graph next vis (stack ++ [node])) as [[[c|] vis']|] eqn:Ed;
      [| |discriminate].
    + injection H as <- <-. eapply IH; [|exact Ed].
      apply chain_snoc; [exact Hch|apply Hedge; left; reflexivity].
    + apply (IHn vis'); [intros n Hn; apply Hedge; right; exact Hn|exact H].
Qed.

(** [detectCycleFrom] always returns, and a path it returns is a cycle of
    the graph: it ends where it starts and follows an edge at every step. *)
Theorem detectCycleFrom_returns_a_cycle
    (graph : list (string * list string)) (startId : string) :
  match detectCycleFrom graph startId with
  | Some (Some cycle) => exists x mid, cycle = x :: mid ++ [x] /\ chain graph cycle
  | Some None => True
  | None => False
  end.
Proof.
  destruct (detectCycleFrom_total graph startId) as (r & E). rewrite E.
  destruct r as [cycle|]; [|exact I].
  unfold detectCycleFrom in E.
  destruct (dfs (S (length graph)) graph startId [] []) as [[r v]|] eqn:Ed; [|discriminate].
  injection E as ->. eapply dfs_sound; [|exact Ed]. exact I.
Qed.

Lemma set_has_str_add_inv x n l :
  set_has_str x (set_add_str n l) = true -> x = n \/ set_has_str x l = true.
Proof.
  unfold set_add_str. destruct (set_has_str n l); [auto|].
  unfold set_has_str. rewrite existsb_app. cbn [existsb]. rewrite orb_false_r.
  intros H. apply orb_true_iff in H as [H|H]; [auto|].
  apply String.eqb_eq in H. auto.
Qed.

Lemma set_has_str_false x l : set_has_str x l = false -> ~ In x l.
Proof. intros H Hin. apply set_has_str_In in Hin. congruence. Qed.

(** When the search below [node] finds nothing, whatever it visited has all
    its successors visited, and none of them on the stack. *)
Lemma dfs_closed graph :
  forall fuel node visited stack visited',
    set_has_str node visited = false ->
    (forall x, In x stack -> set_has_str x visited = true) ->
    dfs fuel graph node visited stack = Some (None, visited') ->
    (forall x, set_has_str x visited = true -> set_has_str x visited' = true) /\
    set_has_str node visited' = true /\
    (forall u w, set_has_str u visited' = true -> set_has_str u visited = false ->
                 edge graph u w ->
                 set_has_str w visited' = true /\ ~ In w (stack ++ [node])).
Proof.
  induction fuel as [|fuel IH]; intros node visited stack visited' Hnode Hstack H;
    [discriminate|].
  cbn [dfs] in H.
  set (vis1 := set_add_str node visited) in *.
  set (stack1 := stack ++ [node]) in *.
  set (neighbors := match assoc node graph with Some s => s | None => [] end) in *.
  assert (Hloop : forall ns vis,
            (forall x, In x stack1 -> set_has_str x vis = true) ->
            (fix loop (ns : list string) (visited : list string) {struct ns} :=
               match ns with
               | [] => Some (None, visited)
               | next :: rest =>
                   if negb (set_has_str next visited) then
                     match dfs fuel graph next visited stack1 with
                     | None => None
                     | Some (Some cycle, visited') => Some (Some cycle, visited')
                     | Some (None, visited') => loop rest visited'
                     end
                   else if set_has_str next stack1 then
                     Some (Some (sliceFromLast next stack1 ++ [next]), visited)
                   else loop rest visited
               end) ns vis = Some (None, visited') ->
            (forall x, set_has_str x vis = true -> set_has_str x visited' = true) /\
            (forall n, In n ns -> set_has_str n visited' = true /\ ~ In n stack1) /\
            (forall u w, set_has_str u visited' = true -> set_has_str u vis = false ->
                         edge graph u w ->
                         set_has_str w visited' = true /\ ~ In w stack1)).
  { clear H. induction ns as [|next rest IHn]; intros vis Hst H.
    - injection H as <-. split; [auto|]. split; [intros n []|].
      intros u w Hu Hu'. congruence.
    - destruct (set_has_str next vis) eqn:Ev; cbn [negb] in H.
      + destruct (set_has_str next stack1) eqn:Es; [discriminate|].
        destruct (IHn vis Hst H) as (L1 & L2 & L3).
        split; [exact L1|]. split; [|exact L3].
        intros n [<-|Hn]; [|auto]. split; [auto|apply set_has_str_false, Es].
      + destruct (dfs fuel graph next vis stack1) as [[[c|] vis']|] eqn:Ed;
          try discriminate.
        destruct (IH next vis stack1 vis' Ev Hst Ed) as (M1 & M2 & M3).
        destruct (IHn vis' (fun x Hx => M1 x (Hst x Hx)) H) as (L1 & L2 & L3).
        split; [auto|]. split.
        * intros n [<-|Hn]; [|auto]. split; [auto|].
          intros Hin. rewrite (Hst _ Hin) in Ev. discriminate.
        * intros u w Hu Hu' Huw. destruct (set_has_str u vis') eqn:Eu.
          -- destruct (M3 u w Eu Hu' Huw) as [Hw Hnin].
             split; [auto|]. intros Hin. apply Hnin. apply in_or_app. left. exact Hin.
          -- apply (L3 u w Hu Eu Huw). }
  assert (Hst1 : forall x, In x stack1 -> set_has_str x vis1 = true).
  { intros x Hx. apply in_app_or in Hx as [Hx|[<-|[]]].
    - apply set_has_str_add_mono, Hstack, Hx.
    - apply set_has_str_add. }
  destruct (Hloop neighbors vis1 Hst1 H) as (L1 & L2 & L3).
  split; [intros x Hx; apply L1, set_has_str_add_mono, Hx|].
  split; [apply L1, set_has_str_add|].
  intros u w Hu Hu' Huw. destruct (set_has_str u vis1) eqn:Eu.
  - apply set_has_str_add_inv in Eu as [->|Eu]; [|congruence].
    apply L2. destruct Huw as (s & Ea & Hin). unfold neighbors. rewrite Ea. exact Hin.
  - apply (L3 u w Hu Eu Huw).
Qed.

(** When [detectCycleFrom] returns null, the nodes it visited contain the
    start node, are closed under the edges of the graph, and none of them
    has an edge to the start node. *)
Lemma detectCycleFrom_null_closed (graph : list (string * list string)) (startId : string) :
  detectCycleFrom graph startId = Some None ->
  exists visited,
    set_has_str startId visited = true /\
    forall u w, set_has_str u visited = true -> edge graph u w ->
                set_has_str w visited = true /\ w <> startId.
Proof.
  unfold detectCycleFrom.
  destruct (dfs (S (length graph)) graph startId [] []) as [[r v]|] eqn:Ed; [|discriminate].
  intros E. injection E as ->.
  destruct (dfs_closed graph (S (length graph)) startId [] [] v eq_refl
              (fun x (H : In x []) => match H with end) Ed)
    as (_ & Hs & Hc).
  exists v. split; [exact Hs|]. intros u w Hu Huw.
  destruct (Hc u w Hu eq_refl Huw) as [Hw Hn]. split; [exact Hw|].
  intros ->. apply Hn. left. reflexivity.
Qed.

(** [detectCycleFrom] misses no cycle through the start node: when it
    returns null, no path of the graph leads from [startId] back to
    [startId]. *)
Theorem detectCycleFrom_null_means_no_cycle
    (graph : list (string * list string)) (startId : string) :
  detectCycleFrom graph startId = Some None ->
  forall path, ~ chain graph (startId :: path ++ [startId]).
Proof.
  intros E. destruct (detectCycleFrom_null_closed graph startId E) as (v & Hs & Hc).
  assert (Hgen : forall l a, set_has_str a v = true ->
                             ~ chain graph (a :: l ++ [startId])).
  { induction l as [|b l IHl]; intros a Ha Hch.
    - cbn in Hch. destruct Hch as [Hab _].
      destruct (Hc a startId Ha Hab) as [_ Hn]. apply Hn. reflexivity.
    - cbn [app chain] in Hch. destruct Hch as [Hab Hch].
      destruct (Hc a b Ha Hab) as [Hb _]. exact (IHl b Hb Hch). }
  intros path. apply Hgen. exact Hs.
Qed.

Lemma detectCycleFrom_null_means_no_cycle_witness :
  detectCycleFrom [("A", ["B"]); ("B", [])] "A" = Some None /\
  forall path, ~ chain [("A", ["B"]); ("B", [])] ("A" :: path ++ ["A"]).
Proof.
  split; [vm_compute; reflexivity|].
  apply (detectCycleFrom_null_means_no_cycle [("A", ["B"]); ("B", [])] "A").
  vm_compute. reflexivity.
Defined.

(** The producer that [buildDependencyGraph] records for an output id: the
    last shape of the list that declares it. *)
Fixpoint lastProducer (out : string) (shapes : list ComputationShape) : option string :=
  match shapes with
  | [] => None
  | shape :: rest =>
      match lastProducer out rest with
      | Some p => Some p
      | None => if set_has_str out (shape_outputs shape) then Some (shape_id shape) else None
      end
  end.

Definition producerByOutput (shapeList : list ComputationShape) : list (string * string) :=
  fold_left (fun m shape =>
               fold_left (fun m out => omap_set out (shape_id shape) m)
                         (shape_outputs shape) m)
            shapeList [].

Lemma producerByOutput_outputs out (pid : string) outs (m : list (string * string)) :
  assoc out (fold_left (fun m o => omap_set o pid m) outs m) =
  if set_has_str out outs then Some pid else assoc out m.
Proof.
  revert m. induction outs as [|o outs IH]; intros m; [reflexivity|].
  cbn [fold_left]. rewrite IH. unfold set_has_str. cbn [existsb].
  destruct (existsb (String.eqb out) outs); [rewrite orb_true_r; reflexivity|].
  rewrite orb_false_r. destruct (String.eqb_spec out o) as [->|Hne].
  - apply assoc_omap_set_eq.
  - apply assoc_omap_set_ne. exact Hne.
Qed.

Lemma producerByOutput_spec out shapes :
  assoc out (producerByOutput shapes) = lastProducer out shapes.
Proof.
  unfold producerByOutput.
  assert (H : forall m,
            assoc out (fold_left (fun m shape =>
                                    fold_left (fun m o => omap_set o (shape_id shape) m)
                                              (shape_outputs shape) m) shapes m) =
            match lastProducer out shapes with Some p => Some p | None => assoc out m end).
  { induction shapes as [|shape rest IH]; intros m; [reflexivity|].
    cbn [fold_left lastProducer]. rewrite IH.
    destruct (lastProducer out rest); [reflexivity|].
    rewrite producerByOutput_outputs.
    destruct (set_has_str out (shape_outputs shape)); reflexivity. }
  rewrite H. destruct (lastProducer out shapes); reflexivity.
Qed.

(** One [graph.get(producer).add(consumer.id)] of the third loop. *)
Definition addConsumer (pbo : list (string * string)) (consumerId : string)
    (g : list (string * list string)) (input : string) : list (string * list string) :=
  match assoc input pbo with
  | None => g
  | Some producer =>
      if String.eqb producer "" then g
      else
        let g1 := if omap_has producer g then g else omap_set producer [] g in
        match assoc producer g1 with
        | Some consumers => omap_set producer (set_add_str consumerId consumers) g1
        | None => g1
        end
  end.

Lemma set_add_str_In x n l : In x (set_add_str n l) <-> x = n \/ In x l.
Proof.
  unfold set_add_str. destruct (set_has_str n l) eqn:E.
  - split; [auto|]. intros [->|H]; [apply set_has_str_In, E|exact H].
  - rewrite in_app_iff. cbn. split; [intros [H|[H|[]]]; auto|intros [H|H]; auto].
Qed.

Lemma addConsumer_edge pbo cid g input a b :
  edge (addConsumer pbo cid g input) a b <->
  edge g a b \/ ((assoc input pbo = Some a /\ a <> "") /\ b = cid).
Proof.
  unfold addConsumer. destruct (assoc input pbo) as [p|] eqn:Ep.
  2:{ split; [auto|]. intros [H|[[H _] _]]; [exact H|discriminate]. }
  destruct (String.eqb_spec p "") as [Hp|Hp].
  { split; [auto|]. intros [H|[[H Hn] _]]; [exact H|]. congruence. }
  set (g1 := if omap_has p g then g else omap_set p [] g).
  assert (H1 : forall x y, edge g1 x y <-> edge g x y).
  { intros x y. unfold g1, omap_has. destruct (assoc p g) as [s|] eqn:Eg; cbn [isSome];
      [reflexivity|].
    unfold edge. destruct (String.eqb_spec x p) as [->|Hne].
    - rewrite assoc_omap_set_eq, Eg. split; intros (s & E & Hin); [|discriminate].
      injection E as <-. destruct Hin.
    - rewrite assoc_omap_set_ne by exact Hne. reflexivity. }
  assert (H2 : exists s, assoc p g1 = Some s).
  { unfold g1, omap_has. destruct (assoc p g) as [s|] eqn:Eg; cbn [isSome]; [eauto|].
    rewrite assoc_omap_set_eq. eauto. }
  destruct H2 as (s & Es). rewrite Es. rewrite <- H1. unfold edge.
  destruct (String.eqb_spec a p) as [->|Hne].
  - rewrite assoc_omap_set_eq, Es. split.
    + intros (s' & E & Hin). injection E as <-. apply set_add_str_In in Hin as [->|Hin].
      * right. auto.
      * left. eauto.
    + intros [(s' & E & Hin)|[_ ->]].
      * injection E as <-. eexists. split; [reflexivity|]. apply set_add_str_In. auto.
      * eexists. split; [reflexivity|]. apply set_add_str_In. auto.
  - rewrite assoc_omap_set_ne by exact Hne. split; [auto|].
    intros [H|[[E _] _]]; [exact H|]. congruence.
Qed.

Lemma buildDependencyGraph_unfold shapes :
  buildDependencyGraph shapes =
  fold_left (fun g consumer =>
               fold_left (addConsumer (producerByOutput shapes) (shape_id consumer))
                         (shape_inputs consumer) g)
            shapes
            (fold_left (fun g shape =>
                          if omap_has (shape_id shape) g then g
                          else omap_set (shape_id shape) [] g)
                       shapes []).
Proof. reflexivity. Qed.

Lemma graph0_no_edge shapes a b :
  ~ edge (fold_left (fun g shape =>
                       if omap_has (shape_id shape) g then g
                       else omap_set (shape_id shape) [] g)
                    shapes []) a b.
Proof.
  apply (fold_left_inv (fun g => ~ edge g a b)).
  - intros (s & E & _). discriminate.
  - intros shape g _ Hg. unfold omap_has. destruct (assoc (shape_id shape) g) eqn:Eg;
      cbn [isSome]; [exact Hg|].
    intros (s & E & Hin). destruct (String.eqb_spec a (shape_id shape)) as [->|Hne].
    + rewrite assoc_omap_set_eq in E. injection E as <-. destruct Hin.
    + rewrite assoc_omap_set_ne in E by exact Hne. apply Hg. exists s. auto.
Qed.

(** The edges of [buildDependencyGraph], through the producer map of its
    first pass. *)
Lemma buildDependencyGraph_edge_by_map (shapes : list ComputationShape) (p c : string) :
  edge (buildDependencyGraph shapes) p c <->
  exists consumer input,
    In consumer shapes /\ shape_id consumer = c /\
    In input (shape_inputs consumer) /\
    (assoc input (producerByOutput shapes) = Some p /\ p <> "").
Proof.
  rewrite buildDependencyGraph_unfold.
  set (pbo := producerByOutput shapes).
  assert (Hin : forall cid inputs g,
            edge (fold_left (addConsumer pbo cid) inputs g) p c <->
            edge g p c \/ (c = cid /\ exists input, In input inputs /\
                                             (assoc input pbo = Some p /\ p <> ""))).
  { intros cid inputs. induction inputs as [|input inputs IH]; intros g.
    - cbn. split; [auto|]. intros [H|(_ & i & [] & _)]. exact H.
    - cbn [fold_left]. rewrite IH, addConsumer_edge. split.
      + intros [[H|[E ->]]|(-> & i & Hi & E)]; [auto| |].
        * right. split; [reflexivity|]. exists input. split; [left; reflexivity|exact E].
        * right. split; [reflexivity|]. exists i. split; [right; exact Hi|exact E].
      + intros [H|(-> & i & [<-|Hi] & E)]; [auto| |].
        * left. right. auto.
        * right. split; [reflexivity|]. eauto. }
  assert (Hout : forall l g,
            edge (fold_left (fun g consumer =>
                               fold_left (addConsumer pbo (shape_id consumer))
                                         (shape_inputs consumer) g) l g) p c <->
            edge g p c \/
            exists consumer input, In consumer l /\ shape_id consumer = c /\
                                   In input (shape_inputs consumer) /\
                                   (assoc input pbo = Some p /\ p <> "")).
  { induction l as [|consumer l IH]; intros g.
    - cbn. split; [auto|]. intros [H|(x & _ & [] & _)]. exact H.
    - cbn [fold_left]. rewrite IH, Hin. split.
      + intros [[H|(-> & i & Hi & E)]|(x & i & Hx & Ex & Hi & E)]; [auto| |].
        * right. exists consumer, i. split; [left; reflexivity|auto].
        * right. exists x, i. split; [right; exact Hx|auto].
      + intros [H|(x & i & [<-|Hx] & Ex & Hi & E)]; [auto| |].
        * left. right. split; [auto|]. eauto.
        * right. exists x, i. auto. }
  rewrite Hout. split.
  - intros [H|(x & i & Hx & Ex & Hi & E)]; [destruct (graph0_no_edge shapes p c H)|].
    exists x, i. auto.
  - intros (x & i & Hx & Ex & Hi & E). right. exists x, i. auto.
Qed.

(** [buildDependencyGraph] has an edge from [p] to [c] exactly when [p] is
    not the empty id and a shape with id [c] lists an input whose producer,
    the last shape that declares it as an output, is [p].  A producer with
    the empty id gets no edge: [if (!producer) continue;]. *)
Theorem buildDependencyGraph_edges
    (shapes : list ComputationShape) (p c : string) :
  edge (buildDependencyGraph shapes) p c <->
  p <> "" /\
  exists consumer input,
    In consumer shapes /\ shape_id consumer = c /\
    In input (shape_inputs consumer) /\ lastProducer input shapes = Some p.
Proof.
  rewrite buildDependencyGraph_edge_by_map. split.
  - intros (x & i & Hx & Ex & Hi & E & Hp). split; [exact Hp|]. exists x, i.
    rewrite producerByOutput_spec in E. auto.
  - intros (Hp & x & i & Hx & Ex & Hi & E). exists x, i.
    rewrite producerByOutput_spec. auto.
Qed.

Lemma lastProducer_app_last out shapes shape :
  set_has_str out (shape_outputs shape) = true ->
  lastProducer out (shapes ++ [shape]) = Some (shape_id shape).
Proof.
  intros H. induction shapes as [|s rest IH]; cbn [app lastProducer].
  - rewrite H. reflexivity.
  - rewrite IH. reflexivity.
Qed.

(** A producer with the empty id gets no edge, so a shape with the empty id
    that reads its own output closes no cycle. *)
Example empty_id_self_dependency :
  let shape := {| shape_id := ""; shape_inputs := ["a"]; shape_outputs := ["a"] |} in
  buildDependencyGraph [shape] = [("", [])] /\
  detectCycleFrom (buildDependencyGraph [shape]) "" = Some None.
Proof. vm_compute. split; reflexivity. Qed.

(** A definition whose id is not the empty string and that lists one of its
    own outputs among its inputs is always reported as circular by
    [detectCircularDependencyIfAdded]. *)
Theorem self_dependency_is_circular
    (definition : ComputationDefinition) (k : Kernel) (x : string) :
  d_id definition <> "" ->
  In x (d_inputs definition) -> In x (d_outputs definition) ->
  exists cyclePath, detectCircularDependencyIfAdded definition k = Some (Some cyclePath).
Proof.
  intros Hid Hi Ho.
  destruct (detectCircularDependencyIfAdded_total definition k) as (r & E).
  destruct r as [path|]; [eauto|]. exfalso.
  unfold detectCircularDependencyIfAdded in E.
  set (new := {| shape_id := d_id definition; shape_inputs := d_inputs definition;
                 shape_outputs := d_outputs definition |}) in *.
  rewrite app_assoc in E.
  set (old := shapesOf k (k_computations k) (d_id definition) ++
              shapesOf k (k_problem_computations k) (d_id definition)) in *.
  destruct (detectCycleFrom_null_closed _ _ E) as (v & Hs & Hc).
  destruct (Hc (d_id definition) (d_id definition) Hs) as [_ Hn]; [|apply Hn; reflexivity].
  apply buildDependencyGraph_edge_by_map. exists new, x.
  split; [apply in_or_app; right; left; reflexivity|].
  split; [reflexivity|]. split; [exact Hi|]. split; [|exact Hid].
  rewrite producerByOutput_spec.
  apply (lastProducer_app_last x old new). apply set_has_str_In. exact Ho.
Qed.

Definition defSelf : ComputationDefinition :=
  {| d_id := "S"; d_inputs := ["x"; "s"]; d_outputs := ["s"]; d_body := 9%nat |}.

Lemma self_dependency_is_circular_witness :
  exists cyclePath, detectCircularDependencyIfAdded defSelf chainKernel = Some (Some cyclePath).
Proof.
  apply (self_dependency_is_circular defSelf chainKernel "s").
  - discriminate.
  - vm_compute. auto.
  - vm_compute. auto.
Defined.

(** ** Validation of a definition (module_definition.ts) *)

Lemma set_add_str_NoDup x l : List.NoDup l -> List.NoDup (set_add_str x l).
Proof.
  intros H. unfold set_add_str. destruct (set_has_str x l) eqn:E; [exact H|].
  apply List.NoDup_app; [exact H|repeat constructor; auto|].
  intros a Ha [<-|[]]. exact (set_has_str_false _ _ E Ha).
Qed.

(** A loop that collects, in a [Set], the elements that pass a test. *)
Lemma collect_spec (test : string -> bool) (l : list string) :
  forall acc x,
    In x (fold_left (fun s i => if test i then set_add_str i s else s) l acc) <->
    In x acc \/ (In x l /\ test x = true).
Proof.
  induction l as [|i l IH]; intros acc x; cbn [fold_left].
  - split; [auto|]. intros [H|[[] _]]. exact H.
  - rewrite IH. destruct (test i) eqn:Et.
    + rewrite set_add_str_In. split.
      * intros [[->|H]|[H1 H2]]; [right; split; [left; reflexivity|exact Et]|auto|].
        right. split; [right; exact H1|exact H2].
      * intros [H|[[<-|H1] H2]]; [auto|auto|]. right. auto.
    + split.
      * intros [H|[H1 H2]]; [auto|]. right. split; [right; exact H1|exact H2].
      * intros [H|[[<-|H1] H2]]; [auto|congruence|]. right. auto.
Qed.

Lemma collect_NoDup (test : string -> bool) (l : list string) :
  forall acc, List.NoDup acc ->
              List.NoDup (fold_left (fun s i => if test i then set_add_str i s else s) l acc).
Proof.
  induction l as [|i l IH]; intros acc H; [exact H|]. cbn [fold_left]. apply IH.
  destruct (test i); [apply set_add_str_NoDup, H|exact H].
Qed.

(** [getMissingInputs] returns, each once, the declared inputs that are in
    neither variable table, and [getProblemInputs] those that are in the
    problem table. *)
Theorem getMissingInputs_getProblemInputs_spec
    (definition : ComputationDefinition) (k : Kernel) :
  (forall x, In x (getMissingInputs definition k) <->
             In x (d_inputs definition) /\
             k_variables k !! x = None /\ k_problem_variables k !! x = None) /\
  (forall x, In x (getProblemInputs definition k) <->
             In x (d_inputs definition) /\ k_problem_variables k !! x <> None) /\
  List.NoDup (getMissingInputs definition k) /\
  List.NoDup (getProblemInputs definition k).
Proof.
  unfold getMissingInputs, getProblemInputs. split; [|split; [|split]].
  - intros x. rewrite (collect_spec (fun i => negb (isSome (k_variables k !! i)) &&
                                               negb (isSome (k_problem_variables k !! i)))).
    cbn [In]. destruct (k_variables k !! x), (k_problem_variables k !! x); cbn;
      intuition congruence.
  - intros x. rewrite (collect_spec (fun i => isSome (k_problem_variables k !! i))).
    cbn [In]. destruct (k_problem_variables k !! x); cbn; intuition congruence.
  - apply (collect_NoDup (fun i => negb (isSome (k_variables k !! i)) &&
                                   negb (isSome (k_problem_variables k !! i)))).
    constructor.
  - apply (collect_NoDup (fun i => isSome (k_problem_variables k !! i))). constructor.
Qed.

(** ** Defining a source and reading it back *)

Lemma deepEqual_undefined value : value <> VUndefined -> deepEqual VUndefined value = false.
Proof. destruct value; intros H; try reflexivity. congruence. Qed.

(** The variable object that [defineSource] leaves behind. *)
Definition definedSource (id : string) (result : Result) (t : Z) : Var :=
  {| v_id := id; v_result := result; v_value_at := t; v_cause_at := t;
     v_dirty := false; v_producer := None; v_dependents := [];
     v_observers := []; v_observeCount := 0 |}.

(** The state of [_defineSource] before [_initializeSourceValue]. *)
Definition sourceAllocated (id : string) (k : Kernel) : Kernel :=
  match allocVar (newVariable id Uninitialized 0 0 false None)
                 (with_clock (k_logicalClock k + 1) k) with
  | Ok r k' => set_variables (<[id := r]> (k_variables k')) k'
  | _ => k
  end.

Lemma _defineSource_unfold id initialValue k :
  _defineSource id initialValue k =
  match initialValue with
  | Some value => _updateSource id value (sourceAllocated id k)
  | None => Ok tt (sourceAllocated id k)
  end.
Proof. destruct initialValue; reflexivity. Qed.

(** [defineSource] on an id that is not in the variable table, when no
    quarantined computation is waiting for that id: with an initial value,
    the source holds it at once, clean, stamped with the clock after its two
    ticks, and [getValue] returns it; without one the source is
    uninitialized and [getValue] throws. *)
Theorem defineSource_then_getValue
    (fuel : nat) (id : string) (k : Kernel) :
  k_variables k !! id = None -> undefinedCandidates id k = [] ->
  (forall value, value <> VUndefined ->
     exists k',
       defineSource (S fuel) id (Some value) k = Ok Healthy k' /\
       k_variables k' = <[id := k_next_vref k]> (k_variables k) /\
       k_vars k' = <[k_next_vref k := definedSource id (Success value) (k_logicalClock k + 2)]>
                     (k_vars k) /\
       k_comps k' = k_comps k /\
       getValue id k' = Ok (Some value) k') /\
  (exists k',
     defineSource (S fuel) id None k = Ok Healthy k' /\
     k_vars k' = <[k_next_vref k := definedSource id Uninitialized 0]> (k_vars k) /\
     getValue id k' =
       Throw (JsError ("Variable " +:+ id +:+ " is uninitialized and has no value.")) k').
Proof.
  intros Hfresh Hcand.
  set (r := k_next_vref k). set (k3 := sourceAllocated id k).
  assert (Ex : k_variables k3 !! id = Some r) by apply lookup_insert_eq.
  assert (Ev : k_vars k3 !! r = Some (newVariable id Uninitialized 0 0 false None))
    by apply lookup_insert_eq.
  split.
  - intros value Hval.
    unfold defineSource. unfold bind at 1, gets at 1. rewrite Hfresh.
    unfold bind at 1. rewrite _defineSource_unfold. fold k3.
    pose proof (_updateSource_unfold k3 id value r _ Ex Ev eq_refl) as Hu.
    assert (Hsw : k_vars (sourceWritten r value (newVariable id Uninitialized 0 0 false None) k3)
                  = <[r := definedSource id (Success value) (k_logicalClock k + 2)]> (k_vars k)).
    { unfold sourceWritten. cbn [newVariable v_result oldValueOf].
      rewrite (deepEqual_undefined value Hval). cbn [negb].
      rewrite !k_vars_updV.
      change (k_vars (with_clock (k_logicalClock k3 + 1) k3))
        with (<[r := newVariable id Uninitialized 0 0 false None]> (k_vars k)).
      change (k_logicalClock k3) with (k_logicalClock k + 1).
      apply map_eq. intros x.
      destruct (decide (x = r)) as [->|Hne].
      - rewrite !lookup_alter_eq, !lookup_insert_eq. cbn.
        unfold definedSource, newVariable.
        cbn [set_v_dirty set_v_cause_at set_v_value_at set_v_result v_id v_result
             v_value_at v_cause_at v_dirty v_producer v_dependents v_observers
             v_observeCount].
        replace (k_logicalClock k + 1 + 1) with (k_logicalClock k + 2) by lia.
        reflexivity.
      - rewrite !lookup_alter_ne, !lookup_insert_ne by congruence. reflexivity. }
    set (k4 := sourceWritten r value (newVariable id Uninitialized 0 0 false None) k3) in *.
    assert (E4 : k_vars k4 !! r = Some (definedSource id (Success value) (k_logicalClock k + 2)))
      by (rewrite Hsw; apply lookup_insert_eq).
    assert (Hmd : _markDirty r (k_logicalClock k3 + 1) true k4 = Some k4)
      by (unfold _markDirty; rewrite E4; reflexivity).
    rewrite Hmd in Hu.
    assert (Hcl : _cleanVariable r k4 = Ok tt k4).
    { unfold _cleanVariable, bind, notifyObservers. rewrite E4.
      cbn [definedSource v_observers forM]. unfold ret. rewrite E4. reflexivity. }
    rewrite Hcl in Hu. rewrite Hu.
    assert (Hc4 : k_comps k4 = k_comps k)
      by (unfold k4; rewrite sourceWritten_comps; reflexivity).
    assert (Hp4 : k_problem_computations k4 = k_problem_computations k).
    { unfold k4, sourceWritten. destruct (negb (deepEqual _ value)); reflexivity. }
    assert (Hcand4 : undefinedCandidates id k4 = []).
    { unfold undefinedCandidates in *. rewrite Hc4, Hp4. exact Hcand. }
    unfold bind at 1. rewrite (_tryRepairUndefinedInputs_no_candidate fuel id k4 Hcand4).
    exists k4. split; [reflexivity|].
    assert (Hv4 : k_variables k4 = <[id := r]> (k_variables k)).
    { unfold k4, sourceWritten. destruct (negb (deepEqual _ value)); reflexivity. }
    split; [exact Hv4|]. split; [exact Hsw|]. split; [exact Hc4|].
    unfold getValue, bind, _getVariable, gets. rewrite Hv4, lookup_insert_eq, E4.
    reflexivity.
  - unfold defineSource. unfold bind at 1, gets at 1. rewrite Hfresh.
    unfold bind at 1. rewrite _defineSource_unfold. fold k3.
    assert (Hcand3 : undefinedCandidates id k3 = []) by exact Hcand.
    unfold bind at 1. rewrite (_tryRepairUndefinedInputs_no_candidate fuel id k3 Hcand3).
    exists k3. split; [reflexivity|]. split; [reflexivity|].
    unfold getValue, bind, _getVariable, gets. rewrite Ex, Ev. reflexivity.
Qed.

Lemma defineSource_then_getValue_witness :
  (forall value, value <> VUndefined ->
     exists k',
       defineSource 1 "x" (Some value) emptyKernel = Ok Healthy k' /\
       k_variables k' = <["x" := k_next_vref emptyKernel]> (k_variables emptyKernel) /\
       k_vars k' = <[k_next_vref emptyKernel :=
                       definedSource "x" (Success value) (k_logicalClock emptyKernel + 2)]>
                     (k_vars emptyKernel) /\
       k_comps k' = k_comps emptyKernel /\
       getValue "x" k' = Ok (Some value) k') /\
  (exists k',
     defineSource 1 "x" None emptyKernel = Ok Healthy k' /\
     k_vars k' = <[k_next_vref emptyKernel := definedSource "x" Uninitialized 0]>
                   (k_vars emptyKernel) /\
     getValue "x" k' =
       Throw (JsError ("Variable " +:+ "x" +:+ " is uninitialized and has no value.")) k').
Proof.
  apply (defineSource_then_getValue 0 "x" emptyKernel); reflexivity.
Defined.

(** ** A definition that passes validation *)

(** One turn of the output loop of [_defineComputation]. *)
Definition defineOutput (initialCauseAt : Z) (computation : cref) (outputId : string) : M unit :=
  let* variable := allocVar (newVariable outputId Uninitialized 0 initialCauseAt true
                               (Some computation)) in
  modify (fun k => set_variables (<[outputId := variable]> (k_variables k)) k) ;;
  modify (updC computation
            (fun c => set_c_outputs (omap_set outputId variable (c_outputs c)) c)).

Lemma _defineComputation_healthy_unfold fuel definition k n :
  assoc (d_id definition) (k_computations k) = None ->
  assoc (d_id definition) (k_problem_computations k) = None ->
  getMissingInputs definition k = [] -> getProblemInputs definition k = [] ->
  getOutputConflictInfo (d_outputs definition) k = None ->
  detectCircularDependencyIfAdded definition k = Some None ->
  countInitialDirtyInputs (d_inputs definition) k = inr n ->
  _defineComputation fuel definition k =
  (let* computation :=
     allocComp (set_c_scheduler true
                  (newComputation (d_id definition)
                     (fold_left (fun s id => set_add_str id s) (d_inputs definition) [])
                     [] (d_body definition)
                     (computeInitialCauseAt definition k) n 0 0 true)) in
   modify (fun k => set_computations
                      (omap_set (d_id definition) computation (k_computations k)) k) ;;
   forM (defineOutput (computeInitialCauseAt definition k) computation)
        (d_outputs definition) ;;
   modify (establishDependencies definition computation) ;;
   ret Healthy) k.
Proof.
  intros Hid Hpid Hm Hp Hc Hcy Hn. unfold _defineComputation.
  unfold bind at 1, gets at 1. unfold omap_has. rewrite Hid, Hpid. cbn [isSome orb].
  unfold bind at 1, gets at 1. rewrite Hm.
  unfold bind at 1, gets at 1. rewrite Hp.
  unfold bind at 1, gets at 1. rewrite Hc.
  unfold bind at 1, gets at 1. rewrite Hcy.
  cbn [length Nat.eqb negb orb isSome].
  unfold bind at 1, gets at 1.
  unfold bind at 1, gets at 1. rewrite Hn. reflexivity.
Qed.

(** What the output loop has built so far. *)
Record outputsBuilt (t : Z) (nc : cref) (k0 k : Kernel) (c0 c : Comp) : Prop := {
  ob_comp : k_comps k !! nc = Some c;
  ob_fields : c = set_c_outputs (c_outputs c) c0;
  ob_clock : k_logicalClock k = k_logicalClock k0;
  ob_queue : k_readyQueue k = k_readyQueue k0;
  ob_calls : k_calls k = k_calls k0;
  ob_computations : k_computations k = k_computations k0;
  ob_cells : forall out r, assoc out (c_outputs c) = Some r ->
               (r < k_next_vref k)%nat /\
               k_variables k !! out = Some r /\
               k_vars k !! r = Some (newVariable out Uninitialized 0 t true (Some nc))
}.

Lemma defineOutput_loop t nc k0 c0 :
  forall outs k c,
    outputsBuilt t nc k0 k c0 c ->
    exists k' c',
      forM (defineOutput t nc) outs k = Ok tt k' /\
      outputsBuilt t nc k0 k' c0 c' /\
      forall out, In out outs \/ assoc out (c_outputs c) <> None ->
                  assoc out (c_outputs c') <> None.
Proof.
  induction outs as [|o outs IH]; intros k c B.
  - exists k, c. split; [reflexivity|]. split; [exact B|]. intros out [[]|H]. exact H.
  - cbn [forM]. unfold bind at 1.
    set (r := k_next_vref k).
    set (c1 := set_c_outputs (omap_set o r (c_outputs c)) c).
    assert (E : exists k1, defineOutput t nc o k = Ok tt k1 /\ outputsBuilt t nc k0 k1 c0 c1).
    { eexists. split; [reflexivity|]. destruct B. split.
      - cbn. rewrite lookup_alter_eq, ob_comp0. reflexivity.
      - unfold c1. rewrite ob_fields0. destruct c0; reflexivity.
      - exact ob_clock0.
      - exact ob_queue0.
      - exact ob_calls0.
      - exact ob_computations0.
      - intros out r0 Ha. unfold c1 in Ha. cbn [c_outputs set_c_outputs] in Ha.
        cbn [k_next_vref k_variables k_vars with_comps updC set_variables with_tables].
        destruct (String.eqb_spec out o) as [->|Hne].
        + rewrite assoc_omap_set_eq in Ha. injection Ha as <-.
          split; [unfold r; lia|]. rewrite !lookup_insert_eq. auto.
        + rewrite assoc_omap_set_ne in Ha by exact Hne.
          destruct (ob_cells0 out r0 Ha) as (Hlt & Hx & Hv).
          split; [lia|]. rewrite lookup_insert_ne by congruence.
          rewrite lookup_insert_ne by (unfold r; lia). auto. }
    destruct E as (k1 & E1 & B1). rewrite E1.
    destruct (IH k1 c1 B1) as (k' & c' & E' & B' & Hall).
    exists k', c'. split; [exact E'|]. split; [exact B'|].
    intros out H. apply Hall. unfold c1. cbn [c_outputs set_c_outputs].
    destruct (String.eqb_spec out o) as [->|Hne].
    + right. rewrite assoc_omap_set_eq. discriminate.
    + rewrite assoc_omap_set_ne by exact Hne.
      destruct H as [[E|H]|H]; [congruence|auto|auto].
Qed.

(** [establishDependencies] only extends dependent sets and the
    [runtimeInputs] of the new computation. *)
Definition crt (c c' : Comp) : Prop := c' = set_c_runtimeInputs (c_runtimeInputs c') c.

Definition depsOnly (k k' : Kernel) : Prop :=
  k_variables k' = k_variables k /\ k_computations k' = k_computations k /\
  k_readyQueue k' = k_readyQueue k /\ k_logicalClock k' = k_logicalClock k /\
  k_calls k' = k_calls k /\
  heap_rel vdep (k_vars k) (k_vars k') /\ heap_rel crt (k_comps k) (k_comps k').

Lemma crt_refl c : crt c c.
Proof. destruct c; reflexivity. Qed.

Lemma crt_trans c1 c2 c3 : crt c1 c2 -> crt c2 c3 -> crt c1 c3.
Proof. unfold crt. intros H1 H2. rewrite H2, H1. destruct c1; reflexivity. Qed.

Lemma establishDependencies_depsOnly definition computation k :
  depsOnly k (establishDependencies definition computation k).
Proof.
  unfold establishDependencies.
  apply (fold_left_inv (fun kx => depsOnly k kx)).
  - repeat split; try reflexivity; apply heap_rel_refl; auto using vdep_refl, crt_refl.
  - intros i ka _ (H1 & H2 & H3 & H4 & H5 & HV & HC).
    destruct (lookupVar i ka) as [variable|];
      [|repeat split; assumption].
    repeat split; try assumption.
    + eapply heap_rel_trans; [apply vdep_trans|exact HV|].
      cbn. apply heap_rel_alter; [apply vdep_refl|]. intros v _. destruct v; reflexivity.
    + eapply heap_rel_trans; [apply crt_trans|exact HC|].
      cbn. apply heap_rel_alter; [apply crt_refl|]. intros c _. destruct c; reflexivity.
Qed.

Lemma computeInitialCauseAt_ge definition k :
  forall i r v, In i (d_inputs definition) -> lookupVar i k = Some r ->
                k_vars k !! r = Some v -> v_cause_at v <= computeInitialCauseAt definition k.
Proof.
  unfold computeInitialCauseAt.
  assert (H : forall l acc,
            acc <= fold_left (fun m inputId =>
                                match lookupVar inputId k with
                                | Some r => match k_vars k !! r with
                                            | Some iv => Z.max m (v_cause_at iv)
                                            | None => m
                                            end
                                | None => m
                                end) l acc /\
            forall i r v, In i l -> lookupVar i k = Some r -> k_vars k !! r = Some v ->
              v_cause_at v <= fold_left (fun m inputId =>
                                match lookupVar inputId k with
                                | Some r => match k_vars k !! r with
                                            | Some iv => Z.max m (v_cause_at iv)
                                            | None => m
                                            end
                                | None => m
                                end) l acc).
  { induction l as [|a l IH]; intros acc; cbn [fold_left].
    - split; [lia|]. intros i r v [].
    - set (acc' := match lookupVar a k with
                   | Some r => match k_vars k !! r with
                               | Some iv => Z.max acc (v_cause_at iv)
                               | None => acc
                               end
                   | None => acc
                   end).
      destruct (IH acc') as [G1 G2]. split.
      + assert (acc <= acc'); [|lia]. unfold acc'.
        destruct (lookupVar a k); [|lia]. destruct (k_vars k !! _); lia.
      + intros i r v [<-|Hin] El Ev; [|eauto].
        assert (v_cause_at v <= acc'); [|lia]. unfold acc'. rewrite El, Ev. lia. }
  intros i r v. apply H.
Qed.

(** [_defineComputation] on a definition under an id that no computation
    has, healthy or problematic, and that passes validation (every input
    defined, no output taken, no cycle) returns healthy and is lazy: the new
    computation is registered dirty and unobserved, hence Idle and not
    queued, with [cause_at] the largest [cause_at] of its inputs; every
    declared output is a new variable, uninitialized and dirty, produced by
    it and carrying its [cause_at]; the clock does not tick and no observer
    is called. *)
Theorem _defineComputation_healthy_is_lazy
    (fuel : nat) (definition : ComputationDefinition) (k : Kernel) :
  assoc (d_id definition) (k_computations k) = None ->
  assoc (d_id definition) (k_problem_computations k) = None ->
  getMissingInputs definition k = [] -> getProblemInputs definition k = [] ->
  getOutputConflictInfo (d_outputs definition) k = None ->
  detectCircularDependencyIfAdded definition k = Some None ->
  exists k' c,
    _defineComputation fuel definition k = Ok Healthy k' /\
    assoc (d_id definition) (k_computations k') = Some (k_next_cref k) /\
    k_comps k' !! k_next_cref k = Some c /\
    c_id c = d_id definition /\ c_dirty c = true /\ c_observeCount c = 0 /\
    state c = Idle /\ c_runningTask c = None /\
    c_cause_at c = computeInitialCauseAt definition k /\
    (forall i r v, In i (d_inputs definition) -> lookupVar i k = Some r ->
                   k_vars k !! r = Some v -> v_cause_at v <= c_cause_at c) /\
    k_logicalClock k' = k_logicalClock k /\ k_readyQueue k' = k_readyQueue k /\
    k_calls k' = k_calls k /\
    forall out, In out (d_outputs definition) ->
      exists r v,
        k_variables k' !! out = Some r /\ assoc out (c_outputs c) = Some r /\
        k_vars k' !! r = Some v /\ v_id v = out /\
        v_result v = Uninitialized /\ v_dirty v = true /\
        v_producer v = Some (k_next_cref k) /\
        v_cause_at v = computeInitialCauseAt definition k.
Proof.
  intros Hid Hpid Hm Hp Hc Hcy.
  assert (Hlook : forall i, In i (d_inputs definition) -> lookupVar i k <> None).
  { intros i Hi Hl. unfold lookupVar in Hl.
    assert (Hin : In i (getMissingInputs definition k)).
    { unfold getMissingInputs.
      apply (collect_spec (fun x => negb (isSome (k_variables k !! x)) &&
                                    negb (isSome (k_problem_variables k !! x)))).
      right. split; [exact Hi|]. destruct (k_variables k !! i); [discriminate|].
      rewrite Hl. reflexivity. }
    rewrite Hm in Hin. destruct Hin. }
  destruct (countInitialDirtyInputs_ok _ k Hlook) as (n & Hn).
  rewrite (_defineComputation_healthy_unfold fuel definition k n Hid Hpid Hm Hp Hc Hcy Hn).
  set (t := computeInitialCauseAt definition k).
  set (nc := k_next_cref k).
  set (c0 := set_c_scheduler true
               (newComputation (d_id definition)
                  (fold_left (fun s id => set_add_str id s) (d_inputs definition) [])
                  [] (d_body definition) t n 0 0 true)).
  unfold bind at 1, allocComp. fold nc.
  unfold bind at 1, modify at 1.
  match goal with
  | |- context [bind (forM (defineOutput t nc) (d_outputs definition)) _ ?kk] => set (k1 := kk)
  end.
  assert (B1 : outputsBuilt t nc k1 k1 c0 c0).
  { split; try reflexivity.
    - unfold k1. cbn. apply lookup_insert_eq.
    - intros out r Ha. discriminate Ha. }
  destruct (defineOutput_loop t nc k1 c0 (d_outputs definition) k1 c0 B1)
    as (k2 & c2 & E2 & B2 & Hall).
  unfold bind at 1. rewrite E2.
  unfold bind at 1, modify at 1. unfold ret.
  pose proof (establishDependencies_depsOnly definition nc k2)
    as (D1 & D2 & D3 & D4 & D5 & DV & DC).
  set (k3 := establishDependencies definition nc k2) in *.
  destruct B2.
  destruct (heap_rel_lookup _ _ _ _ _ DC ob_comp0) as (c3 & E3 & Hc3).
  exists k3, c3. split; [reflexivity|].
  assert (Hf3 : c3 = set_c_runtimeInputs (c_runtimeInputs c3) (set_c_outputs (c_outputs c2) c0)).
  { unfold crt in Hc3. rewrite Hc3 at 1. rewrite ob_fields0 at 1. reflexivity. }
  split.
  { rewrite D2, ob_computations0. unfold k1. cbn. apply assoc_omap_set_eq. }
  split; [exact E3|].
  rewrite Hf3. cbn.
  repeat (split; [reflexivity|]).
  split; [apply computeInitialCauseAt_ge|].
  split; [rewrite D4, ob_clock0; reflexivity|].
  split; [rewrite D3, ob_queue0; reflexivity|].
  split; [rewrite D5, ob_calls0; reflexivity|].
  intros out Hout.
  destruct (assoc out (c_outputs c2)) as [r|] eqn:Ea;
    [|destruct (Hall out (or_introl Hout) Ea)].
  destruct (ob_cells0 out r Ea) as (_ & Hx & Hv).
  destruct (heap_rel_lookup _ _ _ _ _ DV Hv) as (v3 & Ev3 & Hd3).
  exists r, v3. split; [rewrite D1; exact Hx|]. split; [reflexivity|].
  split; [exact Ev3|]. unfold vdep in Hd3. rewrite Hd3. cbn. auto.
Qed.

Definition sourceOnlyKernel : Kernel :=
  finalState (defineSource 8 "x" (Some (VNum 1)) emptyKernel) emptyKernel.

Lemma _defineComputation_healthy_is_lazy_witness :
  exists k' c,
    _defineComputation 8 defY sourceOnlyKernel = Ok Healthy k' /\
    assoc (d_id defY) (k_computations k') = Some (k_next_cref sourceOnlyKernel) /\
    k_comps k' !! k_next_cref sourceOnlyKernel = Some c /\
    c_id c = d_id defY /\ c_dirty c = true /\ c_observeCount c = 0 /\
    state c = Idle /\ c_runningTask c = None /\
    c_cause_at c = computeInitialCauseAt defY sourceOnlyKernel /\
    (forall i r v, In i (d_inputs defY) -> lookupVar i sourceOnlyKernel = Some r ->
                   k_vars sourceOnlyKernel !! r = Some v -> v_cause_at v <= c_cause_at c) /\
    k_logicalClock k' = k_logicalClock sourceOnlyKernel /\
    k_readyQueue k' = k_readyQueue sourceOnlyKernel /\
    k_calls k' = k_calls sourceOnlyKernel /\
    forall out, In out (d_outputs defY) ->
      exists r v,
        k_variables k' !! out = Some r /\ assoc out (c_outputs c) = Some r /\
        k_vars k' !! r = Some v /\ v_id v = out /\
        v_result v = Uninitialized /\ v_dirty v = true /\
        v_producer v = Some (k_next_cref sourceOnlyKernel) /\
        v_cause_at v = computeInitialCauseAt defY sourceOnlyKernel.
Proof.
  apply (_defineComputation_healthy_is_lazy 8 defY sourceOnlyKernel);
    vm_compute; reflexivity.
Defined.

(** ** The end of a task (module_execution.ts) *)

Lemma abortTask_comp r why k c :
  k_comps k !! r = Some c ->
  k_comps (abortTask r why k) !! r =
    Some match c_runningTask c with
         | Some task => set_c_runningTask None
                          (set_c_abortingTasks (set_add_nat task (c_abortingTasks c)) c)
         | None => c
         end.
Proof.
  intros Ec. unfold abortTask. rewrite Ec. destruct (c_runningTask c) as [task|]; [|exact Ec].
  rewrite checkScheduleNeeded_comps, k_comps_updC.
  change (k_comps (updT task _ (with_log _ k))) with (k_comps k).
  rewrite lookup_alter_eq, Ec. reflexivity.
Qed.

(** The task slot of a computation after a setter: as before, or emptied
    with the task it held parked in [abortingTasks]. *)
Definition taskMoved (c c' : Comp) : Prop :=
  (c_runningTask c' = c_runningTask c /\ c_abortingTasks c' = c_abortingTasks c) \/
  (exists task, c_runningTask c = Some task /\ c_runningTask c' = None /\
                c_abortingTasks c' = set_add_nat task (c_abortingTasks c)).

Lemma set_cause_at_comp r value k c :
  k_comps k !! r = Some c ->
  exists c', k_comps (set_cause_at r value k) !! r = Some c' /\
             c_cause_at c' = value /\ c_dirty c' = c_dirty c /\
             c_outputs c' = c_outputs c /\ taskMoved c c'.
Proof.
  intros Ec. unfold set_cause_at. rewrite Ec.
  assert (E1 : k_comps (updC r (set_c_cause_at value) k) !! r = Some (set_c_cause_at value c))
    by (rewrite k_comps_updC, lookup_alter_eq, Ec; reflexivity).
  destruct (c_cause_at c =? value).
  { eexists. split; [exact E1|]. repeat split. left. split; reflexivity. }
  unfold checkAbortOnCauseAtChange. rewrite E1. cbn [set_c_cause_at c_runningTask].
  destruct (c_runningTask c) as [task|] eqn:Er.
  2:{ eexists. split; [exact E1|]. repeat split. left. split; reflexivity. }
  destruct (k_tasks _ !! task) as [t|].
  2:{ eexists. split; [exact E1|]. repeat split. left. split; reflexivity. }
  destruct (_ <? _).
  2:{ eexists. split; [exact E1|]. repeat split. left. split; reflexivity. }
  rewrite (abortTask_comp _ _ _ _ E1). cbn [set_c_cause_at c_runningTask]. rewrite Er.
  eexists. split; [reflexivity|]. repeat split. right. exists task. repeat split. exact Er.
Qed.

(** [v'] is [v] up to [cause_at]. *)
Definition vcause (v v' : Var) : Prop := v' = set_v_cause_at (v_cause_at v') v.

Lemma vcause_refl v : vcause v v.
Proof. destruct v; reflexivity. Qed.

Lemma vcause_trans v1 v2 v3 : vcause v1 v2 -> vcause v2 v3 -> vcause v1 v3.
Proof. unfold vcause. intros H1 H2. rewrite H2, H1. destruct v1; reflexivity. Qed.

(** What [handleExecutionFinally] leaves: the task is attached to the
    computation no more, the dirty flag is as it was, and nothing moved in a
    variable but [cause_at]. *)
Record taskEnded (comp : cref) (task : nat) (k k' : Kernel) : Prop := {
  te_clock : k_logicalClock k' = k_logicalClock k;
  te_calls : k_calls k' = k_calls k;
  te_vars : heap_rel vcause (k_vars k) (k_vars k');
  te_comp : forall c, k_comps k !! comp = Some c ->
              ~ (c_runningTask c = Some task /\ In task (c_abortingTasks c)) ->
              exists c', k_comps k' !! comp = Some c' /\
                         c_dirty c' = c_dirty c /\
                         c_runningTask c' <> Some task /\
                         ~ In task (c_abortingTasks c')
}.

Lemma set_delete_nat_not_In x l : ~ In x (set_delete_nat x l).
Proof.
  unfold set_delete_nat. intros H. apply filter_In in H as [_ H].
  rewrite Nat.eqb_refl in H. discriminate.
Qed.

Lemma set_add_nat_In_inv x y l : In x (set_add_nat y l) -> x = y \/ In x l.
Proof.
  unfold set_add_nat. destruct (existsb _ l); [auto|].
  intros H. apply in_app_or in H as [H|[H|[]]]; auto.
Qed.

Lemma handleExecutionFinally_ends comp task k :
  exists k', handleExecutionFinally comp task k = Ok tt k' /\ taskEnded comp task k k'.
Proof.
  unfold handleExecutionFinally, bind, modify.
  eexists. split; [reflexivity|].
  destruct (k_comps k !! comp) as [c|] eqn:Ec.
  2:{ rewrite Ec. split; try reflexivity; [apply heap_rel_refl, vcause_refl|].
      intros c0 E0. congruence. }
  set (f1 := fun c : Comp =>
               match c_runningTask c with
               | Some t => if Nat.eqb t task then set_c_runningTask None c
                           else set_c_abortingTasks (set_delete_nat task (c_abortingTasks c)) c
               | None => set_c_abortingTasks (set_delete_nat task (c_abortingTasks c)) c
               end).
  assert (Hk1 : (match c_runningTask c with
                 | Some t => if Nat.eqb t task then updC comp (set_c_runningTask None) k
                             else updC comp (fun c => set_c_abortingTasks
                                                        (set_delete_nat task (c_abortingTasks c)) c) k
                 | None => updC comp (fun c => set_c_abortingTasks
                                                 (set_delete_nat task (c_abortingTasks c)) c) k
                 end) = with_comps (<[comp := f1 c]> (k_comps k)) k).
  { unfold f1, updC. destruct (c_runningTask c) as [t|]; [destruct (Nat.eqb t task)|];
      f_equal; apply map_eq; intros x; destruct (decide (x = comp)) as [->|Hne];
      rewrite ?lookup_alter_eq, ?lookup_insert_eq, ?Ec;
      rewrite ?lookup_alter_ne, ?lookup_insert_ne by congruence; reflexivity. }
  rewrite Hk1. clear Hk1.
  set (k1 := with_comps (<[comp := f1 c]> (k_comps k)) k).
  assert (E1 : k_comps k1 !! comp = Some (f1 c)) by apply lookup_insert_eq.
  assert (H1 : c_dirty (f1 c) = c_dirty c /\ c_outputs (f1 c) = c_outputs c /\
               (~ (c_runningTask c = Some task /\ In task (c_abortingTasks c)) ->
                c_runningTask (f1 c) <> Some task /\ ~ In task (c_abortingTasks (f1 c)))).
  { unfold f1. destruct (c_runningTask c) as [t|] eqn:Er.
    - destruct (Nat.eqb_spec t task) as [->|Hne].
      + cbn. repeat split; [discriminate|]. intros Hin. apply H. auto.
      + cbn. rewrite Er. repeat split; [congruence|apply set_delete_nat_not_In].
    - cbn. rewrite Er. repeat split; [discriminate|apply set_delete_nat_not_In]. }
  destruct H1 as (Hd1 & Ho1 & Ht1).
  rewrite E1. rewrite Hd1.
  destruct (c_dirty c) eqn:Ed.
  2:{ split; try reflexivity; [apply heap_rel_refl, vcause_refl|].
      intros c0 E0 Hpre. rewrite Ec in E0. injection E0 as <-.
      exists (f1 c). split; [exact E1|]. split; [congruence|]. apply Ht1, Hpre. }
  destruct (maxCauseAt (c_runtimeInputs (f1 c)) k1) as [m|].
  2:{ split; try reflexivity; [apply heap_rel_refl, vcause_refl|].
      intros c0 E0 Hpre. rewrite Ec in E0. injection E0 as <-.
      exists (f1 c). split; [exact E1|]. split; [congruence|]. apply Ht1, Hpre. }
  destruct (m >? c_cause_at (f1 c)).
  2:{ split; try reflexivity; [apply heap_rel_refl, vcause_refl|].
      intros c0 E0 Hpre. rewrite Ec in E0. injection E0 as <-.
      exists (f1 c). split; [exact E1|]. split; [congruence|]. apply Ht1, Hpre. }
  destruct (set_cause_at_comp comp m k1 (f1 c) E1) as (c2 & E2 & Hc2 & Hd2 & Ho2 & Hm2).
  set (k2 := set_cause_at comp m k1) in *.
  assert (Hfold : forall outs kx,
            k_comps kx = k_comps k2 -> k_logicalClock kx = k_logicalClock k ->
            k_calls kx = k_calls k -> heap_rel vcause (k_vars k) (k_vars kx) ->
            let kf := fold_left (fun k (o : string * vref) =>
                                   match k_comps k !! comp with
                                   | Some c' => updV o.2 (set_v_cause_at (c_cause_at c')) k
                                   | None => k
                                   end) outs kx in
            k_comps kf = k_comps k2 /\ k_logicalClock kf = k_logicalClock k /\
            k_calls kf = k_calls k /\ heap_rel vcause (k_vars k) (k_vars kf)).
  { induction outs as [|o outs IH]; intros kx Hc Hcl Hca Hv; cbn [fold_left]; [auto|].
    apply IH.
    - destruct (k_comps kx !! comp); exact Hc.
    - destruct (k_comps kx !! comp); exact Hcl.
    - destruct (k_comps kx !! comp); exact Hca.
    - destruct (k_comps kx !! comp); [|exact Hv].
      eapply heap_rel_trans; [apply vcause_trans|exact Hv|].
      rewrite k_vars_updV. apply heap_rel_alter; [apply vcause_refl|].
      intros v _. destruct v; reflexivity. }
  assert (Hcore : core k2 = core k).
  { pose proof (set_cause_at_spec comp m k1) as [Hcore _]. exact Hcore. }
  unfold core in Hcore. injection Hcore as ? ? ? ? ? ? ? ? ? ? ? ?.
  destruct (Hfold (c_outputs (f1 c)) k2 eq_refl) as (F1 & F2 & F3 & F4);
    [assumption|assumption| |].
  { replace (k_vars k2) with (k_vars k) by congruence. apply heap_rel_refl, vcause_refl. }
  split; [exact F2|exact F3|exact F4|].
  intros c0 E0 Hpre. rewrite Ec in E0. injection E0 as <-.
  exists c2. split; [rewrite F1; exact E2|]. split; [congruence|].
  destruct (Ht1 Hpre) as [Hr Ha].
  destruct Hm2 as [[Hr2 Ha2]|(t' & Hr' & Hr2 & Ha2)].
  - rewrite Hr2, Ha2. auto.
  - rewrite Hr2, Ha2. split; [discriminate|].
    intros Hin. apply set_add_nat_In_inv in Hin as [->|Hin]; [congruence|auto].
Qed.

(** An outcome of the body that the kernel treats as a cancellation: the
    body returned and [checkAbortSignal] finds the signal of the task fired,
    or the body threw an [AbortException] or a [DOMException] named
    AbortError.  A body that throws anything else is not cancelled, fired
    signal or not: [handleExecutionError] commits its error. *)
Definition cancelled (k : Kernel) (task : nat) (body : BodyResult) : Prop :=
  match body with
  | Returned _ => exists t, k_tasks k !! task = Some t /\ rt_aborted t = true
  | Rejected error => isAbortError error = true
  end.

(** A cancelled task commits nothing.  When the signal of the task was
    fired before its body returned, or the body threw an abort exception,
    [_executeComputation] ends by rethrowing an abort exception, with the
    clock where it was, no observer called, every variable as it was up to
    [cause_at] (result, [value_at] and [dirty] untouched), and the computation
    as dirty as before and free of the task. *)
Theorem cancelled_task_commits_nothing
    (fuel : nat) (comp : cref) (task : nat) (body : BodyResult)
    (accessedVariables : list vref) (k : Kernel) :
  cancelled k task body ->
  exists error k',
    executeComputation_finish fuel comp task body accessedVariables k = Throw error k' /\
    isAbortError error = true /\
    k_logicalClock k' = k_logicalClock k /\
    k_calls k' = k_calls k /\
    (forall x v, k_vars k !! x = Some v ->
       exists v', k_vars k' !! x = Some v' /\
                  v_result v' = v_result v /\ v_value_at v' = v_value_at v /\
                  v_dirty v' = v_dirty v) /\
    (forall c, k_comps k !! comp = Some c ->
       ~ (c_runningTask c = Some task /\ In task (c_abortingTasks c)) ->
       exists c', k_comps k' !! comp = Some c' /\
                  c_dirty c' = c_dirty c /\
                  c_runningTask c' <> Some task /\
                  ~ In task (c_abortingTasks c')).
Proof.
  intros Hc.
  destruct (handleExecutionFinally_ends comp task k) as (k' & Ef & Hf).
  assert (E : exists error,
            executeComputation_finish fuel comp task body accessedVariables k = Throw error k' /\
            isAbortError error = true).
  { unfold executeComputation_finish, tryFinally, tryCatch.
    destruct body as [outputs|error]; cbn [cancelled] in Hc.
    - destruct Hc as (t & Et & Ha).
      assert (Hab0 : isAbortError (AbortException "Task was aborted") = true) by reflexivity.
      unfold bind at 1, checkAbortSignal. rewrite Et, Ha.
      unfold handleExecutionError. rewrite Hab0.
      unfold bind, ret, throw. rewrite Ef. eexists. split; [reflexivity|exact Hab0].
    - unfold throw at 1. unfold handleExecutionError. rewrite Hc.
      unfold bind, ret, throw. rewrite Ef. eexists. split; [reflexivity|exact Hc]. }
  destruct E as (error & E & Hab). exists error, k'. split; [exact E|]. split; [exact Hab|].
  destruct Hf. split; [assumption|]. split; [assumption|]. split; [|assumption].
  intros x v Ev. destruct (heap_rel_lookup _ _ _ _ _ te_vars0 Ev) as (v' & Ev' & Hv).
  exists v'. split; [exact Ev'|]. unfold vcause in Hv. rewrite Hv. repeat split.
Qed.

(** [Y] was dispatched, then [x] was written again: the task of [Y] is
    aborted and waits in [abortingTasks]. *)
Definition abortedRunKernel : Kernel :=
  finalState (updateSource "x" (VNum 6) rerunKernel) rerunKernel.

(** An error that is no abort error is committed, even when the signal of
    the task has fired and whatever its [name]: the output takes the error
    with one tick of the clock, its observer is called, and the computation
    is clean. *)
Example rejected_after_abort_is_committed :
  let error := ExnError ClassError "AbortError" "boom" in
  isAbortError error = false /\
  (exists t, k_tasks abortedRunKernel !! 2%nat = Some t /\ rt_aborted t = true) /\
  exists k',
    executeComputation_finish 8 0%nat 2%nat (Rejected error) [0%nat] abortedRunKernel
      = Throw error k' /\
    k_logicalClock k' = k_logicalClock abortedRunKernel + 1 /\
    v_result (getV k' 1) = Error error /\
    k_calls k' = k_calls abortedRunKernel ++ [(1%nat, "y", Error error)] /\
    c_dirty (getC k' 0) = false.
Proof.
  cbv zeta. split; [reflexivity|]. split.
  { eexists. split; vm_compute; reflexivity. }
  eexists. split; [vm_compute; reflexivity|]. vm_compute. repeat split.
Qed.

Lemma cancelled_task_commits_nothing_witness :
  exists error k',
    executeComputation_finish 8 0%nat 2%nat (Returned [("y", VNum 7)]) [0%nat] abortedRunKernel
      = Throw error k' /\
    isAbortError error = true /\
    k_logicalClock k' = k_logicalClock abortedRunKernel /\
    k_calls k' = k_calls abortedRunKernel /\
    (forall x v, k_vars abortedRunKernel !! x = Some v ->
       exists v', k_vars k' !! x = Some v' /\
                  v_result v' = v_result v /\ v_value_at v' = v_value_at v /\
                  v_dirty v' = v_dirty v) /\
    (forall c, k_comps abortedRunKernel !! 0%nat = Some c ->
       ~ (c_runningTask c = Some 2%nat /\ In 2%nat (c_abortingTasks c)) ->
       exists c', k_comps k' !! 0%nat = Some c' /\
                  c_dirty c' = c_dirty c /\
                  c_runningTask c' <> Some 2%nat /\
                  ~ In 2%nat (c_abortingTasks c')).
Proof.
  apply (cancelled_task_commits_nothing 8 0%nat 2%nat (Returned [("y", VNum 7)]) [0%nat]
           abortedRunKernel).
  exists {| rt_taskId := 2%nat; rt_cause_at := 4; rt_aborted := true |}.
  split; vm_compute; reflexivity.
Defined.

(** ** The commit of a successful run (module_execution.ts) *)

(** The state and the stamp with which the second pass of [updateOutputs]
    starts. *)
Definition commitStart (k : Kernel) (changed : bool) : Z * Kernel :=
  if changed then nextLogicalClock k else (0, k).

Lemma updateOutputs_unfold comp newOutputs c k :
  k_comps k !! comp = Some c ->
  updateOutputs comp newOutputs k =
    forM (commitStep comp newOutputs
            (commitStart k (existsb (valueChangedAt k newOutputs) (c_outputs c))).1)
         (c_outputs c)
         (commitStart k (existsb (valueChangedAt k newOutputs) (c_outputs c))).2.
Proof.
  intros Ec. unfold updateOutputs, commitStart. rewrite Ec.
  destruct (existsb _ _); reflexivity.
Qed.

(** A variable after part of a commit stamped [t]: value and [value_at] as
    before, or [value_at = t]. *)
Definition vstamped (t : Z) (v v' : Var) : Prop :=
  (v_value_at v' = v_value_at v /\ v_result v' = v_result v) \/ v_value_at v' = t.

Lemma vstamped_refl t v : vstamped t v v.
Proof. left. split; reflexivity. Qed.

Lemma vstamped_trans t v1 v2 v3 : vstamped t v1 v2 -> vstamped t v2 v3 -> vstamped t v1 v3.
Proof.
  intros [[A1 B1]|A1] [[A2 B2]|A2]; [left; split; congruence|right; auto|right; congruence|
                                     right; auto].
Qed.

Definition stamped_step (t : Z) (k k' : Kernel) : Prop :=
  k_logicalClock k' = k_logicalClock k /\ heap_rel (vstamped t) (k_vars k) (k_vars k').

Lemma commitStep_stamped comp newOutputs t o k ka :
  stamped_step t k ka -> ends (stamped_step t k) (commitStep comp newOutputs t o ka).
Proof.
  intros [Hc Hv]. unfold commitStep.
  destruct (k_comps ka !! comp) as [c'|]; [|split; assumption].
  cbv zeta.
  set (k1 := if valueChangedAt ka newOutputs o then _ else ka).
  set (k2 := updV o.2 _ k1).
  assert (H2 : stamped_step t k k2).
  { split.
    - unfold k2, k1. destruct (valueChangedAt ka newOutputs o); exact Hc.
    - eapply heap_rel_trans; [apply vstamped_trans|exact Hv|].
      unfold k2. rewrite k_vars_updV.
      eapply heap_rel_trans; [apply vstamped_trans| |].
      + instantiate (1 := k_vars k1). unfold k1.
        destruct (valueChangedAt ka newOutputs o); [|apply heap_rel_refl, vstamped_refl].
        rewrite k_vars_updV. apply heap_rel_alter; [apply vstamped_refl|].
        intros v _. right. reflexivity.
      + apply heap_rel_alter; [apply vstamped_refl|].
        intros v _. left. split; reflexivity. }
  eapply ends_impl; [apply _cleanVariable_clean|].
  intros k3 H3. destruct H2 as [Hc2 Hv2]. split.
  - rewrite (clean_step_clock _ _ H3). exact Hc2.
  - rewrite (clean_step_vars _ _ H3). exact Hv2.
Qed.

Lemma commit_loop comp newOutputs t cause :
  forall (outs : list (string * vref)) k,
    (exists c, k_comps k !! comp = Some c /\ c_cause_at c = cause) ->
    NoDup (map snd outs) ->
    (forall o, In o outs -> exists v, k_vars k !! o.2 = Some v /\ quiet v) ->
    exists k',
      forM (commitStep comp newOutputs t) outs k = Ok tt k' /\
      k_logicalClock k' = k_logicalClock k /\
      (forall r, ~ In r (map snd outs) -> k_vars k' !! r = k_vars k !! r) /\
      (forall o v, In o outs -> k_vars k !! o.2 = Some v ->
         exists v', k_vars k' !! o.2 = Some v' /\
                    v_dirty v' = false /\ v_cause_at v' = cause /\
                    if valueChangedAt k newOutputs o
                    then v_result v' = Success (outputOf newOutputs o.1) /\ v_value_at v' = t
                    else v_result v' = v_result v /\ v_value_at v' = v_value_at v).
Proof.
  induction outs as [|o outs IH]; intros k (c & Ec & Hcause) Hnd Hq.
  - exists k. split; [reflexivity|]. split; [reflexivity|]. split; [auto|].
    intros o v [].
  - cbn [map] in Hnd. apply NoDup_cons in Hnd as [Hnotin Hnd].
    rewrite list_elem_of_In in Hnotin.
    cbn [forM]. unfold bind, commitStep at 1. rewrite Ec. cbv zeta.
    destruct (Hq o (or_introl eq_refl)) as (v & Ev & Hqv).
    set (k1 := if valueChangedAt k newOutputs o then _ else k).
    set (k2 := updV o.2 _ k1).
    set (v2 := set_v_dirty false
                 (set_v_cause_at cause
                    (if valueChangedAt k newOutputs o
                     then set_v_value_at t (set_v_result (Success (outputOf newOutputs o.1)) v)
                     else v))).
    assert (Ev2 : k_vars k2 !! o.2 = Some v2).
    { unfold k2, k1, v2. rewrite k_vars_updV, lookup_alter_eq, Hcause.
      destruct (valueChangedAt k newOutputs o).
      - rewrite k_vars_updV, lookup_alter_eq, Ev. reflexivity.
      - rewrite Ev. reflexivity. }
    assert (Hother : forall r, r <> o.2 -> k_vars k2 !! r = k_vars k !! r).
    { intros r Hr. unfold k2, k1. rewrite k_vars_updV, lookup_alter_ne by congruence.
      destruct (valueChangedAt k newOutputs o); [|reflexivity].
      rewrite k_vars_updV, lookup_alter_ne by congruence. reflexivity. }
    assert (Hclk2 : k_logicalClock k2 = k_logicalClock k).
    { unfold k2, k1. destruct (valueChangedAt k newOutputs o); reflexivity. }
    assert (Ec2 : k_comps k2 !! comp = Some c).
    { unfold k2, k1. destruct (valueChangedAt k newOutputs o); exact Ec. }
    destruct (_cleanVariable_ok o.2 v2 k2 Ev2) as (k3 & E3 & H3).
    { intros ob Hin. apply Hqv. unfold v2 in Hin.
      destruct (valueChangedAt k newOutputs o); exact Hin. }
    rewrite E3.
    assert (Hv3 : k_vars k3 = k_vars k2) by (apply clean_step_vars; exact H3).
    assert (Hclk3 : k_logicalClock k3 = k_logicalClock k).
    { rewrite (clean_step_clock _ _ H3). exact Hclk2. }
    destruct (IH k3) as (k' & E' & Hclk & Hframe & Hdone).
    + destruct H3 as (_ & _ & _ & HC).
      destruct (heap_rel_lookup _ _ _ _ _ HC Ec2) as (c3 & Ec3 & (Hc3 & _)).
      exists c3. split; [exact Ec3|]. rewrite Hc3. exact Hcause.
    + exact Hnd.
    + intros o' Hin'. destruct (Hq o' (or_intror Hin')) as (v' & Ev' & Hq').
      exists v'. split; [|exact Hq']. rewrite Hv3, Hother; [exact Ev'|].
      intros Heq. apply Hnotin. rewrite <- Heq. apply in_map. exact Hin'.
    + exists k'. split; [exact E'|]. split; [congruence|]. split.
      * intros r Hr. rewrite Hframe by (intros Hin; apply Hr; right; exact Hin).
        rewrite Hv3. apply Hother. intros Heq. apply Hr. left. congruence.
      * intros o' v' [<-|Hin'] Ev'.
        -- rewrite Hframe by exact Hnotin. rewrite Hv3, Ev2.
           assert (v' = v) by congruence. subst v'.
           eexists. split; [reflexivity|]. unfold v2.
           destruct (valueChangedAt k newOutputs o); cbn; auto.
        -- assert (Hne : o'.2 <> o.2).
           { intros Heq. apply Hnotin. rewrite <- Heq. apply in_map. exact Hin'. }
           assert (Ev3 : k_vars k3 !! o'.2 = Some v')
             by (rewrite Hv3, Hother by exact Hne; exact Ev').
           destruct (Hdone o' v' Hin' Ev3) as (v'' & Ev'' & Hd & Hc & Hval).
           exists v''. split; [exact Ev''|]. split; [exact Hd|]. split; [exact Hc|].
           assert (Hsame : valueChangedAt k3 newOutputs o' = valueChangedAt k newOutputs o').
           { unfold valueChangedAt. rewrite Ev3, Ev'. reflexivity. }
           rewrite <- Hsame. exact Hval.
Qed.

(** A successful commit is atomic in time.  However [updateOutputs] ends,
    the clock has ticked once if some output changed (by [deepEqual]) and
    not at all otherwise, and every variable has its old value and
    [value_at], or the one new clock value as [value_at].  When the output
    cells are distinct objects whose observers do not throw, it returns, and
    every output is clean and carries the computation's [cause_at]; a changed
    output holds its new value stamped with the new clock value, an unchanged
    one keeps value and [value_at]. *)
Theorem updateOutputs_commits_atomically
    (k : Kernel) (comp : cref) (c : Comp) (newOutputs : list (string * Value)) :
  k_comps k !! comp = Some c ->
  let changed := existsb (valueChangedAt k newOutputs) (c_outputs c) in
  let t := k_logicalClock k + 1 in
  ends (fun k' =>
          k_logicalClock k' = (if changed then t else k_logicalClock k) /\
          forall r v, k_vars k !! r = Some v ->
            exists v', k_vars k' !! r = Some v' /\
                       ((v_value_at v' = v_value_at v /\ v_result v' = v_result v) \/
                        (changed = true /\ v_value_at v' = t)))
       (updateOutputs comp newOutputs k) /\
  (NoDup (map snd (c_outputs c)) ->
   (forall o, In o (c_outputs c) -> exists v, k_vars k !! o.2 = Some v /\ quiet v) ->
   exists k',
     updateOutputs comp newOutputs k = Ok tt k' /\
     forall o v, In o (c_outputs c) -> k_vars k !! o.2 = Some v ->
       exists v', k_vars k' !! o.2 = Some v' /\
                  v_dirty v' = false /\ v_cause_at v' = c_cause_at c /\
                  if valueChangedAt k newOutputs o
                  then v_result v' = Success (outputOf newOutputs o.1) /\ v_value_at v' = t
                  else v_result v' = v_result v /\ v_value_at v' = v_value_at v).
Proof.
  intros Ec changed t.
  rewrite (updateOutputs_unfold comp newOutputs c k Ec). fold changed.
  split.
  - destruct changed eqn:Ech; unfold commitStart, nextLogicalClock; cbn [fst snd].
    + eapply ends_impl.
      * apply (forM_ends (stamped_step t (with_clock t k))).
        -- split; [reflexivity|apply heap_rel_refl, vstamped_refl].
        -- intros o ka _ Ha. apply commitStep_stamped. exact Ha.
      * intros k' [Hc Hv]. split; [exact Hc|].
        intros r v Ev. destruct (heap_rel_lookup _ _ _ _ _ Hv Ev) as (v' & Ev' & Hs).
        exists v'. split; [exact Ev'|]. destruct Hs as [Hs|Hs]; auto.
    + assert (Hun : forall o, In o (c_outputs c) -> valueChangedAt k newOutputs o = false).
      { intros o Hin. apply not_true_is_false. intros Ho.
        assert (changed = true); [|congruence].
        apply existsb_exists. exists o. auto. }
      eapply ends_impl.
      * apply (forM_ends (commit_step k)); [apply commit_step_refl|].
        intros o ka Hin Ha. apply commitStep_unchanged; auto.
      * intros k' (B & V & _). split; [unfold base0 in B; congruence|].
        intros r v Ev. destruct (heap_rel_lookup _ _ _ _ _ V Ev) as (v' & Ev' & Hv).
        exists v'. split; [exact Ev'|]. left. rewrite Hv. split; reflexivity.
  - intros Hnd Hq.
    set (st := commitStart k changed).
    assert (Hst : k_vars st.2 = k_vars k /\ k_comps st.2 = k_comps k /\
                  (changed = true -> st.1 = t)).
    { unfold st, commitStart. destruct changed; cbn; auto. split; [reflexivity|].
      split; [reflexivity|discriminate]. }
    destruct Hst as (Hv0 & Hc0 & Ht0).
    destruct (commit_loop comp newOutputs st.1 (c_cause_at c) (c_outputs c) st.2)
      as (k' & E & _ & _ & Hdone).
    { exists c. rewrite Hc0. auto. }
    { exact Hnd. }
    { intros o Hin. rewrite Hv0. apply Hq, Hin. }
    exists k'. split; [exact E|].
    intros o v Hin Ev. rewrite <- Hv0 in Ev.
    destruct (Hdone o v Hin Ev) as (v' & Ev' & Hd & Hc & Hval).
    exists v'. split; [exact Ev'|]. split; [exact Hd|]. split; [exact Hc|].
    assert (Hsame : valueChangedAt st.2 newOutputs o = valueChangedAt k newOutputs o).
    { unfold valueChangedAt. rewrite Hv0. reflexivity. }
    rewrite Hsame in Hval. destruct (valueChangedAt k newOutputs o) eqn:Eo; [|exact Hval].
    rewrite <- Ht0; [exact Hval|].
    apply existsb_exists. exists o. auto.
Qed.

Lemma updateOutputs_commits_atomically_witness :
  let changed := existsb (valueChangedAt rerunKernel [("y", VNum 11)]) (c_outputs rerunComp) in
  let t := k_logicalClock rerunKernel + 1 in
  ends (fun k' =>
          k_logicalClock k' = (if changed then t else k_logicalClock rerunKernel) /\
          forall r v, k_vars rerunKernel !! r = Some v ->
            exists v', k_vars k' !! r = Some v' /\
                       ((v_value_at v' = v_value_at v /\ v_result v' = v_result v) \/
                        (changed = true /\ v_value_at v' = t)))
       (updateOutputs 0%nat [("y", VNum 11)] rerunKernel) /\
  (NoDup (map snd (c_outputs rerunComp)) ->
   (forall o, In o (c_outputs rerunComp) ->
              exists v, k_vars rerunKernel !! o.2 = Some v /\ quiet v) ->
   exists k',
     updateOutputs 0%nat [("y", VNum 11)] rerunKernel = Ok tt k' /\
     forall o v, In o (c_outputs rerunComp) -> k_vars rerunKernel !! o.2 = Some v ->
       exists v', k_vars k' !! o.2 = Some v' /\
                  v_dirty v' = false /\ v_cause_at v' = c_cause_at rerunComp /\
                  if valueChangedAt rerunKernel [("y", VNum 11)] o
                  then v_result v' = Success (outputOf [("y", VNum 11)] o.1) /\ v_value_at v' = t
                  else v_result v' = v_result v /\ v_value_at v' = v_value_at v).
Proof.
  apply (updateOutputs_commits_atomically rerunKernel 0%nat rerunComp [("y", VNum 11)]).
  vm_compute. reflexivity.
Defined.

(** ** Rejected source updates (module_propagation.ts) *)

(** [updateSource] on an id that names no variable, or names a computed
    variable, throws -- after the clock has ticked: the state it leaves is the
    one it found with the clock one higher. *)
Theorem updateSource_rejected_still_ticks
    (variableId : string) (value : Value) (k : Kernel) :
  match lookupVar variableId k with
  | None =>
      updateSource variableId value k =
        Throw (JsError ("Variable " +:+ variableId +:+ " not found."))
              (with_clock (k_logicalClock k + 1) k)
  | Some x =>
      match k_vars k !! x with
      | Some v =>
          if isSome (v_producer v) then
            updateSource variableId value k =
              Throw (JsError ("Cannot update variable " +:+ variableId +:+
                              " directly as it is produced by a computation."))
                    (with_clock (k_logicalClock k + 1) k)
          else True
      | None => True
      end
  end.
Proof.
  unfold updateSource, _updateSource, lookupVar, bind, nextLogicalClock, _getVariable, gets.
  cbn [k_variables k_problem_variables with_clock k_vars].
  destruct (k_variables k !! variableId) as [x|].
  - change (k_vars (with_clock (k_logicalClock k + 1) k)) with (k_vars k).
    destruct (k_vars k !! x) as [v|]; [|exact I].
    destruct (isSome (v_producer v)); [reflexivity|exact I].
  - destruct (k_problem_variables k !! variableId) as [x|]; [|reflexivity].
    change (k_vars (with_clock (k_logicalClock k + 1) k)) with (k_vars k).
    destruct (k_vars k !! x) as [v|]; [|exact I].
    destruct (isSome (v_producer v)); [reflexivity|exact I].
Qed.

(** ** Output conflicts (module_definition.ts) *)

(** [getOutputConflictInfo] reports the first declared output that names an
    existing variable, in either table, with the id of its producer or
    ["source"]; it returns null only when no declared output names one. *)
Theorem getOutputConflictInfo_reports_first_conflict
    (outputs : list string) (k : Kernel) :
  match getOutputConflictInfo outputs k with
  | None =>
      forall out r, In out outputs -> lookupVar out k = Some r -> k_vars k !! r = None
  | Some (out, owner) =>
      exists pre post r existing,
        outputs = pre ++ out :: post /\
        lookupVar out k = Some r /\ k_vars k !! r = Some existing /\
        owner = match producerIdOf existing k with Some id => id | None => "source" end /\
        forall o r', In o pre -> lookupVar o k = Some r' -> k_vars k !! r' = None
  end.
Proof.
  induction outputs as [|out rest IH]; cbn [getOutputConflictInfo].
  - intros out r [].
  - destruct (lookupVar out k) as [r|] eqn:El.
    + destruct (k_vars k !! r) as [existing|] eqn:Ev.
      * exists [], rest, r, existing. repeat split; auto. intros o r' [].
      * destruct (getOutputConflictInfo rest k) as [[o owner]|].
        -- destruct IH as (pre & post & r0 & ex & E & El0 & Ev0 & Ho & Hpre).
           exists (out :: pre), post, r0, ex. split; [rewrite E; reflexivity|].
           repeat split; auto. intros o' r' [<-|Hin] Hl; [congruence|eauto].
        -- intros o' r' [<-|Hin] Hl; [congruence|eauto].
    + destruct (getOutputConflictInfo rest k) as [[o owner]|].
      * destruct IH as (pre & post & r0 & ex & E & El0 & Ev0 & Ho & Hpre).
        exists (out :: pre), post, r0, ex. split; [rewrite E; reflexivity|].
        repeat split; auto. intros o' r' [<-|Hin] Hl; [congruence|eauto].
      * intros o' r' [<-|Hin] Hl; [congruence|eauto].
Qed.

(** ** Observing and unsubscribing (module_core.ts, module_propagation.ts) *)

(** Two kernel states with the same graph: the same objects, each variable
    with the same producer, each computation with the same runtime inputs. *)
Definition sameShape (k k2 : Kernel) : Prop :=
  heap_rel (fun v v2 : Var => v_producer v2 = v_producer v) (k_vars k) (k_vars k2) /\
  heap_rel (fun c c2 : Comp => c_runtimeInputs c2 = c_runtimeInputs c)
           (k_comps k) (k_comps k2).

Lemma heap_rel_sym {A} (R R' : A -> A -> Prop) (m m' : gmap nat A) :
  (forall a b, R a b -> R' b a) -> heap_rel R m m' -> heap_rel R' m' m.
Proof. intros H Hm r. destruct (Hm r); constructor; auto. Qed.

Lemma heap_rel_None {A} (R : A -> A -> Prop) (m m' : gmap nat A) r :
  heap_rel R m m' -> m !! r = None -> m' !! r = None.
Proof. intros H E. specialize (H r). rewrite E in H. inversion H. reflexivity. Qed.

Lemma sameShape_refl k : sameShape k k.
Proof. split; apply heap_rel_refl; auto. Qed.

Lemma sameShape_sym k k2 : sameShape k k2 -> sameShape k2 k.
Proof.
  intros [HV HC]. split; (eapply heap_rel_sym; [|eassumption]); cbn; auto.
Qed.

Lemma sameShape_trans k1 k2 k3 : sameShape k1 k2 -> sameShape k2 k3 -> sameShape k1 k3.
Proof.
  intros [V1 C1] [V2 C2]. split.
  - eapply heap_rel_trans; [|exact V1|exact V2]. cbn. intros; congruence.
  - eapply heap_rel_trans; [|exact C1|exact C2]. cbn. intros; congruence.
Qed.

Lemma dyn_sameShape k k' : dyn_step k k' -> sameShape k k'.
Proof.
  intros (_ & HV & HC). split.
  - eapply heap_rel_impl; [|exact HV]. intros v v' H. rewrite H. reflexivity.
  - eapply heap_rel_impl; [|exact HC]. intros c c' H. rewrite H. reflexivity.
Qed.

(** [k'] is [k] after a step that added [d * nv r] to the [observeCount] of
    each variable [r] and [d * nc r] to that of each computation [r], and
    otherwise moved reactive fields only. *)
Definition obsShift (d : Z) (nv : nat -> Z) (nc : nat -> Z) (k k' : Kernel) : Prop :=
  dyn_step k k' /\
  (forall r v v', k_vars k !! r = Some v -> k_vars k' !! r = Some v' ->
                  v_observeCount v' = v_observeCount v + d * nv r) /\
  (forall r c c', k_comps k !! r = Some c -> k_comps k' !! r = Some c' ->
                  c_observeCount c' = c_observeCount c + d * nc r).

Definition ind (a : nat) : nat -> Z := fun r => if Nat.eqb r a then 1 else 0.

Lemma obsShift_refl d k : obsShift d (fun _ => 0) (fun _ => 0) k k.
Proof.
  split; [apply dyn_step_refl|]. split; intros r a a' E E'; rewrite E in E';
    injection E' as <-; lia.
Qed.

Lemma obsShift_trans d nv1 nc1 nv2 nc2 k1 k2 k3 :
  obsShift d nv1 nc1 k1 k2 -> obsShift d nv2 nc2 k2 k3 ->
  obsShift d (fun r => nv1 r + nv2 r) (fun r => nc1 r + nc2 r) k1 k3.
Proof.
  intros (D1 & V1 & C1) (D2 & V2 & C2). split; [eapply dyn_step_trans; eauto|]. split.
  - intros r v v3 E E3. destruct (dyn_step_var _ _ _ _ D1 E) as (v2 & E2 & _).
    rewrite (V2 r v2 v3 E2 E3), (V1 r v v2 E E2). lia.
  - intros r c c3 E E3. destruct (dyn_step_comp _ _ _ _ D1 E) as (c2 & E2 & _).
    rewrite (C2 r c2 c3 E2 E3), (C1 r c c2 E E2). lia.
Qed.

Lemma obsShift_ext d nv nc nv' nc' k k' :
  (forall r, nv' r = nv r) -> (forall r, nc' r = nc r) ->
  obsShift d nv nc k k' -> obsShift d nv' nc' k k'.
Proof.
  intros Hv Hc (D & V & C). split; [exact D|]. split.
  - intros r v v' E E'. rewrite Hv. eauto.
  - intros r c c' E E'. rewrite Hc. eauto.
Qed.

Lemma obsShift_var d x k :
  obsShift d (ind x) (fun _ => 0)
    k (updV x (fun v => set_v_observeCount (v_observeCount v + d) v) k).
Proof.
  split; [apply updV_dyn; intros v; destruct v; reflexivity|]. split.
  - intros r v v' E E'. rewrite k_vars_updV in E'. unfold ind.
    destruct (Nat.eqb_spec r x) as [->|Hne].
    + rewrite lookup_alter_eq, E in E'. injection E' as <-. cbn. lia.
    + rewrite lookup_alter_ne, E in E' by congruence. injection E' as <-. lia.
  - intros r c c' E E'. change (k_comps (updV x _ k)) with (k_comps k) in E'.
    rewrite E in E'. injection E' as <-. lia.
Qed.

Lemma obsShift_comp d p P k :
  k_comps k !! p = Some P ->
  obsShift d (fun _ => 0) (ind p) k (set_observeCount p (c_observeCount P + d) k).
Proof.
  intros Ep. split; [apply set_observeCount_dyn|]. split.
  - intros r v v' E E'. rewrite set_observeCount_vars, E in E'. injection E' as <-. lia.
  - intros r c c' E E'. unfold ind. destruct (Nat.eqb_spec r p) as [->|Hne].
    + pose proof (set_observeCount_spec p (c_observeCount P + d) k) as [_ H].
      specialize (H p). rewrite k_comps_updC, lookup_alter_eq, Ep, E' in H.
      cbn in H. inversion H as [a b Hctl|]; subst.
      assert (c = P) by congruence. subst c.
      unfold ctl in Hctl. rewrite Hctl. cbn. lia.
    + rewrite set_observeCount_other, E in E' by exact Hne. injection E' as <-. lia.
Qed.

(** The staleness test that ends a visit of [_propagateObserveCountUpward]. *)
Definition staleTail (producer : cref) (delta : Z) (k3 : Kernel) : option Kernel :=
  match k_comps k3 !! producer with
  | Some p' =>
      if (delta >? 0) && negb (c_dirty p') && isStale p' k3 then
        match maxCauseAt (c_runtimeInputs p') k3 with
        | Some maxInputCauseAt =>
            if maxInputCauseAt >? c_cause_at p'
            then _propagateCauseAtDownward producer maxInputCauseAt None false k3
            else Some k3
        | None => Some k3
        end
      else Some k3
  | None => Some k3
  end.

Lemma mark_obsShift t d k k' : mark_step t k k' -> obsShift d (fun _ => 0) (fun _ => 0) k k'.
Proof.
  intros (B & HV & HC). split.
  - split; [exact B|]. split.
    + eapply heap_rel_impl; [|exact HV]. intros v v' [H _]. unfold vdyn.
      rewrite H. destruct v; reflexivity.
    + eapply heap_rel_impl; [|exact HC]. intros c c' [H _]. unfold cdyn.
      rewrite H. destruct c; reflexivity.
  - split.
    + intros r v v' E E'. specialize (HV r). rewrite E, E' in HV.
      inversion HV as [a b [H _]|]; subst. rewrite H. cbn. lia.
    + intros r c c' E E'. specialize (HC r). rewrite E, E' in HC.
      inversion HC as [a b [H _]|]; subst. rewrite H. cbn. lia.
Qed.

Lemma staleTail_total producer delta k3 :
  exists k', staleTail producer delta k3 = Some k' /\
             obsShift delta (fun _ => 0) (fun _ => 0) k3 k'.
Proof.
  unfold staleTail.
  destruct (k_comps k3 !! producer) as [p'|]; [|eauto using obsShift_refl].
  destruct (_ && _); [|eauto using obsShift_refl].
  destruct (maxCauseAt _ _) as [m|]; [|eauto using obsShift_refl].
  destruct (_ >? _); [|eauto using obsShift_refl].
  destruct (propagateCauseAtDownward_total producer m None false k3) as (k' & E).
  exists k'. split; [exact E|]. eapply mark_obsShift.
  eapply propagateCauseAtDownward_mark. exact E.
Qed.

Lemma propagateObserveCountUpward_unfold fuel variable delta k :
  propagateObserveCountUpward_fuel (S fuel) variable delta k =
  if delta =? 0 then Some k
  else
    let k1 := updV variable (fun v => set_v_observeCount (v_observeCount v + delta) v) k in
    match k_vars k1 !! variable with
    | Some v =>
        match v_producer v with
        | Some producer =>
            match k_comps k1 !! producer with
            | Some p =>
                let k2 := set_observeCount producer (c_observeCount p + delta) k1 in
                match foldO (fun input k => propagateObserveCountUpward_fuel fuel input delta k)
                            (c_runtimeInputs p) k2 with
                | Some k3 => staleTail producer delta k3
                | None => None
                end
            | None => Some k1
            end
        | None => Some k1
        end
    | None => Some k1
    end.
Proof. reflexivity. Qed.

(** The visits of an upward propagation depend on the graph only: a run
    that returns fixes how often each object is visited, and any other run
    from a state with the same graph returns too, with the same visits. *)
Lemma propagateObserveCountUpward_linear :
  forall fuel x d k k',
    d <> 0 -> propagateObserveCountUpward_fuel fuel x d k = Some k' ->
    exists nv nc,
      obsShift d nv nc k k' /\
      forall d2 k2, d2 <> 0 -> sameShape k k2 ->
        exists k2', propagateObserveCountUpward_fuel fuel x d2 k2 = Some k2' /\
                    obsShift d2 nv nc k2 k2'.
Proof.
  induction fuel as [|fuel IH]; intros x d k k' Hd H; [discriminate|].
  rewrite propagateObserveCountUpward_unfold in H.
  destruct (Z.eqb_spec d 0) as [|_]; [contradiction|]. cbv zeta in H.
  pose proof (obsShift_var d x k) as S1.
  set (k1 := updV x (fun v => set_v_observeCount (v_observeCount v + d) v) k) in *.
  (* the second run, up to the same point *)
  assert (Hsecond : forall d2 k2, d2 <> 0 -> sameShape k k2 ->
            let k1' := updV x (fun v => set_v_observeCount (v_observeCount v + d2) v) k2 in
            propagateObserveCountUpward_fuel (S fuel) x d2 k2 =
              match k_vars k1' !! x with
              | Some v =>
                  match v_producer v with
                  | Some producer =>
                      match k_comps k1' !! producer with
                      | Some p =>
                          let k2' := set_observeCount producer (c_observeCount p + d2) k1' in
                          match foldO (fun input k =>
                                         propagateObserveCountUpward_fuel fuel input d2 k)
                                      (c_runtimeInputs p) k2' with
                          | Some k3 => staleTail producer d2 k3
                          | None => None
                          end
                      | None => Some k1'
                      end
                  | None => Some k1'
                  end
              | None => Some k1'
              end /\
            obsShift d2 (ind x) (fun _ => 0) k2 k1' /\ sameShape k1 k1').
  { intros d2 k2 Hd2 Hs k1'. split; [|split].
    - rewrite propagateObserveCountUpward_unfold.
      destruct (Z.eqb_spec d2 0); [contradiction|]. reflexivity.
    - apply obsShift_var.
    - eapply sameShape_trans; [apply sameShape_sym, dyn_sameShape, S1|].
      eapply sameShape_trans; [exact Hs|]. apply dyn_sameShape, obsShift_var. }
  destruct (k_vars k1 !! x) as [v|] eqn:Ev.
  2:{ injection H as <-. exists (ind x), (fun _ => 0). split; [exact S1|].
      intros d2 k2 Hd2 Hs. destruct (Hsecond d2 k2 Hd2 Hs) as (E2 & S2 & Hs1).
      cbv zeta in E2. destruct Hs1 as [HV1 _].
      rewrite (heap_rel_None _ _ _ _ HV1 Ev) in E2. eauto. }
  destruct (v_producer v) as [p|] eqn:Epr.
  2:{ injection H as <-. exists (ind x), (fun _ => 0). split; [exact S1|].
      intros d2 k2 Hd2 Hs. destruct (Hsecond d2 k2 Hd2 Hs) as (E2 & S2 & Hs1).
      cbv zeta in E2. destruct Hs1 as [HV1 _].
      destruct (heap_rel_lookup _ _ _ _ _ HV1 Ev) as (v2 & Ev2 & Hab).
      rewrite Ev2, Hab, Epr in E2. eauto. }
  destruct (k_comps k1 !! p) as [P|] eqn:EP.
  2:{ injection H as <-. exists (ind x), (fun _ => 0). split; [exact S1|].
      intros d2 k2 Hd2 Hs. destruct (Hsecond d2 k2 Hd2 Hs) as (E2 & S2 & Hs1).
      cbv zeta in E2. destruct Hs1 as [HV1 HC1].
      destruct (heap_rel_lookup _ _ _ _ _ HV1 Ev) as (v2 & Ev2 & Hab).
      rewrite Ev2, Hab, Epr in E2.
      rewrite (heap_rel_None _ _ _ _ HC1 EP) in E2. eauto. }
  cbv zeta in H.
  pose proof (obsShift_comp d p P k1 EP) as S2.
  set (k2a := set_observeCount p (c_observeCount P + d) k1) in *.
  (* the loop over the inputs *)
  assert (Hfold : forall l ka kb,
            foldO (fun input k => propagateObserveCountUpward_fuel fuel input d k) l ka
              = Some kb ->
            exists nv nc,
              obsShift d nv nc ka kb /\
              forall d2 ka2, d2 <> 0 -> sameShape ka ka2 ->
                exists kb2,
                  foldO (fun input k => propagateObserveCountUpward_fuel fuel input d2 k) l ka2
                    = Some kb2 /\
                  obsShift d2 nv nc ka2 kb2).
  { clear H. induction l as [|i l IHl]; intros ka kb Hf.
    - injection Hf as <-. exists (fun _ => 0), (fun _ => 0). split; [apply obsShift_refl|].
      intros d2 ka2 _ _. exists ka2. split; [reflexivity|apply obsShift_refl].
    - cbn [foldO] in Hf.
      destruct (propagateObserveCountUpward_fuel fuel i d ka) as [km|] eqn:Ei; [|discriminate].
      destruct (IH i d ka km Hd Ei) as (nv1 & nc1 & Sa & Ha).
      destruct (IHl km kb Hf) as (nv2 & nc2 & Sb & Hb).
      exists (fun r => nv1 r + nv2 r), (fun r => nc1 r + nc2 r).
      split; [eapply obsShift_trans; eauto|].
      intros d2 ka2 Hd2 Hs. destruct (Ha d2 ka2 Hd2 Hs) as (km2 & Ei2 & Sa2).
      destruct (Hb d2 km2 Hd2) as (kb2 & Ef2 & Sb2).
      { eapply sameShape_trans; [apply sameShape_sym, dyn_sameShape, Sa|].
        eapply sameShape_trans; [exact Hs|]. apply dyn_sameShape, Sa2. }
      exists kb2. split; [cbn [foldO]; rewrite Ei2; exact Ef2|].
      eapply obsShift_trans; eauto. }
  destruct (foldO _ (c_runtimeInputs P) k2a) as [k3|] eqn:Ef; [|discriminate].
  destruct (Hfold _ _ _ Ef) as (nvF & ncF & SF & HF).
  destruct (staleTail_total p d k3) as (k4 & E4 & S4).
  assert (k4 = k') by congruence. subst k4.
  exists (fun r => ind x r + nvF r), (fun r => ind p r + ncF r). split.
  - eapply obsShift_ext; [| |eapply obsShift_trans;
      [eapply obsShift_trans; [eapply obsShift_trans; [exact S1|exact S2]|exact SF]|exact S4]];
      intros r; cbn; lia.
  - intros d2 k2 Hd2 Hs. destruct (Hsecond d2 k2 Hd2 Hs) as (E2 & T1 & Hs1).
    cbv zeta in E2.
    set (k1' := updV x (fun v => set_v_observeCount (v_observeCount v + d2) v) k2) in *.
    pose proof Hs1 as [HV1 HC1].
    destruct (heap_rel_lookup _ _ _ _ _ HV1 Ev) as (v2 & Ev2 & Hab).
    rewrite Ev2, Hab, Epr in E2.
    destruct (heap_rel_lookup _ _ _ _ _ HC1 EP) as (P2 & EP2 & HP).
    rewrite EP2 in E2. cbv zeta in E2. rewrite HP in E2.
    pose proof (obsShift_comp d2 p P2 k1' EP2) as T2.
    set (k2b := set_observeCount p (c_observeCount P2 + d2) k1') in *.
    destruct (HF d2 k2b Hd2) as (k3b & Ef2 & TF).
    { eapply sameShape_trans; [apply sameShape_sym, dyn_sameShape, S2|].
      eapply sameShape_trans; [exact Hs1|]. apply dyn_sameShape, T2. }
    rewrite Ef2 in E2.
    destruct (staleTail_total p d2 k3b) as (k4b & E4b & T4).
    exists k4b. split; [rewrite E2; exact E4b|].
    eapply obsShift_ext; [| |eapply obsShift_trans;
      [eapply obsShift_trans; [eapply obsShift_trans; [exact T1|exact T2]|exact TF]|exact T4]];
      intros r; cbn; lia.
Qed.


(** The state of [_observe] after the callback was added and the count
    propagated, and the immediate notification that follows. *)
Definition notifyAtOnce (variable : vref) (callback : Observer) (k : Kernel) : Kernel :=
  match k_vars k !! variable with
  | Some v =>
      if negb (v_dirty v) then
        let k1 := with_calls (k_calls k ++ [(obs_id callback, v_id v, v_result v)]) k in
        match obs_run callback (v_result v) with
        | Some e => with_log (k_log k1 ++ [LogObserverFailed e]) k1
        | None => k1
        end
      else k
  | None => k
  end.

(** Acyclic upstream: the runtime inputs of a variable's producer rank
    below the variable. *)
Definition upwardRank (rank : vref -> nat) (k : Kernel) : Prop :=
  forall x v p P i,
    k_vars k !! x = Some v -> v_producer v = Some p -> k_comps k !! p = Some P ->
    In i (c_runtimeInputs P) -> (rank i < rank x)%nat.

Definition upwardRank_b (rank : vref -> nat) (k : Kernel) : bool :=
  forallb (fun xv : nat * Var =>
             match v_producer xv.2 with
             | Some p =>
                 match k_comps k !! p with
                 | Some P => forallb (fun i => (rank i <? rank xv.1)%nat) (c_runtimeInputs P)
                 | None => true
                 end
             | None => true
             end) (map_to_list (k_vars k)).

Lemma upwardRank_check rank k : upwardRank_b rank k = true -> upwardRank rank k.
Proof.
  intros H x v p P i Ev Ep EP Hin. pose proof (vars_forallb _ _ _ _ H Ev) as Hx.
  cbn in Hx. rewrite Ep, EP in Hx. rewrite forallb_forall in Hx.
  apply Nat.ltb_lt. apply Hx. exact Hin.
Qed.

Lemma sameShape_upwardRank rank k k2 :
  sameShape k k2 -> upwardRank rank k -> upwardRank rank k2.
Proof.
  intros [HV HC] H x v2 p P2 i Ev Ep EP Hin.
  destruct (heap_rel_lookup_r _ _ _ _ _ HV Ev) as (v & Ev0 & Hv).
  destruct (heap_rel_lookup_r _ _ _ _ _ HC EP) as (P & EP0 & HP).
  apply (H x v p P i Ev0); [congruence|exact EP0|rewrite <- HP; exact Hin].
Qed.

(** With an acyclic upstream, fuel above the rank of the variable is
    enough for [_propagateObserveCountUpward]. *)
Lemma propagateObserveCountUpward_terminates rank :
  forall fuel x d k,
    upwardRank rank k -> (rank x < fuel)%nat ->
    exists k', propagateObserveCountUpward_fuel fuel x d k = Some k'.
Proof.
  induction fuel as [|fuel IH]; intros x d k Hr Hf; [lia|].
  rewrite propagateObserveCountUpward_unfold.
  destruct (d =? 0); [eauto|]. cbv zeta.
  pose proof (obsShift_var d x k) as S1.
  set (k1 := updV x (fun v => set_v_observeCount (v_observeCount v + d) v) k) in *.
  assert (Hr1 : upwardRank rank k1).
  { eapply sameShape_upwardRank; [apply dyn_sameShape, S1|exact Hr]. }
  destruct (k_vars k1 !! x) as [v|] eqn:Ev; [|eauto].
  destruct (v_producer v) as [p|] eqn:Ep; [|eauto].
  destruct (k_comps k1 !! p) as [P|] eqn:EP; [|eauto].
  pose proof (obsShift_comp d p P k1 EP) as S2.
  set (k2 := set_observeCount p (c_observeCount P + d) k1) in *.
  destruct (foldO_total (fun kx => sameShape k1 kx)
              (fun input k => propagateObserveCountUpward_fuel fuel input d k)
              (c_runtimeInputs P) k2) as (k3 & E3 & _).
  - apply dyn_sameShape, S2.
  - intros i kx Hin Hs.
    destruct (IH i d kx) as (ky & Ey).
    + eapply sameShape_upwardRank; eauto.
    + specialize (Hr1 x v p P i Ev Ep EP Hin). lia.
    + exists ky. split; [exact Ey|].
      destruct (Z.eq_dec d 0) as [->|Hd].
      * destruct fuel; [discriminate|]. rewrite propagateObserveCountUpward_unfold in Ey.
        cbn in Ey. injection Ey as <-. exact Hs.
      * destruct (propagateObserveCountUpward_linear fuel i d kx ky Hd Ey)
          as (nv & nc & (D & _) & _).
        eapply sameShape_trans; [exact Hs|]. apply dyn_sameShape, D.
  - rewrite E3. destruct (staleTail_total p d k3) as (k4 & E4 & _). eauto.
Qed.

Lemma _observe_unfold fuel variableId callback k x kb :
  lookupVar variableId k = Some x ->
  propagateObserveCountUpward_fuel fuel x 1
    (updV x (fun v => set_v_observers (add_observer callback (v_observers v)) v) k) = Some kb ->
  _observe fuel variableId callback k = Ok x (notifyAtOnce x callback kb).
Proof.
  intros Hl Eb.
  assert (G : (modify (updV x (fun v => set_v_observers
                                          (add_observer callback (v_observers v)) v)) ;;
               _propagateObserveCountUpward fuel x 1 ;;
               (fun k =>
                  match k_vars k !! x with
                  | Some v =>
                      if negb (v_dirty v) then
                        let k1 := with_calls (k_calls k ++ [(obs_id callback, v_id v, v_result v)])
                                    k in
                        match obs_run callback (v_result v) with
                        | Some e => Ok x (with_log (k_log k1 ++ [LogObserverFailed e]) k1)
                        | None => Ok x k1
                        end
                      else Ok x k
                  | None => Ok x k
                  end)) k = Ok x (notifyAtOnce x callback kb)).
  { unfold bind, modify, _propagateObserveCountUpward, liftO. rewrite Eb.
    unfold notifyAtOnce. destruct (k_vars kb !! x) as [v|]; [|reflexivity].
    destruct (negb (v_dirty v)); [|reflexivity].
    cbv zeta. destruct (obs_run callback (v_result v)); reflexivity. }
  unfold lookupVar in Hl. unfold _observe, bind at 1, _getVariable.
  destruct (k_variables k !! variableId) as [r|].
  - injection Hl as ->. exact G.
  - rewrite Hl. exact G.
Qed.

(** What [_observe] does besides counting.  On a known variable whose
    upstream is acyclic it returns the variable; it ticks no clock and
    changes no result and no [value_at]; when the variable is clean it calls
    the new callback, once, with the current result, and when the variable is
    dirty it calls nobody. *)
Theorem observe_notifies_at_once
    (rank : vref -> nat) (fuel : nat) (variableId : string) (callback : Observer)
    (k : Kernel) (x : vref) :
  lookupVar variableId k = Some x ->
  upwardRank rank k -> (rank x < fuel)%nat ->
  exists k1,
    _observe fuel variableId callback k = Ok x k1 /\
    k_logicalClock k1 = k_logicalClock k /\
    (forall r v, k_vars k !! r = Some v ->
       exists v', k_vars k1 !! r = Some v' /\
                  v_result v' = v_result v /\ v_value_at v' = v_value_at v) /\
    (forall v', k_vars k1 !! x = Some v' ->
       k_calls k1 = k_calls k ++
                    (if v_dirty v' then [] else [(obs_id callback, v_id v', v_result v')])).
Proof.
  intros Hl Hr Hf.
  set (ka := updV x (fun v => set_v_observers (add_observer callback (v_observers v)) v) k).
  assert (Hka : sameShape k ka).
  { split.
    - unfold ka. rewrite k_vars_updV. apply heap_rel_alter; [auto|]. intros v _. reflexivity.
    - apply heap_rel_refl. auto. }
  destruct (propagateObserveCountUpward_terminates rank fuel x 1 ka) as (kb & Eb);
    [eapply sameShape_upwardRank; eauto|exact Hf|].
  exists (notifyAtOnce x callback kb).
  split; [apply _observe_unfold; assumption|].
  assert (D : dyn_step ka kb).
  { destruct (propagateObserveCountUpward_linear fuel x 1 ka kb) as (nv & nc & (D & _) & _);
      [lia|exact Eb|exact D]. }
  assert (Hn : k_vars (notifyAtOnce x callback kb) = k_vars kb /\
               k_logicalClock (notifyAtOnce x callback kb) = k_logicalClock kb).
  { unfold notifyAtOnce. destruct (k_vars kb !! x) as [v|]; [|auto].
    destruct (negb (v_dirty v)); [|auto]. destruct (obs_run callback (v_result v)); auto. }
  destruct Hn as [Hnv Hnc]. split; [|split].
  - rewrite Hnc, (dyn_step_clock _ _ D). reflexivity.
  - intros r v Ev. rewrite Hnv.
    assert (Ea : exists va, k_vars ka !! r = Some va /\ v_result va = v_result v /\
                            v_value_at va = v_value_at v).
    { unfold ka. rewrite k_vars_updV. destruct (decide (r = x)) as [->|Hne].
      - rewrite lookup_alter_eq, Ev. eexists. split; [reflexivity|]. split; reflexivity.
      - rewrite lookup_alter_ne, Ev by congruence. eauto. }
    destruct Ea as (va & Ea & Hres & Hva).
    destruct (dyn_step_var _ _ _ _ D Ea) as (v' & E' & Hd).
    exists v'. split; [exact E'|]. unfold vdyn in Hd. rewrite Hd. cbn. auto.
  - intros v' Ev'. rewrite Hnv in Ev'. unfold notifyAtOnce. rewrite Ev'.
    assert (Hcalls : k_calls kb = k_calls k) by (rewrite (dyn_step_calls _ _ D); reflexivity).
    destruct (v_dirty v'); cbn [negb].
    + rewrite app_nil_r. exact Hcalls.
    + destruct (obs_run callback (v_result v')); cbn; rewrite Hcalls; reflexivity.
Qed.

Lemma observe_notifies_at_once_witness :
  exists k1,
    _observe 8 "x" (silentObserver 7) unobservedChainKernel = Ok 0%nat k1 /\
    k_logicalClock k1 = k_logicalClock unobservedChainKernel /\
    (forall r v, k_vars unobservedChainKernel !! r = Some v ->
       exists v', k_vars k1 !! r = Some v' /\
                  v_result v' = v_result v /\ v_value_at v' = v_value_at v) /\
    (forall v', k_vars k1 !! 0%nat = Some v' ->
       k_calls k1 = k_calls unobservedChainKernel ++
                    (if v_dirty v' then []
                     else [(obs_id (silentObserver 7), v_id v', v_result v')])).
Proof.
  apply (observe_notifies_at_once (fun r => r) 8 "x" (silentObserver 7)
           unobservedChainKernel 0%nat).
  - vm_compute. reflexivity.
  - apply upwardRank_check. vm_compute. reflexivity.
  - lia.
Defined.



(** ** INV-C2 under downward propagation (computation.ts, module_propagation.ts) *)

(** [assertInvariantC2] of a computation object, [true] when it does not
    throw: [cause_at] is not below the largest [cause_at] of the runtime
    inputs, and every output carries the computation's [cause_at]. *)
Definition assertInvariantC2 (c : Comp) (k : Kernel) : bool :=
  (if (0 <? length (c_runtimeInputs c))%nat then
     match maxCauseAt (c_runtimeInputs c) k with
     | Some expected => negb (c_cause_at c <? expected)
     | None => true
     end
   else true) &&
  forallb (fun o : string * vref =>
             match k_vars k !! o.2 with
             | Some output => v_cause_at output =? c_cause_at c
             | None => true
             end) (c_outputs c).

Definition holdsInvC2 (k : Kernel) : Prop :=
  forall r c, k_comps k !! r = Some c -> assertInvariantC2 c k = true.

(** The back references of the graph: a runtime input lists the computation
    among its dependents, and an output names the computation as its
    producer. *)
Definition backReferences (k : Kernel) : Prop :=
  (forall d D x v, k_comps k !! d = Some D -> In x (c_runtimeInputs D) ->
                   k_vars k !! x = Some v -> In d (v_dependents v)) /\
  (forall p P o ov, k_comps k !! p = Some P -> In o (c_outputs P) ->
                    k_vars k !! o.2 = Some ov -> v_producer ov = Some p).

Definition backReferences_b (k : Kernel) : bool :=
  forallb (fun rc : nat * Comp =>
             forallb (fun x => match k_vars k !! x with
                               | Some v => existsb (Nat.eqb rc.1) (v_dependents v)
                               | None => true
                               end) (c_runtimeInputs rc.2) &&
             forallb (fun o : string * vref =>
                        match k_vars k !! o.2 with
                        | Some ov => match v_producer ov with
                                     | Some p => Nat.eqb p rc.1
                                     | None => false
                                     end
                        | None => true
                        end) (c_outputs rc.2))
          (map_to_list (k_comps k)).

Definition holdsInvC2_b (k : Kernel) : bool :=
  forallb (fun rc : nat * Comp => assertInvariantC2 rc.2 k) (map_to_list (k_comps k)).

Lemma backReferences_check k : backReferences_b k = true -> backReferences k.
Proof.
  intros H. split.
  - intros d D x v Ed Hin Ev. pose proof (comps_forallb _ _ _ _ H Ed) as Hd.
    cbn in Hd. apply andb_true_iff in Hd as [Hd _]. rewrite forallb_forall in Hd.
    specialize (Hd x Hin). rewrite Ev in Hd. apply existsb_eqb_In. exact Hd.
  - intros p P o ov Ep Hin Ev. pose proof (comps_forallb _ _ _ _ H Ep) as Hp.
    cbn in Hp. apply andb_true_iff in Hp as [_ Hp]. rewrite forallb_forall in Hp.
    specialize (Hp o Hin). rewrite Ev in Hp. destruct (v_producer ov) as [q|]; [|discriminate].
    apply Nat.eqb_eq in Hp. congruence.
Qed.

Lemma holdsInvC2_check k : holdsInvC2_b k = true -> holdsInvC2 k.
Proof. intros H r c E. exact (comps_forallb _ _ _ _ H E). Qed.

Lemma maxCauseAt_spec inputs k :
  match maxCauseAt inputs k with
  | Some m => (forall i vi, In i inputs -> k_vars k !! i = Some vi -> v_cause_at vi <= m) /\
              exists i vi, In i inputs /\ k_vars k !! i = Some vi /\ v_cause_at vi = m
  | None => forall i, In i inputs -> k_vars k !! i = None
  end.
Proof.
  unfold maxCauseAt.
  set (f := fun (acc : option Z) (input : vref) =>
              match k_vars k !! input with
              | Some v => match acc with
                          | Some m => Some (Z.max m (v_cause_at v))
                          | None => Some (v_cause_at v)
                          end
              | None => acc
              end).
  assert (G : forall l (seen : list vref) acc,
             match acc with
             | Some m => (forall i vi, In i seen -> k_vars k !! i = Some vi ->
                                       v_cause_at vi <= m) /\
                         exists i vi, In i seen /\ k_vars k !! i = Some vi /\ v_cause_at vi = m
             | None => forall i, In i seen -> k_vars k !! i = None
             end ->
             match fold_left f l acc with
             | Some m => (forall i vi, In i (seen ++ l) -> k_vars k !! i = Some vi ->
                                       v_cause_at vi <= m) /\
                         exists i vi, In i (seen ++ l) /\ k_vars k !! i = Some vi /\
                                      v_cause_at vi = m
             | None => forall i, In i (seen ++ l) -> k_vars k !! i = None
             end).
  { induction l as [|x l IH]; intros seen acc Hacc.
    - cbn [fold_left]. rewrite app_nil_r. exact Hacc.
    - cbn [fold_left].
      replace (seen ++ x :: l) with ((seen ++ [x]) ++ l) by (rewrite <- app_assoc; reflexivity).
      apply IH. unfold f. destruct (k_vars k !! x) as [v|] eqn:Ex.
      + destruct acc as [m|].
        * destruct Hacc as (Hle & i0 & v0 & Hi0 & Ev0 & Hm). split.
          -- intros i vi Hin Ei. apply in_app_or in Hin as [Hin|[<-|[]]].
             ++ specialize (Hle i vi Hin Ei). lia.
             ++ assert (vi = v) by congruence. subst vi. lia.
          -- destruct (Z.max_spec m (v_cause_at v)) as [[_ ->]|[_ ->]].
             ++ exists x, v. split; [apply in_or_app; right; left; reflexivity|auto].
             ++ exists i0, v0. split; [apply in_or_app; left; exact Hi0|auto].
        * split.
          -- intros i vi Hin Ei. apply in_app_or in Hin as [Hin|[<-|[]]].
             ++ rewrite (Hacc i Hin) in Ei. discriminate.
             ++ assert (vi = v) by congruence. subst vi. lia.
          -- exists x, v. split; [apply in_or_app; right; left; reflexivity|auto].
      + destruct acc as [m|].
        * destruct Hacc as (Hle & i0 & v0 & Hi0 & Ev0 & Hm). split.
          -- intros i vi Hin Ei. apply in_app_or in Hin as [Hin|[<-|[]]].
             ++ exact (Hle i vi Hin Ei).
             ++ congruence.
          -- exists i0, v0. split; [apply in_or_app; left; exact Hi0|auto].
        * intros i Hin. apply in_app_or in Hin as [Hin|[<-|[]]]; auto. }
  apply (G inputs [] None). intros i [].
Qed.

Lemma assertInvariantC2_spec c k :
  assertInvariantC2 c k = true <->
  (forall i vi, In i (c_runtimeInputs c) -> k_vars k !! i = Some vi ->
                v_cause_at vi <= c_cause_at c) /\
  (forall o ov, In o (c_outputs c) -> k_vars k !! o.2 = Some ov ->
                v_cause_at ov = c_cause_at c).
Proof.
  unfold assertInvariantC2. rewrite andb_true_iff.
  assert (Hin : (if (0 <? length (c_runtimeInputs c))%nat then
                   match maxCauseAt (c_runtimeInputs c) k with
                   | Some expected => negb (c_cause_at c <? expected)
                   | None => true
                   end
                 else true) = true <->
                forall i vi, In i (c_runtimeInputs c) -> k_vars k !! i = Some vi ->
                             v_cause_at vi <= c_cause_at c).
  { destruct (c_runtimeInputs c) as [|i0 rest] eqn:El.
    - cbn. split; [intros _ i vi []|reflexivity].
    - change (0 <? length (i0 :: rest))%nat with true. cbv iota.
      pose proof (maxCauseAt_spec (i0 :: rest) k) as Hm.
      destruct (maxCauseAt (i0 :: rest) k) as [m|].
      + destruct Hm as (Hle & i & vi & Hi & Ei & Hmi).
        rewrite negb_true_iff, Z.ltb_ge. split.
        * intros H j vj Hj Ej. specialize (Hle j vj Hj Ej). lia.
        * intros H. rewrite <- Hmi. eauto.
      + split; [|reflexivity]. intros _ j vj Hj Ej. rewrite (Hm j Hj) in Ej. discriminate. }
  rewrite Hin, forallb_forall. split.
  - intros [H1 H2]. split; [exact H1|]. intros o ov Ho Eo. specialize (H2 o Ho).
    rewrite Eo in H2. apply Z.eqb_eq. exact H2.
  - intros [H1 H2]. split; [exact H1|]. intros o Ho.
    destruct (k_vars k !! o.2) as [ov|] eqn:Eo; [|reflexivity].
    apply Z.eqb_eq. eauto.
Qed.

Lemma mark_comp_fwd t k k' p P :
  mark_step t k k' -> k_comps k !! p = Some P ->
  exists P', k_comps k' !! p = Some P' /\ c_outputs P' = c_outputs P /\
             c_runtimeInputs P' = c_runtimeInputs P /\
             (c_cause_at P' = c_cause_at P \/ (c_cause_at P < t /\ c_cause_at P' = t)).
Proof.
  intros (_ & _ & H) E. destruct (heap_rel_lookup _ _ _ _ _ H E) as (P' & E' & (Hc & A & _)).
  exists P'. split; [exact E'|]. split; [rewrite Hc; reflexivity|].
  split; [rewrite Hc; reflexivity|]. destruct A as [A|(A1 & A2 & _)]; auto.
Qed.

Lemma mark_comp_bwd t k k' p P' :
  mark_step t k k' -> k_comps k' !! p = Some P' ->
  exists P, k_comps k !! p = Some P /\ c_outputs P' = c_outputs P /\
            c_runtimeInputs P' = c_runtimeInputs P /\
            (c_cause_at P' = c_cause_at P \/ (c_cause_at P < t /\ c_cause_at P' = t)).
Proof.
  intros (_ & _ & H) E. destruct (heap_rel_lookup_r _ _ _ _ _ H E) as (P & E0 & (Hc & A & _)).
  exists P. split; [exact E0|]. split; [rewrite Hc; reflexivity|].
  split; [rewrite Hc; reflexivity|]. destruct A as [A|(A1 & A2 & _)]; auto.
Qed.

Lemma mark_var_fwd t k k' x v :
  mark_step t k k' -> k_vars k !! x = Some v ->
  exists v', k_vars k' !! x = Some v' /\ v_dependents v' = v_dependents v /\
             v_producer v' = v_producer v.
Proof.
  intros (_ & H & _) E. destruct (heap_rel_lookup _ _ _ _ _ H E) as (v' & E' & (Hv & _)).
  exists v'. split; [exact E'|]. rewrite Hv. split; reflexivity.
Qed.

Lemma mark_var_bwd t k k' x v' :
  mark_step t k k' -> k_vars k' !! x = Some v' ->
  exists v, k_vars k !! x = Some v /\ v_dependents v' = v_dependents v /\
            v_producer v' = v_producer v.
Proof.
  intros (_ & H & _) E. destruct (heap_rel_lookup_r _ _ _ _ _ H E) as (v & E0 & (Hv & _)).
  exists v. split; [exact E0|]. rewrite Hv. split; reflexivity.
Qed.

(** What a propagation with timestamp [t] has done between [k] and [k']:
    it marked only; a variable whose [cause_at] moved is at [t], is an
    output of a computation at [t], and has all its dependents at [t] or
    later; and all outputs of a computation whose [cause_at] moved are at
    [t]. *)
Definition spread (t : Z) (k k' : Kernel) : Prop :=
  mark_step t k k' /\
  (forall x v v', k_vars k !! x = Some v -> k_vars k' !! x = Some v' ->
                  v_cause_at v' = v_cause_at v \/ v_cause_at v' = t) /\
  (forall p P P', k_comps k !! p = Some P -> k_comps k' !! p = Some P' ->
                  c_cause_at P' <> c_cause_at P ->
                  forall o ov', In o (c_outputs P) -> k_vars k' !! o.2 = Some ov' ->
                                v_cause_at ov' = t) /\
  (forall x v v', k_vars k !! x = Some v -> k_vars k' !! x = Some v' ->
                  v_cause_at v' <> v_cause_at v ->
                  (forall d D', In d (v_dependents v) -> k_comps k' !! d = Some D' ->
                                t <= c_cause_at D') /\
                  (exists p P' o, k_comps k' !! p = Some P' /\ In o (c_outputs P') /\
                                  o.2 = x /\ c_cause_at P' = t)).

Lemma spread_refl t k : spread t k k.
Proof.
  split; [apply mark_step_refl|]. split; [|split].
  - intros x v v' E E'. left. congruence.
  - intros p P P' E E' Hne. congruence.
  - intros x v v' E E' Hne. congruence.
Qed.

Lemma quiet_spread t k k' :
  mark_step t k k' -> k_vars k' = k_vars k -> causeMap k' = causeMap k -> spread t k k'.
Proof.
  intros M HV HC. split; [exact M|]. split; [|split].
  - intros x v v' E E'. left. rewrite HV in E'. congruence.
  - intros p P P' E E' Hne. exfalso. apply Hne.
    assert (H : causeMap k' !! p = causeMap k !! p) by (rewrite HC; reflexivity).
    unfold causeMap in H. rewrite !lookup_fmap, E, E' in H. cbn in H. congruence.
  - intros x v v' E E' Hne. rewrite HV in E'. congruence.
Qed.

Lemma spread_trans t k1 k2 k3 : spread t k1 k2 -> spread t k2 k3 -> spread t k1 k3.
Proof.
  intros (M1 & V1 & A1 & B1) (M2 & V2 & A2 & B2).
  split; [eapply mark_step_trans; eauto|]. split; [|split].
  - intros x v1 v3 E1 E3. destruct (mark_var_fwd _ _ _ _ _ M1 E1) as (v2 & E2 & _).
    destruct (V1 _ _ _ E1 E2), (V2 _ _ _ E2 E3); [left|right|right|right]; congruence.
  - intros p P1 P3 E1 E3 Hne o ov3 Hin Eo3.
    destruct (mark_comp_fwd _ _ _ _ _ M1 E1) as (P2 & E2 & Ho2 & _ & _).
    destruct (mark_var_bwd _ _ _ _ _ M2 Eo3) as (ov2 & Eo2 & _).
    destruct (Z.eq_dec (c_cause_at P2) (c_cause_at P1)) as [He|Hn2].
    + refine (A2 p P2 P3 E2 E3 _ o ov3 _ Eo3); [congruence|rewrite Ho2; exact Hin].
    + pose proof (A1 p P1 P2 E1 E2 Hn2 o ov2 Hin Eo2) as Ht.
      destruct (V2 _ _ _ Eo2 Eo3); congruence.
  - intros x v1 v3 E1 E3 Hne.
    destruct (mark_var_fwd _ _ _ _ _ M1 E1) as (v2 & E2 & Hd2 & _).
    destruct (Z.eq_dec (v_cause_at v2) (v_cause_at v1)) as [He|Hn2].
    + destruct (B2 x v2 v3 E2 E3) as [D O]; [congruence|]. split; [|exact O].
      intros d D' Hin. apply D. rewrite Hd2. exact Hin.
    + destruct (B1 x v1 v2 E1 E2 Hn2) as [D (p & P2 & o & Ep2 & Hin & Hx & Hc)]. split.
      * intros d D3 Hd Ed3. destruct (mark_comp_bwd _ _ _ _ _ M2 Ed3) as (D2 & Ed2 & _ & _ & A).
        specialize (D d D2 Hd Ed2). destruct A as [A|[A1' A2']]; lia.
      * destruct (mark_comp_fwd _ _ _ _ _ M2 Ep2) as (P3 & Ep3 & Ho3 & _ & A).
        exists p, P3, o. split; [exact Ep3|]. split; [rewrite Ho3; exact Hin|].
        split; [exact Hx|]. destruct A as [A|[A1' A2']]; lia.
Qed.

Lemma raise_head_at t comp c k :
  k_comps k !! comp = Some c ->
  k_vars (set_dirty comp true (updateCauseAt comp t k)) = k_vars k /\
  (exists c3, k_comps (set_dirty comp true (updateCauseAt comp t k)) !! comp = Some c3 /\
              c_cause_at c3 = t /\ c_outputs c3 = c_outputs c) /\
  (forall r, r <> comp ->
             k_comps (set_dirty comp true (updateCauseAt comp t k)) !! r = k_comps k !! r).
Proof.
  intros Ec. unfold updateCauseAt. split; [|split].
  - rewrite set_dirty_vars, set_cause_at_vars. reflexivity.
  - destruct (set_cause_at_comp comp t k c Ec) as (c2 & E2 & Hc2 & _ & Ho2 & _).
    destruct (set_dirty_result comp true c2 _ E2) as (c3 & E3 & _ & Hctl).
    exists c3. split; [exact E3|]. unfold ctl in Hctl. rewrite Hctl. cbn.
    split; [exact Hc2|exact Ho2].
  - intros r Hne. rewrite set_dirty_other, set_cause_at_other by exact Hne. reflexivity.
Qed.

Lemma propagateCauseAtDownward_spread t :
  forall fuel comp src nd k k',
    propagateCauseAtDownward_fuel fuel comp t src nd k = Some k' ->
    spread t k k' /\ (forall c', k_comps k' !! comp = Some c' -> t <= c_cause_at c').
Proof.
  induction fuel as [|fuel IH]; intros comp src nd k k' H; [discriminate|].
  cbn [propagateCauseAtDownward_fuel] in H.
  set (k1 := tryIncrementDirtyInputCount comp src nd k) in *.
  assert (H01 : spread t k k1).
  { apply quiet_spread; [apply tryIncrementDirtyInputCount_mark| |].
    - apply tryIncrementDirtyInputCount_vars.
    - apply tryIncrementDirtyInputCount_causeMap. }
  destruct (k_comps k1 !! comp) as [c|] eqn:Ec.
  2:{ injection H as <-. split; [exact H01|]. intros c' E. congruence. }
  destruct (Z.leb_spec t (c_cause_at c)) as [Hle|Hlt].
  { injection H as <-. split; [exact H01|]. intros c' E. congruence. }
  destruct (raise_head_at t comp c k1 Ec) as (HV3 & (c3 & Ec3 & Hc3 & Ho3) & Hoth3).
  pose proof (raise_head_mark t comp c k1 Ec Hlt) as M13.
  set (k3 := set_dirty comp true (updateCauseAt comp t k1)) in *.
  (* the loop over the dependents of one output *)
  assert (Hinner : forall (x : vref) (b : bool) ds kx ky,
            foldO (fun downstreamComp k =>
                     propagateCauseAtDownward_fuel fuel downstreamComp t (Some x) b k)
                  ds kx = Some ky ->
            spread t kx ky /\
            forall d D', In d ds -> k_comps ky !! d = Some D' -> t <= c_cause_at D').
  { intros x b. induction ds as [|d ds IHd]; intros kx ky Hf.
    - injection Hf as <-. split; [apply spread_refl|]. intros d D' [].
    - cbn [foldO] in Hf.
      destruct (propagateCauseAtDownward_fuel fuel d t (Some x) b kx) as [km|] eqn:Ed;
        [|discriminate].
      destruct (IH _ _ _ _ _ Ed) as [Sd Td]. destruct (IHd _ _ Hf) as [Sr Tr].
      split; [eapply spread_trans; eauto|].
      intros d' D' [<-|Hin] ED; [|eauto].
      destruct Sr as (Mr & _).
      destruct (mark_comp_bwd _ _ _ _ _ Mr ED) as (Dm & Em & _ & _ & A).
      specialize (Td Dm Em). destruct A as [A|[A1 A2]]; lia. }
  (* the loop over the outputs *)
  assert (Houter : forall outs ka kb,
            (exists ca, k_comps ka !! comp = Some ca /\ c_cause_at ca = t /\
                        c_outputs ca = c_outputs c) ->
            (forall o, In o outs -> In o (c_outputs c)) ->
            foldO (fun (o : string * vref) k =>
                     match k_vars k !! o.2, k_comps k !! comp with
                     | Some output, Some c' =>
                         foldO (fun downstreamComp k =>
                                  propagateCauseAtDownward_fuel fuel downstreamComp t
                                    (Some o.2) (negb (v_dirty output)) k)
                               (v_dependents output)
                               (updV o.2 (fun v => set_v_dirty true
                                                     (set_v_cause_at (c_cause_at c') v)) k)
                     | _, _ => Some k
                     end) outs ka = Some kb ->
            spread t ka kb /\
            forall o ov', In o outs -> k_vars kb !! o.2 = Some ov' -> v_cause_at ov' = t).
  { induction outs as [|o outs IHo]; intros ka kb (ca & Eca & Hca & Hoa) Hsub Hf.
    - injection Hf as <-. split; [apply spread_refl|]. intros o ov' [].
    - cbn [foldO] in Hf. rewrite Eca in Hf.
      destruct (k_vars ka !! o.2) as [output|] eqn:Eo.
      + set (kc := updV o.2 (fun v => set_v_dirty true (set_v_cause_at (c_cause_at ca) v)) ka)
          in *.
        destruct (foldO _ (v_dependents output) kc) as [kd|] eqn:Ein; [|discriminate].
        destruct (Hinner _ _ _ _ _ Ein) as [Scd Tcd].
        assert (Mac : mark_step t ka kc).
        { split; [reflexivity|]. split.
          - unfold kc. rewrite k_vars_updV. apply heap_rel_alter; [apply vmark_refl|].
            intros v _. split; [destruct v; reflexivity|right; reflexivity].
          - apply heap_rel_refl, cmark_refl. }
        assert (Eoc : k_vars kc !! o.2 =
                      Some (set_v_dirty true (set_v_cause_at (c_cause_at ca) output))).
        { unfold kc. rewrite k_vars_updV, lookup_alter_eq, Eo. reflexivity. }
        assert (Hothc : forall x, x <> o.2 -> k_vars kc !! x = k_vars ka !! x).
        { intros x Hne. unfold kc. rewrite k_vars_updV, lookup_alter_ne by congruence.
          reflexivity. }
        pose proof Scd as (Mcd & Vcd & Acd & Bcd).
        assert (Sad : spread t ka kd).
        { split; [eapply mark_step_trans; eauto|]. split; [|split].
          - intros x v v' E E'. destruct (decide (x = o.2)) as [->|Hne].
            + right. destruct (Vcd _ _ _ Eoc E') as [He|He]; rewrite He; [cbn; exact Hca|
                reflexivity].
            + apply (Vcd x v v'); [rewrite Hothc by exact Hne; exact E|exact E'].
          - intros p P P' E E'. apply (Acd p P P'); [exact E|exact E'].
          - intros x v v' E E' Hne. destruct (decide (x = o.2)) as [->|Hnx].
            + assert (v = output) by congruence. subst v. split.
              * intros d D' Hd ED. eapply Tcd; eauto.
              * destruct (mark_comp_fwd _ _ _ _ _ Mcd Eca) as (cd & Ecd & Hod & _ & A).
                exists comp, cd, o. split; [exact Ecd|].
                split; [rewrite Hod, Hoa; apply Hsub; left; reflexivity|].
                split; [reflexivity|]. destruct A as [A|[A1 A2]]; lia.
            + apply (Bcd x v v'); [rewrite Hothc by exact Hnx; exact E|exact E'|exact Hne]. }
        destruct (mark_comp_fwd _ _ _ _ _ (proj1 Sad) Eca) as (cd & Ecd & Hod & _ & A).
        destruct (IHo kd kb) as [Sdb Tdb].
        { exists cd. split; [exact Ecd|]. split; [destruct A as [A|[A1 A2]]; lia|congruence]. }
        { intros o' Ho'. apply Hsub. right. exact Ho'. }
        { exact Hf. }
        split; [eapply spread_trans; eauto|].
        intros o' ov' [<-|Hin] Eov; [|eauto].
        destruct Sdb as (Mdb & Vdb & _).
        destruct (mark_var_bwd _ _ _ _ _ Mdb Eov) as (ovd & Eovd & _).
        destruct (Vcd _ _ _ Eoc Eovd) as [He|He]; cbn in He;
          destruct (Vdb _ _ _ Eovd Eov) as [Hf'|Hf']; congruence.
      + destruct (IHo ka kb) as [Sab Tab].
        { exists ca. auto. }
        { intros o' Ho'. apply Hsub. right. exact Ho'. }
        { exact Hf. }
        split; [exact Sab|]. intros o' ov' [<-|Hin] Eov; [|eauto].
        destruct Sab as (Mab & _).
        destruct (mark_var_bwd _ _ _ _ _ Mab Eov) as (ov & Eov0 & _). congruence. }
  destruct (Houter (c_outputs c) k3 k') as [S3 T3].
  { exists c3. auto. }
  { auto. }
  { exact H. }
  pose proof S3 as (M3 & V3 & A3 & B3).
  assert (S1 : spread t k1 k').
  { split; [eapply mark_step_trans; eauto|]. split; [|split].
    - intros x v v' E E'. apply (V3 x v v'); [rewrite HV3; exact E|exact E'].
    - intros p P P' E E' Hne o ov' Hin Eo. destruct (decide (p = comp)) as [->|Hnp].
      + assert (P = c) by congruence. subst P. eapply T3; eauto.
      + refine (A3 p P P' _ E' Hne o ov' Hin Eo). rewrite Hoth3 by exact Hnp. exact E.
    - intros x v v' E E'. apply (B3 x v v'); [rewrite HV3; exact E|exact E']. }
  split; [eapply spread_trans; eauto|].
  intros c' Ec'. destruct (mark_comp_bwd _ _ _ _ _ M3 Ec') as (c3' & E3' & _ & _ & A).
  assert (c3' = c3) by congruence. subst c3'. destruct A as [A|[A1 A2]]; lia.
Qed.

(** [_propagateCauseAtDownward] keeps INV-C2.  From a state in which
    [assertInvariantC2] passes for every computation, and the graph's back
    references are in place, the call returns a state in which it passes
    again for every computation, whatever the arguments; and the computation
    it was called on ends with a [cause_at] of at least [newCauseAt]. *)
Theorem propagateCauseAtDownward_keeps_INV_C2
    (comp : cref) (newCauseAt : Z) (sourceVariable : option vref) (isNewDirty : bool)
    (k : Kernel) :
  holdsInvC2 k -> backReferences k ->
  exists k',
    _propagateCauseAtDownward comp newCauseAt sourceVariable isNewDirty k = Some k' /\
    holdsInvC2 k' /\
    (forall c', k_comps k' !! comp = Some c' -> newCauseAt <= c_cause_at c').
Proof.
  intros Hinv [Hdep Hprod].
  destruct (propagateCauseAtDownward_total comp newCauseAt sourceVariable isNewDirty k)
    as (k' & E).
  exists k'. split; [exact E|].
  destruct (propagateCauseAtDownward_spread _ _ _ _ _ _ _ E) as [(M & V & A & B) T].
  split; [|exact T].
  intros r c' Ec'. apply assertInvariantC2_spec.
  destruct (mark_comp_bwd _ _ _ _ _ M Ec') as (c & Ec & Ho & Hi & Hc).
  pose proof (proj1 (assertInvariantC2_spec c k) (Hinv r c Ec)) as [I1 I2].
  split.
  - intros i vi' Hin Ei'. rewrite Hi in Hin.
    destruct (mark_var_bwd _ _ _ _ _ M Ei') as (vi & Ei & _).
    specialize (I1 i vi Hin Ei).
    destruct (Z.eq_dec (v_cause_at vi') (v_cause_at vi)) as [He|Hne].
    + destruct Hc as [Hc|[Hc1 Hc2]]; lia.
    + destruct (B i vi vi' Ei Ei' Hne) as [D _].
      specialize (D r c' (Hdep r c i vi Ec Hin Ei) Ec').
      destruct (V i vi vi' Ei Ei'); [contradiction|lia].
  - intros o ov' Hin Eo'. rewrite Ho in Hin.
    destruct (mark_var_bwd _ _ _ _ _ M Eo') as (ov & Eo & _).
    specialize (I2 o ov Hin Eo).
    destruct (Z.eq_dec (c_cause_at c') (c_cause_at c)) as [He|Hne].
    + destruct (Z.eq_dec (v_cause_at ov') (v_cause_at ov)) as [Hv|Hnv]; [congruence|].
      destruct (B o.2 ov ov' Eo Eo' Hnv) as [_ (p & P' & o2 & Ep' & Hin2 & Hx & Hcp)].
      destruct (mark_comp_bwd _ _ _ _ _ M Ep') as (P & Ep & HoP & _ & _).
      rewrite HoP in Hin2. rewrite <- Hx in Eo.
      pose proof (Hprod p P o2 ov Ep Hin2 Eo) as Hp1.
      rewrite Hx in Eo. pose proof (Hprod r c o ov Ec Hin Eo) as Hp2.
      assert (p = r) by congruence. subst p.
      assert (P' = c') by congruence. subst P'.
      destruct (V o.2 ov ov' Eo Eo'); [contradiction|congruence].
    + rewrite (A r c c' Ec Ec' Hne o ov' Hin Eo').
      destruct Hc as [Hc|[Hc1 Hc2]]; [contradiction|congruence].
Qed.

Lemma propagateCauseAtDownward_keeps_INV_C2_witness :
  exists k',
    _propagateCauseAtDownward 0%nat 10 None false diamondKernel = Some k' /\
    holdsInvC2 k' /\
    (forall c', k_comps k' !! 0%nat = Some c' -> 10 <= c_cause_at c').
Proof.
  apply (propagateCauseAtDownward_keeps_INV_C2 0%nat 10 None false diamondKernel).
  - apply holdsInvC2_check. vm_compute. reflexivity.
  - apply backReferences_check. vm_compute. reflexivity.
Defined.

(** ** Dynamic dependency attachment (module_execution.ts) *)

Lemma trackVariableAccess_unfold fuel comp variable task k c v :
  k_comps k !! comp = Some c -> k_vars k !! variable = Some v ->
  ~ In variable (c_runtimeInputs c) ->
  (forall t, k_tasks k !! task = Some t -> rt_aborted t = false) ->
  set_has_str (v_id v) (c_staticInputs c) = true ->
  trackVariableAccess fuel comp variable task k =
    ((fun k =>
        match k_comps k !! comp with
        | Some c' =>
            if c_observeCount c' >? 0
            then _propagateObserveCountUpward fuel variable (c_observeCount c') k
            else Ok tt k
        | None => Ok tt k
        end) ;;
     liftO (fun k =>
        match k_vars k !! variable, k_comps k !! comp with
        | Some v', Some c' =>
            if v_cause_at v' >? c_cause_at c'
            then _propagateCauseAtDownward comp (v_cause_at v') (Some variable) false k
            else Some k
        | _, _ => Some k
        end) ;;
     modify (fun k =>
        match k_vars k !! variable, k_comps k !! comp with
        | Some v', Some c' =>
            if v_dirty v'
            then set_dirtyInputCount comp (c_dirtyInputCount c' + 1) k
            else k
        | _, _ => k
        end)) (attachDependency comp variable k).
Proof.
  intros Ec Ev Hnin Htask Hst.
  unfold trackVariableAccess, bind at 1 2, gets. rewrite Ec, Ev.
  assert (Hex : existsb (Nat.eqb variable) (c_runtimeInputs c) = false).
  { destruct (existsb _ _) eqn:E; [|reflexivity]. apply existsb_eqb_In in E. contradiction. }
  rewrite Hex, Hst. cbn [negb].
  assert (Hab : checkAbortSignal task k = Ok tt k).
  { unfold checkAbortSignal. destruct (k_tasks k !! task) as [t|] eqn:Et; [|reflexivity].
    rewrite (Htask t eq_refl). reflexivity. }
  unfold bind at 1. rewrite Hab.
  unfold bind at 1. unfold modify at 1.
  unfold bind at 1. unfold modify at 1.
  unfold bind at 1. unfold modify at 1.
  reflexivity.
Qed.

(** A first access of a running body, whose task has not been aborted, to
    a variable that is not yet a runtime input.  When the variable is not a
    declared input the access throws and attaches nothing.  When it is, and
    the upstream of the variable is acyclic, the access returns with the
    variable added to the runtime inputs and the computation added to the
    variable's dependents, no other edge of the graph touched, and the
    computation's [cause_at] no smaller than the variable's. *)
Theorem trackVariableAccess_attaches_declared_input
    (rank : vref -> nat) (fuel : nat) (comp : cref) (variable : vref) (task : nat)
    (k : Kernel) (c : Comp) (v : Var) :
  k_comps k !! comp = Some c -> k_vars k !! variable = Some v ->
  ~ In variable (c_runtimeInputs c) ->
  (forall t, k_tasks k !! task = Some t -> rt_aborted t = false) ->
  upwardRank rank (attachDependency comp variable k) -> (rank variable < fuel)%nat ->
  if set_has_str (v_id v) (c_staticInputs c) then
    exists k',
      trackVariableAccess fuel comp variable task k = Ok tt k' /\
      (exists c' v',
         k_comps k' !! comp = Some c' /\ k_vars k' !! variable = Some v' /\
         c_runtimeInputs c' = c_runtimeInputs c ++ [variable] /\
         v_dependents v' = set_add_nat comp (v_dependents v) /\
         v_cause_at v' <= c_cause_at c') /\
      (forall r cr, r <> comp -> k_comps k !! r = Some cr ->
         exists cr', k_comps k' !! r = Some cr' /\ c_runtimeInputs cr' = c_runtimeInputs cr) /\
      (forall x vx, x <> variable -> k_vars k !! x = Some vx ->
         exists vx', k_vars k' !! x = Some vx' /\ v_dependents vx' = v_dependents vx)
  else
    trackVariableAccess fuel comp variable task k =
      Throw (JsError ("Variable " +:+ v_id v +:+ " not in staticInputs of " +:+ c_id c)) k.
Proof.
  intros Ec Ev Hnin Htask Hrk Hf.
  assert (Hex : existsb (Nat.eqb variable) (c_runtimeInputs c) = false).
  { destruct (existsb _ _) eqn:E; [|reflexivity]. apply existsb_eqb_In in E. contradiction. }
  destruct (set_has_str (v_id v) (c_staticInputs c)) eqn:Hst.
  2:{ unfold trackVariableAccess, bind at 1 2, gets. rewrite Ec, Ev, Hex, Hst. cbn [negb].
      unfold bind, checkAbortSignal. destruct (k_tasks k !! task) as [t|] eqn:Et; [|reflexivity].
      rewrite (Htask t eq_refl). reflexivity. }
  rewrite (trackVariableAccess_unfold fuel comp variable task k c v Ec Ev Hnin Htask Hst).
  set (ka := attachDependency comp variable k) in *.
  set (ca := set_c_runtimeInputs (set_add_nat variable (c_runtimeInputs c)) c).
  set (va := set_v_dependents (set_add_nat comp (v_dependents v)) v).
  assert (Eca : k_comps ka !! comp = Some ca).
  { subst ka. rewrite attachDependency_comps, lookup_alter_eq, Ec. reflexivity. }
  assert (Eva : k_vars ka !! variable = Some va).
  { subst ka. rewrite attachDependency_vars, lookup_alter_eq, Ev. reflexivity. }
  (* 2. upward *)
  assert (Hup : exists k2,
             (match k_comps ka !! comp with
              | Some c' =>
                  if c_observeCount c' >? 0
                  then _propagateObserveCountUpward fuel variable (c_observeCount c') ka
                  else Ok tt ka
              | None => Ok tt ka
              end) = Ok tt k2 /\ dyn_step ka k2).
  { rewrite Eca. destruct (Z.gtb_spec (c_observeCount ca) 0) as [Hpos|_].
    - destruct (propagateObserveCountUpward_terminates rank fuel variable
                  (c_observeCount ca) ka Hrk Hf) as (k2 & E2).
      exists k2. unfold _propagateObserveCountUpward, liftO. rewrite E2.
      split; [reflexivity|].
      destruct (propagateObserveCountUpward_linear fuel variable (c_observeCount ca) ka k2)
        as (nv & nc & (D & _) & _); [lia|exact E2|exact D].
    - exists ka. split; [reflexivity|apply dyn_step_refl]. }
  destruct Hup as (k2 & E2 & D2).
  unfold bind at 1. rewrite E2.
  destruct (dyn_step_comp _ _ _ _ D2 Eca) as (c2 & Ec2 & Hc2).
  destruct (dyn_step_var _ _ _ _ D2 Eva) as (v2 & Ev2 & Hv2).
  (* 3. downward *)
  assert (Hdown : exists k3,
             (match k_vars k2 !! variable, k_comps k2 !! comp with
              | Some v', Some c' =>
                  if v_cause_at v' >? c_cause_at c'
                  then _propagateCauseAtDownward comp (v_cause_at v') (Some variable) false k2
                  else Some k2
              | _, _ => Some k2
              end) = Some k3 /\ dyn_step k2 k3 /\
             exists c3 v3, k_comps k3 !! comp = Some c3 /\ k_vars k3 !! variable = Some v3 /\
                           v_cause_at v3 <= c_cause_at c3).
  { rewrite Ev2, Ec2. destruct (Z.gtb_spec (v_cause_at v2) (c_cause_at c2)) as [Hgt|Hle].
    - destruct (propagateCauseAtDownward_total comp (v_cause_at v2) (Some variable) false k2)
        as (k3 & E3).
      exists k3. split; [exact E3|].
      pose proof (propagateCauseAtDownward_dyn _ _ _ _ _ _ _ E3) as D3.
      split; [exact D3|].
      destruct (propagateCauseAtDownward_spread _ _ _ _ _ _ _ E3) as [(_ & V & _) T].
      destruct (dyn_step_comp _ _ _ _ D3 Ec2) as (c3 & Ec3 & _).
      destruct (dyn_step_var _ _ _ _ D3 Ev2) as (v3 & Ev3 & _).
      exists c3, v3. split; [exact Ec3|]. split; [exact Ev3|].
      specialize (T c3 Ec3). destruct (V _ _ _ Ev2 Ev3); lia.
    - exists k2. split; [reflexivity|]. split; [apply dyn_step_refl|].
      exists c2, v2. auto. }
  destruct Hdown as (k3 & E3 & D3 & c3 & v3 & Ec3 & Ev3 & Hle3).
  unfold bind at 1. unfold liftO. rewrite E3.
  (* 4. the counter *)
  set (k4 := match k_vars k3 !! variable, k_comps k3 !! comp with
             | Some v', Some c' =>
                 if v_dirty v'
                 then set_dirtyInputCount comp (c_dirtyInputCount c' + 1) k3
                 else k3
             | _, _ => k3
             end).
  assert (D4 : dyn_step k3 k4 /\ k_vars k4 = k_vars k3 /\ causeMap k4 = causeMap k3).
  { unfold k4. rewrite Ev3, Ec3. destruct (v_dirty v3).
    - split; [apply set_dirtyInputCount_dyn|].
      split; [apply set_dirtyInputCount_vars|apply set_dirtyInputCount_causeMap].
    - split; [apply dyn_step_refl|auto]. }
  destruct D4 as (D4 & HV4 & HC4).
  exists k4. split; [reflexivity|].
  assert (Da : dyn_step ka k4).
  { eapply dyn_step_trans; [exact D2|]. eapply dyn_step_trans; [exact D3|exact D4]. }
  split; [|split].
  - destruct (dyn_step_comp _ _ _ _ Da Eca) as (c4 & Ec4 & Hc4).
    destruct (dyn_step_var _ _ _ _ Da Eva) as (v4 & Ev4 & Hv4).
    exists c4, v4. split; [exact Ec4|]. split; [exact Ev4|]. split; [|split].
    + rewrite (cdyn_runtimeInputs _ _ Hc4). unfold ca. cbn. unfold set_add_nat.
      rewrite Hex. reflexivity.
    + rewrite (vdyn_dependents _ _ Hv4). reflexivity.
    + assert (Hv43 : v4 = v3) by (rewrite HV4 in Ev4; congruence). subst v4.
      assert (Hc43 : causeMap k4 !! comp = causeMap k3 !! comp) by (rewrite HC4; reflexivity).
      unfold causeMap in Hc43. rewrite !lookup_fmap, Ec4, Ec3 in Hc43. cbn in Hc43.
      injection Hc43 as ->. exact Hle3.
  - intros r cr Hne Er.
    assert (Era : k_comps ka !! r = Some cr).
    { subst ka. rewrite attachDependency_comps, lookup_alter_ne by congruence. exact Er. }
    destruct (dyn_step_comp _ _ _ _ Da Era) as (cr' & Er' & Hcr).
    exists cr'. split; [exact Er'|]. apply (cdyn_runtimeInputs _ _ Hcr).
  - intros x vx Hne Ex.
    assert (Exa : k_vars ka !! x = Some vx).
    { subst ka. rewrite attachDependency_vars, lookup_alter_ne by congruence. exact Ex. }
    destruct (dyn_step_var _ _ _ _ Da Exa) as (vx' & Ex' & Hvx).
    exists vx'. split; [exact Ex'|]. apply (vdyn_dependents _ _ Hvx).
Qed.

Lemma trackVariableAccess_attaches_declared_input_witness :
  exists k',
    trackVariableAccess 8 0%nat 1%nat 2%nat dynamicAccessKernel = Ok tt k' /\
    (exists c' v',
       k_comps k' !! 0%nat = Some c' /\ k_vars k' !! 1%nat = Some v' /\
       c_runtimeInputs c' = c_runtimeInputs dynamicAccessComp ++ [1%nat] /\
       v_dependents v' = set_add_nat 0%nat (v_dependents (getV dynamicAccessKernel 1)) /\
       v_cause_at v' <= c_cause_at c') /\
    (forall r cr, r <> 0%nat -> k_comps dynamicAccessKernel !! r = Some cr ->
       exists cr', k_comps k' !! r = Some cr' /\ c_runtimeInputs cr' = c_runtimeInputs cr) /\
    (forall x vx, x <> 1%nat -> k_vars dynamicAccessKernel !! x = Some vx ->
       exists vx', k_vars k' !! x = Some vx' /\ v_dependents vx' = v_dependents vx).
Proof.
  apply (trackVariableAccess_attaches_declared_input (fun r => r) 8 0%nat 1%nat 2%nat
           dynamicAccessKernel dynamicAccessComp (getV dynamicAccessKernel 1)).
  - vm_compute. reflexivity.
  - vm_compute. reflexivity.
  - vm_compute. intros [H|[]]. discriminate H.
  - intros t E. vm_compute in E. injection E as <-. reflexivity.
  - apply upwardRank_check. vm_compute. reflexivity.
  - lia.
Defined.

(** ** Pruning of unread inputs after a run (module_execution.ts) *)

(** The body of the [toRemove.forEach] of [cleanUnusedInputs]. *)
Definition detachInput (fuel : nat) (comp : cref) (input : vref) : M unit :=
  modify (updC comp (fun c => set_c_runtimeInputs
                                (set_delete_nat input (c_runtimeInputs c)) c)) ;;
  modify (updV input (fun v => set_v_dependents
                                 (set_delete_nat comp (v_dependents v)) v)) ;;
  (fun k =>
     match k_comps k !! comp with
     | Some c' =>
         if c_observeCount c' >? 0
         then _propagateObserveCountUpward fuel input (- c_observeCount c') k
         else Ok tt k
     | None => Ok tt k
     end) ;;
  modify (fun k =>
     match k_vars k !! input, k_comps k !! comp with
     | Some v, Some c' =>
         if v_dirty v && isSome (v_producer v)
         then set_dirtyInputCount comp (c_dirtyInputCount c' - 1) k
         else k
     | _, _ => k
     end).

Lemma cleanUnusedInputs_unfold fuel comp accessedVariables k :
  cleanUnusedInputs fuel comp accessedVariables k =
  match k_comps k !! comp with
  | None => Ok tt k
  | Some c =>
      forM (detachInput fuel comp)
           (List.filter (fun input => negb (existsb (Nat.eqb input) accessedVariables))
                        (c_runtimeInputs c)) k
  end.
Proof. reflexivity. Qed.

Definition keptInputs (rm : list vref) (l : list vref) : list vref :=
  List.filter (fun y => negb (existsb (Nat.eqb y) rm)) l.

(** [k'] is [k] with the inputs [rm] detached from [comp], in both
    directions, and no other edge changed. *)
Definition pruned (comp : cref) (rm : list vref) (k k' : Kernel) : Prop :=
  (forall r, option_Forall2
               (fun cr cr' => c_runtimeInputs cr' =
                              if Nat.eqb r comp then keptInputs rm (c_runtimeInputs cr)
                              else c_runtimeInputs cr)
               (k_comps k !! r) (k_comps k' !! r)) /\
  (forall x, option_Forall2
               (fun vx vx' => v_producer vx' = v_producer vx /\
                              v_dependents vx' =
                              if existsb (Nat.eqb x) rm
                              then set_delete_nat comp (v_dependents vx)
                              else v_dependents vx)
               (k_vars k !! x) (k_vars k' !! x)).

Lemma keptInputs_nil l : keptInputs [] l = l.
Proof.
  unfold keptInputs. induction l as [|a l IH]; cbn in *; [reflexivity|].
  rewrite IH. reflexivity.
Qed.

Lemma keptInputs_snoc rm i l :
  keptInputs (rm ++ [i]) l = set_delete_nat i (keptInputs rm l).
Proof.
  unfold keptInputs, set_delete_nat. induction l as [|a l IH]; [reflexivity|].
  cbn [List.filter]. rewrite existsb_app. cbn [existsb]. rewrite orb_false_r.
  rewrite (Nat.eqb_sym a i).
  destruct (existsb (Nat.eqb a) rm); cbn [negb orb].
  - exact IH.
  - cbn [List.filter]. destruct (Nat.eqb i a); cbn [negb]; rewrite IH; reflexivity.
Qed.

Lemma set_delete_nat_idem a l : set_delete_nat a (set_delete_nat a l) = set_delete_nat a l.
Proof.
  unfold set_delete_nat. induction l as [|b l IH]; [reflexivity|].
  cbn [List.filter]. destruct (negb (Nat.eqb a b)) eqn:E; [|exact IH].
  cbn [List.filter]. rewrite E, IH. reflexivity.
Qed.

Lemma pruned_refl comp k : pruned comp [] k k.
Proof.
  split.
  - intros r. destruct (k_comps k !! r); constructor.
    rewrite keptInputs_nil. destruct (Nat.eqb r comp); reflexivity.
  - intros x. destruct (k_vars k !! x); constructor. split; reflexivity.
Qed.

Lemma pruned_dyn comp rm k k1 k2 :
  pruned comp rm k k1 -> dyn_step k1 k2 -> pruned comp rm k k2.
Proof.
  intros [HC HV] (_ & DV & DC). split.
  - intros r. specialize (HC r). specialize (DC r).
    destruct HC as [cr cr1 H|]; inversion DC as [a cr2 Hd|]; subst; constructor.
    rewrite (cdyn_runtimeInputs _ _ Hd). exact H.
  - intros x. specialize (HV x). specialize (DV x).
    destruct HV as [vx vx1 [H1 H2]|]; inversion DV as [a vx2 Hd|]; subst; constructor.
    rewrite (vdyn_producer _ _ Hd), (vdyn_dependents _ _ Hd). auto.
Qed.

Lemma pruned_detach comp rm i k k1 :
  pruned comp rm k k1 ->
  pruned comp (rm ++ [i]) k
    (updV i (fun v => set_v_dependents (set_delete_nat comp (v_dependents v)) v)
       (updC comp (fun c => set_c_runtimeInputs (set_delete_nat i (c_runtimeInputs c)) c) k1)).
Proof.
  intros [HC HV]. split.
  - intros r. change (k_comps (updV ?x ?f ?k0)) with (k_comps k0). rewrite k_comps_updC.
    specialize (HC r). destruct (decide (r = comp)) as [He|Hne].
    + subst r. rewrite Nat.eqb_refl in *. rewrite lookup_alter_eq.
      destruct HC as [cr cr1 H|]; constructor.
      cbn. rewrite H, keptInputs_snoc. reflexivity.
    + rewrite lookup_alter_ne by congruence.
      destruct (Nat.eqb_spec r comp) as [|_]; [contradiction|]. exact HC.
  - intros x. rewrite k_vars_updV. change (k_vars (updC ?r ?f ?k0)) with (k_vars k0).
    specialize (HV x). rewrite existsb_app. cbn [existsb]. rewrite orb_false_r.
    destruct (decide (x = i)) as [He|Hne].
    + subst x. rewrite Nat.eqb_refl, lookup_alter_eq, orb_true_r.
      destruct HV as [vx vx1 [H1 H2]|]; constructor.
      cbn. split; [exact H1|]. rewrite H2.
      destruct (existsb (Nat.eqb i) rm); [apply set_delete_nat_idem|reflexivity].
    + destruct (Nat.eqb_spec x i) as [|_]; [contradiction|].
      rewrite lookup_alter_ne, orb_false_r by congruence. exact HV.
Qed.

Lemma keptInputs_In rm l i : In i (keptInputs rm l) -> In i l.
Proof. unfold keptInputs. intros H. apply filter_In in H. tauto. Qed.

Lemma pruned_upwardRank rank comp rm k k' :
  pruned comp rm k k' -> upwardRank rank k -> upwardRank rank k'.
Proof.
  intros [HC HV] H x v' p P' i Ev Ep EP Hin.
  specialize (HV x). rewrite Ev in HV. inversion HV as [v a [H1 H2] Ea|]. subst a.
  specialize (HC p). rewrite EP in HC. inversion HC as [P a H3 Ea'|]. subst a.
  apply (H x v p P i); [congruence|congruence|congruence|].
  rewrite H3 in Hin. destruct (Nat.eqb p comp); [eapply keptInputs_In|]; exact Hin.
Qed.

Lemma detachInput_pruned rank fuel comp rm i k0 kx :
  pruned comp rm k0 kx -> upwardRank rank k0 -> (rank i < fuel)%nat ->
  exists ky, detachInput fuel comp i kx = Ok tt ky /\ pruned comp (rm ++ [i]) k0 ky.
Proof.
  intros Hp Hr Hf. pose proof (pruned_detach comp rm i k0 kx Hp) as Hb.
  unfold detachInput. unfold bind at 1. unfold modify at 1.
  unfold bind at 1. unfold modify at 1.
  set (kb := updV i _ (updC comp _ kx)) in *.
  assert (Hup : exists kc,
             (match k_comps kb !! comp with
              | Some c' =>
                  if c_observeCount c' >? 0
                  then _propagateObserveCountUpward fuel i (- c_observeCount c') kb
                  else Ok tt kb
              | None => Ok tt kb
              end) = Ok tt kc /\ dyn_step kb kc).
  { destruct (k_comps kb !! comp) as [c'|]; [|exists kb; split; [reflexivity|apply dyn_step_refl]].
    destruct (Z.gtb_spec (c_observeCount c') 0) as [Hpos|_];
      [|exists kb; split; [reflexivity|apply dyn_step_refl]].
    destruct (propagateObserveCountUpward_terminates rank fuel i (- c_observeCount c') kb)
      as (kc & Ec); [eapply pruned_upwardRank; eauto|exact Hf|].
    exists kc. unfold _propagateObserveCountUpward, liftO. rewrite Ec.
    split; [reflexivity|].
    destruct (propagateObserveCountUpward_linear fuel i (- c_observeCount c') kb kc)
      as (nv & nc & (D & _) & _); [lia|exact Ec|exact D]. }
  destruct Hup as (kc & Ec & Dc).
  unfold bind at 1. rewrite Ec. unfold modify.
  eexists. split; [reflexivity|].
  eapply pruned_dyn; [eapply pruned_dyn; [exact Hb|exact Dc]|].
  destruct (k_vars kc !! i) as [v|]; [|apply dyn_step_refl].
  destruct (k_comps kc !! comp) as [c'|]; [|apply dyn_step_refl].
  destruct (_ && _); [apply set_dirtyInputCount_dyn|apply dyn_step_refl].
Qed.

Lemma detachInput_loop rank fuel comp k0 :
  upwardRank rank k0 ->
  forall l rm kx,
    pruned comp rm k0 kx -> (forall i, In i l -> (rank i < fuel)%nat) ->
    exists k', forM (detachInput fuel comp) l kx = Ok tt k' /\ pruned comp (rm ++ l) k0 k'.
Proof.
  intros Hr. induction l as [|i l IH]; intros rm kx Hp Hf.
  - exists kx. rewrite app_nil_r. split; [reflexivity|exact Hp].
  - destruct (detachInput_pruned rank fuel comp rm i k0 kx Hp Hr) as (ky & Ey & Hy).
    { apply Hf. left. reflexivity. }
    destruct (IH (rm ++ [i]) ky Hy) as (k' & E' & H').
    { intros j Hj. apply Hf. right. exact Hj. }
    exists k'. cbn [forM]. unfold bind. rewrite Ey.
    rewrite <- app_assoc in H'. split; [exact E'|exact H'].
Qed.

Lemma existsb_eqb_filter x (f : nat -> bool) l :
  existsb (Nat.eqb x) (List.filter f l) = existsb (Nat.eqb x) l && f x.
Proof.
  induction l as [|a l IH]; [reflexivity|]. cbn [List.filter existsb].
  destruct (f a) eqn:Ea; cbn [existsb]; rewrite IH.
  - destruct (Nat.eqb_spec x a) as [He|Hne]; [|reflexivity].
    subst a. rewrite Ea. destruct (existsb (Nat.eqb x) l); reflexivity.
  - destruct (Nat.eqb_spec x a) as [He|Hne]; [|reflexivity].
    subst a. rewrite Ea. cbn. rewrite andb_false_r. reflexivity.
Qed.

Lemma keptInputs_unread (accessed l : list vref) :
  keptInputs (List.filter (fun input => negb (existsb (Nat.eqb input) accessed)) l) l =
  List.filter (fun i => existsb (Nat.eqb i) accessed) l.
Proof.
  unfold keptInputs. apply filter_ext_in. intros a Ha.
  rewrite existsb_eqb_filter. apply existsb_eqb_In in Ha. rewrite Ha. cbn.
  apply negb_involutive.
Qed.

(** [cleanUnusedInputs] detaches exactly the runtime inputs the body did
    not read.  With an acyclic upstream it returns; the computation keeps,
    in order, the runtime inputs that were accessed; each input that was not
    loses the computation from its dependents; and no other edge of the
    graph changes. *)
Theorem cleanUnusedInputs_detaches_unread_inputs
    (rank : vref -> nat) (fuel : nat) (comp : cref) (accessedVariables : list vref)
    (k : Kernel) (c : Comp) :
  k_comps k !! comp = Some c ->
  upwardRank rank k ->
  (forall i, In i (c_runtimeInputs c) -> (rank i < fuel)%nat) ->
  exists k',
    cleanUnusedInputs fuel comp accessedVariables k = Ok tt k' /\
    (exists c', k_comps k' !! comp = Some c' /\
                c_runtimeInputs c' =
                List.filter (fun i => existsb (Nat.eqb i) accessedVariables)
                            (c_runtimeInputs c)) /\
    (forall r cr, r <> comp -> k_comps k !! r = Some cr ->
       exists cr', k_comps k' !! r = Some cr' /\ c_runtimeInputs cr' = c_runtimeInputs cr) /\
    (forall x vx, k_vars k !! x = Some vx ->
       exists vx', k_vars k' !! x = Some vx' /\
                   v_dependents vx' =
                   if existsb (Nat.eqb x) (c_runtimeInputs c) &&
                      negb (existsb (Nat.eqb x) accessedVariables)
                   then set_delete_nat comp (v_dependents vx)
                   else v_dependents vx).
Proof.
  intros Ec Hr Hf. rewrite cleanUnusedInputs_unfold, Ec.
  set (toRemove := List.filter (fun input => negb (existsb (Nat.eqb input) accessedVariables))
                               (c_runtimeInputs c)).
  destruct (detachInput_loop rank fuel comp k Hr toRemove [] k (pruned_refl comp k))
    as (k' & E' & [HC HV]).
  { intros i Hi. apply Hf. unfold toRemove in Hi. apply filter_In in Hi. tauto. }
  exists k'. split; [exact E'|]. cbn [app] in HC, HV. split; [|split].
  - specialize (HC comp). rewrite Ec, Nat.eqb_refl in HC.
    inversion HC as [a c' H Ea Ec'|]. subst a. exists c'. split; [reflexivity|].
    rewrite H. apply keptInputs_unread.
  - intros r cr Hne Er. specialize (HC r). rewrite Er in HC.
    destruct (Nat.eqb_spec r comp); [contradiction|].
    inversion HC as [a cr' H Ea Ec'|]. subst a. exists cr'. split; [reflexivity|exact H].
  - intros x vx Ex. specialize (HV x). rewrite Ex in HV.
    inversion HV as [a vx' [_ H] Ea Ev'|]. subst a. exists vx'. split; [reflexivity|].
    rewrite H. unfold toRemove. rewrite existsb_eqb_filter. reflexivity.
Qed.

(** [Z] after its second run has read [b] as well. *)
Definition bothInputsKernel : Kernel :=
  finalState (trackVariableAccess 8 0%nat 1%nat 2%nat dynamicAccessKernel) dynamicAccessKernel.

Definition bothInputsComp : Comp := Eval vm_compute in getC bothInputsKernel 0.

Lemma cleanUnusedInputs_detaches_unread_inputs_witness :
  exists k',
    cleanUnusedInputs 8 0%nat [1%nat] bothInputsKernel = Ok tt k' /\
    (exists c', k_comps k' !! 0%nat = Some c' /\
                c_runtimeInputs c' =
                List.filter (fun i => existsb (Nat.eqb i) [1%nat])
                            (c_runtimeInputs bothInputsComp)) /\
    (forall r cr, r <> 0%nat -> k_comps bothInputsKernel !! r = Some cr ->
       exists cr', k_comps k' !! r = Some cr' /\ c_runtimeInputs cr' = c_runtimeInputs cr) /\
    (forall x vx, k_vars bothInputsKernel !! x = Some vx ->
       exists vx', k_vars k' !! x = Some vx' /\
                   v_dependents vx' =
                   if existsb (Nat.eqb x) (c_runtimeInputs bothInputsComp) &&
                      negb (existsb (Nat.eqb x) [1%nat])
                   then set_delete_nat 0%nat (v_dependents vx)
                   else v_dependents vx).
Proof.
  apply (cleanUnusedInputs_detaches_unread_inputs (fun r => r) 8 0%nat [1%nat]
           bothInputsKernel bothInputsComp).
  - vm_compute. reflexivity.
  - apply upwardRank_check. vm_compute. reflexivity.
  - intros i Hi. vm_compute in Hi. destruct Hi as [<-|[<-|[]]]; lia.
Defined.
